(* ===== verification/_CoqProject ===== *)
-Q . S2P
Prelude.v
LimlzPack.v
LimlzUnpack.v
LimlzMatch.v
LimlzParse.v
Limlz.v
Pmm.v
PmmSanitise.v
PmmAlloc.v
PmmInfo.v
PmmUse.v
Elsewhere.v
ElsewhereProofs.v
Os.v
Djb.v
DjbProofs.v
Runsv.v
RunsvProofs.v
Sv.v
Vmm.v
VmmWalk.v
VmmMap.v
VmmSplit.v
VmmProofs.v
VmmBits.v
VmmX86.v
VmmPmm.v
VmmRiscV.v
VmmAArch64.v
VmmLoongArch.v
Blake2b.v
Libc.v
LibcProofs.v
Outcome.v
Config.v
ConfigClean.v
ConfigSafe.v
ConfigValue.v
ConfigMenu.v
ConfigLoad.v
Volume.v
VolumeProofs.v
Part.v
PartProofs.v
Reader.v
Fat.v
FatChain.v
FatDir.v
FatProofs.v
Iso9660.v
IsoSafe.v
IsoTree.v
IsoNames.v
IsoProofs.v
File.v
Elf.v
ElfTables.v
ElfReloc.v
ElfImage.v
ElfProofs.v
ElfMore.v
ElfTheorems.v
