(* ===== verification/Prelude.v ===== *)
(** AQJ OS: the boot loader and the process supervisor of the distribution.

    The repository builds a Linux distribution from two programs in C that
    carry its logic: the boot loader limine ([src/limine]) and the service
    supervision suite runit ([src/runit]).  The rest is configuration and
    scripts.  This library models parts of both as functions that compute, and
    proves what those parts are for.

    * How the parts interact

    The boot loader's second stage is kept compressed: [limlzpack] packs it
    when the loader is built and the first stage unpacks it, checks its CRC and
    enters it.  The loader then sanitises the firmware's memory map and takes
    all its memory from it (pmm).  It reads disks in blocks (part), finds their
    partitions and opens files on FAT and ISO 9660 volumes (fs).  It reads its
    configuration (config) from a file or from the firmware's tables, checks its
    BLAKE2b hash, expands its macros and makes the tree of the menu of it.  The
    kernel it starts is loaded and relocated (elf), or put together in ranges
    that are copied to their place at the last moment (elsewhere), and gets page
    tables (vmm) in pages of the memory manager.  Under the kernel, runsv
    supervises a service and its logger and writes the state of each to a
    status file, which sv reads, formats and waits on.

    * Files

    - Prelude.v: options and their postconditions ([returns]), arrays with
      bounds ([l.[i]] is [None] out of range), loops ([for_range], [loop] with
      fuel and a measure), machine words ([wrap], [u8]..[u64], [add64]), bytes.
      Outcome.v: computations that may panic or leave a buffer ([out], [safe]).
    - LimlzPack.v ([limine/tools/limlzpack.c]), LimlzUnpack.v
      ([limine/stage1/decompressor.asm]); proofs in LimlzMatch.v (suffix array and
      matches), LimlzParse.v (shortest parse), Limlz.v (the two together).
    - Pmm.v ([limine/common/mm/pmm.s2.c], [pmm.c]); proofs in PmmSanitise.v (the
      sanitiser), PmmAlloc.v (reservation and allocation), PmmInfo.v (queries),
      PmmUse.v (what a client relies on).
    - Elsewhere.v ([limine/common/lib/elsewhere.c] and the copying of
      [protos/multiboot_reloc.asm_x86]); proofs in ElsewhereProofs.v.
    - Vmm.v ([limine/common/mm/vmm.c], what the architectures share), over the
      record [arch] of the encoding of entries and the class [pt_memory] of the
      memory of tables with its laws; VmmX86.v, VmmRiscV.v, VmmAArch64.v, VmmLoongArch.v
      (the four encodings); VmmPmm.v (the laws hold of the pages of Pmm.v);
      proofs in VmmWalk.v (the processor's walk), VmmMap.v, VmmSplit.v,
      VmmProofs.v, VmmBits.v.
    - Blake2b.v ([limine/common/crypt/blake2b.c]) with RFC 7693 as it is
      specified.
    - Libc.v ([limine/common/lib/libc.s2.c], [libc.c], [memory.s2.c], [misc.s2.c],
      [misc.c]); proofs in LibcProofs.v.
    - Config.v ([limine/common/lib/config.c]); proofs in ConfigClean.v (cleaning),
      ConfigSafe.v (macros stay in bounds), ConfigValue.v (values), ConfigMenu.v
      (the menu), ConfigLoad.v (the whole).
    - Volume.v (the cached reads of [limine/common/lib/part.s2.c]), Part.v (its
      partition tables); proofs in VolumeProofs.v, PartProofs.v.  Reader.v: the
      class [coherent] of what a file system may expect of the medium.
    - Fat.v ([limine/common/fs/fat32.s2.c]); proofs in FatChain.v (chains of
      clusters), FatDir.v (names), FatProofs.v (trees).  Iso9660.v
      ([iso9660.s2.c]); proofs in IsoSafe.v (bounds), IsoTree.v, IsoNames.v
      (Rock Ridge), IsoProofs.v.  File.v ([file.s2.c]) and the class [serves] of
      what it may expect of a file system.
    - Elf.v ([limine/common/lib/elf.c]) over the record [elf_arch] of what differs
      between the processors; proofs in ElfTables.v (reading), ElfReloc.v
      (collecting relocations), ElfImage.v (applying them), ElfProofs.v
      ([elf64_load]), ElfMore.v (sections, [load_elsewhere]), ElfTheorems.v.
    - Os.v: Unix for the runit programs, an oracle that answers system calls and
      a trace of them; Djb.v: their library ([runit/src/byte_*.c], [str_*.c],
      [fmt_*.c], [scan_ulong.c], [tai*.c], [buffer*.c]), proofs in DjbProofs.v;
      Runsv.v ([runit/src/runsv.c]), proofs in RunsvProofs.v; Sv.v
      ([runit/src/sv.c]).

    * How code is rendered

    A C function is a function on values; memory it shares is passed on.  An
    access outside an array, a value no word holds where that is an error and a
    call of [panic] are distinct outcomes: [None] where a file has only one of
    them, [Panic] and [Wild] of Outcome.v, [Panicked] in Vmm.v.  Words wrap where
    the C types do.  A function that reads a disk is a tree of the reads it makes
    ([rdr]), so that it can be run on any medium.  A loop that is not structural
    gets fuel that the length of its buffer bounds, or a measure; theorems say
    the fuel is enough, because the outcome of too little fuel is the outcome of
    a wild access or of none, which they exclude.  The recursion of
    [create_menu_tree] has fuel 65, one more than [MAX_MENU_NESTING]; that of
    [map_page] 2, as a page of 1 GiB is made of pages of 2 MiB at most once.

    * What the theorems show

    - Packing: the packed stage 2 is unpacked to itself with its CRC right
      ([limlz_roundtrip]); no shorter encoding uses the same matches
      ([limlzpack_optimal]); the suffix array is sorted in at most n + 1 passes
      ([saca_sorts]); the two CRC algorithms agree ([crc32_nibble_bits]).
    - Memory: the sanitised map refines what the firmware said
      ([pmm_sanitise_entries_correct]); reserving, allocating, freeing and
      reallocating do what they say, and no sequence of calls makes two live
      blocks overlap ([allocator_isolation]); the queries ([mmap_get_info_correct],
      [check_usable_memory_correct]).
    - Relocation: a target is free of all others and below 4 GiB
      ([elsewhere_append_correct]), and the copying leaves every range whole at
      its target ([relocation_correct]).
    - Page tables: on each architecture the walk of the processor leads every
      address of a mapped range to its physical address with its flags, and all
      others as before, large pages being split on the way.
    - Disks: cached reads are the bytes of the partition ([volume_read_correct]),
      probing finds the partitions whatever was probed before
      ([part_get_correct]); opening a path and reading give the bytes of the tree
      of files that is stored ([fat_tree_correct], [iso_tree_correct],
      [fopen_correct]); no medium makes them loop or leave a buffer
      ([fat_chain_correct], [iso_open_safe]); names ([fat_lookup_correct],
      [iso_names_correct]).
    - Executables: whatever a file holds, loading stays inside it, and what is
      loaded is its relocated image ([elf64_load_correct]); kernels for
      relocation ([elf_load_elsewhere_correct]), sections
      ([elf64_load_section_correct]), packed relocations ([relr_roundtrip]).
    - The hash is RFC 7693 whatever pieces a file is read in ([blake2b_correct]).
    - The C library: copies, comparisons, numbers, addresses, roots.
    - Configuration: no text leads outside a buffer or into an endless loop
      ([config_loading_safe]); cleaning is cleaning each line ([clean_correct]);
      a lookup finds the line ([config_get_value_correct]); the menu is the
      forest that was written ([menu_tree_correct]).
    - Supervision: runsv signals only its own living children
      ([runsv_signals_own_children]), starts what is wanted ([start_wanted_runs]),
      sends the signals a command asks for ([ctrl_signals]); sv reads what runsv
      wrote and reports an action done when it is ([sv_check_agrees]); their
      library.

    * What is not modelled

    The boot menu's screen, terminal and drivers, processor set-up, firmware
    services, boot protocols and PXE are calls into devices and firmware.  PE
    executables, resource paths and the host installer are not modelled yet,
    nor are runit's process 1, runsvdir and svlogd.  UEFI variants of the
    modelled files are left out: the BIOS build is the one modelled.  gzip and
    the terminal only drive libraries that are not in the repository. *)
From stdpp Require Export base tactics option list numbers sorting list_numbers.
From Stdlib Require Export ZArith Lia.
#[export] Set Default Goal Selector "!".
#[global] Open Scope Z_scope.

(** ** Automation shared by the components *)

Create HintDb csem.

(** ** Total correctness of partial computations

    The operations of the program are modelled as functions into [option]:
    [None] is a call of [panic] or a read or write outside an array.
    [returns m Q] says that [m] does not fail and that its value meets [Q]. *)

Definition returns {A} (m : option A) (Q : A → Prop) : Prop := ∃ a, m = Some a ∧ Q a.

Lemma returns_ret {A} (a : A) (Q : A → Prop) : Q a → returns (Some a) Q.
Proof. by exists a. Qed.

Lemma returns_bind {A B} (m : option A) (k : A → option B) (P : A → Prop) (Q : B → Prop) :
  returns m P → (∀ a, P a → returns (k a) Q) → returns (m ≫= k) Q.
Proof. intros (a & -> & HP) Hk. by apply Hk. Qed.

Lemma returns_weaken {A} (m : option A) (P Q : A → Prop) :
  returns m P → (∀ a, P a → Q a) → returns m Q.
Proof. intros (a & -> & HP) HQ. exists a; auto. Qed.

Lemma returns_Some {A} (m : option A) (a : A) (Q : A → Prop) :
  m = Some a → Q a → returns m Q.
Proof. intros -> ?. by exists a. Qed.

Lemma returns_inv {A} (m : option A) (Q : A → Prop) a :
  returns m Q → m = Some a → Q a.
Proof. intros (a' & -> & HQ) [= ->]. done. Qed.

Lemma bind_assoc_option {A B C} (m : option A) (f : A → option B) (g : B → option C) :
  (m ≫= f) ≫= g = m ≫= λ a, f a ≫= g.
Proof. by destruct m. Qed.

(** ** C arrays, indexed by [Z] *)

Definition len {A} (l : list A) : Z := Z.of_nat (length l).

Definition arr_get {A} (l : list A) (i : Z) : option A :=
  if decide (0 ≤ i) then l !! Z.to_nat i else None.

Definition arr_set {A} (l : list A) (i : Z) (x : A) : option (list A) :=
  if decide (0 ≤ i < len l) then Some (<[Z.to_nat i := x]> l) else None.

(** [slice l i n] is the [n] elements from index [i] on: the bytes a [memcpy]
    of [n] bytes from [l + i] reads; out of range it fails. *)
Definition slice {A} (l : list A) (i n : Z) : option (list A) :=
  if decide (0 ≤ i ∧ 0 ≤ n ∧ i + n ≤ len l)
  then Some (take (Z.to_nat n) (drop (Z.to_nat i) l)) else None.

Notation "l .[ i ]" := (arr_get l i) (at level 1, i at level 200, left associativity, format "l .[ i ]").
Notation "l .[ i <- x ]" := (arr_set l i x)
  (at level 1, i at level 200, x at level 200, left associativity, format "l .[ i  <-  x ]").

Section arrays.
Context {A : Type}.
Implicit Types (l : list A) (i j n : Z) (x : A).

Lemma len_nonneg l : 0 ≤ len l.
Proof. unfold len; lia. Qed.
Lemma len_nil : len (@nil A) = 0.
Proof. done. Qed.
Lemma len_cons x l : len (x :: l) = 1 + len l.
Proof. unfold len; simpl; lia. Qed.
Lemma len_app l k : len (l ++ k) = len l + len k.
Proof. unfold len; rewrite length_app; lia. Qed.
Lemma len_replicate (n : nat) x : len (replicate n x) = Z.of_nat n.
Proof. unfold len; by rewrite length_replicate. Qed.

Lemma arr_get_lookup l (k : nat) : l.[Z.of_nat k] = l !! k.
Proof. unfold arr_get. rewrite decide_True by lia. by rewrite Nat2Z.id. Qed.

Lemma arr_get_Some_lt l i x : l.[i] = Some x → 0 ≤ i < len l.
Proof.
  unfold arr_get, len. case_decide; [|done].
  intros Hl%lookup_lt_Some. lia.
Qed.

Lemma arr_get_lt l i : 0 ≤ i < len l → ∃ x, l.[i] = Some x.
Proof.
  unfold arr_get, len. intros. rewrite decide_True by lia.
  apply lookup_lt_is_Some_2. lia.
Qed.

Lemma arr_get_None l i : i < 0 ∨ len l ≤ i → l.[i] = None.
Proof.
  unfold arr_get, len. case_decide; [|done].
  intros. apply lookup_ge_None. lia.
Qed.

Lemma arr_set_Some l i x l' : l.[i <- x] = Some l' →
  0 ≤ i < len l ∧ l' = <[Z.to_nat i := x]> l.
Proof. unfold arr_set. case_decide; naive_solver. Qed.

Lemma arr_set_lt l i x : 0 ≤ i < len l → l.[i <- x] = Some (<[Z.to_nat i := x]> l).
Proof. unfold arr_set. intros. by rewrite decide_True. Qed.

Lemma len_arr_set l i x l' : l.[i <- x] = Some l' → len l' = len l.
Proof. intros [_ ->]%arr_set_Some. unfold len. by rewrite length_insert. Qed.

Lemma arr_get_set l i x l' j : l.[i <- x] = Some l' →
  l'.[j] = if decide (j = i) then Some x else l.[j].
Proof.
  intros [? ->]%arr_set_Some. unfold arr_get, len in *.
  repeat case_decide; try done; try lia.
  - subst. by rewrite list_lookup_insert_eq by lia.
  - by rewrite list_lookup_insert_ne by lia.
Qed.

Lemma returns_get l i (Q : A → Prop) :
  0 ≤ i < len l → (∀ x, l.[i] = Some x → Q x) → returns l.[i] Q.
Proof. intros [x Hx]%arr_get_lt HQ. exists x; auto. Qed.

Lemma returns_set l i x (Q : list A → Prop) :
  0 ≤ i < len l →
  (∀ l', l.[i <- x] = Some l' → len l' = len l → Q l') → returns l.[i <- x] Q.
Proof.
  intros Hi HQ. rewrite (arr_set_lt l i x Hi).
  exists (<[Z.to_nat i:=x]> l). split; [done|].
  apply HQ; [by apply arr_set_lt|]. unfold len. by rewrite length_insert.
Qed.

(** The same two, for an access that is followed by more. *)
Lemma returns_bind_get {B} l i (k : A → option B) (Q : B → Prop) :
  0 ≤ i < len l → (∀ x, l.[i] = Some x → returns (k x) Q) → returns (l.[i] ≫= k) Q.
Proof. intros [x Hx]%arr_get_lt HQ. rewrite Hx. by apply HQ. Qed.

Lemma returns_bind_set {B} l i x (k : list A → option B) (Q : B → Prop) :
  0 ≤ i < len l →
  (∀ l', l.[i <- x] = Some l' → len l' = len l → returns (k l') Q) →
  returns (l.[i <- x] ≫= k) Q.
Proof.
  intros Hi HQ. rewrite (arr_set_lt l i x Hi). apply HQ; [by apply arr_set_lt|].
  unfold len. by rewrite length_insert.
Qed.

Lemma slice_Some l i n k : slice l i n = Some k →
  0 ≤ i ∧ 0 ≤ n ∧ i + n ≤ len l ∧ k = take (Z.to_nat n) (drop (Z.to_nat i) l).
Proof. unfold slice. case_decide; naive_solver. Qed.

Lemma slice_lt l i n : 0 ≤ i → 0 ≤ n → i + n ≤ len l →
  slice l i n = Some (take (Z.to_nat n) (drop (Z.to_nat i) l)).
Proof. intros. unfold slice. by rewrite decide_True. Qed.

Lemma slice_len l i n k : slice l i n = Some k → len k = n.
Proof.
  intros (? & ? & ? & ->)%slice_Some. unfold len in *.
  rewrite length_take, length_drop. lia.
Qed.

Lemma arr_get_app_l l k i : i < len l → (l ++ k).[i] = l.[i].
Proof.
  intros. unfold arr_get, len in *. case_decide; [|done].
  rewrite lookup_app_l; [done|lia].
Qed.

Lemma arr_get_app_r l k i : len l ≤ i → (l ++ k).[i] = k.[i - len l].
Proof.
  intros. unfold arr_get, len in *. rewrite !decide_True by lia.
  rewrite lookup_app_r by lia. f_equal. lia.
Qed.

(** The prefix of [l] one element longer. *)
Lemma take_Z_snoc l i x : l.[i] = Some x →
  take (Z.to_nat (i + 1)) l = take (Z.to_nat i) l ++ [x].
Proof.
  intros Hx. pose proof (arr_get_Some_lt _ _ _ Hx).
  replace (Z.to_nat (i + 1)) with (S (Z.to_nat i)) by lia.
  apply take_S_r. unfold arr_get in Hx. by rewrite decide_True in Hx by lia.
Qed.

Lemma arr_ext l k : len l = len k → (∀ i, 0 ≤ i < len l → l.[i] = k.[i]) → l = k.
Proof.
  intros Hlen Heq. apply list_eq. intros i.
  destruct (decide (Z.of_nat i < len l)).
  - rewrite <- !arr_get_lookup. apply Heq. lia.
  - rewrite !lookup_ge_None_2; [done| |]; unfold len in *; lia.
Qed.
End arrays.

#[export] Hint Rewrite @len_nil @len_cons @len_app @len_replicate : csem.

(** Arithmetic on array lengths. *)
Ltac len_lia := autorewrite with csem in *; lia.

(** Steps through a partial computation under [returns]. *)
Ltac returns_step :=
  lazymatch goal with
  | |- returns (Some _) _ => apply returns_ret
  | |- returns (None) _ => exfalso
  | |- returns (_ ≫= _) _ => eapply returns_bind
  | |- returns (if decide _ then _ else _) _ => case_decide
  | |- returns (if ?a <? ?b then _ else _) _ => destruct (Z.ltb_spec a b)
  | |- returns (if ?a <=? ?b then _ else _) _ => destruct (Z.leb_spec a b)
  | |- returns (if ?a =? ?b then _ else _) _ => destruct (Z.eqb_spec a b)
  end.

(** ** Loops

    [for_up n i body s] runs [body i], ..., [body (i + n - 1)] on the loop
    state; [for_down n body s] is C's [for (i = n; i-- > 0;)]; [loop] is a
    loop whose step says whether to go on ([inl]) or stop ([inr]), bounded
    by fuel. *)

Fixpoint for_up {S} (n : nat) (i : Z) (body : Z → S → option S) (s : S) : option S :=
  match n with
  | O => Some s
  | Datatypes.S n' => s' ← body i s; for_up n' (i + 1) body s'
  end.

Definition for_range {S} (lo hi : Z) (body : Z → S → option S) (s : S) : option S :=
  for_up (Z.to_nat (hi - lo)) lo body s.

Fixpoint for_down {S} (n : nat) (body : Z → S → option S) (s : S) : option S :=
  match n with
  | O => Some s
  | Datatypes.S n' => s' ← body (Z.of_nat n') s; for_down n' body s'
  end.

Fixpoint loop {S A} (fuel : nat) (step : S → option (S + A)) (s : S) : option A :=
  match fuel with
  | O => None
  | Datatypes.S fuel' =>
      r ← step s;
      match r with inl s' => loop fuel' step s' | inr a => Some a end
  end.

Section loops.
Context {S : Type}.

Lemma for_up_inv (I : Z → S → Prop) (n : nat) lo body s :
  I lo s →
  (∀ i s, lo ≤ i < lo + Z.of_nat n → I i s → returns (body i s) (I (i + 1))) →
  returns (for_up n lo body s) (I (lo + Z.of_nat n)).
Proof.
  revert lo s. induction n as [|n IH]; intros lo s HI Hstep; simpl for_up.
  - rewrite Z.add_0_r. by apply returns_ret.
  - eapply returns_bind; [apply Hstep; [lia|done]|]. simpl. intros s' HI'.
    replace (lo + Z.of_nat (Datatypes.S n)) with ((lo + 1) + Z.of_nat n) by lia.
    apply IH; [done|]. intros; apply Hstep; [lia|done].
Qed.

Lemma for_range_inv (I : Z → S → Prop) lo hi body s :
  lo ≤ hi → I lo s →
  (∀ i s, lo ≤ i < hi → I i s → returns (body i s) (I (i + 1))) →
  returns (for_range lo hi body s) (I hi).
Proof.
  intros Hle HI Hstep. unfold for_range.
  pose proof (for_up_inv I (Z.to_nat (hi - lo)) lo body s HI) as H.
  rewrite Z2Nat.id in H by lia.
  replace (lo + (hi - lo)) with hi in H by lia.
  apply H. intros. apply Hstep; [lia|done].
Qed.

Lemma for_down_inv (I : Z → S → Prop) (n : nat) body s :
  I (Z.of_nat n) s →
  (∀ i s, 0 ≤ i < Z.of_nat n → I (i + 1) s → returns (body i s) (I i)) →
  returns (for_down n body s) (I 0).
Proof.
  revert s. induction n as [|n IH]; intros s HI Hstep; simpl for_down.
  - by apply returns_ret.
  - eapply returns_bind.
    + apply Hstep; [lia|].
      by replace (Z.of_nat n + 1) with (Z.of_nat (Datatypes.S n)) by lia.
    + simpl. intros s' HI'. apply IH; [done|]. intros; apply Hstep; [lia|done].
Qed.

(** A loop whose measure decreases stops, and its result meets the
    postcondition. *)
Lemma loop_inv {A} (I : S → Prop) (Q : A → Prop) (μ : S → nat) step :
  (∀ s, I s →
    returns (step s) (λ r, match r with
                           | inl s' => I s' ∧ (μ s' < μ s)%nat
                           | inr a => Q a
                           end)) →
  ∀ fuel s, I s → (μ s < fuel)%nat → returns (loop fuel step s) Q.
Proof.
  intros Hstep. induction fuel as [|fuel IH]; intros s HI Hlt; [lia|].
  simpl. eapply returns_bind; [by apply Hstep|].
  intros [s'|a] Hs'; simpl in *; [|by apply returns_ret].
  destruct Hs' as [? ?]. apply IH; [done|lia].
Qed.

(** The same when a step may fail: the loop ends, or a step that meets the
    invariant fails; it never runs out of fuel. *)
Lemma loop_cases {A} (I : S → Prop) (Q : A → Prop) (μ : S → nat) step :
  (∀ s, I s →
    match step s with
    | Some (inl s') => I s' ∧ (μ s' < μ s)%nat
    | Some (inr a) => Q a
    | None => True
    end) →
  ∀ fuel s, I s → (μ s < fuel)%nat →
    match loop fuel step s with
    | Some a => Q a
    | None => ∃ s', I s' ∧ step s' = None
    end.
Proof.
  intros Hstep. induction fuel as [|fuel IH]; intros s HI Hlt; [lia|].
  simpl. specialize (Hstep s HI). destruct (step s) as [[s'|a]|] eqn:Hs; simpl; [|done|by exists s].
  destruct Hstep as [? ?]. apply IH; [done|lia].
Qed.

(** Fuel above the measure is enough for a loop that ends. *)
Lemma loop_fuel_enough {A} (μ : S → nat) (step : S → option (S + A)) f1 f2 s a :
  (∀ s s', step s = Some (inl s') → (μ s' < μ s)%nat) →
  loop f1 step s = Some a → (μ s < f2)%nat → loop f2 step s = Some a.
Proof.
  intros Hμ. revert f2 s. induction f1 as [|f1 IH]; intros f2 s Hl Hlt; [done|].
  destruct f2 as [|f2]; [lia|]. simpl in *.
  destruct (step s) as [[s'|a']|] eqn:Hs; simpl in *; [|done|done].
  apply IH; [done|]. specialize (Hμ _ _ Hs). lia.
Qed.

(** More fuel does not change the result. *)
Lemma loop_fuel_mono {A} (step : S → option (S + A)) f1 f2 s a :
  loop f1 step s = Some a → (f1 ≤ f2)%nat → loop f2 step s = Some a.
Proof.
  revert f2 s. induction f1 as [|f1 IH]; intros f2 s Hl Hle; [done|].
  destruct f2 as [|f2]; [lia|]. simpl in *.
  destruct (step s) as [[s'|a']|]; simpl in *; [|done|done].
  apply IH; [done|lia].
Qed.
End loops.

(** ** Machine words *)

(** [wrap w x] is [x] converted to a [w]-bit unsigned integer. *)
Definition wrap (w x : Z) : Z := x mod 2 ^ w.
Definition is_word (w x : Z) : Prop := 0 ≤ x < 2 ^ w.

Notation u8 := (wrap 8).
Notation u16 := (wrap 16).
Notation u32 := (wrap 32).
Notation u64 := (wrap 64).

(** The conversion to a [w]-bit two's complement integer. *)
Definition swrap (w x : Z) : Z :=
  let y := wrap w x in if y <? 2 ^ (w - 1) then y else y - 2 ^ w.
Notation i32 := (swrap 32).

Definition SIZE_MAX : Z := 2 ^ 64 - 1.

Lemma wrap_word w x : 0 ≤ w → is_word w (wrap w x).
Proof. intros. apply Z.mod_pos_bound. lia. Qed.

Lemma wrap_id w x : is_word w x → wrap w x = x.
Proof. intros. by apply Z.mod_small. Qed.

Lemma swrap_id w x : 0 < w → - 2 ^ (w - 1) ≤ x < 2 ^ (w - 1) → swrap w x = x.
Proof.
  intros Hw Hx. unfold swrap, wrap.
  assert (2 ^ w = 2 * 2 ^ (w - 1)) as Hp.
  { rewrite <- Z.pow_succ_r by lia. f_equal. lia. }
  destruct (decide (0 ≤ x)).
  - rewrite Z.mod_small by lia. destruct (Z.ltb_spec x (2 ^ (w - 1))); lia.
  - replace (x mod 2 ^ w) with (x + 2 ^ w).
    + destruct (Z.ltb_spec (x + 2 ^ w) (2 ^ (w - 1))); lia.
    + rewrite <- (Z.mod_add x 1 (2 ^ w)) by lia. rewrite Z.mul_1_l.
      symmetry. apply Z.mod_small. lia.
Qed.

Lemma i32_id x : -2147483648 ≤ x < 2147483648 → i32 x = x.
Proof. intros. by apply swrap_id. Qed.

Lemma u32_id x : 0 ≤ x < 4294967296 → u32 x = x.
Proof. intros. by apply wrap_id. Qed.

Lemma u16_id x : 0 ≤ x < 65536 → u16 x = x.
Proof. intros. by apply wrap_id. Qed.

Lemma u8_id x : 0 ≤ x < 256 → u8 x = x.
Proof. intros. by apply wrap_id. Qed.

Lemma u64_id x : 0 ≤ x < 18446744073709551616 → u64 x = x.
Proof. intros. by apply wrap_id. Qed.

(** [__builtin_add_overflow] and [__builtin_mul_overflow] on [uint64_t]:
    [None] is the overflow. *)
Definition add64 (a b : Z) : option Z := if a + b <? 2 ^ 64 then Some (a + b) else None.
Definition mul64 (a b : Z) : option Z := if a * b <? 2 ^ 64 then Some (a * b) else None.

Lemma add64_Some a b c : add64 a b = Some c → c = a + b ∧ a + b < 2 ^ 64.
Proof. unfold add64. destruct (Z.ltb_spec (a + b) (2 ^ 64)); naive_solver. Qed.

Lemma add64_lt a b : a + b < 2 ^ 64 → add64 a b = Some (a + b).
Proof. unfold add64. by intros ->%Z.ltb_lt. Qed.

Lemma mul64_Some a b c : mul64 a b = Some c → c = a * b ∧ a * b < 2 ^ 64.
Proof. unfold mul64. destruct (Z.ltb_spec (a * b) (2 ^ 64)); [|done]. by intros [= <-]. Qed.

(** ** Bytes *)

Definition is_bytes (l : list Z) : Prop := Forall (is_word 8) l.

Definition b2z (b : bool) : Z := if b then 1 else 0.

Lemma is_bytes_get l i x : is_bytes l → l.[i] = Some x → is_word 8 x.
Proof.
  intros Hl Hx. unfold arr_get in Hx. case_decide; [|done].
  by eapply Forall_lookup_1.
Qed.

(** The little-endian image of an integer, [n] bytes long, and back. *)
Fixpoint le_bytes (n : nat) (x : Z) : list Z :=
  match n with O => [] | S n' => x mod 256 :: le_bytes n' (x / 256) end.

Fixpoint le_val (l : list Z) : Z :=
  match l with [] => 0 | b :: l' => b + 256 * le_val l' end.

Definition be_bytes (n : nat) (x : Z) : list Z := rev (le_bytes n x).
Definition be_val (l : list Z) : Z := le_val (rev l).

Lemma length_le_bytes n x : length (le_bytes n x) = n.
Proof. revert x; induction n; simpl; auto. Qed.

Lemma is_bytes_le n x : is_bytes (le_bytes n x).
Proof.
  revert x; induction n; simpl; intros; constructor; [|by apply IHn].
  unfold is_word. pose proof (Z.mod_pos_bound x 256). lia.
Qed.

Lemma le_val_bytes n x : 0 ≤ x → le_val (le_bytes n x) = x mod 2 ^ (8 * Z.of_nat n).
Proof.
  revert x; induction n as [|n IH]; intros x Hx; simpl le_bytes; simpl le_val.
  - by rewrite Z.mod_1_r.
  - rewrite IH by (apply Z.div_pos; lia).
    replace (8 * Z.of_nat (S n)) with (8 + 8 * Z.of_nat n) by lia.
    rewrite Z.pow_add_r by lia. change (2 ^ 8) with 256.
    rewrite Z.rem_mul_r by lia. done.
Qed.

Lemma le_val_range l : is_bytes l → 0 ≤ le_val l < 2 ^ (8 * len l).
Proof.
  induction 1 as [|b l Hb Hl IH]; simpl le_val; [done|].
  rewrite len_cons, Z.mul_add_distr_l, Z.pow_add_r by (pose proof (len_nonneg l); lia).
  change (2 ^ (8 * 1)) with 256. unfold is_word in Hb. lia.
Qed.

Lemma le_bytes_val l : is_bytes l → le_bytes (length l) (le_val l) = l.
Proof.
  induction 1 as [|b l Hb Hl IH]; simpl; [done|].
  unfold is_word in Hb. rewrite (Z.mul_comm 256), Z_mod_plus_full, Z.mod_small by lia.
  rewrite Z.div_add, Z.div_small by lia. by rewrite Z.add_0_l, IH.
Qed.

(** ** Reading an array with a default *)

(** [-1] stands for the value past the end. *)
Definition peek (l : list Z) (i : Z) : Z := default (-1) l.[i].

Lemma peek_get l i x : l.[i] = Some x → peek l i = x.
Proof. unfold peek. by intros ->. Qed.

Lemma get_peek l i : 0 ≤ i < len l → l.[i] = Some (peek l i).
Proof. unfold peek. by intros [x ->]%arr_get_lt. Qed.

Lemma peek_out l i : len l ≤ i → peek l i = -1.
Proof. unfold peek. intros. by rewrite arr_get_None by lia. Qed.

Lemma peek_set l i x l' j : l.[i <- x] = Some l' →
  peek l' j = if decide (j = i) then x else peek l j.
Proof. unfold peek. intros H. rewrite (arr_get_set _ _ _ _ _ H). by case_decide. Qed.

(** The value of every element lies in [0, b). *)
Definition all_below (b : Z) (l : list Z) : Prop := ∀ i, 0 ≤ i < len l → 0 ≤ peek l i < b.

Lemma all_below_bytes l : is_bytes l → all_below 256 l.
Proof.
  intros Hl i Hi. pose proof (is_bytes_get _ _ _ Hl (get_peek _ _ Hi)). done.
Qed.

(** The permutations of [0, n). *)
Lemma seqZ_perm_get l n : l ≡ₚ seqZ 0 n → 0 ≤ n →
  len l = n ∧ all_below n l ∧
  (∀ i, 0 ≤ i < n → ∃ p, 0 ≤ p < n ∧ peek l p = i) ∧
  (∀ p q, 0 ≤ p < n → 0 ≤ q < n → peek l p = peek l q → p = q).
Proof.
  intros Hp Hn. assert (len l = n) as Hlen.
  { unfold len. rewrite Hp, length_seqZ. lia. }
  assert (∀ i x, l.[i] = Some x → l !! Z.to_nat i = Some x) as Hget.
  { unfold arr_get. intros. by case_decide. }
  split_and!; [done| | |].
  - intros i Hi. pose proof (get_peek _ _ Hi) as Hg%Hget.
    apply list_elem_of_lookup_2 in Hg. revert Hg. generalize (peek l i) as x.
    intros x. rewrite Hp, elem_of_seqZ. lia.
  - intros i Hi. assert (i ∈ l) as [p Hl]%list_elem_of_lookup by (rewrite Hp, elem_of_seqZ; lia).
    exists (Z.of_nat p). pose proof (lookup_lt_Some _ _ _ Hl). unfold len in *.
    split; [lia|]. apply peek_get. by rewrite arr_get_lookup.
  - intros p q Hp' Hq' Heq.
    assert (NoDup l) as Hnd by (rewrite Hp; apply NoDup_seqZ).
    pose proof (Hget _ _ (get_peek l p ltac:(lia))) as H1.
    pose proof (Hget _ _ (get_peek l q ltac:(lia))) as H2.
    rewrite Heq in H1. pose proof (NoDup_lookup _ _ _ _ Hnd H1 H2). lia.
Qed.
