(* ===== verification/LimlzPack.v ===== *)
(** The stage 2 packer, [limine/tools/limlzpack.c]: a suffix array by prefix
    doubling ([saca]), the longest earlier match of each position
    ([longest_matches]), a shortest-encoding parse computed backwards
    ([dp_loop]) and the emission of tokens ([limlzpack]); the CRC the packed
    file starts with.  Theorems on it are in LimlzMatch.v (match finder),
    LimlzParse.v (parse) and Limlz.v (whole packer against the unpacker). *)
From S2P Require Import Prelude.

(** ** Byte order of the CRC field *)

Definition endswap16 (value : Z) : Z :=
  Z.lor (Z.land (Z.shiftr value 8) 0x00ff) (Z.land (u16 (Z.shiftl value 8)) 0xff00).

Definition endswap32 (value : Z) : Z :=
  Z.lor (Z.lor (Z.lor (Z.land (Z.shiftr value 24) 0x000000ff)
    (Z.land (Z.shiftr value 8) 0x0000ff00))
    (Z.land (u32 (Z.shiftl value 8)) 0x00ff0000))
    (Z.land (u32 (Z.shiftl value 24)) 0xff000000).

Definition endswap64 (value : Z) : Z :=
  Z.lor (Z.lor (Z.lor (Z.lor (Z.lor (Z.lor (Z.lor
    (Z.land (Z.shiftr value 56) 0x00000000000000ff)
    (Z.land (Z.shiftr value 40) 0x000000000000ff00))
    (Z.land (Z.shiftr value 24) 0x0000000000ff0000))
    (Z.land (Z.shiftr value 8)  0x00000000ff000000))
    (Z.land (u64 (Z.shiftl value 8))  0x000000ff00000000))
    (Z.land (u64 (Z.shiftl value 24)) 0x0000ff0000000000))
    (Z.land (u64 (Z.shiftl value 40)) 0x00ff000000000000))
    (Z.land (u64 (Z.shiftl value 56)) 0xff00000000000000).

(** [ENDSWAP(VALUE)] by the size of its argument; [None] is the [abort]. *)
Definition ENDSWAP (bigendian : bool) (size value : Z) : option Z :=
  if bigendian then
    if size =? 1 then Some value
    else if size =? 2 then Some (endswap16 value)
    else if size =? 4 then Some (endswap32 value)
    else if size =? 8 then Some (endswap64 value)
    else None
  else Some value.

(** ** What the packer relies on in the C library

    [qsort] with a comparison that may itself read outside an array: on
    elements where the comparison is defined and orders them totally, the
    result is a sorted rearrangement. Nothing is said about the order of
    elements that compare equal. *)
Record total_preorder (P : Z → Prop) (cmp : Z → Z → option Z) : Prop := {
  tp_def : ∀ a b, P a → P b → is_Some (cmp a b);
  tp_anti : ∀ a b c d, P a → P b → cmp a b = Some c → cmp b a = Some d → (c ≤ 0 ∨ d ≤ 0);
  tp_trans : ∀ a b c x y z, P a → P b → P c →
    cmp a b = Some x → cmp b c = Some y → cmp a c = Some z → x ≤ 0 → y ≤ 0 → z ≤ 0;
}.

Definition sorted_by (cmp : Z → Z → option Z) (l : list Z) : Prop :=
  ∀ i a b, l.[i] = Some a → l.[i + 1] = Some b → ∃ c, cmp a b = Some c ∧ c ≤ 0.

Class Qsort := {
  qsort : (Z → Z → option Z) → list Z → option (list Z);
  qsort_ok : ∀ cmp l,
    total_preorder (λ x, x ∈ l) cmp →
    returns (qsort cmp l) (λ l', l' ≡ₚ l ∧ sorted_by cmp l');
}.

(** Insertion sort, as one implementation of the interface. *)
Fixpoint insert_sorted (cmp : Z → Z → option Z) (x : Z) (l : list Z) : option (list Z) :=
  match l with
  | [] => Some [x]
  | y :: l' =>
      c ← cmp x y;
      if c <=? 0 then Some (x :: y :: l') else l'' ← insert_sorted cmp x l'; Some (y :: l'')
  end.

Fixpoint insertion_sort (cmp : Z → Z → option Z) (l : list Z) : option (list Z) :=
  match l with
  | [] => Some []
  | x :: l' => l'' ← insertion_sort cmp l'; insert_sorted cmp x l''
  end.

Definition LIMLZ_SA_NEIGHBORS : Z := 32.

(** ** The suffix array *)

(** [sa_cmp_idx]: [rank], [n] and [k] are the fields of [g_sa_ctx]. *)
Definition sa_cmp_idx (rank : list Z) (n k i j : Z) : option Z :=
  ri ← rank.[i];
  rj ← rank.[j];
  if negb (ri =? rj) then Some (i32 (ri - rj)) else
  ri ← (if u64 (i + k) <? n then rank.[u64 (i + k)] else Some (-1));
  rj ← (if u64 (j + k) <? n then rank.[u64 (j + k)] else Some (-1));
  Some (i32 (ri - rj)).

Definition sa_qsort_cmp (rank : list Z) (n k a b : Z) : option Z :=
  d ← sa_cmp_idx rank n k a b;
  Some (b2z (0 <? d) - b2z (d <? 0)).

Section saca.
Context `{Qsort}.

Record sa_state := SA { sa_sa : list Z; sa_rank : list Z; sa_tmp : list Z }.

(** The loop that fills [sa] and [rank]. *)
Definition saca_init (s : list Z) (n : Z) (st : sa_state) : option sa_state :=
  for_range 0 n (λ i st,
    b ← s.[i];
    sa ← (sa_sa st).[i <- i];
    rank ← (sa_rank st).[i <- b];
    Some (SA sa rank (sa_tmp st))) st.

(** One pass of the doubling loop, up to its [break] test. *)
Definition saca_pass (n k : Z) (st : sa_state) : option sa_state :=
  let rank := sa_rank st in
  sa ← qsort (sa_qsort_cmp rank n k) (sa_sa st);
  s0 ← sa.[0];
  tmp ← (sa_tmp st).[s0 <- 0];
  tmp ← for_range 1 n (λ i tmp,
    a ← sa.[i - 1];
    b ← sa.[i];
    ta ← tmp.[a];
    c ← sa_cmp_idx rank n k a b;
    tmp.[b <- i32 (ta + b2z (c <? 0))]) tmp;
  rank' ← for_range 0 n (λ i rank, t ← tmp.[i]; rank.[i <- t]) rank;
  Some (SA sa rank' tmp).

Definition saca_step (n : Z) (st : Z * sa_state) : option (Z * sa_state + sa_state) :=
  let '(k, st) := st in
  st' ← saca_pass n k st;
  last ← (sa_sa st').[n - 1];
  r ← (sa_rank st').[last];
  if u64 r =? n - 1 then Some (inr st') else Some (inl (u64 (Z.shiftl k 1), st')).

Definition saca (fuel : nat) (s : list Z) (n : Z) (st : sa_state) : option sa_state :=
  if n =? 0 then Some st else
  st ← saca_init s n st;
  loop fuel (saca_step n) (1, st).
End saca.

(** ** The longest earlier match of every position *)

(** [for (; l < m && s[i + l] == s[j + l]; ++l);] *)
Definition lcp_bytes (fuel : nat) (s : list Z) (n i j : Z) : option Z :=
  let m := n - (if j <? i then i else j) in
  loop fuel (λ l,
    if l <? m then
      a ← s.[i + l];
      b ← s.[j + l];
      if a =? b then Some (inl (l + 1)) else Some (inr l)
    else Some (inr l)) 0.

Record match_choice := MC { m_len : Z; m_off : Z }.
Record parse_choice := PC { p_lit : Z; p_mlen : Z; p_off : Z }.

Section longest_matches.
Context `{Qsort}.
Variable malloc_ok : bool.   (** whether the allocations succeed *)
Variable junk : Z.           (** what fresh memory holds *)

Definition malloc (n : Z) : list Z := replicate (Z.to_nat n) junk.

(** The body of the loop on [d] over the neighbours of [i] in the suffix array. *)
Definition neighbor (src sa : list Z) (n i r d : Z) (best : Z * Z) : option (Z * Z) :=
  let '(best_len, best_off) := best in
  if d =? 0 then Some best else
  let rr := r + d in
  if (rr <? 0) || (n <=? rr) then Some best else
  j ← sa.[rr];
  if i <=? j then Some best else
  let off := i - j in
  if (off =? 0) || (65535 <? off) then Some best else
  l ← lcp_bytes (Z.to_nat n + 1) src n i j;
  if best_len <? l then Some (l, u16 off) else Some best.

Definition best_neighbor (src sa inv : list Z) (n i : Z) : option (Z * Z) :=
  r ← inv.[i];
  for_range (- LIMLZ_SA_NEIGHBORS) (LIMLZ_SA_NEIGHBORS + 1) (neighbor src sa n i r) (0, 0).

(** [Some (inl tt)] is the return of -1. *)
Definition longest_matches (src : list Z) (n : Z) (mch : list match_choice)
  : option (unit + list match_choice) :=
  if n =? 0 then Some (inr mch) else
  if negb malloc_ok then Some (inl tt) else
  st ← saca (Z.to_nat n + 1) src n (SA (malloc n) (malloc n) (malloc n));
  let sa := sa_sa st in
  inv ← for_range 0 n (λ i inv, x ← sa.[i]; inv.[x <- i]) (malloc n);
  mch ← for_range 0 n (λ i mch,
    '(best_len, best_off) ← best_neighbor src sa inv n i;
    if 4 <=? best_len then mch.[i <- MC (u32 best_len) best_off]
    else mch.[i <- MC 0 0]) mch;
  Some (inr mch).
End longest_matches.

(** ** The parse *)

(** The state of the backward loop: [dp], [pick] and [bestm]. *)
Record dp_state := DP {
  dp_cost : list Z; dp_pick : list parse_choice; dp_best : list match_choice }.

(** The shortest continuation of position [i] by a match: the body of
    [if (mch[i].len >= 4)]. *)
Definition best_match (dp : list Z) (mi : match_choice) (i srcsz : Z) : option match_choice :=
  if 4 <=? m_len mi then
    let lim := m_len mi in
    let lim := if 266 <? lim then 266 else lim in
    let off_bytes := if 255 <? m_off mi then 2 else 1 in
    let lim := if srcsz <? u64 (i + lim) then srcsz - i else lim in
    '(mcost, mlen) ← for_range 4 (lim + 1) (λ ml '(mcost, mlen),
      d ← dp.[i + ml];
      if d =? SIZE_MAX then Some (mcost, mlen) else
      let c := u64 (off_bytes + b2z (7 <=? ml - 4) + d) in
      if c <? mcost then Some (c, u32 ml) else Some (mcost, mlen)) (SIZE_MAX, 0);
    Some (if mlen =? 0 then MC 0 0 else MC mlen (m_off mi))
  else Some (MC 0 0).

(** The choice kept by the scan: [best_cost] and the three fields of [pick]. *)
Record choice := CH { ch_cost : Z; ch_lit : Z; ch_len : Z; ch_off : Z }.

(** A literal run to the end of the input. *)
Definition literal_tail (i srcsz : Z) : choice :=
  if srcsz - i <=? 270
  then CH (u64 (1 + (srcsz - i) + b2z (15 <=? srcsz - i))) (u32 (srcsz - i)) 0 0
  else CH SIZE_MAX 0 0 0.

(** The body of the loop on [j]: [j - i] literals, then the best match at [j]. *)
Definition literals_then_match (dp : list Z) (bestm : list match_choice) (i j : Z) (ch : choice)
  : option choice :=
  let lit := j - i in
  bm ← bestm.[j];
  if m_len bm =? 0 then Some ch else
  let off_bytes_j := if 255 <? m_off bm then 2 else 1 in
  d ← dp.[j + m_len bm];
  let c := u64 (1 + lit + b2z (15 <=? lit)
                + (off_bytes_j + b2z (7 <=? m_len bm - 4) + d)) in
  if c <? ch_cost ch then Some (CH c (u32 lit) (m_len bm) (m_off bm)) else Some ch.

Definition dp_step (mch : list match_choice) (srcsz i : Z) (st : dp_state) : option dp_state :=
  mi ← mch.[i];
  bm ← best_match (dp_cost st) mi i srcsz;
  bestm ← (dp_best st).[i <- bm];
  ch ← for_range i (Z.min srcsz (i + 271)) (literals_then_match (dp_cost st) bestm i)
         (literal_tail i srcsz);
  dp ← (dp_cost st).[i <- ch_cost ch];
  pick ← (dp_pick st).[i <- PC (ch_lit ch) (ch_len ch) (ch_off ch)];
  Some (DP dp pick bestm).

Definition dp_loop (mch : list match_choice) (srcsz : Z) (st : dp_state) : option dp_state :=
  for_down (Z.to_nat srcsz) (dp_step mch srcsz) st.

(** ** Emission

    The output is the list of the bytes written from [dst] on; a write past
    [out_end] is the [goto fail] of the code. *)

(** Both return [None] where the code returns -1. *)
Definition encode_len_tail (out : list Z) (dstcap n : Z) : option (list Z) :=
  if 15 <=? n then
    if dstcap <=? len out then None else Some (out ++ [u8 (n - 15)])
  else Some out.

Definition encode_len_tail_ml (out : list Z) (dstcap n : Z) : option (list Z) :=
  if 7 <=? n then
    if dstcap <=? len out then None else Some (out ++ [u8 (n - 7)])
  else Some out.

(** What [limlzpack] returns: the bytes written ([Packed]; the code returns
    their number) or 0, with or without [*why] set. *)
Inductive packres :=
  | Packed (out : list Z)
  | PackFail (why : bool).

(** The offset bytes of a match; [None] is [goto fail]. *)
Definition emit_offset (out : list Z) (dstcap off : Z) : option (list Z) :=
  if 255 <? off then
    if dstcap - len out <? 2 then None
    else Some (out ++ [u8 (Z.land off 255); u8 (Z.shiftr off 8)])
  else
    if dstcap <=? len out then None else Some (out ++ [u8 off]).

(** One iteration of the emission loop; [inr] ends it: [inr (Some o)] by the
    [break] that follows the last literals, [inr None] by [goto fail]. *)
Definition emit_step (src : list Z) (srcsz dstcap : Z) (pick : list parse_choice)
    (st : Z * list Z) : option (Z * list Z + option (list Z * bool)) :=
  let '(i, out) := st in
  if i <? srcsz then
    pc ← pick.[i];
    let lit := p_lit pc in
    let ml := p_mlen pc in
    let off := p_off pc in
    if srcsz <? i + lit then Some (inr None) else
    if (i + lit <? srcsz) && (ml <? 4) then Some (inr None) else
    let tokenp := len out in
    if dstcap <=? len out then Some (inr None) else
    let out := out ++ [0] in
    let token_hi := if lit <? 15 then lit else 15 in
    match encode_len_tail out dstcap lit with
    | None => Some (inr None)
    | Some out =>
        if dstcap - len out <? lit then Some (inr None) else
        bs ← slice src i lit;
        let out := out ++ bs in
        let i := i + lit in
        if srcsz <=? i then
          out ← out.[tokenp <- u8 (Z.shiftl token_hi 3)];
          Some (inr (Some (out, true)))
        else
          let mode_bit := if 255 <? off then 1 else 0 in
          let token_lo := if ml - 4 <? 7 then ml - 4 else 7 in
          out ← out.[tokenp <- u8 (Z.lor (Z.lor (Z.shiftl mode_bit 7) (Z.shiftl token_hi 3)) token_lo)];
          match emit_offset out dstcap off with
          | None => Some (inr None)
          | Some out =>
              match encode_len_tail_ml out dstcap (ml - 4) with
              | None => Some (inr None)
              | Some out => Some (inl (i + ml, out))
              end
          end
    end
  else Some (inr (Some (out, false))).

Definition emit (src : list Z) (srcsz dstcap : Z) (pick : list parse_choice) : option packres :=
  r ← loop (Z.to_nat srcsz + 1) (emit_step src srcsz dstcap pick) (0, []);
  match r with
  | None => Some (PackFail false)
  | Some (out, true) => Some (Packed out)
  | Some (out, false) =>
      if dstcap <=? len out then Some (PackFail false) else Some (Packed (out ++ [0]))
  end.

(** [calloc] clears; [malloc] does not. *)
Definition dp_init (junk srcsz : Z) : option dp_state :=
  let n := Z.to_nat srcsz in
  dp ← (replicate (n + 1) junk).[srcsz <- 0];
  Some (DP dp (replicate (n + 1) (PC 0 0 0)) (replicate n (MC 0 0))).

Definition limlzpack `{Qsort} (malloc_ok : bool) (junk dstcap : Z) (src : list Z) : option packres :=
  let srcsz := len src in
  if srcsz =? 0 then
    if dstcap <? 1 then Some (PackFail false) else Some (Packed [0])
  else
    if negb malloc_ok then Some (PackFail false) else
    r ← longest_matches malloc_ok junk src srcsz (replicate (Z.to_nat srcsz) (MC 0 0));
    match r with
    | inl _ => Some (PackFail false)
    | inr mch =>
        st ← dp_init junk srcsz;
        st ← dp_loop mch srcsz st;
        d0 ← (dp_cost st).[0];
        if d0 =? SIZE_MAX then Some (PackFail true) else
        emit src srcsz dstcap (dp_pick st)
    end.

(** ** The CRC *)

Definition tab : list Z := [
  0x00000000; 0x1DB71064; 0x3B6E20C8; 0x26D930AC;
  0x76DC4190; 0x6B6B51F4; 0x4DB26158; 0x5005713C;
  0xEDB88320; 0xF00F9344; 0xD6D6A3E8; 0xCB61B38C;
  0x9B64C2B0; 0x86D3D2D4; 0xA00AE278; 0xBDBDF21C ].

Fixpoint crc32_nibble_loop (crc : Z) (data : list Z) : option Z :=
  match data with
  | [] => Some crc
  | b :: data =>
      let crc := Z.lxor crc b in
      t ← tab.[Z.land crc 0x0F];
      let crc := Z.lxor (Z.shiftr crc 4) t in
      t ← tab.[Z.land crc 0x0F];
      let crc := Z.lxor (Z.shiftr crc 4) t in
      crc32_nibble_loop crc data
  end.

Definition crc32_nibble (data : list Z) : option Z :=
  crc ← crc32_nibble_loop (u32 (Z.lnot 0)) data;
  Some (u32 (Z.lnot crc)).

(** ** The file [main] writes

    [None] stands for the runs that end in an error message: [malloc] or the
    packer failing. The input is bounded by [INT32_MAX] as in the code; the
    bytes of the CRC are written in the byte order of the host. *)
Definition INT32_MAX : Z := 2147483647.

Definition host_bytes32 (bigendian : bool) (v : Z) : list Z :=
  if bigendian then be_bytes 4 v else le_bytes 4 v.

Definition limlz_main `{Qsort} (bigendian malloc_ok : bool) (junk : Z) (inbuf : list Z)
  : option (option (list Z)) :=
  let insz := len inbuf in
  if (INT32_MAX <? insz) || (SIZE_MAX / 8 <=? insz) then Some None else
  if negb malloc_ok then Some None else
  r ← limlzpack malloc_ok junk (insz * 2) inbuf;
  match r with
  | PackFail _ => Some None
  | Packed outbuf =>
      crc ← crc32_nibble inbuf;
      crc ← ENDSWAP bigendian 4 crc;
      Some (Some (host_bytes32 bigendian crc ++ outbuf))
  end.
