(* ===== verification/LimlzUnpack.v ===== *)
(** The stage 2 unpacker, [limine/stage1/decompressor.asm]: the LZ loop, the
    CRC check and what follows it.  The packed file [inp] is the memory from
    [compressed_stage2] on, [stage2_size] bytes long, an index into it is the
    code's [ip] less that address, and the output is the memory written from
    0xf000 on.  A read outside either is [None]. *)
From S2P Require Import Prelude.

(** [rep movsb] with [esi = edi - off]: byte by byte, so the source may
    overlap what is being written. *)
Fixpoint copy_match (out : list Z) (off : Z) (n : nat) : option (list Z) :=
  match n with
  | O => Some out
  | S n' => b ← out.[len out - off]; copy_match (out ++ [b]) off n'
  end.

(** One round of [.Ltoken]: [inl] goes back to [.Ltoken], [inr] to [.Lcrc]. *)
Definition token_step (inp : list Z) (st : Z * list Z) : option (Z * list Z + list Z) :=
  let '(ip, out) := st in
  let ipe := len inp in
  token ← inp.[ip];
  let lit := Z.land (Z.shiftr token 3) 0xf in
  '(lit, ip) ← (if lit =? 0xf then
                  b ← inp.[ip + 1]; Some (b + 0xf, ip + 2)
                else Some (lit, ip + 1));
  bs ← slice inp ip lit;
  let out := out ++ bs in
  let ip := ip + lit in
  if ipe <=? ip then Some (inr out) else
  '(off, ip) ← (if Z.testbit token 7 then
                  b0 ← inp.[ip]; b1 ← inp.[ip + 1]; Some (b0 + 256 * b1, ip + 2)
                else b ← inp.[ip]; Some (b, ip + 1));
  let ml := Z.land token 0x7 in
  '(ml, ip) ← (if ml =? 0x7 then
                 b ← inp.[ip]; Some (b + 0x7, ip + 1)
               else Some (ml, ip));
  out ← copy_match out off (Z.to_nat (ml + 4));
  if ipe <=? ip then Some (inr out) else Some (inl (ip, out)).

Definition unpack (inp : list Z) : option (list Z) :=
  loop (length inp + 1) (token_step inp) (4, []).

(** [.Lcrc_bit], eight rounds of it, and [.Lcrc_byte]. *)
Definition crc_bit (eax : Z) : Z :=
  let ebx := Z.shiftr eax 1 in
  Z.lxor (Z.land (u32 (- Z.land eax 1)) 0xedb88320) ebx.

Definition crc_byte (eax b : Z) : Z := Nat.iter 8 crc_bit (Z.lxor eax b).

Definition crc32_bits (data : list Z) : Z :=
  u32 (Z.lnot (foldl crc_byte (u32 (0 - 1)) data)).

(** Where the boot goes on: the image at 0xf000, or the error screen. *)
Inductive boot_result :=
  | JumpTo (image : list Z)
  | IntegrityError.

Definition decompressor (inp : list Z) : option boot_result :=
  b0 ← inp.[0]; b1 ← inp.[1]; b2 ← inp.[2]; b3 ← inp.[3];
  let expected_crc := le_val [b0; b1; b2; b3] in
  image ← unpack inp;
  Some (if crc32_bits image =? expected_crc then JumpTo image else IntegrityError).
