(* ===== verification/LimlzMatch.v ===== *)
(** The match finder of the packer: [saca] ends and yields a rearrangement of
    the positions, [lcp_bytes] the length of the common prefix, and
    [longest_matches] matches that can be copied. *)
From S2P Require Import Prelude LimlzPack.

(** ** Insertion sort implements the [qsort] interface *)

Section insertion_sort.
Variable cmp : Z → Z → option Z.

Lemma sorted_by_cons2 x y l :
  sorted_by cmp (x :: y :: l) ↔
  (∃ c, cmp x y = Some c ∧ c ≤ 0) ∧ sorted_by cmp (y :: l).
Proof.
  split.
  - intros Hs. split; [by apply (Hs 0)|].
    intros i a b Ha Hb. pose proof (arr_get_Some_lt _ _ _ Ha).
    apply (Hs (i + 1)).
    + rewrite (arr_get_app_r [x] (y :: l)) by (rewrite len_cons, len_nil; lia).
      rewrite <- Ha. f_equal. rewrite len_cons, len_nil. lia.
    + rewrite (arr_get_app_r [x] (y :: l)) by (rewrite len_cons, len_nil; lia).
      rewrite <- Hb. f_equal. rewrite len_cons, len_nil. lia.
  - intros [H0 Hs] i a b Ha Hb. pose proof (arr_get_Some_lt _ _ _ Ha).
    destruct (decide (i = 0)) as [->|].
    + by injection Ha as <-; injection Hb as <-.
    + apply (Hs (i - 1)).
      * rewrite (arr_get_app_r [x] (y :: l)) in Ha by (rewrite len_cons, len_nil; lia).
        by rewrite len_cons, len_nil in Ha.
      * rewrite (arr_get_app_r [x] (y :: l)) in Hb by (rewrite len_cons, len_nil; lia).
        rewrite len_cons, len_nil in Hb. rewrite <- Hb. f_equal. lia.
Qed.

Lemma sorted_by_nil : sorted_by cmp [].
Proof. intros i a b Ha%arr_get_Some_lt. len_lia. Qed.

Lemma sorted_by_1 x : sorted_by cmp [x].
Proof.
  intros i a b Ha Hb. apply arr_get_Some_lt in Ha, Hb.
  len_lia.
Qed.

Lemma insert_sorted_head x l l' y :
  insert_sorted cmp x l = Some (y :: l') → y = x ∨ ∃ l0, l = y :: l0.
Proof.
  destruct l as [|z l0]; simpl; [naive_solver|].
  destruct (cmp x z) as [c|]; simpl; [|done].
  case_match; [naive_solver|]. destruct (insert_sorted cmp x l0); naive_solver.
Qed.

Lemma insert_sorted_ok P x l :
  total_preorder P cmp → Forall P (x :: l) → sorted_by cmp l →
  returns (insert_sorted cmp x l) (λ l', l' ≡ₚ x :: l ∧ sorted_by cmp l').
Proof.
  intros Htp. induction l as [|y l IH]; simpl insert_sorted; intros Hall Hs.
  { apply returns_ret. split; [done|apply sorted_by_1]. }
  apply Forall_cons in Hall as [Hx [Hy Hl]%Forall_cons].
  destruct (tp_def _ _ Htp x y Hx Hy) as [c Hc]. rewrite Hc; simpl.
  destruct (Z.leb_spec c 0).
  { apply returns_ret. split; [done|]. apply sorted_by_cons2. eauto. }
  assert (sorted_by cmp l) as Hsl.
  { destruct l; [apply sorted_by_nil|by apply sorted_by_cons2 in Hs as [_ ?]]. }
  destruct (IH (Forall_cons_2 _ _ _ Hx Hl) Hsl) as (l' & Hl' & Hp & Hs'). rewrite Hl'; simpl.
  apply returns_ret. split.
  { rewrite Hp. apply Permutation_swap. }
  destruct l' as [|z l0]; [apply sorted_by_1|]. apply sorted_by_cons2. split; [|done].
  destruct (insert_sorted_head _ _ _ _ Hl') as [->|[l1 ->]].
  - destruct (tp_def _ _ Htp y x Hy Hx) as [d Hd]. exists d; split; [done|].
    destruct (tp_anti _ _ Htp x y c d Hx Hy Hc Hd); lia.
  - by apply sorted_by_cons2 in Hs as [? _].
Qed.

Lemma insertion_sort_ok l :
  total_preorder (λ x, x ∈ l) cmp →
  returns (insertion_sort cmp l) (λ l', l' ≡ₚ l ∧ sorted_by cmp l').
Proof.
  intros Htp.
  enough (∀ k, Forall (λ x, x ∈ l) k →
    returns (insertion_sort cmp k) (λ k', k' ≡ₚ k ∧ sorted_by cmp k')) as Hall.
  { apply Hall. by apply Forall_forall. }
  induction k as [|x k IH]; simpl; intros Hall.
  - apply returns_ret. split; [done|apply sorted_by_nil].
  - apply Forall_cons in Hall as [Hx Hk].
    eapply returns_bind; [by apply IH|]. simpl. intros k' [Hp Hs].
    eapply returns_weaken.
    + apply (insert_sorted_ok (λ x, x ∈ l)); [done| |done]. by rewrite Hp; constructor.
    + simpl. intros l' [Hp' ?]. split; [|done]. by rewrite Hp', Hp.
Qed.
End insertion_sort.

Definition insertion_qsort : Qsort :=
  {| qsort := insertion_sort; qsort_ok := insertion_sort_ok |}.

(** ** The order the suffix array realises

    [plt s k i j]: within [k] characters from each, the suffix of [s] at [i]
    is below that at [j], the end of [s] being below every byte. *)

Definition plt (s : list Z) (k i j : Z) : Prop :=
  ∃ t, 0 ≤ t < k ∧ (∀ u, 0 ≤ u < t → peek s (i + u) = peek s (j + u)) ∧
       peek s (i + t) < peek s (j + t).

(** [rank] orders the positions as [k] characters of their suffixes do. *)
Definition rank_ok (s : list Z) (k : Z) (rank : list Z) : Prop :=
  ∀ i j, 0 ≤ i < len s → 0 ≤ j < len s → peek rank i < peek rank j ↔ plt s k i j.

(** The key by which a pass of doubling compares two positions. *)
Definition klt (rank : list Z) (k i j : Z) : Prop :=
  peek rank i < peek rank j ∨
  peek rank i = peek rank j ∧ peek rank (i + k) < peek rank (j + k).

Lemma plt_1 s i j : plt s 1 i j ↔ peek s i < peek s j.
Proof.
  split.
  - intros (t & Ht & _ & Hlt). replace t with 0 in Hlt by lia. by rewrite !Z.add_0_r in Hlt.
  - intros. exists 0. rewrite !Z.add_0_r. split_and!; [lia|lia|intros; lia|done].
Qed.

Lemma plt_trichotomy s k i j :
  0 ≤ k →
  plt s k i j ∨ plt s k j i ∨ ∀ u, 0 ≤ u < k → peek s (i + u) = peek s (j + u).
Proof.
  intros Hk. revert k Hk. apply natlike_ind; [right; right; lia|].
  intros k Hk IH. rewrite <- Z.add_1_r.
  destruct IH as [(t & ? & ? & ?)|[(t & ? & ? & ?)|Heq]].
  - left. exists t. split_and!; try done; lia.
  - right; left. exists t. split_and!; try done; lia.
  - destruct (Z.lt_trichotomy (peek s (i + k)) (peek s (j + k))) as [?|[?|?]].
    + left. exists k. split_and!; [lia|lia|done|done].
    + right; right. intros u Hu. destruct (decide (u = k)) as [->|]; [done|]. apply Heq; lia.
    + right; left. exists k. split_and!; [lia|lia| |done]. intros u Hu. symmetry. by apply Heq.
Qed.

Lemma plt_asym s k i j : plt s k i j → plt s k j i → False.
Proof.
  intros (t & Ht & He & Hl) (t' & Ht' & He' & Hl').
  destruct (Z.lt_trichotomy t t') as [?|[->|?]].
  - rewrite He' in Hl by lia. lia.
  - lia.
  - rewrite He in Hl' by lia. lia.
Qed.

(** Two prefixes of [k] characters decide the order of [2 k] characters. *)
Lemma plt_double s k i j :
  0 < k →
  plt s (2 * k) i j ↔
  plt s k i j ∨ ¬ plt s k j i ∧ plt s k (i + k) (j + k).
Proof.
  intros Hk. split.
  - intros (t & Ht & He & Hl). destruct (decide (t < k)).
    + left. exists t. split_and!; try done; lia.
    + right. split.
      * intros (u & Hu & _ & Hlt). rewrite He in Hlt by lia. lia.
      * exists (t - k). split; [lia|]. split.
        -- intros u Hu. rewrite <- !Z.add_assoc. apply He. lia.
        -- by replace (i + k + (t - k)) with (i + t) by lia;
             replace (j + k + (t - k)) with (j + t) by lia.
  - intros [(t & ? & ? & ?)|[Hn (t & Ht & He & Hl)]].
    { exists t. split_and!; try done; lia. }
    destruct (plt_trichotomy s k i j) as [(t' & ? & ? & ?)|[?|Heq]]; [lia| |done|].
    { exists t'. split_and!; try done; lia. }
    exists (k + t). rewrite !Z.add_assoc. split_and!; [lia|lia| |done].
    intros u Hu. destruct (decide (u < k)); [apply Heq; lia|].
    replace (i + u) with (i + k + (u - k)) by lia.
    replace (j + u) with (j + k + (u - k)) by lia. apply He. lia.
Qed.

(** Past the end of [s] there is nothing but the end. *)
Lemma rank_ok_out s k rank i j :
  rank_ok s k rank → len rank = len s → all_below 256 s → all_below INT32_MAX rank → 0 < k →
  0 ≤ i → 0 ≤ j → peek rank i < peek rank j ↔ plt s k i j.
Proof.
  intros Hr Hlen Hs Hrb Hk Hi Hj.
  assert (∀ p, 0 ≤ p → -1 ≤ peek s p ∧ (len s ≤ p → peek s p = -1)) as Hps.
  { intros p Hp. destruct (decide (p < len s)); [specialize (Hs p); lia|].
    rewrite (peek_out s p) by lia. lia. }
  destruct (decide (j < len s)).
  - destruct (decide (i < len s)); [by apply Hr|].
    rewrite (peek_out rank i) by lia. split; [intros _|specialize (Hrb j); lia].
    exists 0. rewrite !Z.add_0_r. split_and!; [lia|lia|intros; lia|].
    rewrite (peek_out s i) by lia. specialize (Hs j). lia.
  - rewrite (peek_out rank j) by lia. split.
    + intros Hlt. exfalso. destruct (decide (i < len s)); [specialize (Hrb i); lia|].
      rewrite (peek_out rank i) in Hlt by lia. lia.
    + intros (t & Ht & _ & Hlt). pose proof (Hps (i + t) ltac:(lia)).
      rewrite (peek_out s (j + t)) in Hlt by lia. lia.
Qed.

Lemma klt_plt s k rank i j :
  rank_ok s k rank → len rank = len s → all_below 256 s → all_below INT32_MAX rank → 0 < k →
  0 ≤ i < len s → 0 ≤ j < len s → klt rank k i j ↔ plt s (2 * k) i j.
Proof.
  intros Hr Hlen Hs Hrb Hk Hi Hj. unfold klt. rewrite plt_double by done.
  rewrite (Hr i j Hi Hj), (rank_ok_out s k rank (i + k) (j + k)) by (done || lia).
  pose proof (Hr i j Hi Hj). pose proof (Hr j i Hj Hi).
  split; (intros [?|[? ?]]; [by left|]).
  - right. split; [|done]. intros Hc. apply H0 in Hc. lia.
  - destruct (Z.lt_trichotomy (peek rank i) (peek rank j)) as [?|[?|?]]; [naive_solver|naive_solver|].
    naive_solver.
Qed.

(** The end of [s] decides at the latest: more characters do not matter. *)
Lemma plt_weaken s k i j :
  all_below 256 s → 0 ≤ i < len s → 0 ≤ j < len s → plt s k i j → plt s (len s) i j.
Proof.
  intros Hs Hi Hj (t & Ht & He & Hl). exists t. split; [|done]. split; [lia|].
  destruct (decide (t < len s)); [done|]. exfalso.
  rewrite !peek_out in Hl by lia. lia.
Qed.

(** All suffixes differ within the length of [s]. *)
Lemma plt_total s k i j :
  all_below 256 s → len s ≤ k → 0 ≤ i < len s → 0 ≤ j < len s → i ≠ j →
  plt s k i j ∨ plt s k j i.
Proof.
  intros Hs Hk Hi Hj Hne.
  destruct (plt_trichotomy s k i j) as [?|[?|Heq]]; [lia|by left|by right|].
  exfalso. destruct (decide (i < j)).
  - specialize (Heq (len s - j)). rewrite (peek_out s (j + _)) in Heq by lia.
    specialize (Hs (i + (len s - j))). lia.
  - specialize (Heq (len s - i)). rewrite (peek_out s (i + _)) in Heq by lia.
    specialize (Hs (j + (len s - i))). lia.
Qed.

(** ** One pass of the doubling loop *)

Section pass.
Context `{Qsort}.
Variable n k : Z.
Hypothesis (Hn0 : 0 < n) (Hmax : n ≤ INT32_MAX).
Hypothesis (Hk : 0 < k < 2 ^ 32).

Lemma sa_cmp_idx_key rank i j :
  len rank = n → all_below INT32_MAX rank → 0 ≤ i < n → 0 ≤ j < n →
  ∃ c, sa_cmp_idx rank n k i j = Some c ∧ (c < 0 ↔ klt rank k i j) ∧ (0 < c ↔ klt rank k j i).
Proof.
  intros Hr Hb Hi Hj. unfold sa_cmp_idx, klt, INT32_MAX in *.
  assert (∀ p, 0 ≤ p → -1 ≤ peek rank p < 2147483647) as Hpk.
  { intros p Hp. destruct (decide (p < len rank)); [specialize (Hb p); lia|].
    rewrite peek_out by lia. lia. }
  assert (∀ p, 0 ≤ p < n → (if u64 (p + k) <? n then rank.[u64 (p + k)] else Some (-1))
                           = Some (peek rank (p + k))) as Hext.
  { intros p Hp. rewrite wrap_id by (unfold is_word; lia).
    destruct (Z.ltb_spec (p + k) n); [apply get_peek; lia|by rewrite peek_out by lia]. }
  assert (∀ a b, -1 ≤ a < 2147483647 → -1 ≤ b < 2147483647 → i32 (a - b) = a - b) as Hsub'.
  { intros. apply i32_id. lia. }
  rewrite (get_peek rank i), (get_peek rank j) by lia. simpl.
  destruct (Z.eqb_spec (peek rank i) (peek rank j)) as [Heq|Hne]; simpl.
  - rewrite !Hext by done. simpl. eexists; split; [done|].
    rewrite Hsub' by (apply Hpk; lia). lia.
  - eexists; split; [done|]. rewrite Hsub' by (apply Hpk; lia). lia.
Qed.

Lemma sa_qsort_cmp_preorder rank P :
  len rank = n → all_below INT32_MAX rank → (∀ x, P x → 0 ≤ x < n) →
  total_preorder P (sa_qsort_cmp rank n k).
Proof.
  intros Hr Hb HP.
  assert (∀ i j, P i → P j → ∃ c, sa_qsort_cmp rank n k i j = Some c ∧
            (c ≤ 0 ↔ ¬ klt rank k j i)) as Hc.
  { intros i j Hi Hj.
    destruct (sa_cmp_idx_key rank i j Hr Hb (HP _ Hi) (HP _ Hj)) as (c & Hc & ? & ?).
    unfold sa_qsort_cmp. rewrite Hc; simpl. eexists; split; [done|].
    destruct (Z.ltb_spec 0 c), (Z.ltb_spec c 0); simpl; intuition lia. }
  split.
  - intros a b Ha Hb'. destruct (Hc a b Ha Hb') as (c & -> & _). done.
  - intros a b c d Ha Hb' H1 H2.
    destruct (Hc a b Ha Hb') as (c' & Hc' & Hl), (Hc b a Hb' Ha) as (d' & Hd' & Hl').
    simplify_eq. unfold klt in *. lia.
  - intros a b c x y z Ha Hb' Hc0 H1 H2 H3.
    destruct (Hc a b Ha Hb') as (x' & Hx' & Hl), (Hc b c Hb' Hc0) as (y' & Hy' & Hl'),
      (Hc a c Ha Hc0) as (z' & Hz' & Hl'').
    simplify_eq. rewrite Hl, Hl', Hl''. unfold klt. lia.
Qed.

(** [tmp] numbers the first [m] elements of the sorted [sa] by their keys. *)
Definition tmp_ok (rank sa : list Z) (m : Z) (tmp : list Z) : Prop :=
  len tmp = n ∧
  ∀ p q, 0 ≤ p ≤ q → q < m →
    let a := peek tmp (peek sa p) in
    let b := peek tmp (peek sa q) in
    0 ≤ a ≤ p ∧ a ≤ b ≤ a + (q - p) ∧
    (a < b ↔ klt rank k (peek sa p) (peek sa q)) ∧
    ¬ klt rank k (peek sa q) (peek sa p).

Lemma klt_irrefl rank i : ¬ klt rank k i i.
Proof. unfold klt. lia. Qed.

Lemma tmp_step rank sa m tmp :
  len rank = n → all_below INT32_MAX rank →
  sa ≡ₚ seqZ 0 n → sorted_by (sa_qsort_cmp rank n k) sa →
  1 ≤ m < n → tmp_ok rank sa m tmp →
  returns (a ← sa.[m - 1]; b ← sa.[m]; ta ← tmp.[a]; c ← sa_cmp_idx rank n k a b;
           tmp.[b <- i32 (ta + b2z (c <? 0))]) (tmp_ok rank sa (m + 1)).
Proof.
  intros Hr Hb Hperm Hsort Hm [Hlt Hok].
  destruct (seqZ_perm_get sa n Hperm) as (Hlsa & Hsb & _ & Hinj); [lia|].
  pose proof (Hsb (m - 1) ltac:(lia)). pose proof (Hsb m ltac:(lia)).
  rewrite (get_peek sa (m - 1)), (get_peek sa m) by lia. simpl.
  rewrite get_peek by lia. simpl.
  destruct (sa_cmp_idx_key rank (peek sa (m - 1)) (peek sa m)) as (c & Hc & Hcl & Hcg);
    [done|done|done|done|].
  rewrite Hc. simpl.
  assert (¬ klt rank k (peek sa m) (peek sa (m - 1))) as Hnk.
  { destruct (Hsort (m - 1) (peek sa (m - 1)) (peek sa m)) as (d & Hd & Hd0);
      [apply get_peek; lia|replace (m - 1 + 1) with m by lia; apply get_peek; lia|].
    unfold sa_qsort_cmp in Hd. rewrite Hc in Hd. simpl in Hd. simplify_eq.
    destruct (Z.ltb_spec 0 c), (Z.ltb_spec c 0); simpl in *; intuition lia. }
  pose proof (Hok (m - 1) (m - 1) ltac:(lia) ltac:(lia)) as (Hprev & _).
  unfold INT32_MAX in *.
  rewrite i32_id by (destruct (c <? 0); simpl; lia).
  apply returns_set; [lia|]. intros tmp' Hset Hlen'. split; [lia|].
  assert (∀ p, 0 ≤ p < m → peek tmp' (peek sa p) = peek tmp (peek sa p)) as Hold.
  { intros p Hp. rewrite (peek_set _ _ _ _ _ Hset), decide_False; [done|].
    intros Heq%Hinj; lia. }
  assert (peek tmp' (peek sa m) = peek tmp (peek sa (m - 1)) + b2z (c <? 0)) as Hnew.
  { by rewrite (peek_set _ _ _ _ _ Hset), decide_True. }
  intros p q Hpq Hq. simpl.
  destruct (decide (q = m)) as [->|]; [|rewrite !Hold by lia; apply Hok; lia].
  rewrite Hnew. destruct (decide (p = m)) as [->|].
  - rewrite Hnew. destruct (Z.ltb_spec c 0); simpl;
      (split_and!; [lia|lia|lia|lia| |apply klt_irrefl]);
      pose proof (klt_irrefl rank (peek sa m)); intuition lia.
  - rewrite Hold by lia. destruct (Hok p (m - 1)) as (? & ? & ? & ?); [lia|lia|].
    unfold klt in *. destruct (Z.ltb_spec c 0); simpl; lia.
Qed.

(** Once all of [sa] is numbered, the numbers order the positions by key. *)
Lemma tmp_ok_all rank sa tmp :
  sa ≡ₚ seqZ 0 n → tmp_ok rank sa n tmp →
  all_below n tmp ∧
  ∀ i j, 0 ≤ i < n → 0 ≤ j < n → peek tmp i < peek tmp j ↔ klt rank k i j.
Proof.
  intros Hperm [Hlt Hok].
  destruct (seqZ_perm_get sa n Hperm) as (Hlsa & Hsb & Hsurj & _); [lia|].
  split.
  - intros i Hi. destruct (Hsurj i) as (p & Hp & <-); [lia|].
    destruct (Hok p p) as [? _]; lia.
  - intros i j Hi Hj. destruct (Hsurj i) as (p & Hp & <-); [lia|].
    destruct (Hsurj j) as (q & Hq & <-); [lia|].
    destruct (decide (p ≤ q)).
    + apply (Hok p q); lia.
    + destruct (Hok q p) as (? & ? & ? & ?); [lia|lia|]. split; [lia|naive_solver].
Qed.

Lemma copy_rank rank tmp :
  len rank = n → len tmp = n →
  returns (for_range 0 n (λ i (rank : list Z), t ← tmp.[i]; rank.[i <- t]) rank) (eq tmp).
Proof.
  intros Hr Ht.
  eapply returns_weaken.
  - apply (for_range_inv (λ m l, len l = n ∧ ∀ j, 0 ≤ j < m → l.[j] = tmp.[j])); [lia|split; [done|lia]|].
    intros i l Hi [Hl Hj]. rewrite (get_peek tmp i) by lia. simpl.
    apply returns_set; [lia|]. intros l' Hset Hl'. split; [lia|].
    intros j Hj'. rewrite (arr_get_set _ _ _ _ _ Hset). case_decide; [subst|apply Hj; lia].
    symmetry. apply get_peek. lia.
  - simpl. intros l [Hl Hj]. symmetry. apply arr_ext; [lia|]. intros; apply Hj; lia.
Qed.

(** The arrays of [saca] as every pass finds and leaves them. *)
Definition sa_inv (st : sa_state) : Prop :=
  sa_sa st ≡ₚ seqZ 0 n ∧ len (sa_rank st) = n ∧ len (sa_tmp st) = n ∧
  all_below INT32_MAX (sa_rank st).

Lemma saca_pass_ok st :
  sa_inv st →
  returns (saca_pass n k st) (λ st', sa_inv st' ∧ tmp_ok (sa_rank st) (sa_sa st') n (sa_rank st')).
Proof.
  intros (Hperm & Hr & Ht & Hb). unfold saca_pass.
  eapply returns_bind.
  { apply qsort_ok, sa_qsort_cmp_preorder; [done|done|].
    intros x. rewrite Hperm, elem_of_seqZ. lia. }
  simpl. intros sa [Hperm' Hsort]. rewrite Hperm in Hperm'.
  destruct (seqZ_perm_get sa n Hperm') as (Hlsa & Hsb & _ & _); [lia|].
  rewrite (get_peek sa 0) by lia. simpl.
  eapply returns_bind; [apply (returns_set _ _ _ (tmp_ok (sa_rank st) sa 1))|].
  { specialize (Hsb 0). lia. }
  { intros tmp' Hset Hlen. split; [lia|]. intros p q Hp Hq.
    replace p with 0 by lia. replace q with 0 by lia. simpl.
    rewrite (peek_set _ _ _ _ _ Hset), decide_True by done.
    split_and!; [lia|lia|lia|lia| |apply klt_irrefl].
    pose proof (klt_irrefl (sa_rank st) (peek sa 0)). intuition lia. }
  simpl. intros tmp Htmp. eapply returns_bind.
  { apply (for_range_inv (λ m, tmp_ok (sa_rank st) sa m)); [lia|done|].
    intros m tmp' Hm Hok. by apply tmp_step. }
  simpl. intros tmp' Hok. pose proof Hok as [Htl _].
  eapply returns_bind; [by apply copy_rank|]. simpl. intros rank' <-.
  apply returns_ret. simpl. split; [|done].
  split_and!; [done|done|done|]. simpl.
  destruct (tmp_ok_all _ _ _ Hperm' Hok) as [Hbn _].
  intros i Hi. specialize (Hbn i Hi). lia.
Qed.
End pass.

(** ** The whole construction *)

Section saca_ok.
Context `{Qsort}.
Variable s : list Z.
Hypothesis (Hbytes : is_bytes s) (Hmax : 0 < len s ≤ INT32_MAX).

(** The arrays between two passes, [rank] holding [k]-character ranks. *)
Definition saca_inv (kst : Z * sa_state) : Prop :=
  let '(k, st) := kst in
  sa_inv (len s) st ∧ 0 < k ∧ (k = 1 ∨ k < len s) ∧ rank_ok s k (sa_rank st).

Definition suffix_sorted (sa : list Z) : Prop :=
  sa ≡ₚ seqZ 0 (len s) ∧
  ∀ p q, 0 ≤ p < q → q < len s → plt s (len s) (peek sa p) (peek sa q).

Lemma saca_init_ok st :
  len (sa_sa st) = len s → len (sa_rank st) = len s → len (sa_tmp st) = len s →
  returns (saca_init s (len s) st) (λ st', saca_inv (1, st')).
Proof.
  intros Ha Hr Ht. unfold saca_init. eapply returns_weaken.
  - apply (for_range_inv (λ m st, len (sa_sa st) = len s ∧ len (sa_rank st) = len s ∧
      len (sa_tmp st) = len s ∧
      ∀ j, 0 ≤ j < m → (sa_sa st).[j] = Some j ∧ (sa_rank st).[j] = s.[j])); [lia| |].
    { split_and!; try done; lia. }
    intros i st' Hi (Ha' & Hr' & Ht' & Hj). rewrite (get_peek s i) by lia. simpl.
    apply returns_bind_set; [lia|]. intros sa Hset Hls.
    apply returns_bind_set; [lia|]. intros rank Hset' Hlr.
    apply returns_ret. simpl. split_and!; [lia|lia|done|].
    intros j Hjj. rewrite (arr_get_set _ _ _ _ _ Hset), (arr_get_set _ _ _ _ _ Hset').
    case_decide; [subst; by rewrite get_peek by lia|apply Hj; lia].
  - simpl. intros st' (Ha' & Hr' & Ht' & Hj).
    assert (sa_rank st' = s) as Hrs.
    { apply arr_ext; [done|]. intros i Hi. apply Hj. lia. }
    assert (sa_sa st' = seqZ 0 (len s)) as Hsa.
    { apply list_eq. intros i. destruct (decide (Z.of_nat i < len s)).
      - rewrite <- arr_get_lookup. destruct (Hj (Z.of_nat i)) as [-> _]; [lia|].
        symmetry. apply lookup_seqZ. lia.
      - rewrite !lookup_ge_None_2; [done| |]; [rewrite length_seqZ|]; unfold len in *; lia. }
    split; [|split; [lia|split; [by left|]]].
    + split_and!; [by rewrite Hsa|done|done|]. rewrite Hrs. intros i Hi.
      pose proof (all_below_bytes _ Hbytes i Hi). unfold INT32_MAX. lia.
    + rewrite Hrs. intros i j Hi Hjj. by rewrite plt_1.
Qed.

(** When the keys tell all positions apart the last number is [n - 1], and
    only then. *)
Lemma tmp_last k rank sa tmp :
  tmp_ok (len s) k rank sa (len s) tmp →
  peek tmp (peek sa (len s - 1)) = len s - 1 ↔
  ∀ p q, 0 ≤ p < q → q < len s → klt rank k (peek sa p) (peek sa q).
Proof.
  intros [_ Hok]. split.
  - intros Hlast p q Hp Hq.
    destruct (Hok p q) as (? & ? & Hlt & _); [lia|lia|]. apply Hlt.
    destruct (Hok q (len s - 1)) as (? & ? & _ & _); [lia|lia|].
    destruct (Hok p q); lia.
  - intros Hall. assert (∀ p, 0 ≤ p → p < len s → p ≤ peek tmp (peek sa p)) as Hge.
    { apply (natlike_ind (λ p, p < len s → p ≤ peek tmp (peek sa p))).
      - intros. destruct (Hok 0 0); lia.
      - intros p Hp IH Hlt. specialize (IH ltac:(lia)).
        destruct (Hok p (Z.succ p)) as (_ & _ & Hk & _); [lia|lia|].
        apply (proj2 Hk) in Hall; [|lia|lia]. lia. }
    specialize (Hge (len s - 1)). destruct (Hok (len s - 1) (len s - 1)); lia.
Qed.

Lemma saca_step_ok k st :
  saca_inv (k, st) →
  returns (saca_step (len s) (k, st)) (λ r, match r with
    | inl (k', st') => saca_inv (k', st') ∧ k < k' ∧ k < len s
    | inr st' => suffix_sorted (sa_sa st')
    end).
Proof.
  intros (Hinv & Hk & Hk1 & Hrank). unfold saca_step. pose proof Hinv as (Hperm & Hr & _ & Hb).
  assert (k < 2 ^ 31) by (unfold INT32_MAX in *; lia).
  eapply returns_bind; [apply saca_pass_ok; [lia|lia|lia|done]|].
  simpl. intros st' [Hinv' Hok]. pose proof Hinv' as (Hperm' & Hr' & _ & Hb').
  destruct (seqZ_perm_get _ _ Hperm') as (Hlsa & Hsb & _ & Hinj); [lia|].
  pose proof (Hsb (len s - 1) ltac:(lia)) as Hlast.
  rewrite (get_peek (sa_sa st')) by lia. simpl. rewrite (get_peek (sa_rank st')) by lia. simpl.
  edestruct (tmp_ok_all (len s) k) as [Hbn Hkey]; [lia|lia|exact Hperm'|exact Hok|].
  assert (rank_ok s (2 * k) (sa_rank st')) as Hrank'.
  { intros i j Hi Hj. rewrite Hkey by done. apply klt_plt; try done.
    by apply all_below_bytes. }
  pose proof (Hbn (peek (sa_sa st') (len s - 1)) ltac:(lia)) as Hbl.
  unfold INT32_MAX in *. rewrite u64_id by lia.
  assert (∀ p q, 0 ≤ p < len s → 0 ≤ q < len s → klt (sa_rank st) k (peek (sa_sa st') p) (peek (sa_sa st') q)
     ↔ plt s (2 * k) (peek (sa_sa st') p) (peek (sa_sa st') q)) as Hkp.
  { intros p q Hp Hq. apply klt_plt; try done; [by apply all_below_bytes|apply Hsb; lia|apply Hsb; lia]. }
  pose proof (tmp_last _ _ _ _ Hok) as Htl.
  destruct (Z.eqb_spec (peek (sa_rank st') (peek (sa_sa st') (len s - 1))) (len s - 1)) as [Heq|Hne];
    apply returns_ret.
  - split; [done|]. intros p q Hp Hq. apply (plt_weaken s (2 * k)); [by apply all_below_bytes| | |].
    1-2: apply Hsb; lia.
    apply Hkp; [lia|lia|]. by apply Htl.
  - assert (2 * k < len s) as Hlt.
    { destruct (decide (2 * k < len s)) as [|Hge]; [done|]. exfalso. apply Hne, Htl.
      intros p q Hp Hq. apply Hkp; [lia|lia|].
      destruct (plt_total s (2 * k) (peek (sa_sa st') p) (peek (sa_sa st') q)) as [?|Hgt];
        try done; [by apply all_below_bytes|lia|apply Hsb; lia|apply Hsb; lia| |].
      - intros ?%Hinj; lia.
      - exfalso. destruct Hok as [_ Hok]. destruct (Hok p q) as (_ & _ & _ & Hnk); [lia|lia|].
        apply Hnk, Hkp; [lia|lia|done]. }
    rewrite Z.shiftl_mul_pow2, u64_id by lia. change (2 ^ 1) with 2. rewrite Z.mul_comm.
    split_and!; try done; lia.
Qed.

(** [saca] ends, within [n + 1] passes, and sorts the suffixes. *)
Lemma saca_ok st :
  len (sa_sa st) = len s → len (sa_rank st) = len s → len (sa_tmp st) = len s →
  returns (saca (Z.to_nat (len s) + 1) s (len s) st) (λ st', suffix_sorted (sa_sa st')).
Proof.
  intros Ha Hr Ht. unfold saca. destruct (Z.eqb_spec (len s) 0); [lia|].
  eapply returns_bind; [by apply saca_init_ok|]. simpl. intros st' Hinv.
  apply (loop_inv saca_inv _ (λ '(k, _), Z.to_nat (len s - k))); [|done|lia].
  intros [k st''] Hs. eapply returns_weaken; [by apply saca_step_ok|].
  intros [[k' st3]|?]; simpl; [|done]. intros (? & ? & ?). split; [done|lia].
Qed.
End saca_ok.

(** ** Matches *)

(** A match of [len] bytes at distance [off] that the unpacker can copy when
    it has written the first [i] bytes. *)
Definition match_ok (src : list Z) (i : Z) (mc : match_choice) : Prop :=
  mc = MC 0 0 ∨
  4 ≤ m_len mc ∧ 1 ≤ m_off mc ≤ 65535 ∧ m_off mc ≤ i ∧ i + m_len mc ≤ len src ∧
  ∀ t, 0 ≤ t < m_len mc → peek src (i + t) = peek src (i - m_off mc + t).

(** [lcp_bytes] is the length of the longest common prefix. *)
Lemma lcp_bytes_ok s i j :
  0 ≤ i < len s → 0 ≤ j < len s →
  returns (lcp_bytes (Z.to_nat (len s) + 1) s (len s) i j) (λ l,
    0 ≤ l ≤ len s - Z.max i j ∧
    (∀ t, 0 ≤ t < l → peek s (i + t) = peek s (j + t)) ∧
    (l < len s - Z.max i j → peek s (i + l) ≠ peek s (j + l))).
Proof.
  intros Hi Hj. unfold lcp_bytes.
  replace (if j <? i then i else j) with (Z.max i j) by (destruct (Z.ltb_spec j i); lia).
  set (m := len s - Z.max i j).
  apply (loop_inv (λ l, 0 ≤ l ≤ m ∧ ∀ t, 0 ≤ t < l → peek s (i + t) = peek s (j + t))
           _ (λ l, Z.to_nat (m - l))); [|split; lia|lia].
  intros l [Hl Heq]. destruct (Z.ltb_spec l m) as [Hlm|].
  - rewrite (get_peek s (i + l)), (get_peek s (j + l)) by lia. simpl.
    destruct (Z.eqb_spec (peek s (i + l)) (peek s (j + l))); apply returns_ret.
    + split; [|lia]. split; [lia|]. intros t Ht.
      destruct (decide (t = l)) as [->|]; [done|]. apply Heq; lia.
    + split_and!; try done; lia.
  - apply returns_ret. split_and!; try done; lia.
Qed.

Section matches.
Context `{Qsort}.
Variable src : list Z.
Hypothesis (Hbytes : is_bytes src) (Hmax : 0 < len src ≤ INT32_MAX).

(** What the scan over the neighbours keeps. *)
Definition best_ok (i : Z) (best : Z * Z) : Prop :=
  let '(best_len, best_off) := best in
  best = (0, 0) ∨
  0 ≤ best_len ∧ 1 ≤ best_off ≤ 65535 ∧ best_off ≤ i ∧ i + best_len ≤ len src ∧
  ∀ t, 0 ≤ t < best_len → peek src (i + t) = peek src (i - best_off + t).

Lemma neighbor_ok sa i r d best :
  sa ≡ₚ seqZ 0 (len src) → 0 ≤ i < len src → best_ok i best →
  returns (neighbor src sa (len src) i r d best) (best_ok i).
Proof.
  intros Hperm Hi Hbest. destruct best as [bl bo]. unfold neighbor.
  destruct (seqZ_perm_get _ _ Hperm) as (Hlsa & Hsb & _ & _); [lia|].
  destruct (Z.eqb_spec d 0); [by apply returns_ret|].
  destruct (Z.ltb_spec (r + d) 0); [by apply returns_ret|].
  destruct (Z.leb_spec (len src) (r + d)); [by apply returns_ret|]. simpl.
  rewrite (get_peek sa) by lia. simpl.
  pose proof (Hsb (r + d) ltac:(lia)) as Hj. set (j := peek sa (r + d)) in *.
  destruct (Z.leb_spec i j); [by apply returns_ret|].
  destruct (Z.eqb_spec (i - j) 0); [by apply returns_ret|].
  destruct (Z.ltb_spec 65535 (i - j)); [by apply returns_ret|]. simpl.
  eapply returns_bind; [apply lcp_bytes_ok; lia|]. simpl.
  intros l (Hl & Heq & _).
  destruct (Z.ltb_spec bl l); [|by apply returns_ret]. apply returns_ret.
  rewrite u16_id by lia. right. split_and!; try lia.
  intros t Ht. replace (i - (i - j) + t) with (j + t) by lia. by apply Heq.
Qed.

Lemma best_neighbor_ok sa inv i :
  sa ≡ₚ seqZ 0 (len src) → len inv = len src → 0 ≤ i < len src →
  returns (best_neighbor src sa inv (len src) i) (best_ok i).
Proof.
  intros Hperm Hinv Hi. unfold best_neighbor. apply returns_bind_get; [lia|].
  intros r _. apply (for_range_inv (λ _, best_ok i)); [done|by left|].
  intros. by apply neighbor_ok.
Qed.

Definition matches_ok (m : Z) (mch : list match_choice) : Prop :=
  len mch = len src ∧ ∀ i mc, 0 ≤ i < m → mch.[i] = Some mc → match_ok src i mc.

Lemma longest_matches_ok junk mch0 :
  len mch0 = len src →
  returns (longest_matches true junk src (len src) mch0) (λ r, match r with
    | inl _ => False
    | inr mch => matches_ok (len src) mch
    end).
Proof.
  intros Hl0. unfold longest_matches. destruct (Z.eqb_spec (len src) 0); [lia|]. simpl.
  assert (len (malloc junk (len src)) = len src) as Hml.
  { unfold malloc. len_lia. }
  eapply returns_bind; [by apply saca_ok|]. simpl. intros st [Hperm _].
  destruct (seqZ_perm_get _ _ Hperm) as (Hlsa & Hsb & _ & _); [lia|].
  eapply returns_bind.
  { apply (for_range_inv (λ _ inv, len inv = len src)); [lia|done|].
    intros i inv Hi Hinv. rewrite (get_peek (sa_sa st)) by lia. simpl.
    pose proof (Hsb i ltac:(lia)).
    apply returns_set; [lia|]. intros; lia. }
  simpl. intros inv Hinv. eapply returns_bind.
  { apply (for_range_inv (λ m mch, matches_ok m mch)); [lia|split; [done|lia]|].
    intros i mch Hi [Hlm Hm].
    eapply returns_bind; [by apply (best_neighbor_ok (sa_sa st))|]. simpl. intros [bl bo] Hb.
    assert (∀ mc, match_ok src i mc → returns mch.[i <- mc] (matches_ok (i + 1))) as Hset.
    { intros mc Hmc. apply returns_set; [lia|]. intros mch' Hset Hl'. split; [lia|].
      intros j mc' Hj. rewrite (arr_get_set _ _ _ _ _ Hset).
      case_decide; [by intros [= <-]; subst|]. apply Hm. lia. }
    destruct (Z.leb_spec 4 bl); apply Hset; [|by left].
    destruct Hb as [[= -> ->]|(? & ? & ? & ? & ?)]; [lia|]. unfold INT32_MAX in *.
    right. simpl. rewrite u32_id by lia. done. }
  simpl. intros mch Hm. by apply returns_ret.
Qed.
End matches.
