(* ===== verification/LimlzParse.v ===== *)
(** The parse of the packer: the backward dynamic programme finds a cheapest
    encoding among all sequences of literal runs and matches the token format
    can express, and says so when there is none. *)
From S2P Require Import Prelude LimlzPack LimlzMatch.

(** ** Scans that keep the cheapest candidate *)

Lemma scan_min {S} (cost : S → Z) (cand : Z → option S) lo hi body init :
  (∀ i s, lo ≤ i < hi →
    body i s = Some (match cand i with
                     | Some s' => if cost s' <? cost s then s' else s
                     | None => s
                     end)) →
  lo ≤ hi →
  returns (for_range lo hi body init) (λ s,
    (s = init ∨ ∃ i, lo ≤ i < hi ∧ cand i = Some s ∧ cost s < cost init) ∧
    cost s ≤ cost init ∧ ∀ i s', lo ≤ i < hi → cand i = Some s' → cost s ≤ cost s').
Proof.
  intros Hbody Hle.
  apply (for_range_inv (λ m s,
    (s = init ∨ ∃ i, lo ≤ i < m ∧ cand i = Some s ∧ cost s < cost init) ∧
    cost s ≤ cost init ∧ ∀ i s', lo ≤ i < m → cand i = Some s' → cost s ≤ cost s')); [done| |].
  { split_and!; [by left|done|lia]. }
  intros i s Hi (Hwhich & Hinit & Hmin). rewrite Hbody by done. apply returns_ret.
  destruct (cand i) as [s'|] eqn:Hc.
  - destruct (Z.ltb_spec (cost s') (cost s)).
    + split_and!; [right; exists i; split_and!; [lia|lia|done|lia]|lia|].
      intros j s'' Hj Hc'. destruct (decide (j = i)) as [->|]; [simplify_eq; lia|].
      specialize (Hmin j s'' ltac:(lia) Hc'). lia.
    + split_and!; [|done|].
      * destruct Hwhich as [?|(j & ? & ? & ?)]; [by left|]. right. exists j. split_and!; try done; lia.
      * intros j s'' Hj Hc'. destruct (decide (j = i)) as [->|]; [simplify_eq; lia|].
        apply (Hmin j); [lia|done].
  - split_and!; [|done|].
    + destruct Hwhich as [?|(j & ? & ? & ?)]; [by left|]. right. exists j. split_and!; try done; lia.
    + intros j s'' Hj Hc'. destruct (decide (j = i)) as [->|]; [simplify_eq|].
      apply (Hmin j); [lia|done].
Qed.

(** ** The encodings of a suffix and their cost *)

(** The bytes of a token with [lit] literals, and those of a match. *)
Definition lit_cost (lit : Z) : Z := 1 + lit + b2z (15 <=? lit).
Definition match_cost (off ml : Z) : Z := (if 255 <? off then 2 else 1) + b2z (7 <=? ml - 4).

Section parse.
Variable src : list Z.
Variable mch : list match_choice.
#[local] Notation n := (len src).

(** [parse i c]: the suffix at [i] has an encoding of [c] bytes, the token a
    parse that ends on a match is followed by not counted. *)
Inductive parse : Z → Z → Prop :=
  | parse_done : parse n 0
  | parse_tail i : 0 ≤ i < n → n - i ≤ 270 → parse i (lit_cost (n - i))
  | parse_match i j mc ml c :
      0 ≤ i ≤ j → j < n → j - i ≤ 270 → mch.[j] = Some mc →
      4 ≤ ml ≤ 266 → ml ≤ m_len mc → parse (j + ml) c →
      parse i (lit_cost (j - i) + (match_cost (m_off mc) ml + c)).

Hypothesis Hmch : matches_ok src n mch.
Hypothesis Hmax : 0 < n ≤ INT32_MAX.

Lemma mch_len j mc : mch.[j] = Some mc → 4 ≤ m_len mc →
  0 ≤ j ∧ j + m_len mc ≤ n ∧ 1 ≤ m_off mc ≤ 65535 ∧ m_off mc ≤ j ∧
  ∀ t, 0 ≤ t < m_len mc → peek src (j + t) = peek src (j - m_off mc + t).
Proof.
  intros Hj Hl. destruct Hmch as [Hlm Hm]. pose proof (arr_get_Some_lt _ _ _ Hj).
  destruct (Hm j mc) as [->|(? & ? & ? & ? & ?)]; [lia|done|simpl in *; lia|].
  split_and!; try done; lia.
Qed.

Lemma parse_range i c : parse i c → 0 ≤ i ≤ n ∧ 0 ≤ c ≤ 2 * (n - i) ∧ (i < n → 2 ≤ c).
Proof.
  induction 1 as [|i Hi Hle|i j mc ml c Hij Hjn Hlit Hj Hml Hle Hp IH];
    unfold lit_cost, match_cost.
  - pose proof (len_nonneg src). lia.
  - destruct (Z.leb_spec 15 (n - i)); cbn [b2z]; lia.
  - destruct (mch_len j mc Hj) as (? & ? & ? & _); [lia|].
    destruct (Z.leb_spec 15 (j - i)), (Z.ltb_spec 255 (m_off mc)), (Z.leb_spec 7 (ml - 4));
      cbn [b2z]; lia.
Qed.

(** An encoding never needs twice the input, from two bytes on. *)
Lemma parse_slack i c : parse i c → i + 2 ≤ n → c + 1 ≤ 2 * (n - i).
Proof.
  inversion 1 as [|i' Hi Hle|i' j mc ml c' Hij Hjn Hlit Hj Hml Hle Hp]; subst; unfold lit_cost, match_cost.
  - lia.
  - destruct (Z.leb_spec 15 (n - i)); cbn [b2z]; lia.
  - destruct (mch_len j mc Hj) as (_ & ? & _); [lia|]. apply parse_range in Hp.
    destruct (Z.leb_spec 15 (j - i)), (Z.ltb_spec 255 (m_off mc)), (Z.leb_spec 7 (ml - 4));
      cbn [b2z]; lia.
Qed.

(** [dp[k]] is the cost of a cheapest encoding, or [SIZE_MAX]. *)
Definition cost_ok (dp : list Z) (k : Z) : Prop :=
  (peek dp k = SIZE_MAX ∧ ∀ c, ¬ parse k c) ∨
  (parse k (peek dp k) ∧ ∀ c, parse k c → peek dp k ≤ c).

Lemma cost_fin dp k : cost_ok dp k → peek dp k ≠ SIZE_MAX →
  parse k (peek dp k) ∧ ∀ c, parse k c → peek dp k ≤ c.
Proof. intros [[? _]|?]; done. Qed.

Lemma cost_small dp k : cost_ok dp k → peek dp k ≠ SIZE_MAX →
  0 ≤ peek dp k ≤ 4294967294 ∧ k ≤ n.
Proof.
  intros Hok Hf. destruct (cost_fin _ _ Hok Hf) as [Hp _].
  apply parse_range in Hp. unfold INT32_MAX in *. lia.
Qed.

(** [bestm[j]]: the cheapest continuation of [j] by a match. *)
Definition bestm_ok (dp : list Z) (j : Z) (bm : match_choice) : Prop :=
  ∃ mc, mch.[j] = Some mc ∧
  ((bm = MC 0 0 ∧ ∀ ml, 4 ≤ ml ≤ 266 → ml ≤ m_len mc → peek dp (j + ml) = SIZE_MAX) ∨
   (4 ≤ m_len bm ≤ 266 ∧ m_len bm ≤ m_len mc ∧ m_off bm = m_off mc ∧
    peek dp (j + m_len bm) ≠ SIZE_MAX ∧
    ∀ ml, 4 ≤ ml ≤ 266 → ml ≤ m_len mc → peek dp (j + ml) ≠ SIZE_MAX →
      match_cost (m_off mc) (m_len bm) + peek dp (j + m_len bm) ≤
      match_cost (m_off mc) ml + peek dp (j + ml))).

(** [pick[k]]: the choice that [dp[k]] is the cost of. *)
Definition pick_ok (dp : list Z) (k : Z) (pc : parse_choice) : Prop :=
  peek dp k ≠ SIZE_MAX →
  (p_lit pc = n - k ∧ n - k ≤ 270 ∧ peek dp k = lit_cost (n - k)) ∨
  (∃ mc, 0 ≤ p_lit pc ≤ 270 ∧ k + p_lit pc < n ∧ mch.[k + p_lit pc] = Some mc ∧
    4 ≤ p_mlen pc ≤ 266 ∧ p_mlen pc ≤ m_len mc ∧ p_off pc = m_off mc ∧
    peek dp (k + p_lit pc + p_mlen pc) ≠ SIZE_MAX ∧
    peek dp k = lit_cost (p_lit pc) + (match_cost (m_off mc) (p_mlen pc) +
                peek dp (k + p_lit pc + p_mlen pc))).

(** The arrays when positions [i] and up are done. *)
Definition dp_inv (i : Z) (st : dp_state) : Prop :=
  len (dp_cost st) = n + 1 ∧ len (dp_pick st) = n + 1 ∧ len (dp_best st) = n ∧
  (∀ k, i ≤ k ≤ n → cost_ok (dp_cost st) k) ∧
  (∀ k bm, i ≤ k → (dp_best st).[k] = Some bm → bestm_ok (dp_cost st) k bm) ∧
  (∀ k pc, i ≤ k < n → (dp_pick st).[k] = Some pc → pick_ok (dp_cost st) k pc).

Lemma best_match_ok dp i mc :
  0 ≤ i < n → len dp = n + 1 → (∀ k, i < k ≤ n → cost_ok dp k) →
  mch.[i] = Some mc → returns (best_match dp mc i n) (bestm_ok dp i).
Proof.
  intros Hi Hlen Hdp Hmc. unfold best_match.
  destruct (Z.leb_spec 4 (m_len mc)) as [H4|]; [|apply returns_ret].
  2: { exists mc. split; [done|]. left. split; [done|lia]. }
  destruct (mch_len i mc Hmc H4) as (_ & Hin & Hoff & _).
  set (lim0 := if 266 <? m_len mc then 266 else m_len mc).
  assert (lim0 = Z.min 266 (m_len mc)) as Hlim0 by (unfold lim0; destruct (Z.ltb_spec 266 (m_len mc)); lia).
  unfold INT32_MAX in *. rewrite u64_id by lia.
  destruct (Z.ltb_spec n (i + lim0)); [lia|].
  set (ob := if 255 <? m_off mc then 2 else 1).
  set (cand := λ ml, if peek dp (i + ml) =? SIZE_MAX then None
                     else Some (match_cost (m_off mc) ml + peek dp (i + ml), ml)).
  eapply returns_bind.
  - apply (scan_min fst cand); [|lia]. intros ml [mcost mlen] Hml.
    rewrite (get_peek dp) by lia. simpl. unfold cand.
    destruct (Z.eqb_spec (peek dp (i + ml)) SIZE_MAX) as [|Hfin]; [done|].
    pose proof (cost_small dp (i + ml) (Hdp (i + ml) ltac:(lia)) Hfin).
    unfold match_cost. fold ob. cbn [fst]. rewrite u32_id by lia.
    rewrite u64_id by (unfold ob; destruct (255 <? m_off mc), (7 <=? ml - 4); cbn [b2z]; lia).
    by destruct (_ <? mcost).
  - simpl. intros [mcost mlen] (Hwhich & _ & Hmin). apply returns_ret. exists mc. split; [done|].
    unfold cand in *. destruct Hwhich as [[= -> ->]|(ml & Hml & Hc & Hlt)].
    + left. split; [done|]. intros ml Hml Hle.
      destruct (Z.eqb_spec (peek dp (i + ml)) SIZE_MAX) as [|Hfin]; [done|]. exfalso.
      pose proof (cost_small dp (i + ml) (Hdp (i + ml) ltac:(lia)) Hfin).
      specialize (Hmin ml (match_cost (m_off mc) ml + peek dp (i + ml), ml) ltac:(lia)).
      rewrite (proj2 (Z.eqb_neq _ _) Hfin) in Hmin. specialize (Hmin eq_refl). simpl in Hmin.
      unfold match_cost, SIZE_MAX in Hmin. destruct (255 <? m_off mc), (7 <=? ml - 4); cbn [b2z] in *; lia.
    + destruct (Z.eqb_spec (peek dp (i + ml)) SIZE_MAX) as [|Hfin]; [done|].
      injection Hc as <- <-. destruct (Z.eqb_spec ml 0); [lia|]. right. simpl.
      split_and!; try done; try lia. intros ml' Hml' Hle Hfin'.
      specialize (Hmin ml' (match_cost (m_off mc) ml' + peek dp (i + ml'), ml') ltac:(lia)).
      rewrite (proj2 (Z.eqb_neq _ _) Hfin') in Hmin. by apply Hmin.
Qed.

(** The candidate of the scan over the positions [j] of a match. *)
Definition cand (dp : list Z) (bestm : list match_choice) (i j : Z) : option choice :=
  match bestm.[j] with
  | Some bm =>
      if m_len bm =? 0 then None else
      Some (CH (lit_cost (j - i) + (match_cost (m_off bm) (m_len bm) + peek dp (j + m_len bm)))
               (j - i) (m_len bm) (m_off bm))
  | None => None
  end.

Section step.
Variables (i : Z) (dp : list Z) (bestm : list match_choice).
Hypothesis Hi : 0 <= i < n.
Hypothesis Hlen : len dp = n + 1.
Hypothesis Hlb : len bestm = n.
Hypothesis Hdp : ∀ k, i < k ≤ n → cost_ok dp k.
Hypothesis Hbm : ∀ k bm, i ≤ k → bestm.[k] = Some bm → bestm_ok dp k bm.

(** A candidate is an encoding, and fits the fields of the arrays. *)
Lemma cand_parse j ch : i ≤ j < Z.min n (i + 271) → cand dp bestm i j = Some ch →
  ∃ mc, mch.[j] = Some mc ∧ parse i (ch_cost ch) ∧ ch_lit ch = j - i ∧
    4 ≤ ch_len ch ≤ 266 ∧ ch_len ch ≤ m_len mc ∧ ch_off ch = m_off mc ∧
    j + ch_len ch ≤ n ∧ peek dp (j + ch_len ch) ≠ SIZE_MAX ∧
    ch_cost ch = lit_cost (j - i) + (match_cost (m_off mc) (ch_len ch) + peek dp (j + ch_len ch)).
Proof.
  intros Hj. unfold cand. destruct (bestm.[j]) as [bm|] eqn:Hbj; [|done].
  destruct (Z.eqb_spec (m_len bm) 0) as [|Hne]; [done|]. intros [= <-]. simpl.
  destruct (Hbm j bm ltac:(lia) Hbj) as (mc & Hmc & [[-> _]|(H1 & H2 & H3 & H4 & _)]); [done|].
  destruct (mch_len j mc Hmc) as (_ & Hle & _); [lia|].
  exists mc. rewrite H3. split_and!; try done; try lia.
  apply parse_match; try done; try lia. apply cost_fin; [apply Hdp; lia|done].
Qed.

(** Every encoding that starts with a match costs at least as much as a
    candidate. *)
Lemma cand_le c : parse i c →
  (n - i ≤ 270 ∧ c = lit_cost (n - i)) ∨
  ∃ j ch, i ≤ j < Z.min n (i + 271) ∧ cand dp bestm i j = Some ch ∧ ch_cost ch ≤ c.
Proof.
  inversion 1 as [Heq|i' Hi' Hle|i' j mc ml c' Hij Hjn Hlit Hj Hml Hle Hp]; subst; [lia|by left|].
  right. destruct (mch_len j mc Hj) as (_ & Hjm & _); [lia|].
  destruct (Hdp (j + ml)) as [[_ Hno]|[_ Hmin]]; [lia|by destruct (Hno c')|].
  destruct (arr_get_lt bestm j) as [bm Hbj]; [lia|].
  assert (peek dp (j + ml) ≠ SIZE_MAX) as Hfin.
  { specialize (Hmin _ Hp). apply parse_range in Hp. unfold SIZE_MAX, INT32_MAX in *. lia. }
  destruct (Hbm j bm ltac:(lia) Hbj) as (mc' & Hmc & [[-> Hnone]|(H1 & H2 & H3 & H4 & Hbest)]);
    rewrite Hj in Hmc; simplify_eq; [by destruct Hfin; apply Hnone|].
  exists j. unfold cand. rewrite Hbj. destruct (Z.eqb_spec (m_len bm) 0); [lia|].
  eexists; split; [lia|split; [done|]]. simpl.
  specialize (Hbest ml Hml Hle Hfin). specialize (Hmin _ Hp). rewrite H3. lia.
Qed.

Lemma scan_body j ch : i ≤ j < Z.min n (i + 271) →
  literals_then_match dp bestm i j ch =
  Some (match cand dp bestm i j with
        | Some ch' => if ch_cost ch' <? ch_cost ch then ch' else ch
        | None => ch
        end).
Proof.
  intros Hj. unfold literals_then_match, cand.
  destruct (arr_get_lt bestm j) as [bm Hbj]; [lia|]. rewrite Hbj. simpl.
  destruct (Z.eqb_spec (m_len bm) 0); [done|].
  destruct (Hbm j bm ltac:(lia) Hbj) as (mc & Hmc & [[-> _]|(H1 & H2 & H3 & H4 & _)]); [done|].
  destruct (mch_len j mc Hmc) as (_ & Hjm & _); [lia|].
  rewrite (get_peek dp) by lia. cbn [mbind option_bind].
  pose proof (cost_small dp (j + m_len bm) (Hdp (j + m_len bm) ltac:(lia)) H4).
  unfold lit_cost, match_cost. rewrite u32_id by lia.
  rewrite u64_id.
  - cbn [ch_cost]. by destruct (_ <? ch_cost ch).
  - destruct (255 <? m_off bm), (7 <=? m_len bm - 4), (15 <=? j - i); cbn [b2z]; lia.
Qed.

(** The scan finds the cheapest encoding of the suffix at [i]. *)
Lemma scan_ok :
  returns (for_range i (Z.min n (i + 271)) (literals_then_match dp bestm i) (literal_tail i n))
    (λ ch, (∀ c, parse i c → ch_cost ch ≤ c) ∧
      (ch_cost ch = SIZE_MAX ∧ (∀ c, ¬ parse i c) ∨
       parse i (ch_cost ch) ∧ n - i ≤ 270 ∧ ch_lit ch = n - i ∧ ch_cost ch = lit_cost (n - i) ∨
       parse i (ch_cost ch) ∧ ∃ j, i ≤ j < Z.min n (i + 271) ∧ cand dp bestm i j = Some ch)).
Proof.
  eapply returns_weaken.
  { apply (scan_min ch_cost (cand dp bestm i)); [|lia]. intros. by apply scan_body. }
  simpl. intros ch (Hwhich & Hinit & Hmin).
  assert (∀ c, parse i c → ch_cost ch ≤ c) as Hle.
  { intros c [[Hn ->]|(j & ch' & Hj & Hc & ?)]%cand_le.
    - unfold literal_tail in Hinit. destruct (Z.leb_spec (n - i) 270); [|lia].
      simpl in Hinit. rewrite u64_id in Hinit; [done|].
      destruct (15 <=? n - i); cbn [b2z]; lia.
    - specialize (Hmin j ch' Hj Hc). lia. }
  split; [done|]. destruct Hwhich as [->|(j & Hj & Hc & _)].
  - unfold literal_tail in *. destruct (Z.leb_spec (n - i) 270) as [Hs|].
    + right; left. simpl in *. rewrite u32_id, u64_id in * by
        (destruct (15 <=? n - i); cbn [b2z] in *; lia).
      split; [by apply parse_tail|done].
    + left. split; [done|]. intros c Hp. specialize (Hle c Hp). simpl in Hle.
      apply parse_range in Hp. unfold SIZE_MAX, INT32_MAX in *. lia.
  - right; right. destruct (cand_parse j ch Hj Hc) as (mc & _ & Hp & _).
    split; [done|]. by exists j.
Qed.
End step.

(** What is known of a position depends on the later costs only. *)
Lemma cost_ok_ext dp dp' k : peek dp' k = peek dp k → cost_ok dp k → cost_ok dp' k.
Proof. unfold cost_ok. by intros ->. Qed.

Lemma bestm_ok_ext dp dp' j bm :
  (∀ k, j < k → peek dp' k = peek dp k) → bestm_ok dp j bm → bestm_ok dp' j bm.
Proof.
  intros Hext (mc & Hmc & [[-> Hnone]|(H1 & H2 & H3 & H4 & Hbest)]); exists mc; (split; [done|]).
  - left. split; [done|]. intros ml ? ?. rewrite Hext by lia. by apply Hnone.
  - right. rewrite Hext by lia. split_and!; try done; try lia.
    intros ml ? ?. rewrite Hext by lia. by apply Hbest.
Qed.

Lemma pick_ok_ext dp dp' k pc :
  (∀ j, k ≤ j → peek dp' j = peek dp j) → pick_ok dp k pc → pick_ok dp' k pc.
Proof.
  unfold pick_ok. intros Hext Hok. rewrite Hext by lia. intros [?|(mc & ?)]%Hok; [by left|].
  right. exists mc. rewrite Hext by lia. done.
Qed.

Lemma dp_step_ok i st :
  0 ≤ i < n → dp_inv (i + 1) st → returns (dp_step mch n i st) (dp_inv i).
Proof.
  intros Hi (Hld & Hlp & Hlb & Hdp & Hbm & Hpk). unfold dp_step.
  destruct Hmch as [Hlm _]. destruct (arr_get_lt mch i) as [mc Hmc]; [lia|]. rewrite Hmc. simpl.
  eapply returns_bind; [apply best_match_ok; try done; intros; apply Hdp; lia|].
  simpl. intros bm Hbmi. apply returns_bind_set; [lia|]. intros bestm Hset Hlb'.
  assert (∀ k bm', i ≤ k → bestm.[k] = Some bm' → bestm_ok (dp_cost st) k bm') as Hbm'.
  { intros k bm' Hk. rewrite (arr_get_set _ _ _ _ _ Hset).
    case_decide; [by intros [= <-]; subst|]. apply Hbm. lia. }
  eapply returns_bind; [apply scan_ok; try done; [lia|intros; apply Hdp; lia]|].
  simpl. intros ch (Hmin & Hcase).
  apply returns_bind_set; [lia|]. intros dp' Hsetd Hld'.
  apply returns_bind_set; [lia|]. intros pick' Hsetp Hlp'. apply returns_ret.
  assert (∀ k, i < k → peek dp' k = peek (dp_cost st) k) as Hext.
  { intros k Hk. rewrite (peek_set _ _ _ _ _ Hsetd), decide_False by lia. done. }
  assert (peek dp' i = ch_cost ch) as Hnew by by rewrite (peek_set _ _ _ _ _ Hsetd), decide_True.
  split_and!; simpl; [lia|lia|lia| | |].
  - intros k Hk. destruct (decide (k = i)) as [->|].
    + unfold cost_ok. rewrite Hnew. destruct Hcase as [?|[(? & _)|(? & _)]]; [by left|by right|by right].
    + apply (cost_ok_ext (dp_cost st)); [apply Hext; lia|apply Hdp; lia].
  - intros k bm' Hk Hb. apply (bestm_ok_ext (dp_cost st)); [intros; apply Hext; lia|].
    by apply Hbm'.
  - intros k pc Hk. rewrite (arr_get_set _ _ _ _ _ Hsetp). case_decide; [subst k|].
    2: { intros ?. apply (pick_ok_ext (dp_cost st)); [intros; apply Hext; lia|]. apply Hpk; [lia|done]. }
    intros [= <-] Hfin. rewrite Hnew in *. simpl.
    destruct Hcase as [[? _]|[(_ & ? & ? & ?)|(_ & j & Hj & Hc)]]; [done|by left|].
    eapply cand_parse in Hc as (mc' & Hmc' & _ & Hl & H4 & Hlm' & Hoff & Hle & Hf & Hcost);
      try done; [|intros; apply Hdp; lia].
    right. exists mc'. rewrite Hl, Hoff. replace (i + (j - i)) with j by lia.
    rewrite Hext by lia. split_and!; try done; lia.
Qed.

Lemma dp_loop_ok junk :
  returns (st ← dp_init junk n; dp_loop mch n st) (dp_inv 0).
Proof.
  unfold dp_init. rewrite bind_assoc_option.
  apply returns_bind_set; [len_lia|]. intros dp Hset Hl. simpl.
  assert (len dp = n + 1) as Hld by len_lia.
  unfold dp_loop. apply for_down_inv.
  - rewrite Z2Nat.id by lia. split_and!; simpl; [done|len_lia|len_lia| | |].
    + intros k Hk. replace k with n by lia. right.
      rewrite (peek_set _ _ _ _ _ Hset), decide_True by done.
      split; [apply parse_done|]. intros c Hc%parse_range. lia.
    + intros k bm Hk Hb%arr_get_Some_lt. len_lia.
    + intros k pc Hk. lia.
  - intros i st Hi Hinv. apply dp_step_ok; [lia|done].
Qed.
End parse.
