(* ===== verification/Limlz.v ===== *)
(** The packer against the unpacker: a packed stage 2 unpacks to what was
    packed, its CRC is the one the unpacker checks, the packed size is the
    least the token format allows, and the packer fails only where it says
    why. *)
From S2P Require Import Prelude LimlzPack LimlzUnpack LimlzMatch LimlzParse.

(** ** Reading inside a concatenation *)

Section reading.
Context {A : Type}.
Implicit Types pre l k : list A.

Lemma get_at pre x l i : i = len pre → (pre ++ x :: l).[i] = Some x.
Proof. intros ->. rewrite arr_get_app_r by lia. by rewrite Z.sub_diag. Qed.

Lemma get_at_len pre x l : (pre ++ x :: l).[len pre] = Some x.
Proof. by apply get_at. Qed.

Lemma set_at_len pre x y l : (pre ++ x :: l).[len pre <- y] = Some (pre ++ y :: l).
Proof.
  rewrite arr_set_lt; [|pose proof (len_nonneg pre); pose proof (len_nonneg l); len_lia].
  unfold len. rewrite Nat2Z.id. by rewrite insert_app_r_alt, Nat.sub_diag by lia.
Qed.

Lemma slice_at pre l k i m : i = len pre → m = len l → slice (pre ++ l ++ k) i m = Some l.
Proof.
  intros -> ->. pose proof (len_nonneg pre). pose proof (len_nonneg l). pose proof (len_nonneg k).
  rewrite slice_lt by len_lia. f_equal. unfold len. rewrite !Nat2Z.id.
  by rewrite drop_app_length, take_app_length.
Qed.
End reading.

(** ** The fields of a token *)

Definition token_of (mode hi lo : Z) : Z :=
  u8 (Z.lor (Z.lor (Z.shiftl mode 7) (Z.shiftl hi 3)) lo).

Definition token_check (mode hi lo : Z) : bool :=
  let t := token_of mode hi lo in
  (Z.land (Z.shiftr t 3) 0xf =? hi) && (Bool.eqb (Z.testbit t 7) (mode =? 1)) &&
  (Z.land t 0x7 =? lo) && (0 <=? t) && (t <? 256).

Lemma token_fields mode hi lo :
  0 ≤ mode ≤ 1 → 0 ≤ hi ≤ 15 → 0 ≤ lo ≤ 7 →
  Z.land (Z.shiftr (token_of mode hi lo) 3) 0xf = hi ∧
  Z.testbit (token_of mode hi lo) 7 = (mode =? 1) ∧
  Z.land (token_of mode hi lo) 0x7 = lo ∧ 0 ≤ token_of mode hi lo < 256.
Proof.
  intros Hm Hh Hl.
  assert (token_check mode hi lo = true) as Hc.
  { assert (forallb (λ m, forallb (λ h, forallb (token_check m h) (seqZ 0 8)) (seqZ 0 16)) (seqZ 0 2) = true)
      as Hall by by vm_compute.
    rewrite forallb_forall in Hall.
    specialize (Hall mode). rewrite <- list_elem_of_In, elem_of_seqZ in Hall.
    specialize (Hall ltac:(lia)). rewrite forallb_forall in Hall.
    specialize (Hall hi). rewrite <- list_elem_of_In, elem_of_seqZ in Hall.
    specialize (Hall ltac:(lia)). rewrite forallb_forall in Hall.
    apply Hall. rewrite <- list_elem_of_In, elem_of_seqZ. lia. }
  unfold token_check in Hc. rewrite !andb_true_iff in Hc.
  destruct Hc as [[[[H1%Z.eqb_eq H2%Bool.eqb_prop] H3%Z.eqb_eq] H4%Z.leb_le] H5%Z.ltb_lt].
  split_and!; done.
Qed.

(** The extra byte of a length of [n] whose field holds up to [max]. *)
Definition tail_of (max n : Z) : list Z := if max <=? n then [u8 (n - max)] else [].

Lemma encode_len_tail_tail out dstcap n :
  len out + len (tail_of 15 n) ≤ dstcap → encode_len_tail out dstcap n = Some (out ++ tail_of 15 n).
Proof.
  unfold encode_len_tail, tail_of. destruct (Z.leb_spec 15 n); intros; [|by rewrite app_nil_r].
  destruct (Z.leb_spec dstcap (len out)); [len_lia|done].
Qed.

Lemma encode_len_tail_ml_tail out dstcap n :
  len out + len (tail_of 7 n) ≤ dstcap → encode_len_tail_ml out dstcap n = Some (out ++ tail_of 7 n).
Proof.
  unfold encode_len_tail_ml, tail_of. destruct (Z.leb_spec 7 n); intros; [|by rewrite app_nil_r].
  destruct (Z.leb_spec dstcap (len out)); [len_lia|done].
Qed.

Definition offset_bytes (off : Z) : list Z :=
  if 255 <? off then [u8 (Z.land off 255); u8 (Z.shiftr off 8)] else [u8 off].

Lemma emit_offset_bytes out dstcap off :
  len out + len (offset_bytes off) ≤ dstcap → emit_offset out dstcap off = Some (out ++ offset_bytes off).
Proof.
  unfold emit_offset, offset_bytes. destruct (Z.ltb_spec 255 off); intros.
  - destruct (Z.ltb_spec (dstcap - len out) 2); [len_lia|done].
  - destruct (Z.leb_spec dstcap (len out)); [len_lia|done].
Qed.

Lemma len_tail max n : len (tail_of max n) = b2z (max <=? n).
Proof. unfold tail_of. by destruct (max <=? n). Qed.

Lemma len_offset off : len (offset_bytes off) = if 255 <? off then 2 else 1.
Proof. unfold offset_bytes. by destruct (255 <? off). Qed.

(** ** Copying *)

Lemma copy_match_ok (src : list Z) j off (ml : nat) :
  1 ≤ off ≤ j → j + Z.of_nat ml ≤ len src →
  (∀ t, 0 ≤ t < Z.of_nat ml → peek src (j + t) = peek src (j - off + t)) →
  copy_match (take (Z.to_nat j) src) off ml = Some (take (Z.to_nat (j + Z.of_nat ml)) src).
Proof.
  revert j. induction ml as [|ml IH]; intros j Hoff Hle Heq; simpl copy_match.
  - by rewrite Z.add_0_r.
  - assert (len (take (Z.to_nat j) src) = j) as Hlen.
    { unfold len in *. rewrite length_take. lia. }
    assert ((take (Z.to_nat j) src).[len (take (Z.to_nat j) src) - off] = Some (peek src j)) as ->.
    { rewrite Hlen. rewrite <- (Z.add_0_r j) at 3. rewrite Heq by lia. rewrite Z.add_0_r.
      rewrite <- (take_drop (Z.to_nat j) src) at 2.
      unfold peek. rewrite arr_get_app_l by lia. fold (peek (take (Z.to_nat j) src) (j - off)).
      apply get_peek. lia. }
    cbn [mbind option_bind].
    rewrite <- take_Z_snoc by (apply get_peek; lia).
    rewrite IH; [do 2 f_equal; lia|lia|lia|].
    intros t Ht. specialize (Heq (1 + t) ltac:(lia)). rewrite !Z.add_assoc in Heq.
    rewrite Heq. f_equal. lia.
Qed.

Lemma take_slice (src : list Z) i lit bs :
  slice src i lit = Some bs → take (Z.to_nat i) src ++ bs = take (Z.to_nat (i + lit)) src.
Proof.
  intros (? & ? & ? & ->)%slice_Some. rewrite Z2Nat.inj_add by lia.
  rewrite <- (take_drop (Z.to_nat i) (take (Z.to_nat i + Z.to_nat lit) src)).
  f_equal; [rewrite take_take; f_equal; lia|]. by rewrite take_drop_commute.
Qed.

(** ** One token, written and read back *)

Section token.
Variables (lit mode hi lo : Z) (bs outp : list Z).
Hypothesis (Hlit : 0 ≤ lit ≤ 270) (Hbs : len bs = lit).
Hypothesis (Hmode : 0 ≤ mode ≤ 1) (Hlo : 0 ≤ lo ≤ 7).
Hypothesis Hhi : hi = if lit <? 15 then lit else 15.

Lemma hi_range : 0 ≤ hi ≤ 15.
Proof. rewrite Hhi. destruct (Z.ltb_spec lit 15); lia. Qed.

(** The unpacker finds the length of the literals. *)
Lemma read_lit pre k :
  let inp := pre ++ token_of mode hi lo :: tail_of 15 lit ++ k in
  (if Z.land (Z.shiftr (token_of mode hi lo) 3) 0xf =? 0xf
   then b ← inp.[len pre + 1]; Some (b + 0xf, len pre + 2)
   else Some (Z.land (Z.shiftr (token_of mode hi lo) 3) 0xf, len pre + 1))
  = Some (lit, len pre + 1 + len (tail_of 15 lit)).
Proof.
  pose proof hi_range. destruct (token_fields mode hi lo) as (-> & _ & _ & _); try done.
  simpl. unfold tail_of. rewrite Hhi.
  destruct (Z.ltb_spec lit 15) as [|Hge].
  - destruct (Z.eqb_spec lit 15); [lia|]. destruct (Z.leb_spec 15 lit); [lia|].
    by rewrite len_nil, Z.add_0_r.
  - simpl. destruct (Z.leb_spec 15 lit); [|lia].
    rewrite (cons_middle _ pre), (app_assoc pre).
    change ([u8 (lit - 15)] ++ k) with (u8 (lit - 15) :: k).
    rewrite get_at by len_lia. simpl.
    rewrite u8_id by lia. do 2 f_equal; [lia|rewrite len_cons, len_nil; lia].
Qed.

Lemma read_literals pre k :
  slice (pre ++ token_of mode hi lo :: tail_of 15 lit ++ bs ++ k)
    (len pre + 1 + len (tail_of 15 lit)) lit = Some bs.
Proof.
  rewrite (cons_middle _ pre), !app_assoc. rewrite <- (app_assoc _ bs k).
  apply slice_at; [|done]. len_lia.
Qed.

(** A token at the end of the file: its literals are the last. *)
Lemma token_step_last pre :
  token_step (pre ++ token_of mode hi lo :: tail_of 15 lit ++ bs) (len pre, outp)
  = Some (inr (outp ++ bs)).
Proof.
  cbv beta iota zeta delta [token_step]. rewrite get_at_len. cbn [mbind option_bind].
  rewrite read_lit. cbn [mbind option_bind].
  rewrite <- (app_nil_r bs) at 1. rewrite read_literals. cbn [mbind option_bind].
  destruct (Z.leb_spec (len (pre ++ token_of mode hi lo :: tail_of 15 lit ++ bs))
    (len pre + 1 + len (tail_of 15 lit) + lit)); [done|len_lia].
Qed.

Variables (off ml : Z).
Hypothesis (Hoff : 1 ≤ off ≤ 65535) (Hml : 4 ≤ ml ≤ 266).
Hypothesis Hmo : mode = if 255 <? off then 1 else 0.
Hypothesis Hl : lo = if ml - 4 <? 7 then ml - 4 else 7.

Lemma read_offset p k ip :
  ip = len p →
  (if Z.testbit (token_of mode hi lo) 7
   then b0 ← (p ++ offset_bytes off ++ k).[ip];
        b1 ← (p ++ offset_bytes off ++ k).[ip + 1]; Some (b0 + 256 * b1, ip + 2)
   else b ← (p ++ offset_bytes off ++ k).[ip]; Some (b, ip + 1))
  = Some (off, ip + len (offset_bytes off)).
Proof.
  intros ->. pose proof hi_range. destruct (token_fields mode hi lo) as (_ & -> & _ & _); try done.
  unfold offset_bytes. rewrite Hmo. destruct (Z.ltb_spec 255 off); simpl.
  - rewrite get_at_len. simpl. rewrite (cons_middle _ p), (app_assoc p), get_at by len_lia. simpl.
    assert (Z.land off 255 = off mod 256) as -> by (apply (Z.land_ones off 8); lia).
    rewrite Z.shiftr_div_pow2 by lia. change (2 ^ 8) with 256.
    pose proof (Z.mod_pos_bound off 256). pose proof (Z.div_mod off 256).
    assert (0 ≤ off / 256 < 256) by (split; [apply Z.div_pos; lia|apply Z.div_lt_upper_bound; lia]).
    rewrite !u8_id by lia. do 2 f_equal. lia.
  - rewrite get_at_len. simpl. by rewrite u8_id by lia.
Qed.

Lemma read_len p k ip :
  ip = len p →
  (if Z.land (token_of mode hi lo) 0x7 =? 0x7
   then b ← (p ++ tail_of 7 (ml - 4) ++ k).[ip]; Some (b + 0x7, ip + 1)
   else Some (Z.land (token_of mode hi lo) 0x7, ip))
  = Some (ml - 4, ip + len (tail_of 7 (ml - 4))).
Proof.
  intros ->. pose proof hi_range. destruct (token_fields mode hi lo) as (_ & _ & -> & _); try done.
  unfold tail_of. rewrite Hl. destruct (Z.ltb_spec (ml - 4) 7).
  - destruct (Z.eqb_spec (ml - 4) 7); [lia|]. destruct (Z.leb_spec 7 (ml - 4)); [lia|].
    by rewrite len_nil, Z.add_0_r.
  - simpl. destruct (Z.leb_spec 7 (ml - 4)); [|lia]. simpl.
    rewrite get_at_len. simpl. rewrite u8_id by lia. do 2 f_equal. lia.
Qed.

Definition match_bytes : list Z :=
  token_of mode hi lo :: tail_of 15 lit ++ bs ++ offset_bytes off ++ tail_of 7 (ml - 4).

(** A token followed by others: its literals, then its match. *)
Lemma token_step_match pre rest o :
  rest ≠ [] → copy_match (outp ++ bs) off (Z.to_nat ml) = Some o →
  token_step (pre ++ match_bytes ++ rest) (len pre, outp)
  = Some (inl (len pre + len match_bytes, o)).
Proof.
  intros Hrest Hcopy. unfold match_bytes. cbv beta iota zeta delta [token_step].
  pose proof (len_nonneg rest). assert (0 < len rest) as Hr.
  { destruct rest; [done|]. rewrite len_cons. pose proof (len_nonneg rest). lia. }
  cbn [app]. rewrite <- !app_assoc.
  set (tl := offset_bytes off ++ tail_of 7 (ml - 4) ++ rest).
  rewrite get_at_len. cbn [mbind option_bind].
  rewrite (read_lit pre (bs ++ tl)). cbn [mbind option_bind].
  rewrite read_literals. cbn [mbind option_bind].
  assert (0 < len tl) by (unfold tl; pose proof (len_nonneg (offset_bytes off));
    pose proof (len_nonneg (tail_of 7 (ml - 4))); len_lia).
  destruct (Z.leb_spec (len (pre ++ token_of mode hi lo :: tail_of 15 lit ++ bs ++ tl))
    (len pre + 1 + len (tail_of 15 lit) + lit)); [len_lia|].
  replace (pre ++ token_of mode hi lo :: tail_of 15 lit ++ bs ++ tl) with
    ((pre ++ token_of mode hi lo :: tail_of 15 lit ++ bs) ++ tl)
    by (by rewrite <- !app_assoc; simpl; rewrite <- !app_assoc).
  set (p := pre ++ token_of mode hi lo :: tail_of 15 lit ++ bs).
  assert (len pre + 1 + len (tail_of 15 lit) + lit = len p) as Hp by (unfold p; len_lia).
  rewrite Hp. unfold tl. rewrite read_offset by done. cbn [mbind option_bind].
  rewrite (app_assoc p). rewrite read_len by len_lia. cbn [mbind option_bind].
  replace (ml - 4 + 4) with ml by lia. rewrite Hcopy. cbn [mbind option_bind].
  destruct (Z.leb_spec (len ((p ++ offset_bytes off) ++ tail_of 7 (ml - 4) ++ rest))
    (len p + len (offset_bytes off) + len (tail_of 7 (ml - 4)))); [len_lia|].
  do 3 f_equal. len_lia.
Qed.
End token.

(** ** The emission loop *)

Section emission.
Variables (src : list Z) (mch : list match_choice) (st : dp_state).
#[local] Notation n := (len src).
#[local] Notation dp := (peek (dp_cost st)).
Hypothesis Hmch : matches_ok src n mch.
Hypothesis Hmax : 0 < n ≤ INT32_MAX.
Hypothesis Hinv : dp_inv src mch 0 st.

(** What an iteration at position [i] writes, and that the unpacker reads it
    back. *)
Definition emits (i : Z) (out : list Z) (r : Z * list Z + option (list Z * bool)) : Prop :=
  match r with
  | inl (i', out') =>
      ∃ tok, out' = out ++ tok ∧ i + 4 ≤ i' ≤ n ∧ dp i' ≠ SIZE_MAX ∧
      0 < len tok ∧ len tok + dp i' = dp i ∧
      ∀ pre rest, rest ≠ [] →
        token_step (pre ++ tok ++ rest) (len pre, take (Z.to_nat i) src)
        = Some (inl (len pre + len tok, take (Z.to_nat i') src))
  | inr (Some (out', b)) =>
      b = true ∧ ∃ tok, out' = out ++ tok ∧ len tok = dp i ∧
      ∀ pre, token_step (pre ++ tok) (len pre, take (Z.to_nat i) src) = Some (inr src)
  | inr None => False
  end.

Lemma take_all_src : take (Z.to_nat n) src = src.
Proof. unfold len. rewrite Nat2Z.id. apply take_ge. lia. Qed.

Lemma dp_range i : 0 ≤ i ≤ n → dp i ≠ SIZE_MAX → parse src mch i (dp i).
Proof. intros Hi Hf. destruct Hinv as (_ & _ & _ & Hdp & _). by apply cost_fin; [apply Hdp|]. Qed.

Lemma emit_step_ok i out dstcap :
  0 ≤ i < n → dp i ≠ SIZE_MAX → len out + dp i ≤ dstcap →
  returns (emit_step src n dstcap (dp_pick st) (i, out)) (emits i out).
Proof.
  intros Hi Hfin Hcap. unfold emit_step. destruct (Z.ltb_spec i n); [|lia].
  destruct Hinv as (Hld & Hlp & _ & Hdp & _ & Hpk).
  apply returns_bind_get; [lia|]. intros [lit ml off] Hpc.
  specialize (Hpk i _ ltac:(lia) Hpc Hfin). cbn [p_lit p_mlen p_off] in *.
  pose proof (len_nonneg out).
  set (hi := if lit <? 15 then lit else 15).
  destruct Hpk as [(-> & Hn & Hcost)|(mc & Hl & Hil & Hmc & Hml & Hmle & -> & Hf & Hcost)].
  - destruct (Z.ltb_spec n (i + (n - i))); [lia|].
    destruct (Z.ltb_spec (i + (n - i)) n); [lia|]. cbn [andb].
    unfold lit_cost in Hcost. pose proof (len_tail 15 (n - i)) as Hlt.
    assert (0 ≤ b2z (15 <=? n - i)) by (destruct (15 <=? n - i); cbn; lia).
    destruct (Z.leb_spec dstcap (len out)); [lia|].
    rewrite encode_len_tail_tail by len_lia.
    destruct (Z.ltb_spec (dstcap - len ((out ++ [0]) ++ tail_of 15 (n - i))) (n - i)); [len_lia|].
    pose proof (slice_lt src i (n - i) ltac:(lia) ltac:(lia) ltac:(lia)) as Hs.
    set (bs := take (Z.to_nat (n - i)) (drop (Z.to_nat i) src)) in Hs.
    rewrite Hs. cbn [mbind option_bind].
    destruct (Z.leb_spec n (i + (n - i))); [|lia].
    rewrite <- !app_assoc. cbn [app]. rewrite set_at_len. cbn [mbind option_bind].
    apply returns_ret. pose proof (slice_len _ _ _ _ Hs) as Hlb. split; [done|].
    fold hi. assert (u8 (Z.shiftl hi 3) = token_of 0 hi 0) as ->.
    { unfold token_of. by rewrite Z.shiftl_0_l, Z.lor_0_l, Z.lor_0_r. }
    eexists; split; [done|]. split; [len_lia|]. intros pre.
    rewrite token_step_last by (done || lia).
    rewrite (take_slice _ _ _ _ Hs). replace (i + (n - i)) with n by lia. by rewrite take_all_src.
  - set (j := i + lit) in *. destruct (mch_len src mch Hmch j mc Hmc) as (_ & Hjm & Ho1 & Ho2 & Hcopy); [lia|].
    assert (0 ≤ dp (j + ml)) as Hdp0.
    { assert (cost_ok src mch (dp_cost st) (j + ml)) as Hc by (apply Hdp; lia).
      pose proof (cost_small src mch Hmch Hmax _ _ Hc Hf). lia. }
    destruct (Z.ltb_spec n j); [lia|].
    destruct (Z.ltb_spec ml 4); [lia|]. rewrite andb_false_r.
    unfold lit_cost, match_cost in Hcost. pose proof (len_tail 15 lit) as Hlt.
    pose proof (len_tail 7 (ml - 4)) as Hlt7. pose proof (len_offset (m_off mc)) as Hlo.
    assert (0 ≤ b2z (15 <=? lit)) by (destruct (15 <=? lit); cbn; lia).
    assert (0 ≤ b2z (7 <=? ml - 4)) by (destruct (7 <=? ml - 4); cbn; lia).
    assert (1 ≤ if 255 <? m_off mc then 2 else 1) by (destruct (255 <? m_off mc); lia).
    destruct (Z.leb_spec dstcap (len out)); [lia|].
    rewrite encode_len_tail_tail by len_lia.
    destruct (Z.ltb_spec (dstcap - len ((out ++ [0]) ++ tail_of 15 lit)) lit); [len_lia|].
    pose proof (slice_lt src i lit ltac:(lia) ltac:(lia) ltac:(lia)) as Hs.
    set (bs := take (Z.to_nat lit) (drop (Z.to_nat i) src)) in Hs.
    rewrite Hs. cbn [mbind option_bind]. pose proof (slice_len _ _ _ _ Hs) as Hlb.
    destruct (Z.leb_spec n j); [lia|].
    set (mode := if 255 <? m_off mc then 1 else 0). set (lo := if ml - 4 <? 7 then ml - 4 else 7).
    rewrite <- !app_assoc. cbn [app]. rewrite set_at_len. cbn [mbind option_bind].
    rewrite emit_offset_bytes by len_lia. rewrite encode_len_tail_ml_tail by len_lia.
    apply returns_ret.
    assert (0 ≤ mode ≤ 1) by (unfold mode; destruct (255 <? m_off mc); lia).
    assert (0 ≤ lo ≤ 7) by (unfold lo; destruct (Z.ltb_spec (ml - 4) 7); lia).
    exists (match_bytes lit mode hi lo bs (m_off mc) ml). unfold match_bytes, token_of.
    split_and!; [by rewrite <- !app_assoc; cbn [app]; rewrite <- !app_assoc|lia|lia|done|len_lia|len_lia|].
    intros pre rest Hrest. apply token_step_match; try done; try lia.
    rewrite (take_slice _ _ _ _ Hs). fold j.
    rewrite copy_match_ok; [by rewrite Z2Nat.id by lia|lia|lia|].
    intros t Ht. apply Hcopy. lia.
Qed.

(** The unpacker, fed [out] and more, gets to position [i]. *)
Definition reads_to (out : list Z) (i : Z) : Prop :=
  ∀ pre rest, rest ≠ [] → ∃ f, ∀ f' a,
    loop f' (token_step (pre ++ out ++ rest)) (len pre + len out, take (Z.to_nat i) src) = Some a →
    loop (f + f') (token_step (pre ++ out ++ rest)) (len pre, []) = Some a.

(** The unpacker, fed [out], yields [src]. *)
Definition reads_all (out : list Z) : Prop :=
  ∀ pre, ∃ f, loop f (token_step (pre ++ out)) (len pre, []) = Some src.

Lemma reads_to_step out tok i i' :
  reads_to out i →
  (∀ pre rest, rest ≠ [] →
     token_step (pre ++ tok ++ rest) (len pre, take (Z.to_nat i) src)
     = Some (inl (len pre + len tok, take (Z.to_nat i') src))) →
  reads_to (out ++ tok) i'.
Proof.
  intros Hr Htok pre rest Hrest.
  destruct (Hr pre (tok ++ rest)) as [f Hf]; [by destruct tok|].
  exists (f + 1)%nat. intros f' a Hl.
  replace (pre ++ (out ++ tok) ++ rest) with (pre ++ out ++ tok ++ rest) in * by by rewrite !app_assoc.
  rewrite <- Nat.add_assoc. apply Hf. cbn [loop Nat.add].
  specialize (Htok (pre ++ out) rest Hrest). rewrite <- app_assoc, len_app in Htok. rewrite Htok.
  cbn [mbind option_bind]. rewrite <- Hl. do 2 f_equal. len_lia.
Qed.

Lemma reads_to_last out tok i :
  reads_to out i → tok ≠ [] →
  (∀ pre, token_step (pre ++ tok) (len pre, take (Z.to_nat i) src) = Some (inr src)) →
  reads_all (out ++ tok).
Proof.
  intros Hr Hne Htok pre. destruct (Hr pre tok Hne) as [f Hf]. exists (f + 1)%nat.
  apply Hf. cbn [loop]. specialize (Htok (pre ++ out)). rewrite <- app_assoc, len_app in Htok.
  by rewrite Htok.
Qed.

Definition emit_inv (s : Z * list Z) : Prop :=
  let '(i, out) := s in
  0 ≤ i ≤ n ∧ (i = 0 ∨ 4 ≤ i) ∧ dp i ≠ SIZE_MAX ∧ len out + dp i = dp 0 ∧ reads_to out i.

(** With room for twice the input the emission never fails, and its output
    is as long as the cheapest encoding, or one longer. *)
Lemma emit_ok :
  dp 0 ≠ SIZE_MAX →
  returns (emit src n (n * 2) (dp_pick st)) (λ r, ∃ out, r = Packed out ∧
    dp 0 ≤ len out ≤ dp 0 + 1 ∧ reads_all out).
Proof.
  intros Hfin. unfold emit. pose proof (dp_range 0 ltac:(lia) Hfin) as Hp0.
  pose proof (parse_range _ _ Hmch Hmax _ _ Hp0) as Hr0.
  eapply returns_bind.
  - apply (loop_inv emit_inv (λ r, ∃ (out : list Z) (b : bool), r = Some (out, b) ∧ len out = dp 0 ∧
      if b then reads_all out else reads_to out n ∧ 4 ≤ n) (λ s, Z.to_nat (n - fst s))); [| |simpl; lia].
    + intros [i out] (Hi & Hi0 & Hf & Hlen & Hreads).
      destruct (decide (i < n)) as [Hin|Hnin].
      * eapply returns_weaken; [apply emit_step_ok; try done; lia|].
        intros [[i' out']|[[out' b]|]]; simpl; [| |done].
        -- intros (tok & -> & Hi' & Hf' & _ & Hl & Htok). split; [|simpl; lia].
           split_and!; [lia|lia|lia|done|len_lia|]. by apply (reads_to_step _ _ i).
        -- intros (-> & tok & -> & Hl & Htok). exists (out ++ tok), true.
           split_and!; [done|len_lia|]. apply (reads_to_last _ _ i); [done| |done].
           intros ->. rewrite len_nil in Hl. pose proof (dp_range i Hi Hf) as Hp.
           apply (parse_range _ _ Hmch Hmax) in Hp. lia.
      * assert (i = n) as -> by lia. unfold emit_step. rewrite Z.ltb_irrefl.
        apply returns_ret. exists out, false.
        assert (dp n = 0) as Hn0.
        { destruct Hinv as (_ & _ & _ & Hdp & _).
          destruct (cost_fin _ _ _ _ (Hdp n ltac:(lia)) Hf) as [_ Hmin].
          specialize (Hmin 0 (parse_done _ _)).
          pose proof (parse_range _ _ Hmch Hmax _ _ (dp_range n Hi Hf)). lia. }
        split_and!; [done|lia|done|lia].
    + split_and!; [lia|lia|lia|done|by rewrite len_nil|].
      intros pre rest _. exists 0%nat. intros f' a. rewrite take_0.
      by rewrite len_nil, Z.add_0_r.
  - intros r (out & b & -> & Hlen & Hb). destruct b; [apply returns_ret; exists out; split_and!; try done; lia|].
    destruct Hb as [Hreads Hn4]. pose proof (parse_slack _ _ Hmch Hmax _ _ Hp0) as Hsl.
    destruct (Z.leb_spec (n * 2) (len out)); [lia|].
    apply returns_ret. exists (out ++ [0]). split_and!; [done|len_lia|len_lia|].
    apply (reads_to_last _ _ n); [done|done|]. intros pre. rewrite take_all_src.
    pose proof (token_step_last 0 0 0 0 [] src) as Hlast.
    rewrite (app_nil_r src) in Hlast. by apply Hlast.
Qed.
End emission.

(** ** The unpacker ends *)

Lemma token_step_progress inp ip out ip' out' :
  token_step inp (ip, out) = Some (inl (ip', out')) → ip < ip' ∧ ip < len inp.
Proof.
  cbv beta iota zeta delta [token_step]. intros H.
  repeat match goal with
  | H : (_ ≫= _) = Some _ |- _ => apply bind_Some in H as (? & ? & H)
  | p : (_ * _)%type |- _ => destruct p
  | H : (if ?b then _ else _) = Some _ |- _ => destruct b; try done
  end; simplify_eq;
  repeat match goal with
  | H : _.[_] = Some _ |- _ => apply arr_get_Some_lt in H
  | H : slice _ _ _ = Some _ |- _ => apply slice_Some in H as (? & ? & ? & _)
  end; lia.
Qed.

Lemma unpack_reads hdr out src :
  len hdr = 4 → (∃ f, loop f (token_step (hdr ++ out)) (len hdr, []) = Some src) →
  unpack (hdr ++ out) = Some src.
Proof.
  intros Hh [f Hf]. unfold unpack. rewrite <- Hh.
  apply (loop_fuel_enough (λ s, Z.to_nat (len (hdr ++ out) - fst s)) _ f); [|done|].
  - intros [ip o] [ip' o'] Hs%token_step_progress. simpl. lia.
  - simpl. unfold len. lia.
Qed.

(** ** The two CRC computations *)

Definition crc_bit_spec (c : Z) : Z :=
  Z.lxor (if Z.odd c then 0xedb88320 else 0) (Z.shiftr c 1).

Lemma crc_bit_eq c : 0 ≤ c → crc_bit c = crc_bit_spec c.
Proof.
  intros Hc. unfold crc_bit, crc_bit_spec. f_equal.
  assert (Z.land c 1 = c mod 2) as -> by (apply (Z.land_ones c 1); lia). rewrite Zmod_odd.
  by destruct (Z.odd c).
Qed.

Lemma crc_bit_lxor a b : crc_bit_spec (Z.lxor a b) = Z.lxor (crc_bit_spec a) (crc_bit_spec b).
Proof.
  unfold crc_bit_spec. rewrite Z.shiftr_lxor, <- !Z.bit0_odd, Z.lxor_spec.
  destruct (Z.testbit a 0), (Z.testbit b 0); simpl xorb; cbv iota;
    rewrite ?Z.lxor_0_l; try done.
  - rewrite <- !Z.lxor_assoc, (Z.lxor_comm _ 0xedb88320), !Z.lxor_assoc.
    by rewrite <- Z.lxor_assoc, Z.lxor_nilpotent, Z.lxor_0_l.
  - by rewrite Z.lxor_assoc.
  - by rewrite <- !Z.lxor_assoc, (Z.lxor_comm (Z.shiftr a 1)).
Qed.

Lemma crc_bit_shiftl x n : 0 ≤ n → crc_bit_spec (Z.shiftl x (n + 1)) = Z.shiftl x n.
Proof.
  intros Hn. unfold crc_bit_spec. rewrite <- Z.bit0_odd, Z.shiftl_spec_low by lia.
  rewrite Z.lxor_0_l, Z.shiftr_shiftl_l by lia. f_equal. lia.
Qed.

(** A table step is four bit steps. *)
Lemma nibble_step c : 0 ≤ c → ∃ t, tab.[Z.land c 0x0F] = Some t ∧
  Z.lxor (Z.shiftr c 4) t = Nat.iter 4 crc_bit_spec c.
Proof.
  intros Hc.
  assert (forallb (λ x, match tab.[x] with
            | Some t => Nat.iter 4 crc_bit_spec x =? t | None => false end) (seqZ 0 16) = true)
    as Htab by by vm_compute.
  rewrite forallb_forall in Htab.
  assert (Z.land c 0x0F = c mod 16) as Hl by (apply (Z.land_ones c 4); lia).
  pose proof (Z.mod_pos_bound c 16) as Hm.
  specialize (Htab (Z.land c 0x0F)). rewrite <- list_elem_of_In, elem_of_seqZ, Hl in Htab.
  rewrite Hl. destruct (tab.[c mod 16]) as [t|]; [|by specialize (Htab ltac:(lia))].
  exists t. split; [done|]. specialize (Htab ltac:(lia)). apply Z.eqb_eq in Htab.
  assert (c = Z.lxor (Z.shiftl (Z.shiftr c 4) 4) (c mod 16)) as Hsplit.
  { rewrite <- Hl. apply Z.bits_inj'. intros n Hn. rewrite Z.lxor_spec, Z.land_spec.
    change 15 with (Z.ones 4). rewrite Z.testbit_ones_nonneg by lia.
    destruct (Z.ltb_spec n 4).
    - rewrite Z.shiftl_spec_low by lia. by rewrite andb_true_r.
    - rewrite Z.shiftl_spec, Z.shiftr_spec by lia.
      rewrite andb_false_r, xorb_false_r. f_equal. lia. }
  rewrite Hsplit at 2. rewrite <- Htab. cbn [Nat.iter nat_rect].
  rewrite !crc_bit_lxor. f_equal.
  rewrite (crc_bit_shiftl _ 3), (crc_bit_shiftl _ 2), (crc_bit_shiftl _ 1), (crc_bit_shiftl _ 0) by lia.
  by rewrite Z.shiftl_0_r.
Qed.

Lemma crc_bit_nonneg c : 0 ≤ c → 0 ≤ crc_bit_spec c.
Proof.
  intros. unfold crc_bit_spec. apply Z.lxor_nonneg. rewrite Z.shiftr_nonneg.
  destruct (Z.odd c); lia.
Qed.

Lemma crc_byte_iter c b :
  0 ≤ Z.lxor c b → crc_byte c b = Nat.iter 8 crc_bit_spec (Z.lxor c b).
Proof.
  unfold crc_byte. generalize (Z.lxor c b). intros x Hx.
  assert (∀ n, 0 ≤ Nat.iter n crc_bit_spec x ∧ Nat.iter n crc_bit x = Nat.iter n crc_bit_spec x) as H.
  { induction n as [|n [IH1 IH2]]; simpl; [done|].
    split; [by apply crc_bit_nonneg|]. rewrite IH2. by apply crc_bit_eq. }
  apply H.
Qed.

Lemma crc_loop_eq data c :
  is_bytes data → 0 ≤ c →
  crc32_nibble_loop c data = Some (foldl crc_byte c data) ∧ 0 ≤ foldl crc_byte c data.
Proof.
  intros Hd. revert c. induction Hd as [|b data Hb Hd IH]; intros c Hc; simpl; [done|].
  unfold is_word in Hb. set (x := Z.lxor c b).
  assert (0 ≤ x) as Hx by (apply Z.lxor_nonneg; lia).
  assert (∀ n y, 0 ≤ y → 0 ≤ Nat.iter n crc_bit_spec y) as Hnn.
  { induction n; simpl; intros; [done|]. by apply crc_bit_nonneg, IHn. }
  destruct (nibble_step x Hx) as (t & Ht & Heq). rewrite Ht. cbn [mbind option_bind]. rewrite Heq.
  destruct (nibble_step (Nat.iter 4 crc_bit_spec x)) as (t' & Ht' & Heq'); [by apply Hnn|].
  rewrite Ht'. cbn [mbind option_bind]. rewrite Heq'.
  assert (crc_byte c b = Nat.iter 4 crc_bit_spec (Nat.iter 4 crc_bit_spec x)) as <-
    by (rewrite crc_byte_iter by done; apply (Nat.iter_add 4 4)).
  apply IH. rewrite crc_byte_iter by done. by apply Hnn.
Qed.

(** ** The byte order of the CRC field *)

Lemma byte_ext x y : (∀ n, 0 ≤ n < 8 → Z.testbit x n = Z.testbit y n) → x mod 256 = y mod 256.
Proof.
  intros Heq. change 256 with (2 ^ 8). apply Z.bits_inj'. intros n Hn.
  destruct (decide (n < 8)).
  - rewrite !Z.mod_pow2_bits_low by lia. by apply Heq.
  - rewrite !Z.mod_pow2_bits_high by lia. done.
Qed.

Lemma div256_shiftr z : z / 256 = Z.shiftr z 8.
Proof. by rewrite Z.shiftr_div_pow2. Qed.

(** A byte of a word that is a byte of another, bit by bit. *)
Ltac byte_bits :=
  apply byte_ext; intros n Hn;
  assert (n = 0 ∨ n = 1 ∨ n = 2 ∨ n = 3 ∨ n = 4 ∨ n = 5 ∨ n = 6 ∨ n = 7) as Hcases by lia;
  clear Hn; destruct_or! Hcases; subst n;
  rewrite ?Z.shiftr_shiftr, ?Z.shiftr_spec, ?Z.lor_spec, ?Z.land_spec by lia;
  rewrite ?Z.mod_pow2_bits_low by lia;
  rewrite ?Z.shiftr_spec, ?Z.shiftl_spec by lia;
  cbn -[Z.shiftr Z.shiftl]; rewrite ?andb_false_r, ?andb_true_r, ?orb_false_r, ?orb_false_l; done.

Lemma endswap32_bytes v : le_bytes 4 (endswap32 v) = rev (le_bytes 4 v).
Proof.
  cbn [le_bytes rev app]. rewrite !div256_shiftr. unfold endswap32, wrap.
  repeat apply (f_equal2 cons); [..|done]; byte_bits.
Qed.

Lemma endswap16_bytes v : le_bytes 2 (endswap16 v) = rev (le_bytes 2 v).
Proof.
  cbn [le_bytes rev app]. rewrite !div256_shiftr. unfold endswap16, wrap.
  repeat apply (f_equal2 cons); [..|done]; byte_bits.
Qed.

Lemma endswap64_bytes v : le_bytes 8 (endswap64 v) = rev (le_bytes 8 v).
Proof.
  cbn [le_bytes rev app]. rewrite !div256_shiftr. unfold endswap64, wrap.
  repeat apply (f_equal2 cons); [..|done]; byte_bits.
Qed.

Lemma ENDSWAP_host be crc :
  ∃ c, ENDSWAP be 4 crc = Some c ∧ host_bytes32 be c = le_bytes 4 crc.
Proof.
  destruct be; simpl; eexists; (split; [done|]); [|done].
  unfold host_bytes32, be_bytes. by rewrite endswap32_bytes, rev_involutive.
Qed.

Lemma crc32_eq data : is_bytes data → crc32_nibble data = Some (crc32_bits data).
Proof.
  intros Hd. unfold crc32_nibble, crc32_bits.
  destruct (crc_loop_eq data (u32 (Z.lnot 0)) Hd) as [-> _]; [done|]. done.
Qed.

Lemma crc32_range data : 0 ≤ crc32_bits data < 2 ^ 32.
Proof. apply (wrap_word 32). lia. Qed.

(** ** The packer as a whole *)

Section packer.
Context `{Qsort}.
Variable junk : Z.

Lemma limlzpack_cases src :
  is_bytes src → 0 < len src ≤ INT32_MAX →
  ∃ mch, longest_matches true junk src (len src) (replicate (Z.to_nat (len src)) (MC 0 0))
           = Some (inr mch) ∧
    returns (limlzpack true junk (len src * 2) src) (λ r,
      (r = PackFail true ∧ ∀ c, ¬ parse src mch 0 c) ∨
      ∃ out c, r = Packed out ∧ parse src mch 0 c ∧ (∀ c', parse src mch 0 c' → c ≤ c') ∧
        c ≤ len out ≤ c + 1 ∧ reads_all src out).
Proof.
  intros Hb Hmax. unfold limlzpack.
  destruct (longest_matches_ok src Hb Hmax junk (replicate (Z.to_nat (len src)) (MC 0 0)))
    as ([|mch] & Hlm & Hmch); [len_lia|done|].
  exists mch. split; [done|]. destruct (Z.eqb_spec (len src) 0); [lia|]. cbn [negb].
  rewrite Hlm. cbn [mbind option_bind].
  destruct (dp_loop_ok src mch Hmch Hmax junk) as (st & Hst & Hinv).
  destruct (dp_init junk (len src)) as [st0|]; [|done]. cbn [mbind option_bind] in *.
  rewrite Hst. cbn [mbind option_bind].
  pose proof Hinv as (Hld & _ & _ & Hdp & _). rewrite get_peek by lia. cbn [mbind option_bind].
  destruct (Z.eqb_spec (peek (dp_cost st) 0) SIZE_MAX) as [Heq|Hne].
  - apply returns_ret. left. split; [done|]. destruct (Hdp 0 ltac:(lia)) as [[_ Hno]|[Hp _]]; [done|].
    apply (parse_range _ _ Hmch Hmax) in Hp. unfold SIZE_MAX, INT32_MAX in *. lia.
  - eapply returns_weaken; [by apply (emit_ok src mch)|]. simpl.
    intros r (out & -> & Hl & Hr). right. exists out, (peek (dp_cost st) 0).
    destruct (cost_fin _ _ _ _ (Hdp 0 ltac:(lia)) Hne) as [Hp Hmin]. done.
Qed.

Lemma limlz_main_inv be src file :
  limlz_main be true junk src = Some (Some file) → is_bytes src →
  0 < len src ≤ INT32_MAX ∧
  ∃ out, limlzpack true junk (len src * 2) src = Some (Packed out) ∧
    file = le_bytes 4 (crc32_bits src) ++ out.
Proof.
  unfold limlz_main. intros H1 Hb. unfold limlz_main in H1.
  destruct (Z.ltb_spec INT32_MAX (len src)); [done|]. cbn [orb] in H1.
  destruct (SIZE_MAX / 8 <=? len src); [done|]. cbn [negb] in H1.
  apply bind_Some in H1 as (r & Hr & H1). destruct r as [out|]; [|done].
  rewrite crc32_eq in H1 by done. cbn [mbind option_bind] in H1.
  destruct (ENDSWAP_host be (crc32_bits src)) as (c & Hc & Hhost).
  rewrite Hc in H1. cbn [mbind option_bind] in H1. injection H1 as <-. rewrite Hhost.
  split; [|by exists out]. split; [|lia].
  destruct (Z.eqb_spec (len src) 0) as [Hz|]; [|pose proof (len_nonneg src); lia].
  unfold limlzpack in Hr. rewrite Hz in Hr. done.
Qed.
End packer.

(** ** Properties *)

(** C4: round trip. Whatever [qsort] does with equal elements, whatever fresh
    memory holds and whichever byte order the packing host has, a file the
    packer writes is turned by the boot-time unpacker into exactly the input,
    and passes its integrity check. *)
Theorem limlz_roundtrip `{Qsort} (bigendian : bool) (junk : Z) (src file : list Z) :
  is_bytes src →
  limlz_main bigendian true junk src = Some (Some file) →
  decompressor file = Some (JumpTo src).
Proof.
  intros Hb Hmain. destruct (limlz_main_inv _ _ _ _ Hmain Hb) as (Hmax & out & Hp & ->).
  destruct (limlzpack_cases junk src Hb Hmax) as (mch & _ & Hcases).
  destruct (returns_inv _ _ _ Hcases Hp) as [[? _]|(out' & c & [= <-] & _ & _ & _ & Hreads)]; [done|].
  unfold decompressor. rewrite (unpack_reads _ _ src); [|done|apply Hreads].
  pose proof (crc32_range src) as Hr.
  assert (∀ v rest k, (b0 ← (le_bytes 4 v ++ rest).[0]; b1 ← (le_bytes 4 v ++ rest).[1];
      b2 ← (le_bytes 4 v ++ rest).[2]; b3 ← (le_bytes 4 v ++ rest).[3];
      k (le_val [b0; b1; b2; b3])) = k (le_val (le_bytes 4 v)) :> option boot_result) as Hread by done.
  rewrite (Hread _ _ (λ crc, image ← Some src;
    Some (if crc32_bits image =? crc then JumpTo image else IntegrityError))).
  rewrite le_val_bytes by lia. change (8 * Z.of_nat 4) with 32. rewrite Z.mod_small by lia.
  simpl. by rewrite Z.eqb_refl.
Qed.

Definition sample : list Z := [1; 2; 3; 4; 5; 1; 2; 3; 4; 5; 9; 1; 2; 3; 4].
Definition sample_packed : list Z :=
  default [] (default None (@limlz_main insertion_qsort true true 7 sample)).

Lemma limlz_roundtrip_witness :
  @limlz_main insertion_qsort true true 7 sample = Some (Some sample_packed) ∧
  decompressor sample_packed = Some (JumpTo sample).
Proof.
  assert (@limlz_main insertion_qsort true true 7 sample = Some (Some sample_packed)) as Hm
    by (vm_compute; reflexivity).
  split; [exact Hm|].
  apply (@limlz_roundtrip insertion_qsort true 7 sample sample_packed); [|exact Hm].
  repeat constructor; discriminate.
Defined.

(** C17: optimality and completeness. On any non-empty input the packer's
    arrays are never left, it terminates, and: either it emits an encoding as
    short as any that the matches found allow (one byte more when the encoding
    ends on a match, for the final empty token), or it reports the reason, and
    then there is no encoding. *)
Theorem limlzpack_optimal `{Qsort} (junk : Z) (src : list Z) :
  is_bytes src → 0 < len src ≤ INT32_MAX →
  ∃ mch, longest_matches true junk src (len src) (replicate (Z.to_nat (len src)) (MC 0 0))
           = Some (inr mch) ∧
  returns (limlzpack true junk (len src * 2) src) (λ r,
    match r with
    | Packed out => ∃ c, parse src mch 0 c ∧ (∀ c', parse src mch 0 c' → c ≤ c') ∧
                         c ≤ len out ≤ c + 1
    | PackFail why => why = true ∧ ∀ c, ¬ parse src mch 0 c
    end).
Proof.
  intros Hb Hmax. destruct (limlzpack_cases junk src Hb Hmax) as (mch & Hm & Hr).
  exists mch. split; [done|]. eapply returns_weaken; [done|].
  intros r [[-> ?]|(out & c & -> & ? & ? & ? & _)]; [done|]. by exists c.
Qed.

Lemma limlzpack_optimal_witness :
  returns (@limlzpack insertion_qsort true 7 (len sample * 2) sample)
    (λ r, match r with Packed out => out ≠ [] | PackFail _ => False end) ∧
  ∃ mch, returns (@limlzpack insertion_qsort true 7 (len sample * 2) sample) (λ r,
    match r with
    | Packed out => ∃ c, parse sample mch 0 c ∧ (∀ c', parse sample mch 0 c' → c ≤ c') ∧
                         c ≤ len out ≤ c + 1
    | PackFail why => why = true ∧ ∀ c, ¬ parse sample mch 0 c
    end).
Proof.
  split; [vm_compute; eexists; split; [reflexivity|discriminate]|].
  destruct (@limlzpack_optimal insertion_qsort 7 sample) as (mch & _ & Hr);
    [repeat constructor; discriminate|vm_compute; split; [reflexivity|discriminate]|].
  exact (ex_intro _ mch Hr).
Defined.

(** C18: the suffix array. Prefix doubling ends within [n + 1] passes, reads
    and writes inside its arrays, and leaves in [sa] the positions in the order
    of their suffixes. *)
Theorem saca_sorts `{Qsort} (junk : Z) (src : list Z) :
  is_bytes src → 0 < len src ≤ INT32_MAX →
  returns (saca (Z.to_nat (len src) + 1) src (len src)
             (SA (malloc junk (len src)) (malloc junk (len src)) (malloc junk (len src))))
    (λ st, sa_sa st ≡ₚ seqZ 0 (len src) ∧
           ∀ p q, 0 ≤ p < q → q < len src →
             plt src (len src) (peek (sa_sa st) p) (peek (sa_sa st) q)).
Proof.
  intros Hb Hmax. apply saca_ok; [done|done|..]; simpl; unfold malloc; len_lia.
Qed.

Lemma saca_sorts_witness :
  returns (@saca insertion_qsort 5 [7; 7; 1; 7] 4 (SA (malloc 3 4) (malloc 3 4) (malloc 3 4)))
    (λ st, sa_sa st = [2; 3; 1; 0]) ∧
  returns (@saca insertion_qsort (Z.to_nat (len [7; 7; 1; 7]) + 1) [7; 7; 1; 7] (len [7; 7; 1; 7])
      (SA (malloc 3 (len [7; 7; 1; 7])) (malloc 3 (len [7; 7; 1; 7])) (malloc 3 (len [7; 7; 1; 7]))))
    (λ st, sa_sa st ≡ₚ seqZ 0 (len [7; 7; 1; 7]) ∧
           ∀ p q, 0 ≤ p < q → q < len [7; 7; 1; 7] →
             plt [7; 7; 1; 7] (len [7; 7; 1; 7]) (peek (sa_sa st) p) (peek (sa_sa st) q)).
Proof.
  split; [vm_compute; eexists; split; reflexivity|].
  apply (@saca_sorts insertion_qsort 3 [7; 7; 1; 7]);
    [repeat constructor; discriminate|vm_compute; split; [reflexivity|discriminate]].
Defined.

(** the CRC the packer computes with a table of nibbles is the bit-by-bit
    CRC of the unpacker. *)
Theorem crc32_nibble_bits (data : list Z) :
  is_bytes data → crc32_nibble data = Some (crc32_bits data).
Proof. apply crc32_eq. Qed.

Lemma crc32_nibble_bits_witness :
  crc32_nibble [0x31; 0x32; 0x33; 0x34; 0x35; 0x36; 0x37; 0x38; 0x39] = Some 0xCBF43926 ∧
  crc32_nibble [0x31; 0x32; 0x33] = Some (crc32_bits [0x31; 0x32; 0x33]).
Proof.
  split; [vm_compute; reflexivity|].
  apply (crc32_nibble_bits [0x31; 0x32; 0x33]). repeat constructor; discriminate.
Defined.

(** the byte order of the file does not depend on the host: the CRC field
    is written in little-endian order whether the packer ran on a big-endian
    host (and swapped) or not. *)
Theorem crc_field_host_independent (bigendian : bool) (crc : Z) :
  (c ← ENDSWAP bigendian 4 crc; Some (host_bytes32 bigendian c)) = Some (le_bytes 4 crc).
Proof. destruct (ENDSWAP_host bigendian crc) as (c & -> & Hc). simpl. by rewrite Hc. Qed.
