(* ===== verification/Pmm.v ===== *)
(** The physical memory manager of the bootloader, [limine/common/mm/pmm.s2.c]
    and [pmm.c], as the BIOS build has it: the memory map, its sanitiser, the
    reservation of ranges and the allocators on top of it.  [None] is a call
    of [panic].  Theorems are in PmmSanitise.v and PmmAlloc.v. *)
From S2P Require Import Prelude.

(** ** The map *)

Record memmap_entry := ME { e_base : Z; e_len : Z; e_type : Z }.

Definition MEMMAP_USABLE : Z := 1.
Definition MEMMAP_RESERVED : Z := 2.
Definition MEMMAP_ACPI_RECLAIMABLE : Z := 3.
Definition MEMMAP_ACPI_NVS : Z := 4.
Definition MEMMAP_BAD_MEMORY : Z := 5.
Definition MEMMAP_BOOTLOADER_RECLAIMABLE : Z := 0x1000.
Definition MEMMAP_KERNEL_AND_MODULES : Z := 0x1001.
Definition MEMMAP_FRAMEBUFFER : Z := 0x1002.
Definition MEMMAP_RESERVED_MAPPED : Z := 0x1003.
Definition MEMMAP_EFI_RECLAIMABLE : Z := 0x2000.

Definition PAGE_SIZE : Z := 4096.

(** [struct memmap_entry memmap[memmap_max_entries]] of the BIOS build. *)
Definition memmap_max_entries : Z := 512.

#[export] Instance memmap_entry_eq_dec : EqDecision memmap_entry.
Proof. solve_decision. Defined.

(** [CHECKED_ADD(m[i].base, m[i].length, ...)]. *)
Definition e_top (e : memmap_entry) : option Z := add64 (e_base e) (e_len e).

(** [ALIGN_UP] and [ALIGN_DOWN] on [uint64_t]; [None] is [onerror]. *)
Definition div_roundup64 (a b : Z) : option Z := s ← add64 a (u64 (b - 1)); Some (s / b).
Definition align_up64 (x a : Z) : option Z := q ← div_roundup64 x a; Some (u64 (q * a)).
Definition align_down64 (x a : Z) : Z := u64 (x / a * a).

(** [align_entry]: [None] is the return of false. *)
Definition align_entry (e : memmap_entry) : option memmap_entry :=
  if e_len e <? PAGE_SIZE then None else
  let orig_base := e_base e in
  base ← align_up64 (e_base e) PAGE_SIZE;
  let length := u64 (e_len e - u64 (base - orig_base)) in
  let length := align_down64 length PAGE_SIZE in
  if length =? 0 then None else Some (ME base length (e_type e)).

(** "Remove i from memmap": the last entry takes its place. *)
Definition remove_entry (m : list memmap_entry) (i : Z) : option (list memmap_entry) :=
  last ← m.[len m - 1];
  m' ← (if i <? len m - 1 then m.[i <- last] else Some m);
  Some (take (Z.to_nat (len m - 1)) m').

(** ** [pmm_sanitise_entries]

    What an overlap check against one other entry does: go on with the entry
    [m[i]] clipped, stop at an entry that contains it, or [goto del_mm0]. *)
Inductive clip :=
  | ClipNext (e : memmap_entry)
  | ClipStop (e : memmap_entry)
  | ClipDel.

Definition clip_against (e r : memmap_entry) : option clip :=
  let base := e_base e in
  let length := e_len e in
  match add64 base length with
  | None => Some ClipDel
  | Some top =>
      let res_base := e_base r in
      let res_length := e_len r in
      match add64 res_base res_length with
      | None => Some (ClipNext e)
      | Some res_top =>
          if (res_base <=? base) && (top <=? res_top) then Some (ClipStop (ME top 0 (e_type e)))
          else if ((base <=? res_base) && (res_base <? top))
               && ((base <=? res_top) && (res_top <? top)) then None
          else
            let top := if (base <=? res_base) && (res_base <? top) then res_base else top in
            let base := if (base <=? res_top) && (res_top <? top) then res_top else base in
            Some (ClipNext (ME base (u64 (top - base)) (e_type e)))
      end
  end.

(** The loop on [j]; [rs] are the entries from index [j] on. *)
Fixpoint clip_all (rs : list memmap_entry) (i j : Z) (e : memmap_entry) : option clip :=
  match rs with
  | [] => Some (ClipNext e)
  | r :: rs =>
      if j =? i then clip_all rs i (j + 1) e else
      c ← clip_against e r;
      match c with
      | ClipNext e' => clip_all rs i (j + 1) e'
      | _ => Some c
      end
  end.

(** The first loop: the index goes back to 0 after every removal. *)
Definition overlap_step (align_entries : bool) (st : Z * list memmap_entry)
  : option (Z * list memmap_entry + list memmap_entry) :=
  let '(i, m) := st in
  if i <? len m then
    e ← m.[i];
    if negb (e_type e =? MEMMAP_USABLE) then Some (inl (i + 1, m)) else
    c ← clip_all m i 0 e;
    match c with
    | ClipDel => m' ← remove_entry m i; Some (inl (0, m'))
    | ClipNext e' | ClipStop e' =>
        m' ← m.[i <- e'];
        if e_len e' =? 0 then m'' ← remove_entry m' i; Some (inl (0, m''))
        else if align_entries then
          match align_entry e' with
          | None => m'' ← remove_entry m' i; Some (inl (0, m''))
          | Some e'' => m'' ← m'.[i <- e'']; Some (inl (i + 1, m''))
          end
        else Some (inl (i + 1, m'))
    end
  else Some (inr m).

(** The second loop: [Some e] keeps the entry, [None] is [del_mm1]. *)
Definition clip_first_page (keep_first_page : bool) (e : memmap_entry) : option memmap_entry :=
  e ← (if (e_type e =? MEMMAP_USABLE) && negb keep_first_page && (e_base e <? 0x1000) then
         entry_top ← e_top e;
         if entry_top <=? 0x1000 then None else
         Some (ME 0x1000 (u64 (e_len e - u64 (0x1000 - e_base e))) (e_type e))
       else Some e);
  if e_len e =? 0 then None else Some e.

Definition empty_step (keep_first_page : bool) (st : Z * list memmap_entry)
  : option (Z * list memmap_entry + list memmap_entry) :=
  let '(i, m) := st in
  if i <? len m then
    e ← m.[i];
    match clip_first_page keep_first_page e with
    | Some e' => m' ← m.[i <- e']; Some (inl (i + 1, m'))
    | None => m' ← remove_entry m i; Some (inl (i, m'))
    end
  else Some (inr m).

(** The third: selection sort by base address. *)
Definition find_min (m : list memmap_entry) (p : Z) : option (Z * Z) :=
  e ← m.[p];
  for_range p (len m) (λ i '(min, min_index),
    e ← m.[i];
    if e_base e <? min then Some (e_base e, i) else Some (min, min_index)) (e_base e, p).

Definition sort_entries (m : list memmap_entry) : option (list memmap_entry) :=
  for_range 0 (len m - 1) (λ p m,
    '(_, min_index) ← find_min m p;
    min_e ← m.[min_index];
    e ← m.[p];
    m ← m.[min_index <- e];
    m.[p <- min_e]) m.

(** The fourth: contiguous entries of three types are merged. *)
Definition mergeable (type : Z) : bool :=
  (type =? MEMMAP_BOOTLOADER_RECLAIMABLE) || (type =? MEMMAP_RESERVED_MAPPED)
  || (type =? MEMMAP_USABLE).

Definition merge_step (st : Z * list memmap_entry)
  : option (Z * list memmap_entry + list memmap_entry) :=
  let '(i, m) := st in
  if i + 1 <? len m then
    e ← m.[i];
    f ← m.[i + 1];
    let next := Some (inl (i + 1, m)) in
    if negb (mergeable (e_type e)) then next else
    match e_top e with
    | None => next
    | Some merge_top =>
        if (e_type f =? e_type e) && (e_base f =? merge_top) then
          match add64 (e_len e) (e_len f) with
          | None => next
          | Some l =>
              m ← m.[i <- ME (e_base e) l (e_type e)];
              Some (inl (i, take (Z.to_nat (i + 1)) m ++ drop (Z.to_nat (i + 2)) m))
          end
        else next
    end
  else Some (inr m).

(** The fuel: every round advances the index or shortens the map. *)
Definition sanitise_fuel (m : list memmap_entry) : nat := S (length m) * S (length m) + 1.

Definition pmm_sanitise_entries (keep_first_page align_entries : bool) (m : list memmap_entry)
  : option (list memmap_entry) :=
  m ← loop (sanitise_fuel m) (overlap_step align_entries) (0, m);
  m ← loop (sanitise_fuel m) (empty_step keep_first_page) (0, m);
  m ← sort_entries m;
  loop (sanitise_fuel m) merge_step (0, m).

(** ** Reserving a range *)

(** One round of the loop of [pmm_new_entry] that makes room for [base, top);
    the entries it appends are visited too. *)
Definition new_entry_step (base top : Z) (st : Z * list memmap_entry)
  : option (Z * list memmap_entry + list memmap_entry) :=
  let '(i, m) := st in
  if i <? len m then
    e ← m.[i];
    let entry_base := e_base e in
    match e_top e with
    | None => Some (inl (i + 1, m))
    | Some entry_top =>
        if (base <=? entry_base) && (entry_top <=? top) then
          m ← remove_entry m i; Some (inl (i, m))
        else if (base <=? entry_base) && (top <? entry_top) && (entry_base <? top) then
          m ← m.[i <- ME (u64 (entry_base + u64 (top - entry_base)))
                         (u64 (e_len e - u64 (top - entry_base))) (e_type e)];
          Some (inl (i + 1, m))
        else if (entry_base <? base) && (base <? entry_top) && (entry_top <=? top) then
          m ← m.[i <- ME entry_base (u64 (e_len e - u64 (entry_top - base))) (e_type e)];
          Some (inl (i + 1, m))
        else if (entry_base <? base) && (top <? entry_top) then
          m ← m.[i <- ME entry_base (u64 (e_len e - u64 (entry_top - base))) (e_type e)];
          if memmap_max_entries <=? len m then None else
          Some (inl (i + 1, m ++ [ME top (u64 (entry_top - top)) (e_type e)]))
        else Some (inl (i + 1, m))
    end
  else Some (inr m).

Definition pmm_new_entry (m : list memmap_entry) (base length type : Z)
  : option (list memmap_entry) :=
  top ← add64 base length;
  m ← loop (2 * S (List.length m) + 1) (new_entry_step base top) (0, m);
  if memmap_max_entries <=? len m then None else Some (m ++ [ME base length type]).

(** The search for an entry that holds the range: [inl] to go on. *)
Definition holds_range (overlay_type base top : Z) (e : memmap_entry) : bool :=
  if negb (overlay_type =? 0) && negb (e_type e =? overlay_type) then false else
  match e_top e with
  | None => false
  | Some entry_top => (e_base e <=? base) && (base <? entry_top) && (top <=? entry_top)
  end.

(** [memmap_alloc_range_in]: the returned flag and the map. *)
Definition memmap_alloc_range_in (keep_first_page : bool) (m : list memmap_entry)
    (base length type overlay_type : Z) (do_panic simulation new_entry : bool)
  : option (bool * list memmap_entry) :=
  if length =? 0 then Some (true, m) else
  if simulation && new_entry then Some (true, m) else
  match add64 base length with
  | None => if do_panic then None else Some (false, m)
  | Some top =>
      let reserve :=
        m ← pmm_new_entry m base length type;
        m ← pmm_sanitise_entries keep_first_page false m;
        Some (true, m) in
      if existsb (holds_range overlay_type base top) m then
        if simulation then Some (true, m) else reserve
      else if new_entry then reserve
      else if do_panic then None else Some (false, m)
  end.

(** [pmm_check_type]: [-1] is [(uint64_t)-1]. *)
Fixpoint pmm_check_type (m : list memmap_entry) (addr : Z) : Z :=
  match m with
  | [] => SIZE_MAX
  | e :: m =>
      match e_top e with
      | None => pmm_check_type m addr
      | Some entry_top =>
          if (e_base e <=? addr) && (addr <? entry_top) then e_type e else pmm_check_type m addr
      end
  end.

(** [check_usable_memory] of [pmm.c]: [inl] is [overlap_remaining]. *)
Definition full_overlap_check (base1 top1 base2 top2 : Z) : bool :=
  ((base2 <=? base1) && (base1 <? top2)) && ((base2 <? top1) && (top1 <=? top2)).

Definition real_ram (type : Z) : bool :=
  (type =? MEMMAP_USABLE) || (type =? MEMMAP_BOOTLOADER_RECLAIMABLE)
  || (type =? MEMMAP_KERNEL_AND_MODULES).

Fixpoint check_usable_loop (m : list memmap_entry) (base top overlap_remaining : Z) : bool :=
  match m with
  | [] => false
  | e :: m =>
      if negb (real_ram (e_type e)) then check_usable_loop m base top overlap_remaining else
      match e_top e with
      | None => check_usable_loop m base top overlap_remaining
      | Some memmap_top =>
          if full_overlap_check base top (e_base e) memmap_top then true
          else if (e_base e <? top) && (base <? memmap_top) then
            let overlap_bottom := if base <? e_base e then e_base e else base in
            let overlap_top := if memmap_top <? top then memmap_top else top in
            let overlap_size := u64 (overlap_top - overlap_bottom) in
            let overlap_remaining := u64 (overlap_remaining - overlap_size) in
            if overlap_remaining =? 0 then true
            else check_usable_loop m base top overlap_remaining
          else check_usable_loop m base top overlap_remaining
      end
  end.

Definition check_usable_memory (m : list memmap_entry) (base top : Z) : bool :=
  check_usable_loop m base top (u64 (top - base)).

(** ** The allocators

    Their state: the map, [allocations_disallowed], the static [base] of
    [conv_mem_alloc], [pmm_sanitiser_keep_first_page] and the contents of
    memory. *)
Record pmm_state := PMM {
  memmap : list memmap_entry;
  allocations_disallowed : bool;
  conv_base : Z;
  keep_first : bool;
  mem : Z → Z;
}.

Definition set_memmap (s : pmm_state) (m : list memmap_entry) : pmm_state :=
  PMM m (allocations_disallowed s) (conv_base s) (keep_first s) (mem s).
Definition set_mem (s : pmm_state) (f : Z → Z) : pmm_state :=
  PMM (memmap s) (allocations_disallowed s) (conv_base s) (keep_first s) f.

(** [memset] and [memcpy] on physical memory. *)
Definition fill (f : Z → Z) (a n v : Z) : Z → Z :=
  λ x, if (a <=? x) && (x <? a + n) then v else f x.
Definition copy (f : Z → Z) (dst src n : Z) : Z → Z :=
  λ x, if (dst <=? x) && (x <? dst + n) then f (src + (x - dst)) else f x.

Definition memmap_alloc_range (s : pmm_state) (base length type overlay_type : Z)
    (do_panic simulation new_entry : bool) : option (bool * pmm_state) :=
  '(b, m) ← memmap_alloc_range_in (keep_first s) (memmap s) base length type overlay_type
              do_panic simulation new_entry;
  Some (b, set_memmap s m).

Definition sanitise_state (align_entries : bool) (s : pmm_state) : option pmm_state :=
  m ← pmm_sanitise_entries (keep_first s) align_entries (memmap s);
  Some (set_memmap s m).

(** The range the top-down allocator takes from entry [e] below [limit]: its
    start and length. *)
Definition alloc_window (limit count alignment : Z) (e : memmap_entry) : option (Z * Z) :=
  if negb (e_type e =? 1) then None else
  let entry_base := e_base e in
  entry_top ← e_top e;
  entry_top ← (if limit <? entry_top then
                 if limit <=? entry_base then None else Some limit
               else Some entry_top);
  if entry_top - entry_base <? count then None else
  let alloc_base := align_down64 (entry_top - count) alignment in
  if alloc_base <? entry_base then None else Some (alloc_base, entry_top - alloc_base).

(** [for (int i = memmap_entries - 1; i >= 0; i--)]: the first entry from the
    end with room. *)
Fixpoint find_window (limit count alignment : Z) (rm : list memmap_entry) : option (Z * Z) :=
  match rm with
  | [] => None
  | e :: rm =>
      match alloc_window limit count alignment e with
      | Some w => Some w
      | None => find_window limit count alignment rm
      end
  end.

Definition LIMIT_4G : Z := 0x100000000.

(** [ext_mem_alloc_type_aligned_mode] on x86-64: below 4 GiB first, anywhere
    if [allow_high_allocs]. *)
Definition ext_mem_alloc_type_aligned_mode (s : pmm_state) (count type alignment : Z)
    (allow_high_allocs : bool) : option (Z * pmm_state) :=
  let count := if count =? 0 then 1 else count in
  count ← add64 count (u64 (alignment - 1));
  let count := align_down64 count alignment in
  if allocations_disallowed s then None else
  '(alloc_base, aligned_length) ←
     match find_window LIMIT_4G count alignment (rev (memmap s)) with
     | Some w => Some w
     | None => if allow_high_allocs then find_window SIZE_MAX count alignment (rev (memmap s)) else None
     end;
  '(_, s) ← memmap_alloc_range s alloc_base aligned_length type MEMMAP_USABLE true false false;
  s ← sanitise_state false (set_mem s (fill (mem s) alloc_base count 0));
  Some (alloc_base, s).

Definition ext_mem_alloc_type_aligned (s : pmm_state) (count type alignment : Z) :=
  ext_mem_alloc_type_aligned_mode s count type alignment false.
Definition ext_mem_alloc_type (s : pmm_state) (count type : Z) :=
  ext_mem_alloc_type_aligned s count type 4096.
Definition ext_mem_alloc (s : pmm_state) (count : Z) :=
  ext_mem_alloc_type s count MEMMAP_BOOTLOADER_RECLAIMABLE.
Definition ext_mem_alloc_counted (s : pmm_state) (count elem_size : Z) :=
  n ← mul64 count elem_size; ext_mem_alloc s n.

Definition pmm_free (s : pmm_state) (ptr count : Z) : option pmm_state :=
  if ptr =? 0 then Some s else
  if negb (ptr mod 4096 =? 0) then None else
  let count := if count =? 0 then 1 else count in
  count ← align_up64 count 4096;
  if allocations_disallowed s then None else
  '(_, s) ← memmap_alloc_range s ptr count MEMMAP_USABLE 0 false false true;
  Some s.

Definition pmm_realloc (s : pmm_state) (old_ptr old_size new_size : Z) : option (Z * pmm_state) :=
  if old_ptr =? 0 then ext_mem_alloc s new_size else
  '(new_ptr, s) ← ext_mem_alloc s new_size;
  let s := set_mem s (copy (mem s) new_ptr old_ptr (Z.min new_size old_size)) in
  s ← pmm_free s old_ptr old_size;
  Some (new_ptr, s).

(** [conv_mem_alloc]: first fit from the static [base] up. *)
Definition conv_step (count : Z) (s : pmm_state) : option (pmm_state + Z * pmm_state) :=
  let base := conv_base s in
  if 0x100000 <? u64 (base + count) then None else
  '(ok, s) ← memmap_alloc_range s base count MEMMAP_BOOTLOADER_RECLAIMABLE MEMMAP_USABLE
               false false false;
  let bump n s := PMM (memmap s) (allocations_disallowed s) (base + n) (keep_first s) (mem s) in
  if (ok : bool) then
    s ← sanitise_state false (bump count (set_mem s (fill (mem s) base count 0)));
    Some (inr (base, s))
  else Some (inl (bump 4096 s)).

Definition conv_mem_alloc (s : pmm_state) (count : Z) : option (Z * pmm_state) :=
  if allocations_disallowed s then None else
  let count := if count =? 0 then 1 else count in
  count ← align_up64 count 4096;
  loop 260 (conv_step count) s.

(** [get_memmap]: the final map; no allocation may follow. *)
Definition get_memmap (s : pmm_state) : option (list memmap_entry * pmm_state) :=
  s ← sanitise_state true s;
  Some (memmap s, PMM (memmap s) true (conv_base s) (keep_first s) (mem s)).

(** [init_memmap] of the BIOS build: [EBDA] and the end of the bootloader's
    image are parameters of the boot. *)
Definition e820_entry (EBDA : Z) (e : memmap_entry) : option memmap_entry :=
  top ← e_top e;
  if e_type e =? MEMMAP_USABLE then
    if (EBDA <=? e_base e) && (e_base e <? 0x100000) then
      if top <=? 0x100000 then None
      else
        let e := ME 0x100000 (u64 (e_len e - u64 (0x100000 - e_base e))) (e_type e) in
        Some (if (EBDA <? top) && (top <=? 0x100000)
              then ME (e_base e) (u64 (e_len e - u64 (top - EBDA))) (e_type e) else e)
    else
      Some (if (EBDA <? top) && (top <=? 0x100000)
            then ME (e_base e) (u64 (e_len e - u64 (top - EBDA))) (e_type e) else e)
  else Some e.

Fixpoint e820_loop (EBDA : Z) (e820_map m : list memmap_entry) : option (list memmap_entry) :=
  match e820_map with
  | [] => Some m
  | e :: e820_map =>
      if len m =? memmap_max_entries then None else
      match e820_entry EBDA e with
      | None => e820_loop EBDA e820_map m
      | Some e' => e820_loop EBDA e820_map (m ++ [e'])
      end
  end.

Definition init_memmap (EBDA bss_end : Z) (e820_map : list memmap_entry) (s : pmm_state)
  : option pmm_state :=
  m ← e820_loop EBDA e820_map (memmap s);
  s ← sanitise_state false (set_memmap s m);
  image_top ← align_up64 bss_end 4096;
  '(_, s) ← memmap_alloc_range s 4096 (u64 (image_top - 4096)) MEMMAP_BOOTLOADER_RECLAIMABLE 0
              true false false;
  s ← sanitise_state false s;
  Some (PMM (memmap s) false (conv_base s) (keep_first s) (mem s)).

(** ** [mmap_get_info]

    A pass extends the two frontiers; passes go on while one extends. *)
Record meminfo := MI { uppermem : Z; lowermem : Z }.

Fixpoint frontier_pass (m : list memmap_entry) (st : Z * Z * bool) : Z * Z * bool :=
  match m with
  | [] => st
  | e :: m =>
      let '(lower_end, upper_end, progress) := st in
      if negb (e_type e =? MEMMAP_USABLE) then frontier_pass m st else
      match e_top e with
      | None => frontier_pass m st
      | Some top =>
          let base := e_base e in
          let '(lower_end, progress) :=
            if (base <=? lower_end) && (lower_end <? top) then (top, true)
            else (lower_end, progress) in
          let '(upper_end, progress) :=
            if (base <=? upper_end) && (upper_end <? top) then (top, true)
            else (upper_end, progress) in
          frontier_pass m (lower_end, upper_end, progress)
      end
  end.

Definition frontier_loop (m : list memmap_entry) : option (Z * Z) :=
  loop (2 * length m + 2) (λ '(lower_end, upper_end),
    let '(l, u, progress) := frontier_pass m (lower_end, upper_end, false) in
    if (progress : bool) then Some (inl (l, u)) else Some (inr (l, u))) (0, 0x100000).

Definition mmap_get_info (m : list memmap_entry) : option meminfo :=
  '(lower_end, upper_end) ← frontier_loop m;
  let lower_end := if 0x100000 <? lower_end then 0x100000 else lower_end in
  Some (MI (u64 (upper_end - 0x100000)) lower_end).
