(* ===== verification/PmmSanitise.v ===== *)
(** The sanitiser of the memory map: it ends, panics only on an entry inside
    usable memory, and makes the map say of each address what the map it was
    given says, with non-usable entries taking precedence. *)
From S2P Require Import Prelude Pmm.

(** ** What a map says of an address *)

(** The entry covers the address. *)
Definition covb (e : memmap_entry) (a : Z) : bool :=
  (e_base e <=? a) && (a <? e_base e + e_len e).

(** How many entries of the types [P] cover the address. *)
Fixpoint cnt (P : Z → bool) (m : list memmap_entry) (a : Z) : Z :=
  match m with
  | [] => 0
  | e :: m => b2z (P (e_type e) && covb e a) + cnt P m a
  end.

Definition usable (t : Z) : bool := t =? MEMMAP_USABLE.
Definition not_usable (t : Z) : bool := negb (usable t).
Definition any_type (_ : Z) : bool := true.

(** The entry does not run past the end of the address space. *)
Definition ok_entry (e : memmap_entry) : Prop :=
  0 ≤ e_base e ∧ 0 ≤ e_len e ∧ e_base e + e_len e < 2 ^ 64.
Definition wf (m : list memmap_entry) : Prop := Forall ok_entry m.

(** No address is covered by both. *)
Definition apart (e f : memmap_entry) : Prop := ∀ a, covb e a = true → covb f a = true → False.

(** [f] covers nothing outside [e]. *)
Definition within (f e : memmap_entry) : Prop :=
  e_type f = e_type e ∧ ∀ a, covb f a = true → covb e a = true.

Lemma covb_true e a : covb e a = true ↔ e_base e ≤ a < e_base e + e_len e.
Proof. unfold covb. rewrite andb_true_iff, Z.leb_le, Z.ltb_lt. done. Qed.

Lemma covb_empty e a : e_len e = 0 → covb e a = false.
Proof. intros. apply not_true_iff_false. rewrite covb_true. lia. Qed.

Lemma within_refl e : within e e.
Proof. done. Qed.

Lemma within_trans e f g : within g f → within f e → within g e.
Proof. intros [? ?] [? ?]. split; [congruence|auto]. Qed.

Lemma apart_within e f e' : apart e f → within e' e → apart e' f.
Proof. intros Ha [_ Hw] a He Hf. apply (Ha a); auto. Qed.

Lemma apart_sym e f : apart e f → apart f e.
Proof. intros Ha a ? ?. by apply (Ha a). Qed.

Lemma b2z_range b : 0 ≤ b2z b ≤ 1.
Proof. destruct b; simpl; lia. Qed.

Lemma b2z_pos b : 0 < b2z b ↔ b = true.
Proof. destruct b; simpl; split; (done || lia). Qed.

Lemma cnt_nonneg P m a : 0 ≤ cnt P m a.
Proof. induction m as [|e m IH]; simpl; [lia|]. pose proof (b2z_range (P (e_type e) && covb e a)). lia. Qed.

Lemma cnt_app P m1 m2 a : cnt P (m1 ++ m2) a = cnt P m1 a + cnt P m2 a.
Proof. induction m1 as [|e m1 IH]; simpl; lia. Qed.

Lemma cnt_perm P m1 m2 a : m1 ≡ₚ m2 → cnt P m1 a = cnt P m2 a.
Proof. induction 1; simpl; lia. Qed.

#[export] Instance cnt_proper P : Proper ((≡ₚ) ==> (=) ==> (=)) (cnt P).
Proof. intros m1 m2 Hm a b ->. by apply cnt_perm. Qed.

#[export] Instance wf_proper : Proper ((≡ₚ) ==> iff) wf.
Proof. intros m1 m2 Hm. unfold wf. by rewrite Hm. Qed.

(** All entries are usable or not. *)
Lemma cnt_split m a : cnt any_type m a = cnt usable m a + cnt not_usable m a.
Proof.
  induction m as [|e m IH]; cbn [cnt]; [done|]. rewrite IH. unfold not_usable, any_type.
  destruct (usable (e_type e)), (covb e a); cbn [negb andb b2z]; lia.
Qed.

Lemma cnt_zero P m a : cnt P m a = 0 ↔ ∀ e, e ∈ m → P (e_type e) = true → covb e a = false.
Proof.
  induction m as [|e m IH]; simpl.
  - split; [|done]. intros _ e Hin. by apply elem_of_nil in Hin.
  - pose proof (cnt_nonneg P m a). split.
    + intros Hz f [->|Hf]%elem_of_cons HP.
      * rewrite HP in Hz. destruct (covb e a); simpl in *; [lia|done].
      * apply IH; try done. pose proof (b2z_range (P (e_type e) && covb e a)). lia.
    + intros Hall. rewrite (proj2 IH) by (intros f Hf; apply Hall; by right).
      destruct (P (e_type e)) eqn:HP; [|done].
      rewrite (Hall e); [done|by left|done].
Qed.

Lemma cnt_pos P m a : 0 < cnt P m a ↔ ∃ e, e ∈ m ∧ P (e_type e) = true ∧ covb e a = true.
Proof.
  induction m as [|e m IH]; simpl.
  - split; [lia|]. intros (e & Hin & _). by apply elem_of_nil in Hin.
  - pose proof (cnt_nonneg P m a). split.
    + intros Hp. destruct (P (e_type e) && covb e a) eqn:He.
      * apply andb_true_iff in He as [? ?]. exists e. split; [by left|done].
      * destruct (proj1 IH) as (f & ? & ?); [simpl in Hp; lia|]. exists f. split; [by right|done].
    + intros (f & [->|Hf]%elem_of_cons & HP & Hc).
      * rewrite HP, Hc. simpl. lia.
      * pose proof (b2z_range (P (e_type e) && covb e a)).
        assert (0 < cnt P m a) by (apply IH; eauto). lia.
Qed.

(** ** Removing and replacing an entry *)

Lemma arr_get_elem {A} (l : list A) i x : l.[i] = Some x → x ∈ l.
Proof. unfold arr_get. case_decide; [|done]. apply list_elem_of_lookup_2. Qed.

Lemma arr_get_split {A} (l : list A) i x : l.[i] = Some x →
  ∃ l1 l2, l = l1 ++ x :: l2 ∧ len l1 = i.
Proof.
  intros Hx. pose proof (arr_get_Some_lt _ _ _ Hx). unfold arr_get in Hx.
  rewrite decide_True in Hx by lia.
  exists (take (Z.to_nat i) l), (drop (S (Z.to_nat i)) l). split.
  - by rewrite take_drop_middle.
  - unfold len in *. rewrite length_take. lia.
Qed.

Lemma arr_set_perm {A} (l l' : list A) i x y : l.[i] = Some x → l.[i <- y] = Some l' →
  ∃ k, l ≡ₚ x :: k ∧ l' ≡ₚ y :: k.
Proof.
  intros (l1 & l2 & -> & <-)%arr_get_split Hset.
  apply arr_set_Some in Hset as [_ ->]. exists (l1 ++ l2). split; [by rewrite Permutation_middle|].
  unfold len. rewrite Nat2Z.id, insert_app_r_alt, Nat.sub_diag by lia. simpl.
  by rewrite Permutation_middle.
Qed.

Lemma remove_entry_ok m i e : m.[i] = Some e →
  returns (remove_entry m i) (λ m',
    m ≡ₚ e :: m' ∧ len m' = len m - 1 ∧
    ∀ j, 0 ≤ j < i → m'.[j] = m.[j]).
Proof.
  intros He. pose proof (arr_get_Some_lt _ _ _ He) as Hi. unfold remove_entry.
  destruct (arr_get_lt m (len m - 1)) as [last Hl]; [lia|]. rewrite Hl. cbn [mbind option_bind].
  assert (m = take (Z.to_nat (len m - 1)) m ++ [last]) as Hm.
  { rewrite <- take_Z_snoc by done. replace (len m - 1 + 1) with (len m) by lia.
    unfold len. rewrite Nat2Z.id, take_ge; done. }
  assert (len (take (Z.to_nat (len m - 1)) m) = len m - 1) as Hlt.
  { unfold len in *. rewrite length_take. lia. }
  destruct (Z.ltb_spec i (len m - 1)).
  - apply returns_bind_set; [lia|]. intros m' Hset Hlm. apply returns_ret.
    set (k := take (Z.to_nat (len m - 1)) m) in *.
    assert (k.[i] = Some e) as Hke by (rewrite Hm in He; by rewrite arr_get_app_l in He by lia).
    destruct (arr_get_split _ _ _ Hke) as (l1 & l2 & Hk & Hl1).
    apply arr_set_Some in Hset as [_ ->].
    assert (take (Z.to_nat (len m - 1)) (<[Z.to_nat i:=last]> m) = l1 ++ last :: l2) as ->.
    { rewrite take_insert_lt by lia. fold k. rewrite Hk. unfold len in Hl1. subst i.
      rewrite Nat2Z.id, insert_app_r_alt, Nat.sub_diag by lia. done. }
    split_and!.
    + rewrite Hm, Hk. solve_Permutation.
    + rewrite <- Hlt, Hk. len_lia.
    + intros j Hj. transitivity l1.[j]; [apply arr_get_app_l; lia|].
      rewrite Hm, Hk, <- app_assoc. symmetry. apply arr_get_app_l. lia.
  - assert (i = len m - 1) as -> by lia. rewrite Hl in He. injection He as <-.
    apply returns_ret. split_and!; [|done|].
    + rewrite Hm at 1. by rewrite Permutation_app_comm.
    + intros j Hj. rewrite <- (arr_get_app_l _ [last]) by lia. by rewrite <- Hm.
Qed.

(** ** Clipping one entry *)

(** [clip_against] panics on these two: [r] starts and ends inside [e]. *)
Definition inside (r e : memmap_entry) : Prop :=
  e_base e ≤ e_base r < e_base e + e_len e ∧ e_base r + e_len r < e_base e + e_len e.

Lemma e_top_ok e : ok_entry e → e_top e = Some (e_base e + e_len e).
Proof. intros (? & ? & ?). by apply add64_lt. Qed.

Lemma clip_against_ok e r :
  ok_entry e → ok_entry r →
  match clip_against e r with
  | None => inside r e
  | Some ClipDel => False
  | Some (ClipStop e') =>
      e_len e' = 0 ∧ ok_entry e' ∧ e_type e' = e_type e ∧ ∀ a, covb e a = true → covb r a = true
  | Some (ClipNext e') =>
      ok_entry e' ∧ within e' e ∧ apart e' r ∧
      ∀ a, covb e a = true → covb e' a = true ∨ covb r a = true
  end.
Proof.
  intros He Hr. unfold clip_against.
  pose proof (e_top_ok e He) as Ht. pose proof (e_top_ok r Hr) as Hrt. unfold e_top in *.
  rewrite Ht, Hrt. destruct He as (? & ? & ?), Hr as (? & ? & ?).
  set (top := e_base e + e_len e) in *. set (res_top := e_base r + e_len r) in *.
  destruct (Z.leb_spec (e_base r) (e_base e)), (Z.leb_spec top res_top),
    (Z.leb_spec (e_base e) (e_base r)), (Z.ltb_spec (e_base r) top),
    (Z.leb_spec (e_base e) res_top), (Z.ltb_spec res_top top); cbn [andb]; unfold inside, ok_entry, within, apart;
  repeat match goal with
  | |- context [if (?a <=? ?b) then _ else _] => destruct (Z.leb_spec a b)
  | |- context [if (?a <? ?b) then _ else _] => destruct (Z.ltb_spec a b)
  | |- context [if (?a <=? ?b) && _ then _ else _] => destruct (Z.leb_spec a b); cbn [andb]
  end;
  rewrite ?u64_id by lia; try setoid_rewrite covb_true; cbn [e_base e_len e_type];
  try (split_and!; first [done | lia | intros; lia]).
Qed.

(** The entries of [rs] but the one at index [i], [rs] starting at index [j]. *)
Fixpoint others (rs : list memmap_entry) (i j : Z) : list memmap_entry :=
  match rs with
  | [] => []
  | r :: rs => if j =? i then others rs i (j + 1) else r :: others rs i (j + 1)
  end.

Lemma others_past rs i j : i < j → others rs i j = rs.
Proof.
  revert j. induction rs as [|r rs IH]; intros j Hj; simpl; [done|].
  destruct (Z.eqb_spec j i); [lia|]. f_equal. apply IH. lia.
Qed.

Lemma others_app l1 l2 e i j :
  i = j + len l1 → others (l1 ++ e :: l2) i j = l1 ++ l2.
Proof.
  revert j. induction l1 as [|x l1 IH]; intros j Hi; simpl.
  - rewrite len_nil, Z.add_0_r in Hi. subst. rewrite Z.eqb_refl. apply others_past. lia.
  - rewrite len_cons in Hi. pose proof (len_nonneg l1).
    destruct (Z.eqb_spec j i); [lia|]. f_equal. apply IH. lia.
Qed.

Lemma others_spec m i e : m.[i] = Some e →
  m ≡ₚ e :: others m i 0 ∧
  (∀ f, f ∈ others m i 0 ↔ ∃ q, q ≠ i ∧ m.[q] = Some f) ∧
  ∀ e' m', m.[i <- e'] = Some m' → m' ≡ₚ e' :: others m i 0.
Proof.
  intros (l1 & l2 & -> & <-)%arr_get_split. rewrite others_app by lia.
  split_and!; [solve_Permutation| |].
  - intros f. rewrite elem_of_app. split.
    + intros [Hf|Hf]; apply list_elem_of_lookup in Hf as [k Hk];
        pose proof (lookup_lt_Some _ _ _ Hk).
      * exists (Z.of_nat k). unfold len. split; [lia|].
        rewrite arr_get_app_l by (unfold len; lia). by rewrite arr_get_lookup.
      * exists (len l1 + 1 + Z.of_nat k). split; [lia|].
        rewrite (cons_middle _ l1), app_assoc, arr_get_app_r by (len_lia).
        rewrite len_app, len_cons, len_nil.
        replace (_ - _) with (Z.of_nat k) by lia. by rewrite arr_get_lookup.
    + intros (q & Hne & Hq). destruct (decide (q < len l1)).
      * left. rewrite arr_get_app_l in Hq by done. by apply arr_get_elem in Hq.
      * right. rewrite (cons_middle _ l1), app_assoc, arr_get_app_r in Hq by len_lia.
        by apply arr_get_elem in Hq.
  - intros e' m' [_ ->]%arr_set_Some.
    unfold len. rewrite Nat2Z.id, insert_app_r_alt, Nat.sub_diag by lia. simpl. solve_Permutation.
Qed.

(** The loop on [j] clips the entry against all the others. *)
Lemma clip_all_ok rs i j e :
  ok_entry e → wf rs →
  match clip_all rs i j e with
  | None => ∃ e' r, ok_entry e' ∧ within e' e ∧ r ∈ others rs i j ∧ inside r e'
  | Some ClipDel => False
  | Some (ClipStop e') =>
      e_len e' = 0 ∧ ok_entry e' ∧ e_type e' = e_type e ∧
      ∀ a, covb e a = true → ∃ r, r ∈ others rs i j ∧ covb r a = true
  | Some (ClipNext e') =>
      ok_entry e' ∧ within e' e ∧ (∀ r, r ∈ others rs i j → apart e' r) ∧
      ∀ a, covb e a = true → covb e' a = true ∨ ∃ r, r ∈ others rs i j ∧ covb r a = true
  end.
Proof.
  revert j e. induction rs as [|r rs IH]; intros j e He Hrs; simpl.
  { split_and!; [done|done| |by left]. intros r Hr. by apply elem_of_nil in Hr. }
  apply Forall_cons in Hrs as [Hr Hrs].
  destruct (j =? i); [by apply IH|].
  pose proof (clip_against_ok e r He Hr) as Hc.
  destruct (clip_against e r) as [[e1|e1|]|]; simpl; [|..].
  - destruct Hc as (He1 & Hw1 & Ha1 & Hc1). specialize (IH (j + 1) e1 He1 Hrs).
    destruct (clip_all rs i (j + 1) e1) as [[e2|e2|]|]; [| |done|].
    + destruct IH as (? & Hw2 & Ha2 & Hc2). split_and!; [done|by eapply within_trans| |].
      * intros f [->|Hf]%elem_of_cons; [|by apply Ha2]. by eapply apart_within.
      * intros a Ha. destruct (Hc1 a Ha) as [Hx|Hx]; [|right; exists r; split; [by left|done]].
        destruct (Hc2 a Hx) as [?|(f & ? & ?)]; [by left|].
        right. exists f. split; [by right|done].
    + destruct IH as (? & ? & Ht & Hc2). destruct Hw1 as [Ht1 _].
      split_and!; [done|done|congruence|]. intros a Ha.
      destruct (Hc1 a Ha) as [Hx|Hx]; [|exists r; split; [by left|done]].
      destruct (Hc2 a Hx) as (f & ? & ?). exists f. split; [by right|done].
    + destruct IH as (e2 & f & ? & ? & ? & ?). exists e2, f.
      split_and!; [done|by eapply within_trans|by right|done].
  - destruct Hc as (? & ? & ? & Hc). split_and!; [done|done|done|].
    intros a Ha. exists r. split; [by left|by apply Hc].
  - done.
  - exists e, r. split_and!; [done|done|by left|done].
Qed.

(** ** Page alignment *)

Definition page_aligned (e : memmap_entry) : Prop :=
  e_base e mod PAGE_SIZE = 0 ∧ e_len e mod PAGE_SIZE = 0.

Lemma align_entry_ok e e' :
  ok_entry e → align_entry e = Some e' →
  ok_entry e' ∧ within e' e ∧ page_aligned e' ∧ 0 < e_len e'.
Proof.
  unfold align_entry, align_up64, div_roundup64, align_down64, PAGE_SIZE, page_aligned, within.
  intros (Hb & Hl & Ht). destruct (Z.ltb_spec (e_len e) 4096); [done|].
  change (u64 (4096 - 1)) with 4095. rewrite add64_lt by lia. cbn [mbind option_bind].
  pose proof (Z.div_mod (e_base e + 4095) 4096 ltac:(done)).
  pose proof (Z.mod_pos_bound (e_base e + 4095) 4096 ltac:(done)).
  set (q := (e_base e + 4095) / 4096) in *.
  rewrite (u64_id (q * 4096)) by lia. rewrite (u64_id (q * 4096 - _)) by lia.
  rewrite (u64_id (e_len e - _)) by lia.
  set (l := e_len e - (q * 4096 - e_base e)).
  pose proof (Z.div_mod l 4096 ltac:(done)). pose proof (Z.mod_pos_bound l 4096 ltac:(done)).
  assert (0 ≤ l / 4096) by (apply Z.div_pos; unfold l; lia).
  rewrite u64_id by lia. destruct (Z.eqb_spec (l / 4096 * 4096) 0) as [|Hne]; [done|].
  intros [= <-]. cbn [e_base e_len e_type]. setoid_rewrite covb_true. cbn [e_base e_len].
  rewrite !Z.mod_mul by done. unfold ok_entry. cbn [e_base e_len]. unfold l in *.
  split_and!; try done; lia.
Qed.

(** ** The first loop *)

(** An entry of [m0], clipped if it is usable. *)
Definition comes_from (m0 : list memmap_entry) (e : memmap_entry) : Prop :=
  ∃ e0, e0 ∈ m0 ∧ within e e0 ∧ (usable (e_type e) = false → e = e0).

(** What the loops keep of the map [m0] they were given: entries that are not
    usable as they are, no address more, and, when entries are not trimmed to
    pages, no address less. *)
Record refines (align : bool) (m0 m : list memmap_entry) : Prop := {
  ref_wf : wf m;
  ref_types : ∀ P a, P MEMMAP_USABLE = false → cnt P m a = cnt P m0 a;
  ref_le : ∀ P a, cnt P m a ≤ cnt P m0 a;
  ref_any : align = false → ∀ a, 0 < cnt any_type m0 a → 0 < cnt any_type m a;
  ref_len : Forall (λ e, 0 < e_len e) m0 → Forall (λ e, 0 < e_len e) m;
  ref_src : Forall (comes_from m0) m;
}.

Lemma comes_from_refl m : Forall (comes_from m) m.
Proof. apply Forall_forall. intros e He. by exists e. Qed.

Lemma refines_refl align m : wf m → refines align m m.
Proof. split; try done. apply comes_from_refl. Qed.

Lemma usable_type e : usable (e_type e) = true → e_type e = MEMMAP_USABLE.
Proof. apply Z.eqb_eq. Qed.

Lemma within_b2z P e e' a :
  within e' e → b2z (P (e_type e') && covb e' a) ≤ b2z (P (e_type e) && covb e a).
Proof.
  intros [-> Hw]. destruct (P (e_type e)); simpl; [|lia].
  destruct (covb e' a) eqn:He; simpl; [rewrite Hw by done; done|apply b2z_range].
Qed.

Section refines_steps.
Context (align : bool) (m0 m : list memmap_entry) (e : memmap_entry) (k : list memmap_entry).
Hypothesis (Hm : refines align m0 m) (Hperm : m ≡ₚ e :: k) (Hu : usable (e_type e) = true).

Lemma refines_replace e' m' :
  ok_entry e' → 0 < e_len e' → within e' e →
  (align = false → ∀ a, covb e a = true → covb e' a = true ∨ 0 < cnt any_type k a) →
  m' ≡ₚ e' :: k → refines align m0 m'.
Proof.
  intros He' Hl Hw Hcov Hm'. destruct Hm as [H1 H2 H3 H4 H5 H6].
  rewrite Hperm in H1, H6. apply Forall_cons in H1 as [_ Hk]. split.
  - rewrite Hm'. by constructor.
  - intros P a HP. rewrite Hm', <- (H2 P a HP), Hperm. simpl.
    destruct Hw as [-> _]. by rewrite (usable_type e Hu), HP.
  - intros P a. specialize (H3 P a). rewrite Hperm in H3. rewrite Hm'. simpl in *.
    pose proof (within_b2z P e e' a Hw). lia.
  - intros Ha a Hp. specialize (H4 Ha a Hp). rewrite Hperm in H4. rewrite Hm'. simpl in *.
    pose proof (cnt_nonneg any_type k a). destruct (covb e a) eqn:Hc; simpl in *; [|pose proof (b2z_range (covb e' a)); lia].
    destruct (Hcov Ha a Hc) as [->|]; simpl; [lia|pose proof (b2z_range (covb e' a)); lia].
  - intros Hall. specialize (H5 Hall). rewrite Hperm in H5. rewrite Hm'.
    apply Forall_cons in H5 as [_ ?]. by constructor.
  - apply Forall_cons in H6 as [(e0 & He0 & Hw0 & _) H6]. rewrite Hm'. constructor; [|done].
    exists e0. split_and!; [done|by eapply within_trans|]. destruct Hw as [-> _]. congruence.
Qed.

Lemma refines_remove :
  (align = false → ∀ a, covb e a = true → 0 < cnt any_type k a) → refines align m0 k.
Proof.
  intros Hcov. destruct Hm as [H1 H2 H3 H4 H5 H6].
  rewrite Hperm in H1. apply Forall_cons in H1 as [_ Hk]. split.
  - done.
  - intros P a HP. rewrite <- (H2 P a HP), Hperm. simpl. by rewrite (usable_type e Hu), HP.
  - intros P a. specialize (H3 P a). rewrite Hperm in H3. simpl in *.
    pose proof (b2z_range (P (e_type e) && covb e a)). lia.
  - intros Ha a Hp. specialize (H4 Ha a Hp). rewrite Hperm in H4. simpl in *.
    destruct (covb e a) eqn:Hc; simpl in *; [|lia]. by apply Hcov.
  - intros Hall. specialize (H5 Hall). rewrite Hperm in H5. by apply Forall_cons in H5 as [_ ?].
  - rewrite Hperm in H6. by apply Forall_cons in H6 as [_ ?].
Qed.
End refines_steps.

Section overlap.
Context (align : bool) (m0 : list memmap_entry).

(** The usable entries below index [i] are apart from all others. *)
Definition settled (i : Z) (m : list memmap_entry) : Prop :=
  ∀ p e, 0 ≤ p < i → m.[p] = Some e → usable (e_type e) = true →
    0 < e_len e ∧ (align = true → page_aligned e) ∧
    ∀ q f, q ≠ p → m.[q] = Some f → apart e f.

Definition overlap_inv (st : Z * list memmap_entry) : Prop :=
  let '(i, m) := st in 0 ≤ i ≤ len m ∧ refines align m0 m ∧ settled i m.

(** Settled entries stay so when an entry that is not usable is passed, or a
    later one shrinks. *)
Lemma settled_skip i m e :
  m.[i] = Some e → usable (e_type e) = false → settled i m → settled (i + 1) m.
Proof.
  intros He Hu Hs p f Hp Hf Huf. destruct (decide (p = i)) as [->|]; [congruence|].
  apply Hs; [lia|done|done].
Qed.

Lemma settled_set i m e e' m' :
  m.[i] = Some e → m.[i <- e'] = Some m' → settled i m → within e' e →
  0 < e_len e' → (align = true → page_aligned e') →
  (∀ r, r ∈ others m i 0 → apart e' r) →
  settled (i + 1) m'.
Proof.
  intros He Hset Hs Hw Hl Hal Hap p f Hp Hf Huf.
  destruct (others_spec m i e He) as (_ & Hoth & _).
  rewrite (arr_get_set _ _ _ _ _ Hset) in Hf. destruct (decide (p = i)) as [->|].
  - injection Hf as <-. split_and!; [done|done|]. intros q g Hq Hg.
    rewrite (arr_get_set _ _ _ _ _ Hset), decide_False in Hg by done.
    apply Hap, Hoth. eauto.
  - destruct (Hs p f ltac:(lia) Hf Huf) as (? & ? & Hpf). split_and!; [done|done|].
    intros q g Hq Hg. rewrite (arr_get_set _ _ _ _ _ Hset) in Hg.
    destruct (decide (q = i)) as [->|]; [|by eapply Hpf].
    injection Hg as <-. apply apart_sym. eapply apart_within; [|exact Hw].
    apply apart_sym. by apply (Hpf i).
Qed.

Definition overlap_measure (st : Z * list memmap_entry) : nat :=
  let '(i, m) := st in length m * S (length m) + (length m - Z.to_nat i).

Lemma overlap_measure_remove (i : Z) (m m' : list memmap_entry) : len m' = len m - 1 → 0 ≤ i < len m →
  (overlap_measure (0%Z, m') < overlap_measure (i, m))%nat.
Proof. unfold overlap_measure, len. intros. nia. Qed.

Lemma overlap_measure_next (i : Z) (m m' : list memmap_entry) : len m' = len m → 0 ≤ i < len m →
  (overlap_measure ((i + 1)%Z, m') < overlap_measure (i, m))%nat.
Proof. unfold overlap_measure, len. intros. replace (length m') with (length m) by lia. nia. Qed.

Lemma refines_remove_at i m m1 e e' k :
  refines align m0 m → m ≡ₚ e :: k → usable (e_type e) = true → m1 ≡ₚ e' :: k → m1.[i] = Some e' →
  len m1 = len m → 0 ≤ i < len m →
  (align = false → ∀ a, covb e a = true → 0 < cnt any_type k a) →
  returns (m'' ← remove_entry m1 i; Some (inl (0, m''))) (λ r : (Z * list memmap_entry) + list memmap_entry,
    match r with
    | inl s' => overlap_inv s' ∧ (overlap_measure s' < overlap_measure (i, m))%nat
    | inr _ => False
    end).
Proof.
  intros Hr Hp Hu Hp1 Hg Hl Hi Hcov. eapply returns_bind; [by apply remove_entry_ok|].
  simpl. intros m2 (Hp2 & Hl2 & _). apply returns_ret. split.
  - split; [pose proof (len_nonneg m2); lia|]. split.
    + rewrite Hp1 in Hp2. apply Permutation_cons_inv in Hp2.
      pose proof (refines_remove align m0 m e k Hr Hp Hu Hcov) as [? ? ? ? ?].
      split; setoid_rewrite <- Hp2; done.
    + intros p f Hp'. lia.
  - apply overlap_measure_remove; lia.
Qed.

Lemma others_cov m i a :
  (∃ r, r ∈ others m i 0 ∧ covb r a = true) → 0 < cnt any_type (others m i 0) a.
Proof. intros (r & Hr & Hc). apply cnt_pos. by exists r. Qed.

Lemma overlap_step_ok st :
  overlap_inv st →
  match overlap_step align st with
  | Some (inl s') => overlap_inv s' ∧ (overlap_measure s' < overlap_measure st)%nat
  | Some (inr m') => refines align m0 m' ∧ settled (len m') m'
  | None => True
  end.
Proof.
  destruct st as [i m]. intros (Hi & Hr & Hs). unfold overlap_step.
  destruct (Z.ltb_spec i (len m)) as [Hlt|].
  2: { replace i with (len m) in Hs by lia. done. }
  destruct (arr_get_lt m i) as [e He]; [lia|]. rewrite He. cbn [mbind option_bind].
  destruct (Z.eqb_spec (e_type e) MEMMAP_USABLE) as [Hu|Hu]; cbn [negb].
  2: { split; [|apply overlap_measure_next; lia]. split; [lia|split; [done|]].
       eapply settled_skip; [done| |done]. by apply Z.eqb_neq. }
  apply Z.eqb_eq in Hu. fold (usable (e_type e)) in Hu.
  destruct (others_spec m i e He) as (Hperm & _ & Hset).
  pose proof (ref_wf _ _ _ Hr) as Hwf.
  assert (ok_entry e) as Hoke by (rewrite Hperm in Hwf; by apply Forall_cons in Hwf as [? _]).
  pose proof (clip_all_ok m i 0 e Hoke Hwf) as Hc.
  destruct (clip_all m i 0 e) as [[e1|e1|]|]; cbn [mbind option_bind]; [| |done|done].
  - destruct Hc as (Hok1 & Hw1 & Hap & Hcov).
    rewrite (arr_set_lt m i e1) by lia. cbn [mbind option_bind].
    pose proof (arr_set_lt m i e1 ltac:(lia)) as Hs1. set (m1 := <[Z.to_nat i:=e1]> m) in *.
    pose proof (Hset _ _ Hs1) as Hp1. pose proof (len_arr_set _ _ _ _ Hs1) as Hl1.
    assert (m1.[i] = Some e1) as Hg1 by by rewrite (arr_get_set _ _ _ _ _ Hs1), decide_True.
    assert (∀ a, align = false → e_len e1 = 0 → covb e a = true → 0 < cnt any_type (others m i 0) a) as Hlost.
    { intros a _ Hz Ha. destruct (Hcov a Ha) as [Hx|Hx]; [by rewrite covb_empty in Hx|].
      by apply others_cov. }
    assert (∀ a, covb e a = true → covb e1 a = true ∨ 0 < cnt any_type (others m i 0) a) as Hcov'.
    { intros a Ha. destruct (Hcov a Ha) as [?|?]; [by left|right; by apply others_cov]. }
    destruct (Z.eqb_spec (e_len e1) 0) as [Hz|Hnz].
    + destruct (refines_remove_at i m m1 e e1 _ Hr Hperm Hu Hp1 Hg1) as (r & -> & Hpost); try lia; [by auto|].
      by destruct r.
    + assert (0 < e_len e1) by (destruct Hok1 as (? & ? & ?); lia).
      destruct (decide (align = true)) as [Hal|Hal%not_true_is_false]; rewrite Hal.
      * destruct (align_entry e1) as [e2|] eqn:Ha2.
        -- destruct (align_entry_ok _ _ Hok1 Ha2) as (Hok2 & Hw2 & Hpa & Hl2).
           rewrite (arr_set_lt m1 i e2) by lia. cbn [mbind option_bind].
           pose proof (arr_set_lt m1 i e2 ltac:(lia)) as Hs2. set (m2 := <[Z.to_nat i:=e2]> m1) in *.
           pose proof (len_arr_set _ _ _ _ Hs2) as Hlm2.
           assert (m.[i <- e2] = Some m2) as Hs12.
           { rewrite arr_set_lt by lia. f_equal. unfold m2, m1. by rewrite list_insert_insert_eq. }
           pose proof (within_trans _ _ _ Hw2 Hw1) as Hw.
           split; [|apply overlap_measure_next; lia]. split; [lia|]. split.
           ++ apply (refines_replace align m0 m e (others m i 0) Hr Hperm Hu e2); [done|done|done|congruence|by apply (Hset _ _ Hs12)].
           ++ apply (settled_set i m e e2 m2); try done.
              intros r Hin. eapply apart_within; [by apply Hap|done].
        -- destruct (refines_remove_at i m m1 e e1 _ Hr Hperm Hu Hp1 Hg1) as (r & -> & Hpost); try lia; [congruence|].
           by destruct r.
      * split; [|apply overlap_measure_next; lia]. split; [lia|]. split.
        -- apply (refines_replace align m0 m e (others m i 0) Hr Hperm Hu e1); done.
        -- apply (settled_set i m e e1 m1); try done. congruence.
  - destruct Hc as (Hz & Hok1 & Ht1 & Hcov).
    rewrite (arr_set_lt m i e1) by lia. cbn [mbind option_bind].
    pose proof (arr_set_lt m i e1 ltac:(lia)) as Hs1. set (m1 := <[Z.to_nat i:=e1]> m) in *.
    pose proof (Hset _ _ Hs1) as Hp1. pose proof (len_arr_set _ _ _ _ Hs1) as Hl1.
    assert (m1.[i] = Some e1) as Hg1 by by rewrite (arr_get_set _ _ _ _ _ Hs1), decide_True.
    rewrite Hz, Z.eqb_refl.
    destruct (refines_remove_at i m m1 e e1 _ Hr Hperm Hu Hp1 Hg1) as (r & -> & Hpost); try lia.
    + intros _ a Ha. by apply others_cov, Hcov.
    + by destruct r.
Qed.

(** Where the step panics: some entry starts and ends inside (what is left of)
    a usable one. *)
Lemma overlap_step_panic st :
  overlap_inv st → overlap_step align st = None →
  ∃ e e' r k, snd st ≡ₚ e :: k ∧ usable (e_type e) = true ∧ within e' e ∧ r ∈ k ∧ inside r e'.
Proof.
  destruct st as [i m]. intros (Hi & Hr & Hs). unfold overlap_step.
  destruct (Z.ltb_spec i (len m)) as [Hlt|]; [|done].
  destruct (arr_get_lt m i) as [e He]; [lia|]. rewrite He. cbn [mbind option_bind].
  destruct (Z.eqb_spec (e_type e) MEMMAP_USABLE) as [Hu|Hu]; cbn [negb]; [|done].
  destruct (others_spec m i e He) as (Hperm & _ & _).
  pose proof (ref_wf _ _ _ Hr) as Hwf.
  assert (ok_entry e) as Hoke by (rewrite Hperm in Hwf; by apply Forall_cons in Hwf as [? _]).
  pose proof (clip_all_ok m i 0 e Hoke Hwf) as Hc.
  assert (∀ e1, ∃ m1, m.[i <- e1] = Some m1 ∧ len m1 = len m ∧ m1.[i] = Some e1) as Hset.
  { intros e1. pose proof (arr_set_lt m i e1 ltac:(lia)) as Hs1. eexists; split; [done|].
    split; [by apply (len_arr_set _ _ _ _ Hs1)|].
    by rewrite (arr_get_set _ _ _ _ _ Hs1), decide_True. }
  assert (∀ m1 e1, m1.[i] = Some e1 → ∃ m2, remove_entry m1 i = Some m2) as Hrem.
  { intros m1 e1 (m2 & ? & _)%remove_entry_ok. eauto. }
  destruct (clip_all m i 0 e) as [[e1|e1|]|]; cbn [mbind option_bind]; [| |done|].
  1-2: intros H; exfalso; destruct (Hset e1) as (m1 & Hm1 & Hlm1 & Hg1); revert H; rewrite Hm1;
    cbn [mbind option_bind]; destruct (Hrem m1 e1 Hg1) as [m2 Hm2]; rewrite ?Hm2;
    destruct (e_len e1 =? 0); [done|]; destruct align; [|done];
    destruct (align_entry e1) as [e2|]; [|done];
    rewrite (arr_set_lt m1) by lia; done.
  intros _. destruct Hc as (e' & r & _ & Hw & Hin & Hins).
  exists e, e', r, (others m i 0). split_and!; try done. unfold usable. by apply Z.eqb_eq.
Qed.

(** The first loop ends; what it gives, or what made it panic. *)
Lemma overlap_loop_ok m :
  wf m → m0 = m →
  match loop (sanitise_fuel m) (overlap_step align) (0, m) with
  | Some m' => refines align m0 m' ∧ settled (len m') m'
  | None => ∃ st, overlap_inv st ∧ overlap_step align st = None
  end.
Proof.
  intros Hw Heq. apply (loop_cases overlap_inv (λ m', refines align m0 m' ∧ settled (len m') m') overlap_measure).
  - apply overlap_step_ok.
  - split; [pose proof (len_nonneg m); lia|]. rewrite Heq. split; [by apply refines_refl|].
    intros p e Hp. lia.
  - unfold overlap_measure, sanitise_fuel. nia.
Qed.
End overlap.

(** An address of a usable entry is in no other. *)
Definition exclusive (m : list memmap_entry) : Prop :=
  ∀ a, 0 < cnt usable m a → cnt any_type m a = 1.

Lemma settled_exclusive align m : settled align (len m) m → exclusive m.
Proof.
  intros Hs a (e & Hin & Hu & Hc)%cnt_pos.
  apply list_elem_of_lookup in Hin as [k Hk]. pose proof (lookup_lt_Some _ _ _ Hk).
  rewrite <- arr_get_lookup in Hk.
  destruct (Hs (Z.of_nat k) e ltac:(unfold len; lia) Hk Hu) as (_ & _ & Hap).
  destruct (others_spec m _ e Hk) as (Hp & Hoth & _). rewrite Hp. cbn [cnt]. rewrite Hc. cbn [any_type andb b2z].
  rewrite (proj2 (cnt_zero any_type _ a)); [done|]. intros f (q & Hq & Hf)%Hoth _.
  apply not_true_iff_false. intros Hf'. by apply (Hap q f Hq Hf a).
Qed.

Definition all_nonempty (m : list memmap_entry) : Prop := Forall (λ e, 0 < e_len e) m.

(** The usable entries consist of whole pages. *)
Definition whole_pages (m : list memmap_entry) : Prop :=
  Forall (λ e, usable (e_type e) = true → page_aligned e) m.

#[export] Instance exclusive_proper : Proper ((≡ₚ) ==> iff) exclusive.
Proof.
  intros m1 m2 Hm. unfold exclusive. split; intros H a Ha; [rewrite <- Hm in *|rewrite Hm in *]; auto.
Qed.
#[export] Instance all_nonempty_proper : Proper ((≡ₚ) ==> iff) all_nonempty.
Proof. intros m1 m2 Hm. unfold all_nonempty. by rewrite Hm. Qed.
#[export] Instance whole_pages_proper : Proper ((≡ₚ) ==> iff) whole_pages.
Proof. intros m1 m2 Hm. unfold whole_pages. by rewrite Hm. Qed.

Lemma settled_whole_pages m : settled true (len m) m → whole_pages m.
Proof.
  intros Hs. apply Forall_forall. intros e Hin Hu.
  apply list_elem_of_lookup in Hin as [k Hk]. pose proof (lookup_lt_Some _ _ _ Hk).
  rewrite <- arr_get_lookup in Hk.
  destruct (Hs (Z.of_nat k) e ltac:(unfold len; lia) Hk Hu) as (_ & Hal & _). by apply Hal.
Qed.

(** Memory that only usable entries cover. *)
Definition only_usable (m : list memmap_entry) (a : Z) : bool :=
  (0 <? cnt usable m a) && (cnt not_usable m a =? 0).

Lemma only_usable_true m a : only_usable m a = true ↔ 0 < cnt usable m a ∧ cnt not_usable m a = 0.
Proof. unfold only_usable. by rewrite andb_true_iff, Z.ltb_lt, Z.eqb_eq. Qed.

Lemma refines_usable_le align m0 m a :
  refines align m0 m → exclusive m → cnt usable m a ≤ b2z (only_usable m0 a).
Proof.
  intros [_ Ht Hle _ _ _] Hex. specialize (Hex a). specialize (Ht not_usable a eq_refl).
  specialize (Hle usable a). pose proof (cnt_split m a). pose proof (cnt_nonneg usable m a).
  pose proof (cnt_nonneg not_usable m a).
  destruct (only_usable m0 a) eqn:Ho; cbn [b2z].
  - apply only_usable_true in Ho. lia.
  - apply not_true_iff_false in Ho. rewrite only_usable_true in Ho. lia.
Qed.

Lemma refines_usable_eq m0 m a :
  refines false m0 m → exclusive m → cnt usable m a = b2z (only_usable m0 a).
Proof.
  intros Hr Hex. pose proof (refines_usable_le _ _ _ a Hr Hex).
  destruct Hr as [_ Ht Hle Hany _ _]. specialize (Hex a). specialize (Ht not_usable a eq_refl).
  specialize (Hany eq_refl a). pose proof (cnt_split m a). pose proof (cnt_split m0 a).
  pose proof (cnt_nonneg usable m a).
  destruct (only_usable m0 a) eqn:Ho; cbn [b2z] in *; [|lia].
  apply only_usable_true in Ho. lia.
Qed.

(** ** The second loop *)

(** The addresses an entry of this type may keep. *)
Definition page_kept (keep : bool) (t a : Z) : bool := keep || not_usable t || (0x1000 <=? a).

Lemma clip_first_page_ok keep e :
  ok_entry e →
  match clip_first_page keep e with
  | Some e' =>
      ok_entry e' ∧ 0 < e_len e' ∧ e_type e' = e_type e ∧ (page_aligned e → page_aligned e') ∧
      ∀ a, covb e' a = covb e a && page_kept keep (e_type e) a
  | None => ∀ a, covb e a && page_kept keep (e_type e) a = false
  end.
Proof.
  intros Hok. pose proof (e_top_ok e Hok) as Ht. destruct Hok as (? & ? & ?).
  unfold clip_first_page, page_kept, not_usable, usable. rewrite Ht.
  destruct (Z.eqb_spec (e_type e) MEMMAP_USABLE), keep, (Z.ltb_spec (e_base e) 4096);
    cbn [negb andb orb mbind option_bind];
    repeat match goal with
    | |- context [if ?a <=? ?b then _ else _] => destruct (Z.leb_spec a b)
    | |- context [if ?a =? ?b then _ else _] => destruct (Z.eqb_spec a b)
    end; cbn [mbind option_bind e_base e_len e_type] in *;
    repeat match goal with
    | |- context [if ?a =? ?b then _ else _] => destruct (Z.eqb_spec a b)
    end;
    try (intros a; apply not_true_iff_false; rewrite andb_true_iff, covb_true, ?Z.leb_le; lia);
    try (split_and!; [done|lia|done|done|intros a; by rewrite andb_true_r]).
  all: try (split_and!; [done|lia|done|done|intros a]; apply eq_true_iff_eq; rewrite andb_true_iff, !covb_true, Z.leb_le; lia).
  - exfalso. rewrite (u64_id (4096 - _)), u64_id in * by lia. lia.
  - rewrite (u64_id (4096 - _)), u64_id in * by lia. unfold ok_entry, page_aligned, PAGE_SIZE. cbn [e_base e_len].
    split_and!; try done; try lia.
    + intros [Hb Hl]. split; [done|]. assert (e_base e = 0) as ->.
      { rewrite Z.mod_small in Hb by lia. done. }
      rewrite Z.sub_0_r, Zminus_mod, Hl. done.
    + intros a. apply eq_true_iff_eq. rewrite andb_true_iff, !covb_true, Z.leb_le. cbn [e_base e_len]. lia.
Qed.

Lemma remove_replace (m : list memmap_entry) i e :
  m.[i] = Some e → ∃ k, m ≡ₚ e :: k ∧ (∀ (e' : memmap_entry) m', m.[i <- e'] = Some m' → m' ≡ₚ e' :: k).
Proof. intros (? & _ & ?)%others_spec. eauto. Qed.

(** What the second loop keeps of [m0]. *)
Record trims (keep : bool) (m0 m : list memmap_entry) : Prop := {
  trim_wf : wf m;
  trim_cnt : ∀ P a, cnt (λ t, P t && page_kept keep t a) m a = cnt (λ t, P t && page_kept keep t a) m0 a;
  trim_pages : whole_pages m0 → whole_pages m;
}.

#[export] Instance trims_proper keep m0 : Proper ((≡ₚ) ==> iff) (trims keep m0).
Proof.
  assert (∀ m1 m2, m1 ≡ₚ m2 → trims keep m0 m1 → trims keep m0 m2) as H.
  { intros m1 m2 Hm [? Hc ?]. split; setoid_rewrite <- Hm; done. }
  intros m1 m2 Hm. split; by apply H.
Qed.

Lemma trims_replace keep m0 e e' k :
  trims keep m0 (e :: k) → ok_entry e' → e_type e' = e_type e → (page_aligned e → page_aligned e') →
  (∀ a, covb e' a = covb e a && page_kept keep (e_type e) a) →
  trims keep m0 (e' :: k).
Proof.
  intros [Hw Hc Hp] Hok Ht Hpa Hcov. apply Forall_cons in Hw as [_ Hk]. split.
  - by constructor.
  - intros P a. rewrite <- Hc. cbn [cnt]. rewrite Hcov, Ht.
    destruct (P (e_type e)), (page_kept keep (e_type e) a), (covb e a); done.
  - intros Hall. apply Hp in Hall. unfold whole_pages in *. apply Forall_cons in Hall as [He Hk']. constructor; [rewrite Ht; auto|done].
Qed.

Lemma trims_remove keep m0 e k :
  trims keep m0 (e :: k) → (∀ a, covb e a && page_kept keep (e_type e) a = false) →
  trims keep m0 k.
Proof.
  intros [Hw Hc Hp] Hcov. apply Forall_cons in Hw as [_ Hk]. split; [done| |].
  - intros P a. rewrite <- Hc. cbn [cnt]. specialize (Hcov a).
    destruct (P (e_type e)), (page_kept keep (e_type e) a), (covb e a); done.
  - intros Hall. apply Hp in Hall. unfold whole_pages in *. by apply Forall_cons in Hall as [_ ?].
Qed.

(** An entry the loop has passed. *)
Definition passed (keep : bool) (e : memmap_entry) : Prop :=
  0 < e_len e ∧ ∀ a, covb e a = true → page_kept keep (e_type e) a = true.

Definition empty_inv keep m0 (st : Z * list memmap_entry) : Prop :=
  let '(i, m) := st in
  0 ≤ i ≤ len m ∧ trims keep m0 m ∧ ∀ p e, 0 ≤ p < i → m.[p] = Some e → passed keep e.

Definition rest_measure (st : Z * list memmap_entry) : nat :=
  let '(i, m) := st in Z.to_nat (len m - i).

Lemma empty_step_ok keep m0 st :
  empty_inv keep m0 st →
  returns (empty_step keep st) (λ r,
    match r with
    | inl s' => empty_inv keep m0 s' ∧ (rest_measure s' < rest_measure st)%nat
    | inr m' => trims keep m0 m' ∧ Forall (passed keep) m'
    end).
Proof.
  destruct st as [i m]. intros (Hi & Ht & Hp). unfold empty_step.
  destruct (Z.ltb_spec i (len m)) as [Hlt|].
  2: { apply returns_ret. split; [done|]. apply Forall_lookup. intros q e Hq.
       pose proof (lookup_lt_Some _ _ _ Hq). rewrite <- arr_get_lookup in Hq.
       apply (Hp (Z.of_nat q)); [unfold len in *; lia|done]. }
  apply returns_bind_get; [lia|]. intros e He.
  destruct (remove_replace m i e He) as (k & Hk & Hset).
  assert (ok_entry e) as Hok by (pose proof (trim_wf _ _ _ Ht) as Hw; rewrite Hk in Hw; by apply Forall_cons in Hw as [? _]).
  pose proof Ht as Ht'. rewrite Hk in Ht'.
  pose proof (clip_first_page_ok keep e Hok) as Hc. destruct (clip_first_page keep e) as [e'|].
  - destruct Hc as (Hok' & Hl & Hty & Hpa & Hcov).
    apply returns_bind_set; [lia|]. intros m' Hs Hlm. apply returns_ret. split.
    + split; [lia|]. split; [rewrite (Hset _ _ Hs); by eapply trims_replace|].
      intros p f Hp' Hf. rewrite (arr_get_set _ _ _ _ _ Hs) in Hf. destruct (decide (p = i)) as [->|].
      * injection Hf as <-. split; [done|]. intros a. rewrite Hcov, Hty. by intros [_ ?]%andb_true_iff.
      * apply (Hp p); [lia|done].
    + unfold rest_measure. lia.
  - eapply returns_bind; [by apply remove_entry_ok|]. simpl. intros m' (Hm' & Hlm & Hget).
    apply returns_ret. split.
    + split; [lia|]. split.
      * eapply trims_remove; [|exact Hc]. rewrite Hm' in Hk. apply Permutation_cons_inv in Hk. by rewrite Hk.
      * intros p f Hp' Hf. apply (Hp p); [lia|]. by rewrite <- Hget.
    + unfold rest_measure; lia.
Qed.

Lemma empty_loop_ok keep m :
  wf m →
  returns (loop (sanitise_fuel m) (empty_step keep) (0, m)) (λ m',
    trims keep m m' ∧ Forall (passed keep) m').
Proof.
  intros Hw. apply (loop_inv (empty_inv keep m) _ rest_measure).
  - apply empty_step_ok.
  - split; [pose proof (len_nonneg m); lia|]. split; [by split|]. intros p e Hp. lia.
  - unfold rest_measure, sanitise_fuel, len. lia.
Qed.

Lemma passed_cnt keep P m a :
  Forall (passed keep) m → cnt (λ t, P t && page_kept keep t a) m a = cnt P m a.
Proof.
  induction 1 as [|e m [_ He] _ IH]; cbn [cnt]; [done|]. rewrite IH. f_equal. f_equal.
  specialize (He a). destruct (covb e a); [rewrite He by done|]; by rewrite ?andb_true_r, ?andb_false_r.
Qed.

(** ** The third loop *)

Definition sorted_upto (p : Z) (m : list memmap_entry) : Prop :=
  ∀ i j e f, 0 ≤ i < p → i ≤ j → m.[i] = Some e → m.[j] = Some f → e_base e ≤ e_base f.
Definition sorted (m : list memmap_entry) : Prop := sorted_upto (len m) m.

Lemma find_min_ok m p :
  0 ≤ p < len m →
  returns (find_min m p) (λ '(b, q), p ≤ q < len m ∧
    ∃ e, m.[q] = Some e ∧ b = e_base e ∧
    ∀ j f, p ≤ j < len m → m.[j] = Some f → b ≤ e_base f).
Proof.
  intros Hp. unfold find_min. apply returns_bind_get; [lia|]. intros e He.
  eapply (returns_weaken _ (λ '(b, q), p ≤ q < len m ∧
    ∃ e, m.[q] = Some e ∧ b = e_base e ∧
    ∀ j f, p ≤ j < len m → m.[j] = Some f → b ≤ e_base f)); [|done].
  apply (for_range_inv (λ i '(b, q), p ≤ q < len m ∧
    ∃ e, m.[q] = Some e ∧ b = e_base e ∧
    ∀ j f, p ≤ j < i → m.[j] = Some f → b ≤ e_base f)).
  - lia.
  - split; [lia|]. exists e. split_and!; [done|done|lia].
  - intros i [b q] Hi (Hq & x & Hx & -> & Hmin). apply returns_bind_get; [lia|]. intros f Hf.
    destruct (Z.ltb_spec (e_base f) (e_base x)); apply returns_ret; (split; [lia|]).
    + exists f. split_and!; [done|done|]. intros j g Hj Hg. destruct (decide (j = i)) as [->|].
      * rewrite Hf in Hg. injection Hg as <-. lia.
      * specialize (Hmin j g ltac:(lia) Hg). lia.
    + exists x. split_and!; [done|done|]. intros j g Hj Hg. destruct (decide (j = i)) as [->|].
      * rewrite Hf in Hg. injection Hg as <-. lia.
      * apply (Hmin j); [lia|done].
Qed.

Lemma sort_entries_ok m : returns (sort_entries m) (λ m', m' ≡ₚ m ∧ sorted m').
Proof.
  unfold sort_entries. destruct (decide (0 ≤ len m - 1)) as [Hle|].
  2: { assert (len m = 0) as Hz by (pose proof (len_nonneg m); lia).
       replace (len m - 1) with (-1) by lia. apply returns_ret. split; [done|].
       unfold sorted. rewrite Hz. intros ????; lia. }
  eapply (returns_weaken _ (λ m', len m' = len m ∧ m' ≡ₚ m ∧ sorted_upto (len m - 1) m')).
  - apply (for_range_inv (λ p m', len m' = len m ∧ m' ≡ₚ m ∧ sorted_upto p m')); [done|split_and!; [done|done|intros ????; lia]|].
    intros p m1 Hp (Hl & Hperm & Hs). eapply returns_bind; [apply find_min_ok; lia|].
    intros [b q]. simpl. intros (Hq & x & Hx & -> & Hmin).
    rewrite Hx. cbn [mbind option_bind]. apply returns_bind_get; [lia|]. intros e He.
    apply returns_bind_set; [lia|]. intros m2 Hs2 Hl2. apply returns_set; [lia|]. intros m3 Hs3 Hl3.
    assert (∀ j, m3.[j] = if decide (j = p) then Some x else if decide (j = q) then Some e else m1.[j]) as Hg.
    { intros j. by rewrite (arr_get_set _ _ _ _ _ Hs3), (arr_get_set _ _ _ _ _ Hs2). }
    split_and!; [lia| |].
    + rewrite <- Hperm. destruct (decide (p = q)) as [<-|Hne].
      * rewrite Hx in He. injection He as ->. assert (m3 = m1) as ->; [|done].
        apply arr_ext; [lia|]. intros j _. rewrite Hg. by destruct (decide (j = p)) as [->|].
      * destruct (arr_set_perm m1 m2 q x e Hx Hs2) as (k & Hk1 & Hk2).
        assert (m2.[p] = Some e) as Hp2 by (rewrite (arr_get_set _ _ _ _ _ Hs2), decide_False by done; done).
        destruct (arr_set_perm m2 m3 p e x Hp2 Hs3) as (k' & Hk1' & Hk2').
        rewrite Hk2', Hk1. rewrite Hk1' in Hk2. apply Permutation_cons_inv in Hk2. by rewrite Hk2.
    + intros i j f g Hi Hij Hf Hg'. rewrite Hg in Hf, Hg'.
      pose proof (arr_get_Some_lt _ _ _ He). pose proof (arr_get_Some_lt _ _ _ Hx).
      destruct (decide (i = p)) as [->|].
      * injection Hf as <-. destruct (decide (j = p)) as [->|]; [injection Hg' as <-; lia|].
        destruct (decide (j = q)) as [->|]; [injection Hg' as <-; apply (Hmin p); [lia|done]|].
        pose proof (arr_get_Some_lt _ _ _ Hg'). apply (Hmin j); [lia|done].
      * rewrite decide_False in Hf by lia. assert (i < p) by lia.
        destruct (decide (j = p)) as [->|]; [injection Hg' as <-; apply (Hs i q); (done || lia)|].
        destruct (decide (j = q)) as [->|]; [injection Hg' as <-; apply (Hs i p); (done || lia)|].
        apply (Hs i j); (done || lia).
  - intros m' (Hl & Hperm & Hs). split; [done|]. intros i j e f Hi Hij He Hf.
    destruct (decide (i < len m - 1)); [apply (Hs i j); (done || lia)|].
    pose proof (arr_get_Some_lt _ _ _ Hf). assert (j = i) as -> by lia.
    rewrite He in Hf. injection Hf as ->. lia.
Qed.

(** ** The fourth loop *)

(** The entries at [p] and [p + 1] could not be merged. *)
Definition unmergeable (m : list memmap_entry) (p : Z) : Prop :=
  ∀ e f, m.[p] = Some e → m.[p + 1] = Some f → mergeable (e_type e) = true →
    e_type f = e_type e → e_base f ≠ e_base e + e_len e.

Record merges (m0 m : list memmap_entry) : Prop := {
  merge_wf : wf m;
  merge_cnt : ∀ P a, cnt P m a = cnt P m0 a;
  merge_nonempty : all_nonempty m;
  merge_sorted : sorted m;
  merge_pages : whole_pages m0 → whole_pages m;
}.

Definition merge_inv m0 (st : Z * list memmap_entry) : Prop :=
  let '(i, m) := st in
  0 ≤ i ∧ (i = 0 ∨ i < len m) ∧ merges m0 m ∧ ∀ p, 0 ≤ p < i → unmergeable m p.

Lemma two_split (m : list memmap_entry) i e f :
  m.[i] = Some e → m.[i + 1] = Some f →
  ∃ l1 l2, m = l1 ++ e :: f :: l2 ∧ len l1 = i.
Proof.
  intros (l1 & l2 & -> & Hl)%arr_get_split Hf. subst i.
  rewrite arr_get_app_r in Hf by lia. replace (len l1 + 1 - len l1) with 1 in Hf by lia.
  destruct l2 as [|x l2]; [done|]. injection Hf as ->. by exists l1, l2.
Qed.

Lemma merge_list (l1 l2 : list memmap_entry) e f g m' :
  (l1 ++ e :: f :: l2).[len l1 <- g] = Some m' →
  take (Z.to_nat (len l1 + 1)) m' ++ drop (Z.to_nat (len l1 + 2)) m' = l1 ++ g :: l2.
Proof.
  intros [_ ->]%arr_set_Some. unfold len. rewrite Nat2Z.id, insert_app_r_alt, Nat.sub_diag by lia.
  cbn [insert list_insert]. replace (Z.to_nat _) with (length l1 + 1)%nat by lia.
  replace (Z.to_nat _) with (length l1 + 2)%nat by lia.
  rewrite take_app_add, drop_app_add. simpl. by rewrite <- app_assoc.
Qed.

Lemma merge_list_get (l1 l2 : list memmap_entry) e f g j :
  (l1 ++ g :: l2).[j] =
    if decide (j < len l1) then (l1 ++ e :: f :: l2).[j]
    else if decide (j = len l1) then Some g else (l1 ++ e :: f :: l2).[j + 1].
Proof.
  case_decide; [by rewrite !arr_get_app_l|]. case_decide as Hj.
  - subst. by rewrite arr_get_app_r, Z.sub_diag by lia.
  - pose proof (len_nonneg l1).
    rewrite (cons_middle g), app_assoc, arr_get_app_r by len_lia.
    rewrite (cons_middle e), (cons_middle f), !app_assoc, arr_get_app_r by len_lia.
    f_equal. len_lia.
Qed.

Lemma merges_two m0 l1 l2 e f g :
  merges m0 (l1 ++ e :: f :: l2) → e_type f = e_type e → e_base f = e_base e + e_len e →
  g = ME (e_base e) (e_len e + e_len f) (e_type e) →
  merges m0 (l1 ++ g :: l2).
Proof.
  intros [Hw Hc Hn Hs Hp] Ht Hb Hg. unfold wf, all_nonempty, whole_pages in *.
  rewrite !Forall_app, !Forall_cons in Hw, Hn.
  destruct Hw as (Hw1 & (? & ? & ?) & (? & ? & ?) & Hw2), Hn as (Hn1 & ? & ? & Hn2). split.
  - apply Forall_app. split; [done|]. constructor; [|done]. subst g. unfold ok_entry. cbn [e_base e_len]. lia.
  - intros P a. rewrite <- Hc, !cnt_app. cbn [cnt]. rewrite Hg, Ht. cbn [e_type].
    enough (b2z (covb (ME (e_base e) (e_len e + e_len f) (e_type e)) a) = b2z (covb e a) + b2z (covb f a)) as Heq.
    { destruct (P (e_type e)); cbn [andb b2z]; lia. }
    unfold covb. cbn [e_base e_len].
    destruct (Z.leb_spec (e_base e) a), (Z.leb_spec (e_base f) a), (Z.ltb_spec a (e_base e + e_len e)),
      (Z.ltb_spec a (e_base f + e_len f)), (Z.ltb_spec a (e_base e + (e_len e + e_len f))); cbn [andb b2z]; lia.
  - apply Forall_app. split; [done|]. constructor; [|done]. subst g. cbn [e_len]. lia.
  - intros i j x y Hi Hij Hx Hy.
    rewrite (merge_list_get l1 l2 e f g) in Hx, Hy.
    assert ((l1 ++ e :: f :: l2).[len l1] = Some e) as He by (by rewrite arr_get_app_r, Z.sub_diag by lia).
    assert (e_base g = e_base e) as Hge by (by subst g).
    assert (∀ i j x y, 0 ≤ i → i ≤ j → (l1 ++ e :: f :: l2).[i] = Some x → (l1 ++ e :: f :: l2).[j] = Some y → e_base x ≤ e_base y) as Hs'.
    { intros i' j' x' y' Hi' Hij' Hx' Hy'. pose proof (arr_get_Some_lt _ _ _ Hx'). apply (Hs i' j'); (done || lia). }
    repeat case_decide; simplify_eq; rewrite ?Hge; try lia;
      first [apply (Hs' i j); (done || lia) | apply (Hs' i (len l1)); (done || lia)
            | apply (Hs' i (j + 1)); (done || lia) | apply (Hs' (len l1) (j + 1)); (done || lia)
            | apply (Hs' (i + 1) (j + 1)); (done || lia)].
  - intros Hm0. apply Hp in Hm0. unfold whole_pages. rewrite !Forall_app, !Forall_cons in Hm0 |- *. rewrite Forall_cons in Hm0.
    destruct Hm0 as (? & He & Hf & ?). split_and!; [done| |done]. subst g. cbn [e_type].
    intros Hu. destruct (He Hu) as [Hb1 Hl1], (Hf ltac:(congruence)) as [_ Hl2].
    split; [done|]. cbn [e_len]. by rewrite Z.add_mod, Hl1, Hl2 by done.
Qed.

Lemma merge_step_ok m0 st :
  merge_inv m0 st →
  returns (merge_step st) (λ r,
    match r with
    | inl s' => merge_inv m0 s' ∧ (rest_measure s' < rest_measure st)%nat
    | inr m' => merges m0 m' ∧ ∀ p, 0 ≤ p → unmergeable m' p
    end).
Proof.
  destruct st as [i m]. intros (Hi & Hi' & Hm & Hu). unfold merge_step.
  destruct (Z.ltb_spec (i + 1) (len m)) as [Hlt|].
  2: { apply returns_ret. split; [done|]. intros p Hp. destruct (decide (p < i)); [by apply Hu|].
       intros e f _ Hf. apply arr_get_Some_lt in Hf. lia. }
  apply returns_bind_get; [lia|]. intros e He. apply returns_bind_get; [lia|]. intros f Hf.
  pose proof (merge_wf _ _ Hm) as Hwf. unfold wf in Hwf. rewrite Forall_forall in Hwf.
  pose proof (Hwf e (arr_get_elem _ _ _ He)) as Hoe. pose proof (Hwf f (arr_get_elem _ _ _ Hf)) as Hof.
  rewrite (e_top_ok e Hoe).
  assert (unmergeable m i →
    returns (Some (inl (i + 1, m)) : option (Z * list memmap_entry + list memmap_entry)) (λ r, match r with
      | inl s' => merge_inv m0 s' ∧ (rest_measure s' < rest_measure (i, m))%nat
      | inr m' => merges m0 m' ∧ ∀ p, 0 ≤ p → unmergeable m' p end)) as Hnext.
  { intros Hui. apply returns_ret. split; [|unfold rest_measure; lia]. split; [lia|]. split; [lia|]. split; [done|].
    intros p Hp. destruct (decide (p = i)) as [->|]; [done|apply Hu; lia]. }
  destruct (mergeable (e_type e)) eqn:Hmg; cbn [negb].
  2: { apply Hnext. intros e' f' He'. rewrite He in He'. injection He' as <-. congruence. }
  destruct (Z.eqb_spec (e_type f) (e_type e)) as [Hty|]; cbn [andb].
  2: { apply Hnext. intros e' f' He' Hf'. rewrite He in He'. rewrite Hf in Hf'. by simplify_eq. }
  destruct (Z.eqb_spec (e_base f) (e_base e + e_len e)) as [Hb|].
  2: { apply Hnext. intros e' f' He' Hf'. rewrite He in He'. rewrite Hf in Hf'. by simplify_eq. }
  destruct Hoe as (? & ? & ?), Hof as (? & ? & ?).
  rewrite add64_lt by lia. apply returns_bind_set; [lia|]. intros m1 Hs1 _. apply returns_ret.
  destruct (two_split m i e f He Hf) as (l1 & l2 & -> & <-). rewrite (merge_list _ _ _ _ _ _ Hs1).
  split; [|unfold rest_measure; len_lia].
  split; [lia|]. split; [pose proof (len_nonneg l2); len_lia|]. split; [by eapply merges_two|].
  intros p Hp x y. rewrite !(merge_list_get l1 l2 e f), decide_True by lia. intros Hx Hy Hmx.
  destruct (decide (p + 1 < len l1)); [by apply (Hu p)|]. rewrite decide_True in Hy by lia.
  injection Hy as <-. cbn [e_type e_base]. apply (Hu p); try done.
  replace (p + 1) with (len l1) by lia. done.
Qed.

Lemma merge_loop_ok m :
  wf m → all_nonempty m → sorted m →
  returns (loop (sanitise_fuel m) merge_step (0, m)) (λ m',
    merges m m' ∧ ∀ p, 0 ≤ p → unmergeable m' p).
Proof.
  intros Hw Hn Hs. apply (loop_inv (merge_inv m) _ rest_measure).
  - apply merge_step_ok.
  - split; [lia|]. split; [by left|]. split; [by split|]. intros p Hp. lia.
  - unfold rest_measure, sanitise_fuel, len. lia.
Qed.

(** ** The sanitiser *)

(** The entries of [m0] cover no address twice and none is empty. *)
Definition quiet (m : list memmap_entry) : Prop :=
  all_nonempty m ∧ ∀ a, cnt any_type m a ≤ 1.

Lemma within_bounds e' e : 0 < e_len e' → within e' e →
  e_base e ≤ e_base e' ∧ e_base e' + e_len e' ≤ e_base e + e_len e.
Proof.
  intros Hl [_ Hw]. setoid_rewrite covb_true in Hw.
  pose proof (Hw (e_base e') ltac:(lia)). pose proof (Hw (e_base e' + e_len e' - 1) ltac:(lia)). lia.
Qed.

(** What a panic shows of the map: an entry, or what is left of a usable one,
    starts and ends inside a usable entry. *)
Definition nested (m0 : list memmap_entry) : Prop :=
  ∃ e r, e ∈ m0 ∧ usable (e_type e) = true ∧ comes_from m0 r ∧ inside r e.

Lemma overlap_panic_nested align m0 st :
  overlap_inv align m0 st → overlap_step align st = None → nested m0 ∧ ¬ quiet m0.
Proof.
  intros Hinv Hnone. destruct (overlap_step_panic align m0 st Hinv Hnone)
    as (e & e' & r & k & Hp & Hu & Hw & Hin & Hins).
  destruct st as [i m]. destruct Hinv as (_ & Hr & _). simpl in Hp.
  destruct Hr as [Hwf _ Hle _ Hlen Hsrc]. rewrite Hp in Hsrc, Hwf, Hlen.
  apply Forall_cons in Hsrc as [(e0 & He0 & Hw0 & _) Hsrc]. unfold wf in Hwf.
  rewrite Forall_cons, Forall_forall in Hwf. destruct Hwf as [_ Hok]. specialize (Hok r Hin).
  rewrite Forall_forall in Hsrc. destruct Hins as [Hi1 Hi2], Hok as (? & ? & ?). split.
  - exists e0, r. split_and!; [done|destruct Hw0 as [<- _]; done|by apply Hsrc|].
    pose proof (within_bounds e' e0 ltac:(lia) (within_trans _ _ _ Hw Hw0)). split; lia.
  - intros [Hn Hq]. specialize (Hlen Hn). rewrite Forall_cons, Forall_forall in Hlen.
    destruct Hlen as [_ Hlen]. specialize (Hlen r Hin). simpl in Hlen.
    assert (covb r (e_base r) = true) as Hcr by (apply covb_true; lia).
    assert (covb e (e_base r) = true) as Hce by (apply Hw, covb_true; lia).
    specialize (Hle any_type (e_base r)). specialize (Hq (e_base r)). rewrite Hp in Hle. cbn [cnt] in Hle.
    assert (0 < cnt any_type k (e_base r)) by (apply cnt_pos; by exists r).
    rewrite Hce in Hle. cbn [any_type andb b2z] in Hle. lia.
Qed.

(** The memory the sanitised map calls usable. *)
Definition clear_ram (keep : bool) (m0 : list memmap_entry) (a : Z) : bool :=
  only_usable m0 a && page_kept keep MEMMAP_USABLE a.

Record sanitised (keep align : bool) (m0 m : list memmap_entry) : Prop := {
  san_wf : wf m;
  san_nonempty : all_nonempty m;
  san_sorted : sorted m;
  san_other : ∀ P a, P MEMMAP_USABLE = false → cnt P m a = cnt P m0 a;
  san_usable_le : ∀ a, cnt usable m a ≤ b2z (clear_ram keep m0 a);
  san_usable_eq : align = false → ∀ a, cnt usable m a = b2z (clear_ram keep m0 a);
  san_pages : align = true → whole_pages m;
  san_merged : ∀ p, 0 ≤ p → unmergeable m p;
}.

Lemma page_kept_cnt keep P m a :
  cnt (λ t, P t && page_kept keep t a) m a =
    cnt (λ t, P t && not_usable t) m a + (if page_kept keep MEMMAP_USABLE a then cnt (λ t, P t && usable t) m a else 0).
Proof.
  induction m as [|e m IH]; cbn [cnt]; [by case_match|]. rewrite IH.
  unfold page_kept, not_usable, usable. destruct (Z.eqb_spec (e_type e) MEMMAP_USABLE) as [->|].
  - change (MEMMAP_USABLE =? MEMMAP_USABLE) with true.
    destruct keep, (4096 <=? a), (P MEMMAP_USABLE), (covb e a); cbn [andb orb negb b2z]; lia.
  - change (MEMMAP_USABLE =? MEMMAP_USABLE) with true.
    destruct keep, (4096 <=? a), (P (e_type e)), (covb e a); cbn [andb orb negb b2z]; lia.
Qed.

Lemma cnt_ext (P Q : Z → bool) m a : (∀ t, P t = Q t) → cnt P m a = cnt Q m a.
Proof. intros HPQ. induction m as [|e m IH]; cbn [cnt]; [done|]. by rewrite IH, HPQ. Qed.

(** The four loops in one: the map they give, or the panic of the first. *)
Lemma pmm_sanitise_cases keep align m0 :
  wf m0 →
  match pmm_sanitise_entries keep align m0 with
  | Some m => sanitised keep align m0 m
  | None => nested m0 ∧ ¬ quiet m0
  end.
Proof.
  intros Hw. unfold pmm_sanitise_entries.
  pose proof (overlap_loop_ok align m0 m0 Hw eq_refl) as H1.
  destruct (loop (sanitise_fuel m0) (overlap_step align) (0, m0)) as [m1|]; cbn [mbind option_bind].
  2: { destruct H1 as (st & ? & ?). by eapply overlap_panic_nested. }
  destruct H1 as [Hr Hs]. pose proof (settled_exclusive _ _ Hs) as Hex.
  destruct (empty_loop_ok keep m1 (ref_wf _ _ _ Hr)) as (m2 & -> & Ht & Hp2). cbn [mbind option_bind].
  destruct (sort_entries_ok m2) as (m3 & -> & Hp3 & Hs3). cbn [mbind option_bind].
  assert (all_nonempty m3) as Hn3.
  { rewrite Hp3. eapply Forall_impl; [exact Hp2|]. by intros e [? _]. }
  assert (wf m3) as Hw3 by (rewrite Hp3; apply Ht).
  destruct (merge_loop_ok m3 Hw3 Hn3 Hs3) as (m & -> & Hm & Hum).
  assert (∀ P a, cnt P m a = cnt (λ t, P t && page_kept keep t a) m1 a) as Hcnt.
  { intros P a. by rewrite (merge_cnt _ _ Hm), Hp3, <- (trim_cnt _ _ _ Ht), passed_cnt. }
  assert (∀ a, cnt usable m a = if page_kept keep MEMMAP_USABLE a then cnt usable m1 a else 0) as Husable.
  { intros a. rewrite Hcnt, page_kept_cnt.
    rewrite (proj2 (cnt_zero (λ t, usable t && not_usable t) m1 a)).
    - rewrite (cnt_ext (λ t, usable t && usable t) usable); [by case_match|]. intros t. by destruct (usable t).
    - unfold not_usable. intros e _. by destruct (usable (e_type e)). }
  split; try apply Hm; try done.
  - intros P a HP. rewrite Hcnt. rewrite <- (ref_types _ _ _ Hr P a HP). apply cnt_ext.
    intros t. unfold page_kept, not_usable, usable. destruct (Z.eqb_spec t MEMMAP_USABLE) as [->|]; [by rewrite HP|].
    by rewrite orb_true_r, andb_true_r.
  - intros a. rewrite Husable. unfold clear_ram. pose proof (refines_usable_le _ _ _ a Hr Hex).
    destruct (page_kept _ _ _); [by rewrite andb_true_r|rewrite andb_false_r; done].
  - intros -> a. rewrite Husable. unfold clear_ram. pose proof (refines_usable_eq _ _ a Hr Hex).
    destruct (page_kept _ _ _); [by rewrite andb_true_r|rewrite andb_false_r; done].
  - intros ->. apply (merge_pages _ _ Hm). rewrite Hp3. apply (trim_pages _ _ _ Ht).
    by apply settled_whole_pages.
Qed.

Lemma pmm_sanitise_quiet keep align m0 :
  wf m0 → quiet m0 → returns (pmm_sanitise_entries keep align m0) (sanitised keep align m0).
Proof.
  intros Hw Hq. pose proof (pmm_sanitise_cases keep align m0 Hw) as H.
  destruct (pmm_sanitise_entries keep align m0) as [m|]; [by apply returns_ret|by destruct H].
Qed.

(** A sanitised map is quiet where its other entries do not overlap. *)
Lemma sanitised_quiet keep align m0 m :
  sanitised keep align m0 m → (∀ a, cnt any_type m0 a ≤ 1) → quiet m.
Proof.
  intros Hs Hq. split; [apply Hs|]. intros a. specialize (Hq a).
  rewrite cnt_split, (san_other _ _ _ _ Hs not_usable a eq_refl). pose proof (san_usable_le _ _ _ _ Hs a) as Hle.
  rewrite cnt_split in Hq. unfold clear_ram in Hle. pose proof (cnt_nonneg usable m0 a).
  destruct (only_usable m0 a && page_kept keep MEMMAP_USABLE a) eqn:Ho; cbn [b2z] in Hle.
  - apply andb_true_iff in Ho as [Ho _]. apply only_usable_true in Ho. lia.
  - lia.
Qed.
