(* ===== verification/PmmAlloc.v ===== *)
(** The reservation of ranges and the allocators: the map is a partial
    function from addresses to types, and each operation an update of it. *)
From stdpp Require Import relations.
From S2P Require Import Prelude Pmm PmmSanitise.

(** ** The map as a function *)

Fixpoint type_at (m : list memmap_entry) (a : Z) : option Z :=
  match m with
  | [] => None
  | e :: m => if covb e a then Some (e_type e) else type_at m a
  end.

Lemma type_at_cnt P m a :
  cnt any_type m a ≤ 1 → cnt P m a = from_option (λ t, b2z (P t)) 0 (type_at m a).
Proof.
  induction m as [|e m IH]; cbn [cnt type_at]; [done|]. intros Hle.
  pose proof (cnt_nonneg any_type m a). destruct (covb e a); cbn [any_type andb b2z from_option] in *.
  - rewrite andb_true_r. enough (cnt P m a = 0) by lia. apply cnt_zero. intros f Hf _.
    apply (proj1 (cnt_zero any_type m a)); [lia|done|done].
  - rewrite andb_false_r. apply IH. lia.
Qed.

Lemma type_at_ext m m' a :
  cnt any_type m a ≤ 1 → (∀ P, cnt P m' a = cnt P m a) → type_at m' a = type_at m a.
Proof.
  intros Hq Hall. assert (∀ P, from_option (λ t, b2z (P t)) 0 (type_at m' a) = from_option (λ t, b2z (P t)) 0 (type_at m a)) as H.
  { intros P. rewrite <- !type_at_cnt by (rewrite ?Hall; done). apply Hall. }
  destruct (type_at m' a) as [t|] eqn:Ht, (type_at m a) as [u|] eqn:Hu; try done.
  - specialize (H (Z.eqb u)). cbn [from_option] in H. rewrite Z.eqb_refl in H.
    destruct (Z.eqb_spec u t); [by subst|done].
  - by specialize (H any_type).
  - by specialize (H any_type).
Qed.

Lemma type_at_usable m a :
  cnt any_type m a ≤ 1 → (type_at m a = Some MEMMAP_USABLE ↔ 0 < cnt usable m a).
Proof.
  intros Hq. rewrite (type_at_cnt usable m a Hq). unfold usable.
  destruct (type_at m a) as [t|]; cbn [from_option]; [|split; [done|lia]].
  destruct (Z.eqb_spec t MEMMAP_USABLE) as [->|]; cbn [b2z]; split; (done || lia || naive_solver).
Qed.

(** [pmm_check_type] computes it. *)
Lemma pmm_check_type_ok m a : wf m → pmm_check_type m a = default SIZE_MAX (type_at m a).
Proof.
  induction 1 as [|e m He _ IH]; cbn [pmm_check_type type_at]; [done|].
  rewrite (e_top_ok e He). unfold covb. by case_match.
Qed.

(** ** Making room for a range *)

Lemma cnt_same_cover P e e' a :
  e_type e' = e_type e → (covb e' a = true ↔ covb e a = true) → cnt P [e'] a = cnt P [e] a.
Proof. intros Ht Hc. cbn [cnt]. rewrite Ht. apply eq_true_iff_eq in Hc. by rewrite Hc. Qed.

Lemma cnt_two_cover P e e1 e2 a :
  e_type e1 = e_type e → e_type e2 = e_type e →
  b2z (covb e1 a) + b2z (covb e2 a) = b2z (covb e a) → cnt P [e1; e2] a = cnt P [e] a.
Proof. intros Ht1 Ht2 Hc. cbn [cnt]. rewrite Ht1, Ht2. destruct (P (e_type e)); cbn [andb b2z]; lia. Qed.

Section new_entry.
Context (base top : Z).
Hypothesis (Hrange : 0 ≤ base < top) (Htop : top < 2 ^ 64).

Definition clear_of (e : memmap_entry) : Prop := ∀ a, covb e a = true → ¬ (base ≤ a < top).

(** An entry that reaches over both ends of the range is split. *)
Definition splits (e : memmap_entry) : bool := (e_base e <? base) && (top <? e_base e + e_len e).

Fixpoint weight (m : list memmap_entry) : Z :=
  match m with [] => 0 | e :: m => 1 + b2z (splits e) + weight m end.

Lemma weight_app m1 m2 : weight (m1 ++ m2) = weight m1 + weight m2.
Proof. induction m1; simpl; lia. Qed.

Lemma weight_ge m : len m ≤ weight m.
Proof. induction m as [|e m IH]; cbn [weight]; [done|]. rewrite len_cons. pose proof (b2z_range (splits e)). lia. Qed.

Lemma weight_le m : weight m ≤ len m + cnt any_type m base.
Proof.
  induction m as [|e m IH]; cbn [weight cnt]; [done|]. rewrite len_cons.
  enough (b2z (splits e) ≤ b2z (any_type (e_type e) && covb e base)) by lia.
  unfold splits, covb, any_type. cbn [andb].
  destruct (Z.ltb_spec (e_base e) base), (Z.ltb_spec top (e_base e + e_len e)), (Z.leb_spec (e_base e) base),
    (Z.ltb_spec base (e_base e + e_len e)); cbn [andb b2z]; lia.
Qed.

Definition outside_same (m0 m : list memmap_entry) : Prop :=
  ∀ P a, ¬ (base ≤ a < top) → cnt P m a = cnt P m0 a.

Definition room_inv (m0 : list memmap_entry) (st : Z * list memmap_entry) : Prop :=
  let '(i, m) := st in
  ∃ done rest, m = done ++ rest ∧ len done = i ∧ Forall clear_of done ∧
    wf m ∧ (all_nonempty m0 → all_nonempty m) ∧ outside_same m0 m ∧
    i + weight rest ≤ weight m0.

Definition room_measure (st : Z * list memmap_entry) : nat :=
  let '(i, m) := st in Z.to_nat (weight (drop (Z.to_nat i) m)).

Lemma room_measure_app d r : room_measure (len d, d ++ r) = Z.to_nat (weight r).
Proof. unfold room_measure, len. by rewrite Nat2Z.id, drop_app_length. Qed.

(** The three ways an entry at the front of the rest is dealt with. *)
Lemma room_next m0 d e r e' ext :
  room_inv m0 (len d, d ++ e :: r) →
  Forall ok_entry (e' :: ext) → Forall clear_of [e'] →
  (0 < e_len e → Forall (λ e, 0 < e_len e) (e' :: ext)) →
  (∀ P a, ¬ (base ≤ a < top) → cnt P (e' :: ext) a = cnt P [e] a) →
  weight ext ≤ b2z (splits e) →
  room_inv m0 (len d + 1, d ++ e' :: r ++ ext) ∧
  (room_measure ((len d + 1)%Z, d ++ e' :: r ++ ext) < room_measure (len d, d ++ e :: r))%nat.
Proof.
  intros (d' & r' & Heq & Hld & Hd & Hw & Hn & Ho & Hwt) Hok Hcl Hne Hcov Hext.
  apply app_inj_1 in Heq as [<- <-]; [|unfold len in *; lia].
  unfold wf, all_nonempty in *. rewrite Forall_app, Forall_cons in Hw. destruct Hw as (Hwd & _ & Hwr).
  rewrite (cons_middle e'), (app_assoc d). assert (len d + 1 = len (d ++ [e'])) as -> by len_lia.
  split.
  - exists (d ++ [e']), (r ++ ext). split_and!; try done.
    + by apply Forall_app.
    + unfold wf. apply Forall_cons in Hok as [??]. by rewrite !Forall_app, Forall_singleton.
    + intros Hm0. specialize (Hn Hm0). rewrite Forall_app, Forall_cons in Hn. unfold all_nonempty.
      rewrite !Forall_app, Forall_singleton. destruct Hn as (? & He & ?). specialize (Hne He). apply Forall_cons in Hne as [??]. done.
    + intros P a Ha. rewrite <- (Ho P a Ha), !cnt_app. specialize (Hcov P a Ha). cbn [cnt] in *. lia.
    + rewrite weight_app. cbn [weight] in Hwt. len_lia.
  - rewrite !room_measure_app, weight_app. cbn [weight]. pose proof (b2z_range (splits e)).
    pose proof (weight_ge r). pose proof (len_nonneg r). lia.
Qed.

Lemma room_remove m0 d e r m' :
  room_inv m0 (len d, d ++ e :: r) → (∀ a, covb e a = true → base ≤ a < top) →
  d ++ e :: r ≡ₚ e :: m' → (∀ j, 0 ≤ j < len d → m'.[j] = (d ++ e :: r).[j]) →
  room_inv m0 (len d, m') ∧ (room_measure (len d, m') < room_measure (len d, d ++ e :: r))%nat.
Proof.
  intros (d' & r' & Heq & Hld & Hd & Hw & Hn & Ho & Hwt) Hcov Hp Hget.
  apply app_inj_1 in Heq as [<- <-]; [|unfold len in *; lia].
  assert (∃ r', m' = d ++ r' ∧ r' ≡ₚ r) as (r' & -> & Hr').
  { assert (len m' = len d + len r) as Hlm.
    { apply Permutation_length in Hp. unfold len. rewrite length_app in Hp. simpl in Hp. lia. }
    exists (drop (length d) m'). assert (m' = d ++ drop (length d) m') as Hm'.
    { rewrite <- (take_drop (length d) m') at 1. f_equal. apply list_eq. intros j.
      destruct (decide (j < length d)%nat).
      - rewrite lookup_take_lt by done. rewrite <- !arr_get_lookup, Hget by (unfold len; lia).
        apply arr_get_app_l. unfold len. lia.
      - rewrite lookup_take_ge by lia. symmetry. apply lookup_ge_None. lia. }
    split; [done|]. rewrite Hm', Permutation_app_comm in Hp. rewrite Permutation_app_comm in Hp.
    rewrite <- Permutation_middle in Hp. apply Permutation_cons_inv, Permutation_app_inv_l in Hp. done. }
  assert (d ++ r' ≡ₚ d ++ r) as Hdr by by rewrite Hr'.
  assert (weight r' = weight r) as Hwr by (clear -Hr'; induction Hr'; cbn [weight]; lia).
  unfold wf, all_nonempty in *.
  split.
  - exists d, r'. split_and!; try done.
    + unfold wf. rewrite Hdr, Forall_app. rewrite Forall_app, Forall_cons in Hw. naive_solver.
    + intros Hm0. specialize (Hn Hm0). unfold all_nonempty. rewrite Hdr, Forall_app.
      rewrite Forall_app, Forall_cons in Hn. naive_solver.
    + intros P a Ha. rewrite <- (Ho P a Ha), Hdr, !cnt_app. cbn [cnt].
      destruct (covb e a) eqn:Hc; [by apply Hcov in Hc|]. rewrite andb_false_r. cbn [b2z]. lia.
    + rewrite Hwr. cbn [weight] in Hwt. pose proof (b2z_range (splits e)). lia.
  - rewrite !room_measure_app, Hwr. cbn [weight]. pose proof (b2z_range (splits e)).
    pose proof (weight_ge r). pose proof (len_nonneg r). lia.
Qed.

Lemma new_entry_step_ok m0 st :
  weight m0 ≤ memmap_max_entries → room_inv m0 st →
  returns (new_entry_step base top st) (λ r,
    match r with
    | inl s' => room_inv m0 s' ∧ (room_measure s' < room_measure st)%nat
    | inr m => wf m ∧ (all_nonempty m0 → all_nonempty m) ∧ outside_same m0 m ∧
        Forall clear_of m ∧ len m ≤ weight m0
    end).
Proof.
  intros Hcap. destruct st as [i m]. intros Hinv. pose proof Hinv as (d & r & -> & <- & Hd & Hw & Hn & Ho & Hwt).
  unfold new_entry_step. destruct (Z.ltb_spec (len d) (len (d ++ r))) as [Hlt|Hge].
  2: { rewrite len_app in Hge. assert (r = []) as -> by (destruct r; [done|rewrite len_cons in Hge; pose proof (len_nonneg r); lia]).
       rewrite app_nil_r in *. cbn [weight] in Hwt. apply returns_ret. split_and!; (done || lia). }
  destruct r as [|e r]; [rewrite app_nil_r in Hlt; lia|].
  assert ((d ++ e :: r).[len d] = Some e) as He by (by rewrite arr_get_app_r, Z.sub_diag by lia).
  rewrite He. cbn [mbind option_bind].
  assert (ok_entry e) as Hoe by (unfold wf in Hw; rewrite Forall_app, Forall_cons in Hw; tauto).
  rewrite (e_top_ok e Hoe). pose proof Hoe as (? & ? & ?).
  assert (∀ g, (d ++ e :: r).[len d <- g] = Some (d ++ g :: r)) as Hset.
  { intros g. rewrite arr_set_lt by (pose proof (len_nonneg d); lia).
    unfold len. by rewrite Nat2Z.id, insert_app_r_alt, Nat.sub_diag by lia. }
  pose proof (b2z_range (splits e)) as Hsp.
  assert (∀ e' ext, Forall ok_entry (e' :: ext) → Forall clear_of [e'] →
    (0 < e_len e → Forall (λ e, 0 < e_len e) (e' :: ext)) →
    (∀ P a, ¬ (base ≤ a < top) → cnt P (e' :: ext) a = cnt P [e] a) →
    weight ext ≤ b2z (splits e) →
    room_inv m0 (len d + 1, (d ++ e' :: r) ++ ext) ∧
    (room_measure ((len d + 1)%Z, (d ++ e' :: r) ++ ext) < room_measure (len d, d ++ e :: r))%nat) as Hnext.
  { intros e' ext ?????. rewrite <- app_assoc. cbn [app]. by apply room_next. }
  destruct ((base <=? e_base e) && (e_base e + e_len e <=? top)) eqn:E1.
  { apply andb_true_iff in E1 as [?%Z.leb_le ?%Z.leb_le].
    eapply returns_bind; [by apply remove_entry_ok|]. cbv beta. intros m' (Hp & _ & Hget). apply returns_ret.
    apply (room_remove m0 d e r m'); try done. intros a ?%covb_true. lia. }
  apply andb_false_iff in E1. rewrite !Z.leb_gt in E1.
  destruct ((base <=? e_base e) && (top <? e_base e + e_len e) && (e_base e <? top)) eqn:E2.
  { rewrite !andb_true_iff, Z.leb_le, !Z.ltb_lt in E2. rewrite Hset. apply returns_ret.
    rewrite <- (app_nil_r (d ++ _)).
    rewrite (u64_id (top - e_base e)), (u64_id (e_base e + _)), (u64_id (e_len e - _)) by lia.
    apply Hnext; [rewrite Forall_singleton|rewrite Forall_singleton|intros _; apply Forall_singleton|intros P a Ha|cbn [weight]; lia].
    - unfold ok_entry. cbn [e_base e_len]. lia.
    - intros a. rewrite covb_true. cbn [e_base e_len]. lia.
    - cbn [e_len]. lia.
    - apply cnt_same_cover; [done|]. rewrite !covb_true. cbn [e_base e_len]. lia. }
  destruct ((e_base e <? base) && (base <? e_base e + e_len e) && (e_base e + e_len e <=? top)) eqn:E3.
  { rewrite !andb_true_iff, Z.leb_le, !Z.ltb_lt in E3. rewrite Hset. apply returns_ret.
    rewrite <- (app_nil_r (d ++ _)).
    rewrite (u64_id (e_base e + e_len e - base)), (u64_id (e_len e - _)) by lia.
    apply Hnext; [rewrite Forall_singleton|rewrite Forall_singleton|intros _; apply Forall_singleton|intros P a Ha|cbn [weight]; lia].
    - unfold ok_entry. cbn [e_base e_len]. lia.
    - intros a. rewrite covb_true. cbn [e_base e_len]. lia.
    - cbn [e_len]. lia.
    - apply cnt_same_cover; [done|]. rewrite !covb_true. cbn [e_base e_len]. lia. }
  destruct ((e_base e <? base) && (top <? e_base e + e_len e)) eqn:E4.
  { rewrite Hset. cbn [mbind option_bind].
    assert (splits e = true) as Hs by done. rewrite Hs in *. rewrite andb_true_iff, !Z.ltb_lt in E4.
    pose proof (weight_ge (e :: r)) as Hwg. cbn [weight] in Hwt, Hwg. rewrite Hs in Hwt, Hwg. cbn [b2z] in *.
    pose proof (weight_ge r) as Hwr.
    destruct (Z.leb_spec memmap_max_entries (len (d ++ {| e_base := e_base e; e_len := u64 (e_len e - u64 (e_base e + e_len e - base)); e_type := e_type e |} :: r))) as [Hfull|_];
      [rewrite len_app, len_cons in Hfull; lia|].
    apply returns_ret.
    rewrite (u64_id (e_base e + e_len e - base)), (u64_id (e_len e - _)), (u64_id (_ - top)) by lia.
    apply Hnext; [|rewrite Forall_singleton|intros _|intros P a Ha|].
    - repeat constructor; cbn [e_base e_len]; lia.
    - intros a. rewrite covb_true. cbn [e_base e_len]. lia.
    - repeat constructor; cbn [e_base e_len]; lia.
    - apply cnt_two_cover; try done. unfold covb. cbn [e_base e_len e_type].
      destruct (Z.leb_spec (e_base e) a), (Z.ltb_spec a (e_base e + e_len e)), (Z.leb_spec top a),
        (Z.ltb_spec a (e_base e + (e_len e - (e_base e + e_len e - base)))),
        (Z.ltb_spec a (top + (e_base e + e_len e - top))); cbn [andb b2z]; lia.
    - cbn [weight]. unfold splits at 1. cbn [e_base e_len]. rewrite (proj2 (Z.ltb_ge top base)) by lia. done. }
  apply returns_ret. apply andb_false_iff in E4. rewrite !andb_false_iff, !Z.leb_gt, !Z.ltb_ge in *.
  rewrite <- (app_nil_r (d ++ e :: r)) at 1 2. apply Hnext; [by rewrite Forall_singleton| |intros ?; by apply Forall_singleton|done|cbn [weight]; lia].
  apply Forall_singleton. intros a ?%covb_true. lia.
Qed.

Lemma pmm_new_entry_room m type :
  wf m → len m + cnt any_type m base < memmap_max_entries →
  returns (pmm_new_entry m base (top - base) type) (λ m',
    wf m' ∧ (all_nonempty m → all_nonempty m') ∧ len m' ≤ len m + cnt any_type m base + 1 ∧
    ∀ P a, cnt P m' a = if decide (base ≤ a < top) then b2z (P type) else cnt P m a).
Proof.
  intros Hw Hcap. unfold pmm_new_entry. rewrite add64_lt by lia. cbn [mbind option_bind].
  replace (base + (top - base)) with top by lia. pose proof (weight_le m) as Hwl. pose proof (weight_ge m).
  eapply returns_bind.
  - eapply (loop_inv (room_inv m) _ room_measure); [| |].
    + intros st Hst. apply (new_entry_step_ok m); [lia|done].
    + exists [], m. split_and!; done.
    + unfold room_measure. simpl. rewrite drop_0.
      assert (weight m ≤ 2 * len m) by (clear; induction m as [|e m IH]; cbn [weight]; [done|]; rewrite len_cons; pose proof (b2z_range (splits e)); lia).
      unfold len in *. lia.
  - cbv beta. intros m1 (Hw1 & Hn1 & Ho & Hcl & Hl). destruct (Z.leb_spec memmap_max_entries (len m1)); [lia|].
    apply returns_ret. pose proof (cnt_nonneg any_type m base). split_and!.
    + apply Forall_app. split; [done|]. apply Forall_singleton. split; [|split]; cbn [e_base e_len]; lia.
    + intros Hn%Hn1. apply Forall_app. split; [done|]. apply Forall_singleton. cbn [e_len]. lia.
    + rewrite len_app, len_cons, len_nil. lia.
    + intros P a. rewrite cnt_app. cbn [cnt]. unfold covb. cbn [e_base e_len e_type].
      replace (base + (top - base)) with top by lia. case_decide as Ha.
      * rewrite (proj2 (Z.leb_le base a)), (proj2 (Z.ltb_lt a top)) by lia. rewrite !andb_true_r.
        rewrite (proj2 (cnt_zero P m1 a)); [lia|]. intros e He _. apply not_true_iff_false. intros Hc.
        rewrite Forall_forall in Hcl. by apply (Hcl e He a).
      * rewrite (Ho P a Ha). destruct (Z.leb_spec base a), (Z.ltb_spec a top); cbn [andb]; rewrite ?andb_false_r; cbn [b2z]; lia.
Qed.
End new_entry.

(** ** Operations as updates of the function *)

Definition page_view (keep : bool) (f : Z → option Z) (a : Z) : option Z :=
  t ← f a; if page_kept keep t a then Some t else None.

Definition retype (base top t : Z) (f : Z → option Z) (a : Z) : option Z :=
  if decide (base ≤ a < top) then Some t else f a.

(** The maps the allocators work on: no overlap, no empty entry, and no usable
    address in a first page that is to be left alone. *)
Record valid (keep : bool) (m : list memmap_entry) : Prop := {
  valid_wf : wf m;
  valid_quiet : quiet m;
  valid_page : ∀ a, page_view keep (type_at m) a = type_at m a;
}.

Lemma type_at_Some m a t :
  cnt any_type m a ≤ 1 → (type_at m a = Some t ↔ 0 < cnt (λ u, u =? t) m a).
Proof.
  intros Hq. rewrite (type_at_cnt _ m a Hq). destruct (type_at m a) as [u|]; cbn [from_option]; [|split; [done|lia]].
  destruct (Z.eqb_spec u t) as [->|]; cbn [b2z]; split; (done || lia || naive_solver).
Qed.

Lemma sanitise_type_at keep m :
  wf m → quiet m →
  returns (pmm_sanitise_entries keep false m) (λ m',
    valid keep m' ∧ sorted m' ∧ ∀ a, type_at m' a = page_view keep (type_at m) a).
Proof.
  intros Hw Hq. eapply returns_weaken; [by apply pmm_sanitise_quiet|]. intros m' Hs. cbv beta.
  destruct (sanitised_quiet _ _ _ _ Hs (proj2 Hq)) as [Hn' Hq']. destruct Hq as [Hn Hq].
  assert (∀ a, type_at m' a = page_view keep (type_at m) a) as Ht.
  { intros a. apply option_eq. intros t. rewrite type_at_Some by done.
    assert (page_view keep (type_at m) a = Some t ↔ type_at m a = Some t ∧ page_kept keep t a = true) as ->.
    { unfold page_view. destruct (type_at m a) as [u|]; cbn [mbind option_bind]; [|naive_solver].
      destruct (page_kept keep u a) eqn:E; (split; [intros [= ->]|intros [[= ->] ?]]); by rewrite ?E in *. }
    rewrite type_at_Some by done. destruct (decide (t = MEMMAP_USABLE)) as [->|Hne].
    - change (λ u, u =? MEMMAP_USABLE) with usable. rewrite (san_usable_eq _ _ _ _ Hs eq_refl).
      unfold clear_ram. rewrite b2z_pos, andb_true_iff, only_usable_true.
      pose proof (Hq a) as Hqa. rewrite cnt_split in Hqa. pose proof (cnt_nonneg not_usable m a). intuition lia.
    - rewrite (san_other _ _ _ _ Hs) by (by apply Z.eqb_neq).
      assert (page_kept keep t a = true) as ->; [|tauto].
      unfold page_kept, not_usable, usable. rewrite (proj2 (Z.eqb_neq t _)) by done. cbn [negb]. by rewrite orb_true_r. }
  split_and!; [split|apply Hs|done].
  - apply Hs.
  - by split.
  - intros a. unfold page_view at 1. rewrite Ht. unfold page_view. destruct (type_at m a) as [u|]; cbn [mbind option_bind]; [|done].
    destruct (page_kept keep u a) eqn:E; cbn [mbind option_bind]; by rewrite ?E.
Qed.

(** What [memmap_alloc_range_in] does once it goes ahead. *)
Lemma reserve_ok keep m base length type :
  valid keep m → 0 ≤ base → 0 < length → base + length < 2 ^ 64 → len m + 1 < memmap_max_entries →
  (∀ a, base ≤ a < base + length → page_kept keep type a = true) →
  returns (m ← pmm_new_entry m base length type;
           m ← pmm_sanitise_entries keep false m;
           Some (true, m)) (λ '(b, m'),
    b = true ∧ valid keep m' ∧ ∀ a, type_at m' a = retype base (base + length) type (type_at m) a).
Proof.
  intros [Hw [Hn Hq] Hpg] Hb Hl Htop Hcap Hkept.
  pose proof (pmm_new_entry_room base (base + length) ltac:(lia) Htop m type Hw) as Hne.
  replace (base + length - base) with length in Hne by lia. specialize (Hq base) as Hqb.
  eapply returns_bind; [apply Hne; lia|]. cbv beta. intros m1 (Hw1 & Hn1 & _ & Hc1).
  assert (quiet m1) as Hq1.
  { split; [by apply Hn1|]. intros a. rewrite Hc1. case_decide; [cbn; lia|apply Hq]. }
  assert (∀ a, type_at m1 a = retype base (base + length) type (type_at m) a) as Ht1.
  { intros a. apply option_eq. intros t. rewrite type_at_Some by apply Hq1. rewrite Hc1.
    unfold retype. case_decide; [|by rewrite type_at_Some].
    rewrite b2z_pos, Z.eqb_eq. naive_solver. }
  eapply returns_bind; [by apply sanitise_type_at|]. cbv beta. intros m2 (Hv & _ & Ht2).
  apply returns_ret. split_and!; [done|done|]. intros a. rewrite Ht2, <- Ht1. unfold page_view. rewrite Ht1.
  unfold retype. case_decide as Ha; cbn [mbind option_bind]; [by rewrite Hkept|apply Hpg].
Qed.

(** ** The top-down search *)

(** A block of [count] bytes in usable entry [e], below [limit]. *)
Definition fits (limit count alignment b : Z) (e : memmap_entry) : Prop :=
  e_type e = MEMMAP_USABLE ∧ b mod alignment = 0 ∧ e_base e ≤ b ∧
  b + count ≤ e_base e + e_len e ∧ b + count ≤ limit.

Lemma align_down64_ok x a : 0 ≤ x < 2 ^ 64 → 0 < a →
  align_down64 x a mod a = 0 ∧ align_down64 x a ≤ x ∧ 0 ≤ align_down64 x a ∧
  ∀ b, b mod a = 0 → b ≤ x → b ≤ align_down64 x a.
Proof.
  intros Hx Ha. unfold align_down64. pose proof (Z.div_mod x a ltac:(lia)). pose proof (Z.mod_pos_bound x a Ha).
  assert (0 ≤ x / a) by (apply Z.div_pos; lia). rewrite u64_id by nia. split_and!.
  - by apply Z.mod_mul, Z.neq_sym, Z.lt_neq.
  - lia.
  - nia.
  - intros b Hb Hle. pose proof (Z.div_mod b a ltac:(lia)) as Hd. rewrite Hb in Hd.
    assert (b / a ≤ x / a) by (apply Z.div_le_mono; lia). nia.
Qed.

Lemma alloc_window_ok limit count alignment e :
  ok_entry e → 0 < count → 0 < alignment →
  match alloc_window limit count alignment e with
  | Some (b, l) => fits limit l alignment b e ∧ count ≤ l ∧
      (b + l = e_base e + e_len e ∨ b + l = limit)
  | None => ∀ b, ¬ fits limit count alignment b e
  end.
Proof.
  intros Hok Hc Ha. unfold alloc_window, fits. change 1 with MEMMAP_USABLE at 1.
  destruct (Z.eqb_spec (e_type e) MEMMAP_USABLE) as [Ht|]; cbn [negb]; [|tauto].
  rewrite (e_top_ok e Hok). cbn [mbind option_bind]. destruct Hok as (? & ? & ?).
  assert (∀ top, e_base e ≤ top → top ≤ e_base e + e_len e → top ≤ limit → top = e_base e + e_len e ∨ top = limit →
    match (if top - e_base e <? count then None
           else if align_down64 (top - count) alignment <? e_base e then None
           else Some (align_down64 (top - count) alignment, top - align_down64 (top - count) alignment)) with
    | Some (b, l) => (e_type e = MEMMAP_USABLE ∧ b mod alignment = 0 ∧ e_base e ≤ b ∧
        b + l ≤ e_base e + e_len e ∧ b + l ≤ limit) ∧ count ≤ l ∧ (b + l = e_base e + e_len e ∨ b + l = limit)
    | None => ∀ b, ¬ (e_type e = MEMMAP_USABLE ∧ b mod alignment = 0 ∧ e_base e ≤ b ∧
        b + count ≤ e_base e + e_len e ∧ b + count ≤ limit)
    end) as Hgo.
  { intros top ??? Hmin. destruct (Z.ltb_spec (top - e_base e) count); [lia|].
    destruct (align_down64_ok (top - count) alignment ltac:(lia) Ha) as (? & ? & ? & Hmax).
    destruct (Z.ltb_spec (align_down64 (top - count) alignment) (e_base e)).
    - intros b (_ & Hb & ? & ? & ?). specialize (Hmax b Hb ltac:(lia)). lia.
    - split_and!; (done || lia). }
  destruct (Z.ltb_spec limit (e_base e + e_len e)).
  - destruct (Z.leb_spec limit (e_base e)); cbn [mbind option_bind]; [lia|]. apply Hgo; lia.
  - cbn [mbind option_bind]. apply Hgo; lia.
Qed.

Lemma find_window_ok limit count alignment rm :
  wf rm → 0 < count → 0 < alignment →
  match find_window limit count alignment rm with
  | Some (b, l) => ∃ e, e ∈ rm ∧ fits limit l alignment b e ∧ count ≤ l ∧
      (b + l = e_base e + e_len e ∨ b + l = limit)
  | None => ∀ e b, e ∈ rm → ¬ fits limit count alignment b e
  end.
Proof.
  intros Hw Hc Ha. induction Hw as [|e rm He Hw IH]; cbn [find_window].
  - intros e b He. by apply elem_of_nil in He.
  - pose proof (alloc_window_ok limit count alignment e He Hc Ha) as Hwin.
    destruct (alloc_window limit count alignment e) as [[b l]|].
    + exists e. split; [by left|done].
    + destruct (find_window limit count alignment rm) as [[b l]|].
      * destruct IH as (f & ? & ?). exists f. split; [by right|done].
      * intros f b [->|Hf]%elem_of_cons; [apply Hwin|by apply IH].
Qed.

(** ** The allocators *)

Definition pmm_ok (s : pmm_state) : Prop := valid (keep_first s) (memmap s).

(** Room for the two entries a reservation may add. *)
Definition has_room (s : pmm_state) : Prop := len (memmap s) + 1 < memmap_max_entries.

Lemma type_at_entry m e a :
  cnt any_type m a ≤ 1 → e ∈ m → covb e a = true → type_at m a = Some (e_type e).
Proof.
  intros Hq He Hc. apply type_at_Some; [done|]. apply cnt_pos. exists e. by rewrite Z.eqb_refl.
Qed.

Lemma page_kept_not_usable keep t a : t ≠ MEMMAP_USABLE → page_kept keep t a = true.
Proof.
  intros Ht. unfold page_kept, not_usable, usable. rewrite (proj2 (Z.eqb_neq t _)) by done.
  cbn [negb]. by rewrite orb_true_r.
Qed.

(** The block an allocation of [count] bytes takes. *)
Definition block_size (count alignment : Z) : Z :=
  align_down64 ((if count =? 0 then 1 else count) + (alignment - 1)) alignment.

(** What a successful allocation does: a block [l >= block_size] bytes long is
    retyped, its first [block_size] bytes zeroed, all else is as it was. *)
Definition allocated (s : pmm_state) (n type alignment limit : Z) (b : Z) (s' : pmm_state) : Prop :=
  ∃ l, n ≤ l ∧ 0 ≤ b ∧ b + l ≤ limit ∧ b + l < 2 ^ 64 ∧ b mod alignment = 0 ∧
    (∀ a, b ≤ a < b + l → type_at (memmap s) a = Some MEMMAP_USABLE) ∧
    (∀ a, type_at (memmap s') a = retype b (b + l) type (type_at (memmap s)) a) ∧
    (∀ a, mem s' a = if decide (b ≤ a < b + n) then 0 else mem s a) ∧
    allocations_disallowed s' = allocations_disallowed s ∧ conv_base s' = conv_base s ∧
    keep_first s' = keep_first s ∧ pmm_ok s'.

Lemma take_window s b l n type alignment limit e :
  pmm_ok s → has_room s → type ≠ MEMMAP_USABLE → 0 < n ≤ l → 0 ≤ limit →
  e ∈ memmap s → fits limit l alignment b e →
  returns ('(_, s) ← memmap_alloc_range s b l type MEMMAP_USABLE true false false;
           s ← sanitise_state false (set_mem s (fill (mem s) b n 0));
           Some (b, s)) (λ '(b', s'), b' = b ∧ allocated s n type alignment limit b s').
Proof.
  intros Hok Hroom Ht Hn Hlim Hin (Hty & Hmod & Hb & Htop & Hl).
  pose proof Hok as [Hw [Hne Hq] Hpg]. unfold wf in Hw. rewrite Forall_forall in Hw.
  pose proof (Hw e Hin) as Hoe. pose proof Hoe as (? & ? & ?).
  unfold memmap_alloc_range, memmap_alloc_range_in. destruct (Z.eqb_spec l 0); [lia|].
  cbn [andb]. rewrite add64_lt by lia.
  assert (existsb (holds_range MEMMAP_USABLE b (b + l)) (memmap s) = true) as ->.
  { apply existsb_exists. exists e. split; [by apply list_elem_of_In|]. unfold holds_range.
    rewrite (e_top_ok e Hoe), Hty. cbn. rewrite !andb_true_iff, !Z.leb_le, Z.ltb_lt. lia. }
  rewrite bind_assoc_option. eapply returns_bind.
  { apply (reserve_ok (keep_first s) (memmap s) b l type); try done; try lia. intros a _. by apply page_kept_not_usable. }
  intros [ok m1] (_ & Hv1 & Ht1). cbn [mbind option_bind]. unfold sanitise_state.
  cbn [set_mem set_memmap keep_first memmap mem]. rewrite bind_assoc_option.
  eapply returns_bind; [apply sanitise_type_at; apply Hv1|]. cbv beta. intros m2 (Hv2 & _ & Ht2).
  cbn [mbind option_bind]. apply returns_ret. split; [done|].
  exists l. unfold pmm_ok. cbn [set_mem set_memmap keep_first memmap mem allocations_disallowed conv_base].
  split_and!; try (done || lia).
  - intros a Ha. rewrite <- Hty. apply type_at_entry; [apply Hq|done|]. apply covb_true. lia.
  - intros a. rewrite Ht2, (valid_page _ _ Hv1). apply Ht1.
  - intros a. unfold fill. case_decide as Ha.
    + by rewrite (proj2 (Z.leb_le b a)), (proj2 (Z.ltb_lt a (b + n))) by lia.
    + destruct (Z.leb_spec b a), (Z.ltb_spec a (b + n)); cbn [andb]; (done || lia).
Qed.

Lemma block_size_ok count alignment :
  0 ≤ count → 0 < alignment → count + alignment ≤ 2 ^ 64 - 1 →
  0 < block_size count alignment ∧ count ≤ block_size count alignment ∧
  block_size count alignment mod alignment = 0.
Proof.
  intros Hc Ha Hlt. unfold block_size. set (c := if count =? 0 then 1 else count).
  assert (count ≤ c ∧ 0 < c ∧ c ≤ Z.max count 1) as (? & ? & ?) by (unfold c; destruct (Z.eqb_spec count 0); lia).
  destruct (align_down64_ok (c + (alignment - 1)) alignment ltac:(lia) Ha) as (Hm & Hle & _ & Hmax).
  pose proof (Z.div_mod c alignment ltac:(lia)) as Hd. pose proof (Z.mod_pos_bound c alignment Ha).
  assert (c ≤ align_down64 (c + (alignment - 1)) alignment).
  { destruct (decide (c mod alignment = 0)) as [Hz|]; [apply Hmax; lia|].
    transitivity (alignment * (c / alignment + 1)); [lia|]. apply Hmax; [|lia].
    rewrite Z.mul_comm. by apply Z.mod_mul, Z.neq_sym, Z.lt_neq. }
  split_and!; (lia || done).
Qed.

(** The search below 4 GiB and, if allowed, above. *)
Definition no_block (s : pmm_state) (limit n alignment : Z) : Prop :=
  ∀ e b, e ∈ memmap s → ¬ fits limit n alignment b e.

Lemma ext_mem_alloc_ok s count type alignment high :
  pmm_ok s → has_room s → allocations_disallowed s = false → type ≠ MEMMAP_USABLE →
  0 ≤ count → 0 < alignment → count + alignment ≤ 2 ^ 64 - 1 →
  let n := block_size count alignment in
  match ext_mem_alloc_type_aligned_mode s count type alignment high with
  | Some (b, s') =>
      allocated s n type alignment LIMIT_4G b s' ∨
      high = true ∧ no_block s LIMIT_4G n alignment ∧ allocated s n type alignment SIZE_MAX b s'
  | None => no_block s (if high then SIZE_MAX else LIMIT_4G) n alignment
  end.
Proof.
  intros Hok Hroom Hd Ht Hc Ha Hlt n. destruct (block_size_ok count alignment Hc Ha Hlt) as (Hn & _ & _).
  unfold ext_mem_alloc_type_aligned_mode. rewrite (u64_id (alignment - 1)) by lia.
  rewrite add64_lt by (destruct (Z.eqb_spec count 0); lia). cbn [mbind option_bind]. rewrite Hd.
  fold (block_size count alignment). fold n. fold n in Hn.
  assert (wf (rev (memmap s))) as Hw.
  { rewrite <- (Permutation_rev (memmap s)). apply Hok. }
  assert (∀ e, e ∈ rev (memmap s) ↔ e ∈ memmap s) as Hrev by (intros e; by rewrite <- Permutation_rev).
  pose proof (find_window_ok LIMIT_4G n alignment _ Hw Hn Ha) as Hlow.
  pose proof (find_window_ok SIZE_MAX n alignment _ Hw Hn Ha) as Hhigh.
  destruct (find_window LIMIT_4G n alignment (rev (memmap s))) as [[b l]|]; cbn [mbind option_bind].
  - destruct Hlow as (e & He%Hrev & Hfit & Hl & _).
    destruct (take_window s b l n type alignment LIMIT_4G e) as ([b' s'] & -> & -> & Hall); (done || lia || auto).
  - assert (no_block s LIMIT_4G n alignment) as Hno by (intros e b He%Hrev; by apply Hlow).
    destruct high; cbn [mbind option_bind]; [|done].
    destruct (find_window SIZE_MAX n alignment (rev (memmap s))) as [[b l]|]; cbn [mbind option_bind].
    + destruct Hhigh as (e & He%Hrev & Hfit & Hl & _).
      destruct (take_window s b l n type alignment SIZE_MAX e) as ([b' s'] & -> & -> & Hall); (done || lia || auto).
    + intros e b He%Hrev. by apply Hhigh.
Qed.

(** Releasing whole pages: they are usable again, nothing else changes. *)
Definition free_size (count : Z) : Z := align_down64 ((if count =? 0 then 1 else count) + 4095) 4096.

Lemma free_size_block count : 0 ≤ count → free_size count = block_size count 4096.
Proof. done. Qed.

Definition freed (s : pmm_state) (ptr count : Z) (s' : pmm_state) : Prop :=
  (∀ a, type_at (memmap s') a = retype ptr (ptr + free_size count) MEMMAP_USABLE (type_at (memmap s)) a) ∧
  mem s' = mem s ∧ allocations_disallowed s' = allocations_disallowed s ∧
  conv_base s' = conv_base s ∧ keep_first s' = keep_first s ∧ pmm_ok s'.

Lemma align_up_free_size count : 0 ≤ count → count + 4096 ≤ 2 ^ 64 - 1 →
  align_up64 (if count =? 0 then 1 else count) 4096 = Some (free_size count).
Proof.
  intros Hc Hlt. unfold align_up64, div_roundup64. change (u64 (4096 - 1)) with 4095.
  rewrite add64_lt by (destruct (Z.eqb_spec count 0); lia). done.
Qed.

Lemma pmm_free_ok s ptr count :
  pmm_ok s → has_room s → allocations_disallowed s = false →
  0 < ptr → ptr mod 4096 = 0 → 0 ≤ count → count + 4096 ≤ 2 ^ 64 - 1 → ptr + free_size count < 2 ^ 64 →
  returns (pmm_free s ptr count) (freed s ptr count).
Proof.
  intros Hok Hroom Hd Hp Hal Hc Hlt Htop. unfold pmm_free.
  destruct (Z.eqb_spec ptr 0); [lia|]. rewrite Hal. cbn [negb Z.eqb].
  rewrite align_up_free_size by done. cbn [mbind option_bind]. rewrite Hd.
  assert (0 < free_size count) by (rewrite free_size_block by done; apply block_size_ok; lia).
  unfold memmap_alloc_range, memmap_alloc_range_in. destruct (Z.eqb_spec (free_size count) 0); [lia|].
  cbn [andb]. rewrite add64_lt by lia. rewrite bind_assoc_option.
  eapply returns_bind.
  - destruct (existsb _ _);
      (apply (reserve_ok (keep_first s) (memmap s) ptr (free_size count) MEMMAP_USABLE); try done; try lia;
       intros a Ha; unfold page_kept; rewrite (proj2 (Z.leb_le 4096 a)), orb_true_r; [done|];
       pose proof (Z.div_mod ptr 4096 ltac:(done)); lia).
  - intros [ok m] (_ & Hv & Ht). cbn [mbind option_bind]. apply returns_ret. by split_and!.
Qed.

(** [pmm_realloc] of an allocated block: the old bytes are in the new block. *)
Lemma pmm_realloc_ok s ptr old_size new_size :
  pmm_ok s → has_room s → allocations_disallowed s = false →
  0 < ptr → ptr mod 4096 = 0 → 0 ≤ old_size → old_size + 4096 ≤ 2 ^ 64 - 1 → ptr + free_size old_size < 2 ^ 64 →
  0 ≤ new_size → new_size + 4096 ≤ 2 ^ 64 - 1 →
  (∀ a, ptr ≤ a < ptr + free_size old_size → type_at (memmap s) a ≠ Some MEMMAP_USABLE) →
  (∀ b s1, ext_mem_alloc s new_size = Some (b, s1) → has_room s1) →
  match pmm_realloc s ptr old_size new_size with
  | Some (b, s') => ∃ s1, allocated s (block_size new_size 4096) MEMMAP_BOOTLOADER_RECLAIMABLE 4096 LIMIT_4G b s1 ∧
      (∀ a, type_at (memmap s') a = retype ptr (ptr + free_size old_size) MEMMAP_USABLE (type_at (memmap s1)) a) ∧
      (∀ i, 0 ≤ i < Z.min old_size new_size → mem s' (b + i) = mem s (ptr + i)) ∧
      (∀ a, ¬ (b ≤ a < b + block_size new_size 4096) → mem s' a = mem s a) ∧ pmm_ok s'
  | None => no_block s LIMIT_4G (block_size new_size 4096) 4096
  end.
Proof.
  intros Hok Hroom Hd Hp Hal Ho Hlo Htop Hn Hln Hold Hroom1. unfold pmm_realloc.
  destruct (Z.eqb_spec ptr 0); [lia|].
  pose proof (ext_mem_alloc_ok s new_size MEMMAP_BOOTLOADER_RECLAIMABLE 4096 false Hok Hroom Hd ltac:(done) Hn ltac:(done) Hln) as Ha.
  unfold ext_mem_alloc, ext_mem_alloc_type, ext_mem_alloc_type_aligned in *.
  destruct (ext_mem_alloc_type_aligned_mode s new_size MEMMAP_BOOTLOADER_RECLAIMABLE 4096 false) as [[b s1]|];
    cbn [mbind option_bind]; [|done].
  destruct Ha as [Ha|[? _]]; [|done]. specialize (Hroom1 b s1 eq_refl).
  pose proof Ha as (l & Hnl & Hb & Hbl & _ & _ & Huse & Hty & Hmem & Hd1 & _ & _ & Hok1).
  destruct (block_size_ok new_size 4096 Hn ltac:(done) Hln) as (Hbs & Hle & _).
  destruct (block_size_ok old_size 4096 Ho ltac:(done) Hlo) as (_ & Hle' & _).
  rewrite <- free_size_block in Hle' by done.
  assert (∀ x, ptr ≤ x < ptr + free_size old_size → ¬ (b ≤ x < b + l)) as Hdisj.
  { intros x Hx Hx'. by apply (Hold x Hx), Huse. }
  destruct (pmm_free_ok (set_mem s1 (copy (mem s1) b ptr (Z.min new_size old_size))) ptr old_size)
    as (s2 & -> & Hty2 & Hmem2 & _ & _ & _ & Hok2); try done; [cbn; congruence|].
  cbn [mbind option_bind]. exists s1. split_and!; [done|done| | |done].
  - intros i Hi. rewrite Hmem2. cbn [set_mem mem]. unfold copy.
    rewrite (proj2 (Z.leb_le b (b + i))), (proj2 (Z.ltb_lt (b + i) _)) by lia. cbn [andb].
    replace (ptr + (b + i - b)) with (ptr + i) by lia. rewrite Hmem, decide_False; [done|].
    intros ?. apply (Hdisj (ptr + i)); lia.
  - intros a Hna. rewrite Hmem2. cbn [set_mem mem]. unfold copy.
    destruct (Z.leb_spec b a), (Z.ltb_spec a (b + Z.min new_size old_size)); cbn [andb]; try lia;
      by rewrite Hmem, decide_False by lia.
Qed.

(** ** Clients of the allocator

    The blocks handed out and not yet given back, with what the client wrote
    there.  Blocks come from [ext_mem_alloc_type_aligned_mode] with a page
    multiple as alignment and go back through [pmm_free]. *)
Definition blocks_of (b n : Z) (a : Z) : bool := (b <=? a) && (a <? b + n).

Inductive client_step : pmm_state * list (Z * Z) → pmm_state * list (Z * Z) → Prop :=
  | client_alloc s live count type alignment high b s' :
      has_room s → type ≠ MEMMAP_USABLE → 0 ≤ count → 0 < alignment → alignment mod 4096 = 0 →
      count + alignment + 4096 ≤ 2 ^ 64 - 1 →
      ext_mem_alloc_type_aligned_mode s count type alignment high = Some (b, s') →
      client_step (s, live) (s', (b, block_size count alignment) :: live)
  | client_free s live1 live2 b n s' :
      has_room s → b ≠ 0 → pmm_free s b n = Some s' →
      client_step (s, live1 ++ (b, n) :: live2) (s', live1 ++ live2)
  | client_write s live b n a v :
      (b, n) ∈ live → b ≤ a < b + n →
      client_step (s, live) (set_mem s (λ x, if x =? a then v else mem s x), live).

(** What every client can rely on: live blocks are whole pages, apart from
    each other, and no part of them is usable memory. *)
Definition live_ok (s : pmm_state) (w : Z * Z) : Prop :=
  let '(b, n) := w in
  0 ≤ b ∧ b mod 4096 = 0 ∧ 0 < n ∧ n mod 4096 = 0 ∧ b + n < 2 ^ 64 ∧ n + 4096 ≤ 2 ^ 64 - 1 ∧
  ∀ a, b ≤ a < b + n → ∃ t, type_at (memmap s) a = Some t ∧ t ≠ MEMMAP_USABLE.

Definition disjoint_blocks (w v : Z * Z) : Prop :=
  ∀ a, blocks_of (fst w) (snd w) a = true → blocks_of (fst v) (snd v) a = true → False.

Fixpoint pairwise_disjoint (live : list (Z * Z)) : Prop :=
  match live with
  | [] => True
  | w :: live => Forall (disjoint_blocks w) live ∧ pairwise_disjoint live
  end.

Definition client_inv (c : pmm_state * list (Z * Z)) : Prop :=
  let '(s, live) := c in
  allocations_disallowed s = false ∧ pmm_ok s ∧ Forall (live_ok s) live ∧ pairwise_disjoint live.

Lemma blocks_of_true b n a : blocks_of b n a = true ↔ b ≤ a < b + n.
Proof. unfold blocks_of. by rewrite andb_true_iff, Z.leb_le, Z.ltb_lt. Qed.

Lemma disjoint_blocks_sym w v : disjoint_blocks w v → disjoint_blocks v w.
Proof. intros H a ? ?. by apply (H a). Qed.

Lemma pairwise_disjoint_middle l1 w l2 :
  pairwise_disjoint (l1 ++ w :: l2) ↔ Forall (disjoint_blocks w) (l1 ++ l2) ∧ pairwise_disjoint (l1 ++ l2).
Proof.
  induction l1 as [|v l1 IH]; simpl; [done|]. rewrite IH, Forall_cons, !Forall_app, Forall_cons.
  pose proof (disjoint_blocks_sym w v). pose proof (disjoint_blocks_sym v w). tauto.
Qed.

(** A live block stays one while its addresses keep their types. *)
Lemma live_ok_same s s' w :
  live_ok s w → (∀ a, blocks_of (fst w) (snd w) a = true →
    type_at (memmap s') a = type_at (memmap s) a ∨ ∃ t, type_at (memmap s') a = Some t ∧ t ≠ MEMMAP_USABLE) → live_ok s' w.
Proof.
  destruct w as [b n]. cbn [fst snd]. intros (? & ? & ? & ? & ? & ? & H) Hs. split_and!; try done.
  intros a Ha. destruct (Hs a) as [->|?]; [by apply blocks_of_true|by apply H|done].
Qed.

Lemma client_alloc_inv s live n type alignment limit b s' :
  client_inv (s, live) → type ≠ MEMMAP_USABLE → 0 < n → n mod 4096 = 0 → n + 4096 ≤ 2 ^ 64 - 1 →
  b mod 4096 = 0 → allocated s n type alignment limit b s' → client_inv (s', (b, n) :: live).
Proof.
  intros (Hd & Hok & Hlive & Hdis) Ht Hn Hmod Hlt Hb (l & Hl & Hb0 & _ & Hbl & _ & Huse & Hty & _ & Hd' & _ & _ & Hok').
  assert (∀ w a, w ∈ live → blocks_of (fst w) (snd w) a = true → ¬ (b ≤ a < b + l)) as Hapart.
  { intros [c k] a Hw Hc%blocks_of_true Ha. rewrite Forall_forall in Hlive.
    destruct (Hlive _ Hw) as (_ & _ & _ & _ & _ & _ & Hc'). destruct (Hc' a Hc) as (t & Hta & Hne).
    rewrite (Huse a Ha) in Hta. by injection Hta as <-. }
  split_and!; [congruence|done| |].
  - constructor.
    + split_and!; try (done || lia). intros a Ha. exists type. rewrite Hty. unfold retype.
      by rewrite decide_True by lia.
    + rewrite Forall_forall in Hlive |- *. intros w Hw. eapply live_ok_same; [by apply Hlive|].
      intros a Ha. left. rewrite Hty. unfold retype. rewrite decide_False; [done|]. by eapply Hapart.
  - split; [|done]. apply Forall_forall. intros w Hw a Ha%blocks_of_true Hwa. cbn [fst snd] in Ha.
    by apply (Hapart w a Hw Hwa); lia.
Qed.

Lemma free_size_id n : 0 < n → n mod 4096 = 0 → n + 4096 ≤ 2 ^ 64 - 1 → free_size n = n.
Proof.
  intros Hn Hm Hlt. unfold free_size, align_down64. rewrite (proj2 (Z.eqb_neq n 0)) by lia.
  pose proof (Z.div_mod n 4096 ltac:(done)) as Hd.
  replace (n + 4095) with (4095 + n / 4096 * 4096) by lia. rewrite Z.div_add by done.
  change (4095 / 4096) with 0. rewrite u64_id; lia.
Qed.

Lemma client_free_inv s live1 live2 b n s' :
  client_inv (s, live1 ++ (b, n) :: live2) → has_room s → b ≠ 0 → pmm_free s b n = Some s' →
  client_inv (s', live1 ++ live2).
Proof.
  intros (Hd & Hok & Hlive & Hdis) Hroom Hb0 Hfree.
  rewrite Forall_app, Forall_cons in Hlive. destruct Hlive as (Hl1 & (Hb & Hbm & Hn & Hnm & Hbn & Hlt & Hty) & Hl2).
  pose proof (free_size_id n Hn Hnm Hlt) as Hfs.
  destruct (pmm_free_ok s b n) as (s1 & Hs1 & Hty' & _ & Hd' & _ & _ & Hok'); try (done || lia).
  rewrite Hs1 in Hfree. injection Hfree as ->. apply pairwise_disjoint_middle in Hdis as [Hap Hdis].
  rewrite Hfs in Hty'.
  split_and!; [congruence|done| |done].
  assert (Forall (live_ok s) (live1 ++ live2)) as Hall by by apply Forall_app.
  rewrite Forall_forall in Hall, Hap |- *. intros w Hw. eapply live_ok_same; [by apply Hall|].
  intros a Ha. left. rewrite Hty'. unfold retype. rewrite decide_False; [done|]. intros Hc.
  apply (Hap w Hw a); [by apply blocks_of_true|done].
Qed.

Lemma mod_mod_4096 x a : a mod 4096 = 0 → 0 < a → x mod a = 0 → x mod 4096 = 0.
Proof.
  intros Ha Hp Hx. apply Z.mod_divide; [done|]. transitivity a; apply Z.mod_divide; (done || lia).
Qed.

Lemma client_step_inv c c' : client_step c c' → client_inv c → client_inv c'.
Proof.
  intros Hst Hinv. destruct Hst as [s live count type al high b s' Hroom Ht Hc Ha Ham Hlt Hal|s live1 live2 b n s' Hroom Hb Hf|s live b n a v Hin Ha].
  - pose proof Hinv as (Hd & Hok & _ & _).
    pose proof (ext_mem_alloc_ok s count type al high Hok Hroom Hd Ht Hc Ha ltac:(lia)) as Hres.
    rewrite Hal in Hres. destruct (block_size_ok count al Hc Ha ltac:(lia)) as (Hn & _ & Hnm).
    assert (block_size count al + 4096 ≤ 2 ^ 64 - 1) as Hn'.
    { unfold block_size.
      assert (0 ≤ (if count =? 0 then 1 else count) + (al - 1) < 2 ^ 64 - 4096) by (destruct (Z.eqb_spec count 0); lia).
      destruct (align_down64_ok ((if count =? 0 then 1 else count) + (al - 1)) al ltac:(lia) Ha) as (_ & Hle & _). lia. }
    destruct Hres as [Hres|(_ & _ & Hres)]; (eapply client_alloc_inv; [done|done|done| |done| |exact Hres]);
      [by apply (mod_mod_4096 _ al)| |by apply (mod_mod_4096 _ al)|];
      (destruct Hres as (l & _ & _ & _ & _ & Hm & _); by apply (mod_mod_4096 _ al)).
  - by eapply client_free_inv.
  - destruct Hinv as (Hd & Hok & Hlive & Hdis). split_and!; [done|done|exact Hlive|done].
Qed.

Lemma client_reachable c c' : rtc client_step c c' → client_inv c → client_inv c'.
Proof. induction 1; eauto using client_step_inv. Qed.

(** What a step may do to the contents of a live block: nothing, unless the
    client itself writes there. *)
Lemma client_step_mem s live s' live' b n x :
  client_inv (s, live) → client_step (s, live) (s', live') → (b, n) ∈ live → b ≤ x < b + n →
  mem s' x = mem s x ∨ ∃ v, s' = set_mem s (λ y, if y =? x then v else mem s y) ∧ live' = live.
Proof.
  intros Hinv Hst Hin Hx. pose proof Hinv as (Hd & Hok & Hlive & Hdis).
  inversion Hst as [? ? count type al high b' ? Hroom Ht Hc Ha Ham Hlt Hal|? live1 live2 b' n' ? Hroom Hb Hf|? ? b' n' a v Hin' Ha]; subst.
  - left. pose proof (ext_mem_alloc_ok s count type al high Hok Hroom Hd Ht Hc Ha ltac:(lia)) as Hres.
    rewrite Hal in Hres.
    assert (∃ limit, allocated s (block_size count al) type al limit b' s') as (limit & l & Hl & _ & _ & _ & _ & Huse & _ & Hmem & _)
      by (destruct Hres as [?|(_ & _ & ?)]; eauto).
    rewrite Hmem, decide_False; [done|]. intros Hx'. rewrite Forall_forall in Hlive.
    destruct (Hlive _ Hin) as (_ & _ & _ & _ & _ & _ & Hty). destruct (Hty x Hx) as (t & Htx & Hne).
    rewrite Huse in Htx by lia. by injection Htx as <-.
  - left. rewrite Forall_app, Forall_cons in Hlive. destruct Hlive as (_ & (Hb1 & Hbm & Hn & Hnm & Hbn & Hlt & _) & _).
    pose proof (free_size_id n' Hn Hnm Hlt).
    destruct (pmm_free_ok s b' n') as (s1 & Hs1 & _ & Hmem & _); try (done || lia).
    rewrite Hs1 in Hf. injection Hf as <-. by rewrite Hmem.
  - destruct (decide (a = x)) as [->|Hne]; [right; eauto|left].
    cbn [set_mem mem]. by rewrite (proj2 (Z.eqb_neq x a)) by done.
Qed.

Lemma valid_intro m :
  wf m → all_nonempty m → (∀ a, cnt any_type m a ≤ 1) → valid true m.
Proof.
  intros ???. split; [done|by split|]. intros a. unfold page_view, page_kept.
  by destruct (type_at m a).
Qed.

(** ** Theorems *)


(** [pmm_new_entry] ends within its map of 512 entries if one entry for
    each end of the range is free, and then the addresses of the range have
    exactly the new type and all others are as they were. *)
Theorem pmm_new_entry_correct m base length type :
  wf m → 0 ≤ base → 0 < length → base + length < 2 ^ 64 →
  len m + cnt any_type m base < memmap_max_entries →
  returns (pmm_new_entry m base length type) (λ m', wf m' ∧
    ∀ P a, cnt P m' a = if decide (base ≤ a < base + length) then b2z (P type) else cnt P m a).
Proof.
  intros Hw Hb Hl Ht Hcap. replace length with (base + length - base) at 1 by lia.
  eapply returns_weaken; [apply pmm_new_entry_room; (done || lia)|]. cbv beta. tauto.
Qed.

(** C19: The top-down allocator returns a block if and only if a usable entry
    has room for one of the size and alignment, below 4 GiB if it can; the
    block was usable, has the new type and is zeroed, no other address changes
    its type but the rest of the entry above the block, no other byte changes,
    and the map is again one without overlaps. *)
Theorem ext_mem_alloc_correct s count type alignment high :
  pmm_ok s → has_room s → allocations_disallowed s = false → type ≠ MEMMAP_USABLE →
  0 ≤ count → 0 < alignment → count + alignment ≤ 2 ^ 64 - 1 →
  let n := block_size count alignment in
  count ≤ n ∧
  match ext_mem_alloc_type_aligned_mode s count type alignment high with
  | Some (b, s') =>
      allocated s n type alignment LIMIT_4G b s' ∨
      high = true ∧ no_block s LIMIT_4G n alignment ∧ allocated s n type alignment SIZE_MAX b s'
  | None => no_block s (if high then SIZE_MAX else LIMIT_4G) n alignment
  end.
Proof. intros. split; [by apply block_size_ok|by apply ext_mem_alloc_ok]. Qed.

(** C20: [pmm_free] of whole pages makes exactly their addresses usable and
    changes nothing else. *)
Theorem pmm_free_correct s ptr count :
  pmm_ok s → has_room s → allocations_disallowed s = false →
  0 < ptr → ptr mod 4096 = 0 → 0 ≤ count → count + 4096 ≤ 2 ^ 64 - 1 → ptr + free_size count < 2 ^ 64 →
  returns (pmm_free s ptr count) (freed s ptr count).
Proof. apply pmm_free_ok. Qed.

(** [pmm_realloc] of an allocated block moves its first
    [min(old_size, new_size)] bytes to a new block, gives the old one back and
    leaves all other bytes alone; it fails only when no usable entry has room
    for the new block. *)
Theorem pmm_realloc_correct s ptr old_size new_size :
  pmm_ok s → has_room s → allocations_disallowed s = false →
  0 < ptr → ptr mod 4096 = 0 → 0 ≤ old_size → old_size + 4096 ≤ 2 ^ 64 - 1 → ptr + free_size old_size < 2 ^ 64 →
  0 ≤ new_size → new_size + 4096 ≤ 2 ^ 64 - 1 →
  (∀ a, ptr ≤ a < ptr + free_size old_size → type_at (memmap s) a ≠ Some MEMMAP_USABLE) →
  (∀ b s1, ext_mem_alloc s new_size = Some (b, s1) → has_room s1) →
  match pmm_realloc s ptr old_size new_size with
  | Some (b, s') => ∃ s1, allocated s (block_size new_size 4096) MEMMAP_BOOTLOADER_RECLAIMABLE 4096 LIMIT_4G b s1 ∧
      (∀ a, type_at (memmap s') a = retype ptr (ptr + free_size old_size) MEMMAP_USABLE (type_at (memmap s1)) a) ∧
      (∀ i, 0 ≤ i < Z.min old_size new_size → mem s' (b + i) = mem s (ptr + i)) ∧
      (∀ a, ¬ (b ≤ a < b + block_size new_size 4096) → mem s' a = mem s a) ∧ pmm_ok s'
  | None => no_block s LIMIT_4G (block_size new_size 4096) 4096
  end.
Proof. apply pmm_realloc_ok. Qed.

(** C5: Whatever clients allocate, free and write, in any order: the blocks
    that are live are whole pages apart from each other, none of them is usable
    memory to the map, and the bytes of a live block change only when its
    client writes them. *)
Theorem allocator_isolation s0 s live :
  pmm_ok s0 → allocations_disallowed s0 = false → rtc client_step (s0, []) (s, live) →
  Forall (live_ok s) live ∧ pairwise_disjoint live ∧
  ∀ s' live' b n x, client_step (s, live) (s', live') → (b, n) ∈ live → b ≤ x < b + n →
    mem s' x = mem s x ∨ ∃ v, s' = set_mem s (λ y, if y =? x then v else mem s y) ∧ live' = live.
Proof.
  intros Hok Hd Hr. pose proof (client_reachable _ _ Hr) as Hinv.
  specialize (Hinv ltac:(by split_and!)). pose proof Hinv as (_ & _ & ? & ?). split_and!; [done|done|].
  intros s' live' b n x. by apply client_step_mem.
Qed.

(** ** The theorems at concrete maps *)

Definition example_map : list memmap_entry := [ME 0x10000 0x40000 1; ME 0x100000 0x200000 1; ME 0x50000 0x1000 2].
Definition example_state : pmm_state := PMM example_map false 0 true (λ _, 0xAA).

Lemma example_alloc : ∃ b s', ext_mem_alloc_type_aligned_mode example_state 5000 0x1000 4096 false = Some (b, s').
Proof.
  assert (fst <$> ext_mem_alloc_type_aligned_mode example_state 5000 0x1000 4096 false = Some 0x2fe000) as H by (vm_compute; done).
  destruct (ext_mem_alloc_type_aligned_mode _ _ _ _ _) as [[b s']|]; [by exists b, s'|done].
Qed.

Lemma example_valid : valid true example_map.
Proof.
  apply valid_intro.
  - repeat constructor; cbn; lia.
  - repeat constructor; cbn; lia.
  - intros a. unfold example_map. cbn [cnt any_type andb]. unfold covb. cbn [e_base e_len].
    repeat match goal with |- context [(?x <=? ?y) && (?z <? ?t)] =>
      destruct (Z.leb_spec x y), (Z.ltb_spec z t); cbn [andb b2z]; try lia end.
Qed.

Lemma example_ok : pmm_ok example_state.
Proof. apply example_valid. Qed.


Lemma pmm_new_entry_correct_witness :
  returns (pmm_new_entry example_map 0x20000 0x3000 0x1000) (λ m', wf m' ∧
    ∀ P a, cnt P m' a = if decide (0x20000 ≤ a < 0x20000 + 0x3000) then b2z (P 0x1000) else cnt P example_map a).
Proof.
  apply (pmm_new_entry_correct example_map 0x20000 0x3000 0x1000); [apply example_valid|lia|lia|lia|vm_compute; done].
Defined.

Lemma ext_mem_alloc_correct_witness :
  let n := block_size 5000 4096 in
  5000 ≤ n ∧
  match ext_mem_alloc_type_aligned_mode example_state 5000 0x1000 4096 false with
  | Some (b, s') =>
      allocated example_state n 0x1000 4096 LIMIT_4G b s' ∨
      false = true ∧ no_block example_state LIMIT_4G n 4096 ∧ allocated example_state n 0x1000 4096 SIZE_MAX b s'
  | None => no_block example_state LIMIT_4G n 4096
  end.
Proof.
  exact (ext_mem_alloc_correct example_state 5000 0x1000 4096 false example_ok
    ltac:(vm_compute; done) eq_refl ltac:(done) ltac:(lia) ltac:(lia) ltac:(lia)).
Defined.

Lemma pmm_free_correct_witness :
  returns (pmm_free example_state 0x50000 0x1000) (freed example_state 0x50000 0x1000).
Proof.
  exact (pmm_free_correct example_state 0x50000 0x1000 example_ok
    ltac:(vm_compute; done) eq_refl ltac:(lia) eq_refl ltac:(lia) ltac:(lia) ltac:(vm_compute; done)).
Defined.

Lemma pmm_realloc_correct_witness :
  match pmm_realloc example_state 0x50000 0x1000 0x1800 with
  | Some (b, s') => ∃ s1, allocated example_state (block_size 0x1800 4096) MEMMAP_BOOTLOADER_RECLAIMABLE 4096 LIMIT_4G b s1 ∧
      (∀ a, type_at (memmap s') a = retype 0x50000 (0x50000 + free_size 0x1000) MEMMAP_USABLE (type_at (memmap s1)) a) ∧
      (∀ i, 0 ≤ i < Z.min 0x1000 0x1800 → mem s' (b + i) = mem example_state (0x50000 + i)) ∧
      (∀ a, ¬ (b ≤ a < b + block_size 0x1800 4096) → mem s' a = mem example_state a) ∧ pmm_ok s'
  | None => no_block example_state LIMIT_4G (block_size 0x1800 4096) 4096
  end.
Proof.
  apply (pmm_realloc_correct example_state 0x50000 0x1000 0x1800 example_ok);
    [vm_compute; done|done|lia|done|lia|lia|vm_compute; done|lia|lia|..].
  - change (free_size 0x1000) with 4096. intros a Ha. cbn [memmap example_state example_map type_at].
    unfold covb. cbn [e_base e_len e_type].
    rewrite (proj2 (Z.ltb_ge a (0x10000 + 0x40000))), (proj2 (Z.leb_gt 0x100000 a)) by lia.
    rewrite (proj2 (Z.leb_le 0x50000 a)), (proj2 (Z.ltb_lt a (0x50000 + 0x1000))) by lia. by rewrite andb_false_r.
  - intros b s1 Hs1.
    assert ((λ x, memmap (snd x)) <$> ext_mem_alloc example_state 0x1800 = Some
      [ME 0x10000 0x40000 1; ME 0x50000 0x1000 2; ME 0x100000 0x1fe000 1; ME 0x2fe000 0x2000 0x1000]) as Hm by (vm_compute; done).
    rewrite Hs1 in Hm. injection Hm as Hm. unfold has_room. cbn [snd] in Hm. rewrite Hm. vm_compute. done.
Defined.

Lemma allocator_isolation_witness :
  ∃ s b n, rtc client_step (example_state, []) (s, [(b, n)]) ∧ Forall (live_ok s) [(b, n)].
Proof.
  destruct example_alloc as (b & s & Hs). exists s, b, (block_size 5000 4096).
  assert (rtc client_step (example_state, []) (s, [(b, block_size 5000 4096)])) as Hr.
  { apply rtc_once. apply (client_alloc example_state [] 5000 0x1000 4096 false); [vm_compute; done|done|lia|lia|done|lia|done]. }
  split; [exact Hr|]. exact (proj1 (allocator_isolation example_state _ _ example_ok eq_refl Hr)).
Defined.
