(* ===== verification/PmmInfo.v ===== *)
(** What the map is asked by other parts of the bootloader: how much memory
    lies below the first hole, and whether a range is real memory. *)
From S2P Require Import Prelude Pmm PmmSanitise PmmAlloc.

(** ** [mmap_get_info] *)

Definition is_usable (m : list memmap_entry) (a : Z) : Prop := 0 < cnt usable m a.

(** A frontier at [x] that [e] moves. *)
Definition moves (e : memmap_entry) (x : Z) : bool :=
  usable (e_type e) && covb e x.

(** The entries that end above a frontier. *)
Fixpoint above (m : list memmap_entry) (x : Z) : nat :=
  match m with
  | [] => 0
  | e :: m => (if usable (e_type e) && (x <? e_base e + e_len e) then 1 else 0) + above m x
  end.

Lemma above_mono m x y : x ≤ y → (above m y ≤ above m x)%nat.
Proof.
  intros Hxy. induction m as [|e m IH]; cbn [above]; [lia|].
  destruct (usable (e_type e)), (Z.ltb_spec x (e_base e + e_len e)), (Z.ltb_spec y (e_base e + e_len e)); cbn [andb]; lia.
Qed.

Lemma above_lt m x y e :
  x ≤ y → e ∈ m → usable (e_type e) = true → x < e_base e + e_len e ≤ y → (above m y < above m x)%nat.
Proof.
  intros Hxy He Hu Hl. induction m as [|f m IH]; cbn [above]; [by apply elem_of_nil in He|].
  apply elem_of_cons in He as [<-|He].
  - rewrite Hu. cbn [andb]. pose proof (above_mono m x y Hxy).
    destruct (Z.ltb_spec x (e_base e + e_len e)), (Z.ltb_spec y (e_base e + e_len e)); lia.
  - specialize (IH He). destruct (usable (e_type f)), (Z.ltb_spec x (e_base f + e_len f)), (Z.ltb_spec y (e_base f + e_len f)); cbn [andb]; lia.
Qed.

(** [x'] is a frontier reached from [x] by entries of [m]. *)
Record extends (m : list memmap_entry) (x x' : Z) : Prop := {
  ext_le : x ≤ x';
  ext_usable : ∀ a, x ≤ a < x' → is_usable m a;
  ext_above : x < x' → (above m x' < above m x)%nat;
}.

Lemma extends_refl m x : extends m x x.
Proof. split; [done|lia|lia]. Qed.

Lemma extends_trans m x y z : extends m x y → extends m y z → extends m x z.
Proof.
  intros [H1 H2 H3] [H4 H5 H6]. split; [lia| |].
  - intros a Ha. destruct (decide (a < y)); [apply H2|apply H5]; lia.
  - intros ?. pose proof (above_mono m x y H1). pose proof (above_mono m y z H4).
    destruct (decide (x < y)); [specialize (H3 ltac:(lia))|specialize (H6 ltac:(lia))]; lia.
Qed.

Lemma moves_extends m e x :
  e ∈ m → moves e x = true → extends m x (e_base e + e_len e).
Proof.
  intros He [Hu Hc%covb_true]%andb_true_iff. split; [lia| |].
  - intros a Ha. apply cnt_pos. exists e. split_and!; [done|done|]. apply covb_true. lia.
  - intros _. by apply (above_lt m _ _ e); [lia|..|lia].
Qed.

(** One pass over the entries [m] of the map [m0]. *)
Lemma frontier_pass_ok m0 m l u p :
  wf m → (∀ e, e ∈ m → e ∈ m0) →
  let '(l', u', p') := frontier_pass m (l, u, p) in
  extends m0 l l' ∧ extends m0 u u' ∧
  (p' = p ∧ l' = l ∧ u' = u ∧ (∀ e, e ∈ m → moves e l = false ∧ moves e u = false) ∨
   p' = true ∧ (l < l' ∨ u < u')).
Proof.
  intros Hw. revert l u p. induction Hw as [|e m He Hw IH]; intros l u p Hsub; cbn [frontier_pass].
  { split_and!; [apply extends_refl..|]. left. split_and!; try done. intros e He. by apply elem_of_nil in He. }
  assert (∀ e, e ∈ m → e ∈ m0) as Hsub' by (intros f Hf; apply Hsub; by right).
  unfold moves, usable in *. destruct (Z.eqb_spec (e_type e) MEMMAP_USABLE) as [Hu|Hu]; cbn [negb].
  2: { specialize (IH l u p Hsub'). destruct (frontier_pass m (l, u, p)) as [[l' u'] p'].
       destruct IH as (? & ? & [(? & ? & ? & Hno)|?]); split_and!; try done; [left|by right].
       split_and!; try done. intros f [->|Hf]%elem_of_cons; [|by apply Hno].
       by rewrite (proj2 (Z.eqb_neq _ _)) by done. }
  rewrite (e_top_ok e He).
  fold (covb e l) (covb e u).
  assert (∀ x, covb e x = true → extends m0 x (e_base e + e_len e) ∧ x < e_base e + e_len e) as Hmv.
  { intros x Hx. split; [|apply covb_true in Hx; lia].
    apply moves_extends; [apply Hsub; by left|]. unfold moves, usable. by rewrite Hu. }
  assert (∀ l1 u1, extends m0 l l1 → extends m0 u u1 → l < l1 ∨ u < u1 →
    let '(l', u', p') := frontier_pass m (l1, u1, true) in
    extends m0 l l' ∧ extends m0 u u' ∧ (p' = p ∧ l' = l ∧ u' = u ∧
      (∀ f, f ∈ e :: m → (e_type f =? MEMMAP_USABLE) && covb f l = false ∧ (e_type f =? MEMMAP_USABLE) && covb f u = false) ∨
      p' = true ∧ (l < l' ∨ u < u'))) as Hgo.
  { intros l1 u1 Hl1 Hu1 Hlt. specialize (IH l1 u1 true Hsub'). destruct (frontier_pass m (l1, u1, true)) as [[l' u'] p'].
    destruct IH as (Hl' & Hu' & Hp). split_and!; [by eapply extends_trans..|]. right.
    pose proof (ext_le _ _ _ Hl'). pose proof (ext_le _ _ _ Hu'). split; [by destruct Hp as [[-> _]|[-> _]]|lia]. }
  destruct (covb e l) eqn:Hcl, (covb e u) eqn:Hcu.
  - destruct (Hmv l Hcl), (Hmv u Hcu). apply Hgo; (done || lia).
  - destruct (Hmv l Hcl). apply Hgo; [done|apply extends_refl|lia].
  - destruct (Hmv u Hcu). apply Hgo; [apply extends_refl|done|lia].
  - specialize (IH l u p Hsub'). destruct (frontier_pass m (l, u, p)) as [[l' u'] p'].
    destruct IH as (? & ? & [(? & ? & ? & Hno)|?]); split_and!; try done; [left|by right].
    split_and!; try done. intros f [->|Hf]%elem_of_cons; [|by apply Hno]. by rewrite Hcl, Hcu, andb_false_r.
Qed.

(** A frontier no entry moves is at a hole. *)
Lemma not_moved m x : (∀ e, e ∈ m → moves e x = false) → ¬ is_usable m x.
Proof.
  intros Hno (e & He & Hu & Hc)%cnt_pos. specialize (Hno e He). unfold moves in Hno. by rewrite Hu, Hc in Hno.
Qed.

Lemma above_len m x : (above m x ≤ length m)%nat.
Proof. induction m as [|e m IH]; simpl; [done|]. case_match; lia. Qed.

Lemma frontier_loop_ok m :
  wf m →
  returns (frontier_loop m) (λ '(l, u),
    extends m 0 l ∧ ¬ is_usable m l ∧ extends m 0x100000 u ∧ ¬ is_usable m u).
Proof.
  intros Hw. unfold frontier_loop.
  apply (loop_inv (λ '(l, u), extends m 0 l ∧ extends m 0x100000 u) _ (λ '(l, u), (above m l + above m u)%nat)).
  - intros [l u] [Hl Hu]. pose proof (frontier_pass_ok m m l u false Hw (λ _ H, H)) as Hp.
    destruct (frontier_pass m (l, u, false)) as [[l' u'] p']. destruct Hp as (Hl' & Hu' & Hp).
    destruct Hp as [(-> & -> & -> & Hno)|(-> & Hlt)]; apply returns_ret.
    + split_and!; try done; apply not_moved; intros e He; by apply Hno.
    + split; [split; by eapply extends_trans|].
      pose proof (above_mono m l l' (ext_le _ _ _ Hl')). pose proof (above_mono m u u' (ext_le _ _ _ Hu')).
      destruct Hlt as [Hlt|Hlt]; [pose proof (ext_above _ _ _ Hl' Hlt)|pose proof (ext_above _ _ _ Hu' Hlt)]; lia.
  - split; apply extends_refl.
  - pose proof (above_len m 0). pose proof (above_len m 0x100000). lia.
Qed.



(** ** [check_usable_memory] *)

(** The sum of [f] over [lo, lo + n). *)
Fixpoint total (f : Z → Z) (lo : Z) (n : nat) : Z :=
  match n with O => 0 | S n => f lo + total f (lo + 1) n end.

Lemma total_add f g lo n : total (λ a, f a + g a) lo n = total f lo n + total g lo n.
Proof. revert lo. induction n as [|n IH]; intros lo; cbn [total]; [done|]. rewrite IH. lia. Qed.

Lemma total_interval b t lo n :
  total (λ a, b2z ((b <=? a) && (a <? t))) lo n = Z.max 0 (Z.min (lo + Z.of_nat n) t - Z.max lo b).
Proof.
  revert lo. induction n as [|n IH]; intros lo; cbn [total]; [lia|]. rewrite IH.
  destruct (Z.leb_spec b lo), (Z.ltb_spec lo t); cbn [andb b2z]; lia.
Qed.

Lemma total_zero lo n : total (λ _, 0) lo n = 0.
Proof. revert lo. induction n as [|n IH]; intros lo; cbn [total]; [done|]. by rewrite IH. Qed.

(** Where [f] is at most 1 everywhere, the sum is at most [n], and [n] only if
    [f] is 1 everywhere. *)
Lemma total_le f lo n : (∀ a, f a ≤ 1) → total f lo n ≤ Z.of_nat n.
Proof. intros Hf. revert lo. induction n as [|n IH]; intros lo; cbn [total]; [lia|]. specialize (Hf lo). specialize (IH (lo + 1)). lia. Qed.

Lemma total_full f lo n :
  (∀ a, f a ≤ 1) → total f lo n = Z.of_nat n ↔ ∀ a, lo ≤ a < lo + Z.of_nat n → f a = 1.
Proof.
  intros Hf. revert lo. induction n as [|n IH]; intros lo; cbn [total]; [split; [lia|done]|].
  pose proof (Hf lo). pose proof (total_le f (lo + 1) n Hf). split.
  - intros Ht a Ha. destruct (decide (a = lo)) as [->|]; [lia|]. apply (proj1 (IH (lo + 1))); lia.
  - intros Hall. rewrite (Hall lo) by lia. rewrite (proj2 (IH (lo + 1))); [lia|]. intros a Ha. apply Hall. lia.
Qed.

Section check_usable.
Context (base top : Z).
Hypothesis (Hrange : 0 ≤ base < top) (Htop : top < 2 ^ 64).

Definition covered (m : list memmap_entry) : Z := total (cnt real_ram m) base (Z.to_nat (top - base)).

Lemma covered_cons e m :
  covered (e :: m) =
    (if real_ram (e_type e) then Z.max 0 (Z.min top (e_base e + e_len e) - Z.max base (e_base e)) else 0) + covered m.
Proof.
  unfold covered. cbn [cnt]. rewrite total_add. f_equal.
  destruct (real_ram (e_type e)); cbn [andb].
  - unfold covb. rewrite total_interval. rewrite !Z2Nat.id by lia. f_equal. lia.
  - apply total_zero.
Qed.

Lemma covered_nonneg m : 0 ≤ covered m.
Proof.
  induction m as [|e m IH]; [unfold covered; cbn [cnt]; by rewrite total_zero|].
  rewrite covered_cons. destruct (real_ram _); lia.
Qed.

Lemma check_usable_loop_ok m r :
  wf m → covered m ≤ r → 0 < r ≤ top - base →
  check_usable_loop m base top r = (covered m =? r).
Proof.
  intros Hw. revert r. induction Hw as [|e m He Hw IH]; intros r Hle Hr; cbn [check_usable_loop].
  { unfold covered. cbn [cnt]. rewrite total_zero. symmetry. apply Z.eqb_neq. lia. }
  rewrite covered_cons in Hle |- *. pose proof (covered_nonneg m).
  destruct (real_ram (e_type e)); cbn [negb]; [|apply IH; lia].
  rewrite (e_top_ok e He). destruct He as (? & ? & ?). set (t := e_base e + e_len e) in *. unfold full_overlap_check.
  destruct ((e_base e <=? base) && (base <? t) && ((e_base e <? top) && (top <=? t))) eqn:Ef.
  { rewrite !andb_true_iff, !Z.leb_le, !Z.ltb_lt in Ef. symmetry. apply Z.eqb_eq. lia. }
  destruct (Z.ltb_spec (e_base e) top), (Z.ltb_spec base t); cbn [andb];
    try (rewrite Z.max_l by lia; apply IH; lia).
  set (ob := if base <? e_base e then e_base e else base). set (ot := if t <? top then t else top).
  assert (ob = Z.max base (e_base e)) as -> by (unfold ob; destruct (Z.ltb_spec base (e_base e)); lia).
  assert (ot = Z.min top t) as -> by (unfold ot; destruct (Z.ltb_spec t top); lia).
  rewrite (u64_id (Z.min _ _ - _)), (u64_id (r - _)) by lia.
  destruct (Z.eqb_spec (r - (Z.min top t - Z.max base (e_base e))) 0).
  - symmetry. apply Z.eqb_eq. lia.
  - rewrite IH by lia. apply eq_true_iff_eq. rewrite !Z.eqb_eq. lia.
Qed.
End check_usable.

(** C22: [check_usable_memory] says of a range of a map without overlaps whether
    every address of it is in an entry of real memory: the bytes it counts down
    never wrap around and reach zero exactly then. *)
Theorem check_usable_memory_correct m base top :
  wf m → (∀ a, cnt any_type m a ≤ 1) → 0 ≤ base < top → top < 2 ^ 64 →
  check_usable_memory m base top = true ↔
    ∀ a, base ≤ a < top → ∃ e, e ∈ m ∧ real_ram (e_type e) = true ∧ covb e a = true.
Proof.
  intros Hw Hq Hr Ht. unfold check_usable_memory. rewrite u64_id by lia.
  assert (∀ a, cnt real_ram m a ≤ 1) as Hq'.
  { intros a. rewrite (type_at_cnt _ m a (Hq a)). destruct (type_at m a); cbn [from_option]; [apply b2z_range|lia]. }
  pose proof (total_le _ base (Z.to_nat (top - base)) Hq').
  rewrite check_usable_loop_ok; [|done|done|done|unfold covered; lia|lia].
  rewrite Z.eqb_eq. unfold covered. rewrite <- (Z2Nat.id (top - base)) at 2 by lia. rewrite total_full by done.
  rewrite Z2Nat.id by lia. replace (base + (top - base)) with top by lia.
  split; intros Hall a Ha; specialize (Hall a Ha).
  - apply cnt_pos. lia.
  - apply cnt_pos in Hall. specialize (Hq' a). lia.
Qed.

Lemma check_usable_memory_correct_witness :
  let m := [ME 0x1000 0x1000 1; ME 0x3000 0x1000 0x1000; ME 0x2000 0x1000 0x1001] in
  check_usable_memory m 0x1800 0x3800 = true ↔
    ∀ a, 0x1800 ≤ a < 0x3800 → ∃ e, e ∈ m ∧ real_ram (e_type e) = true ∧ covb e a = true.
Proof.
  intros m. apply (check_usable_memory_correct m 0x1800 0x3800); [repeat constructor; cbn; lia| |lia|lia].
  intros a. unfold m. cbn [cnt any_type andb]. unfold covb. cbn [e_base e_len].
  repeat match goal with |- context [(?x <=? ?y) && (?z <? ?t)] =>
    destruct (Z.leb_spec x y), (Z.ltb_spec z t); cbn [andb b2z]; try lia end.
Defined.
