(* ===== verification/PmmUse.v ===== *)
(** What a client of the memory manager relies on: how far an operation makes
    the map grow, and that what is not usable memory stays as it is. *)
From S2P Require Import Prelude Pmm PmmSanitise PmmAlloc.

(** ** The map never grows by more than the new entries *)
Lemma loop_le {S A} (step : S → option (S + A)) (μ : S → Z) (ν : A → Z) :
  (∀ s s', step s = Some (inl s') → μ s' ≤ μ s) → (∀ s a, step s = Some (inr a) → ν a ≤ μ s) →
  ∀ fuel s a, loop fuel step s = Some a → ν a ≤ μ s.
Proof.
  intros H1 H2. induction fuel as [|fuel IH]; intros s a; [done|]. cbn [loop]. destruct (step s) as [[s'|b]|] eqn:Hs; cbn [mbind option_bind]; [| |done].
  - intros Hl%IH. specialize (H1 _ _ Hs). lia.
  - intros [= <-]. by apply H2.
Qed.

Lemma len_remove_entry m i m' : remove_entry m i = Some m' → len m' ≤ len m.
Proof.
  unfold remove_entry. destruct (m.[len m - 1]) as [l|] eqn:Hl; cbn [mbind option_bind]; [|done]. destruct (i <? len m - 1).
  - destruct (m.[i <- l]) as [m1|] eqn:Hs; cbn [mbind option_bind]; [|done]. intros [= <-]. apply len_arr_set in Hs. unfold len in *. rewrite length_take. lia.
  - intros [= <-]. unfold len in *. rewrite length_take. lia.
Qed.

Ltac len_step :=
  repeat match goal with
  | H : ?x ≫= _ = Some _ |- _ => destruct x as [?|] eqn:?; cbn [mbind option_bind] in H; [|done]
  | H : Some _ = Some _ |- _ => injection H as H
  | H : remove_entry _ _ = Some _ |- _ => apply len_remove_entry in H
  | H : _.[_ <- _] = Some _ |- _ => apply len_arr_set in H
  end.

Lemma overlap_step_len al i m r : overlap_step al (i, m) = Some r → match r with inl (_, m') => len m' ≤ len m | inr m' => len m' ≤ len m end.
Proof.
  unfold overlap_step. destruct (i <? len m); [|intros [= <-]; lia]. intros H. len_step. destruct (negb _); [injection H as <-; lia|]. len_step.
  destruct c as [e'|e'|]; len_step; subst; try lia; (destruct (e_len e' =? 0); [len_step; subst; lia|]); (destruct al; [|len_step; subst; lia]);
    (destruct (align_entry e'); len_step; subst; lia).
Qed.

Lemma empty_step_len keep i m r : empty_step keep (i, m) = Some r → match r with inl (_, m') => len m' ≤ len m | inr m' => len m' ≤ len m end.
Proof.
  unfold empty_step. destruct (i <? len m); [|intros [= <-]; lia]. intros H. len_step. destruct (clip_first_page keep m0); len_step; subst; lia.
Qed.

Lemma for_up_le {S} (body : Z → S → option S) (μ : S → Z) : (∀ i s s', body i s = Some s' → μ s' ≤ μ s) →
  ∀ n i s s', for_up n i body s = Some s' → μ s' ≤ μ s.
Proof.
  intros Hb. induction n as [|n IH]; intros i s s'; cbn [for_up]; [intros [= <-]; lia|]. destruct (body i s) as [s1|] eqn:Hs; cbn [mbind option_bind]; [|done].
  intros H%IH. specialize (Hb _ _ _ Hs). lia.
Qed.

Lemma sort_entries_len m m' : sort_entries m = Some m' → len m' ≤ len m.
Proof.
  unfold sort_entries, for_range. apply (for_up_le _ len). intros i s s' H. destruct (find_min s i) as [[mn mi]|]; cbn [mbind option_bind] in H; [|done].
  len_step. subst. lia.
Qed.

Lemma merge_step_len i m r : merge_step (i, m) = Some r → match r with inl (_, m') => len m' ≤ len m | inr m' => len m' ≤ len m end.
Proof.
  unfold merge_step. destruct (i + 1 <? len m); [|intros [= <-]; lia]. intros H. len_step. destruct (negb _); [injection H as <-; lia|].
  destruct (e_top m0); [|injection H as <-; lia]. destruct (_ && _); [|injection H as <-; lia]. destruct (add64 _ _); [|injection H as <-; lia].
  len_step. subst r. unfold len in *. rewrite length_app, length_take, length_drop. lia.
Qed.

Lemma sanitise_len keep al m m' : pmm_sanitise_entries keep al m = Some m' → len m' ≤ len m.
Proof.
  unfold pmm_sanitise_entries. intros H.
  assert (∀ (step : Z * list memmap_entry → option (Z * list memmap_entry + list memmap_entry)) fuel (m0 m1 : list memmap_entry),
    (∀ i m r, step (i, m) = Some r → match r with inl (_, m') => len m' ≤ len m | inr m' => len m' ≤ len m end) →
    loop fuel step (0, m0) = Some m1 → len m1 ≤ len m0) as Hloop.
  { intros step fuel m0 m1 Hstep Hl. apply (loop_le step (λ s, len (snd s)) len) in Hl; [done| |].
    - intros [i s] [j s'] Hs. by apply Hstep in Hs.
    - intros [i s] a Hs. by apply Hstep in Hs. }
  destruct (loop _ (overlap_step al) _) as [m1|] eqn:H1; cbn [mbind option_bind] in H; [|done]. apply Hloop in H1; [|apply overlap_step_len].
  destruct (loop _ (empty_step keep) _) as [m2|] eqn:H2; cbn [mbind option_bind] in H; [|done]. apply Hloop in H2; [|apply empty_step_len].
  destruct (sort_entries m2) as [m3|] eqn:H3; cbn [mbind option_bind] in H; [|done]. apply sort_entries_len in H3.
  apply Hloop in H; [lia|apply merge_step_len].
Qed.

Lemma align_up64_nonneg x a r : align_up64 x a = Some r → 0 ≤ r.
Proof. unfold align_up64. destruct (div_roundup64 x a); cbn [mbind option_bind]; [|done]. intros [= <-]. apply Z.mod_pos_bound. done. Qed.

Lemma alloc_range_len keep m b n type overlay p sim new ok m' : valid keep m → len m + 1 < memmap_max_entries → 0 ≤ b → 0 ≤ n →
  memmap_alloc_range_in keep m b n type overlay p sim new = Some (ok, m') → wf m' ∧ len m' ≤ len m + 2.
Proof.
  intros [Hw [Hne Hq] Hpg] Hroom Hb Hn. unfold memmap_alloc_range_in. destruct (Z.eqb_spec n 0); [intros [= <- <-]; split; [done|lia]|].
  destruct (sim && new); [intros [= <- <-]; split; [done|lia]|].
  destruct (add64 b n) as [top|] eqn:Htop; [apply add64_Some in Htop as [-> Htop]|destruct p; [done|intros [= <- <-]; split; [done|lia]]].
  assert ((m ← pmm_new_entry m b n type; m ← pmm_sanitise_entries keep false m; Some (true, m)) = Some (ok, m') → wf m' ∧ len m' ≤ len m + 2) as Hres.
  { intros Hr. pose proof (pmm_new_entry_room b (b + n) ltac:(lia) Htop m type Hw) as Hnew. replace (b + n - b) with n in Hnew by lia. specialize (Hq b).
    destruct Hnew as (m1 & Hm1 & Hw1 & _ & Hl & _); [lia|]. rewrite Hm1 in Hr. cbn [mbind option_bind] in Hr.
    destruct (pmm_sanitise_entries keep false m1) as [m2|] eqn:Hm2; cbn [mbind option_bind] in Hr; [|done]. injection Hr as _ <-.
    pose proof (pmm_sanitise_cases keep false m1 Hw1) as H. rewrite Hm2 in H. split; [apply H|]. apply sanitise_len in Hm2. lia. }
  destruct (existsb _ m); [destruct sim; [intros [= <- <-]; split; [done|lia]|exact Hres]|]. destruct new; [exact Hres|]. destruct p; [done|intros [= <- <-]; split; [done|lia]].
Qed.

(** ** Allocation as a client sees it *)

(** The window found is some of the memory below the limit. *)
Lemma alloc_window_cases s n alignment (high : bool) b l : pmm_ok s → 0 < n → 0 < alignment →
  (match find_window LIMIT_4G n alignment (rev (memmap s)) return option (Z * Z) with
   | Some w => Some w
   | None => if high then find_window SIZE_MAX n alignment (rev (memmap s)) else None
   end) = Some (b, l) → 0 ≤ b ∧ n ≤ l ∧ b + l ≤ (if high then SIZE_MAX else LIMIT_4G).
Proof.
  intros Hok Hn Ha. assert (wf (rev (memmap s))) as Hw by (rewrite <- (Permutation_rev (memmap s)); apply Hok).
  pose proof (find_window_ok LIMIT_4G n alignment _ Hw Hn Ha) as Hlow. pose proof (find_window_ok SIZE_MAX n alignment _ Hw Hn Ha) as Hhigh.
  destruct (find_window LIMIT_4G n alignment _) as [w|].
  - intros [= ->]. destruct Hlow as (e & He & (_ & _ & H1 & H2 & H3) & H4 & _). pose proof (proj1 (List.Forall_forall _ _) Hw e ltac:(by apply list_elem_of_In)) as (? & _).
    split_and!; [lia|lia|]. destruct high; unfold SIZE_MAX, LIMIT_4G in *; lia.
  - destruct high; [|done]. intros Hwin. rewrite Hwin in Hhigh. destruct Hhigh as (e & He & (_ & _ & H1 & H2 & H3) & H4 & _).
    pose proof (proj1 (List.Forall_forall _ _) Hw e ltac:(by apply list_elem_of_In)) as (? & _). lia.
Qed.

(** An allocation that succeeds was not too large. *)
Lemma alloc_small s count type alignment high b s' : pmm_ok s → 0 ≤ count → 0 < alignment ≤ 2 ^ 63 →
  ext_mem_alloc_type_aligned_mode s count type alignment high = Some (b, s') → high = false → count ≤ LIMIT_4G ∧ count + alignment ≤ 2 ^ 64 - 1.
Proof.
  intros Hok Hc Ha Heq ->. unfold ext_mem_alloc_type_aligned_mode in Heq. rewrite (u64_id (alignment - 1)) in Heq by lia.
  destruct (add64 _ (alignment - 1)) as [x|] eqn:Hx; cbn [mbind option_bind] in Heq; [|done]. apply add64_Some in Hx as [-> Hx]. destruct (allocations_disallowed s); [done|].
  set (c := if count =? 0 then 1 else count) in *. assert (count ≤ c ∧ 0 < c) as [Hcc Hc0] by (unfold c; destruct (Z.eqb_spec count 0); lia).
  destruct (align_down64_ok (c + (alignment - 1)) alignment ltac:(lia) ltac:(lia)) as (_ & _ & _ & Hmax). set (n := align_down64 (c + (alignment - 1)) alignment) in *.
  assert (c ≤ n) as Hn.
  { pose proof (Z.div_mod c alignment ltac:(lia)) as Hd. pose proof (Z.mod_pos_bound c alignment ltac:(lia)).
    destruct (decide (c mod alignment = 0)) as [Hz|]; [apply Hmax; lia|]. transitivity (alignment * (c / alignment + 1)); [lia|]. apply Hmax; [|lia].
    rewrite Z.mul_comm. apply Z.mod_mul. lia. }
  match type of Heq with (?w ≫= _) = _ => destruct w as [[wb wl]|] eqn:Hwin end; cbn [mbind option_bind] in Heq; [|done].
  apply (alloc_window_cases s n alignment false wb wl Hok) in Hwin; [|lia|lia]. unfold LIMIT_4G in *. lia.
Qed.

(** What is not usable memory keeps its type; the map grows by [k] entries at
    most. *)
Record kept (s s' : pmm_state) (k : Z) : Prop := {
  kept_ok : pmm_ok s';
  kept_on : allocations_disallowed s' = allocations_disallowed s;
  kept_len : len (memmap s') ≤ len (memmap s) + k;
  kept_types x : type_at (memmap s) x ≠ Some MEMMAP_USABLE → type_at (memmap s') x = type_at (memmap s) x;
}.

Lemma kept_refl s : pmm_ok s → kept s s 0.
Proof. split; (done || lia). Qed.

Lemma kept_trans s1 s2 s3 k1 k2 : kept s1 s2 k1 → kept s2 s3 k2 → kept s1 s3 (k1 + k2).
Proof.
  intros [H1 H2 H3 H4] [G1 G2 G3 G4]. split; [done|congruence|lia|]. intros x Hx. rewrite G4; [by apply H4|]. by rewrite H4.
Qed.

Lemma kept_mem s s' k f : kept s s' k → kept s (set_mem s' f) k.
Proof. by intros [? ? ? ?]. Qed.

(** The block that was got: usable before, of its type after, zero. *)
Record got (s s' : pmm_state) (b n type : Z) : Prop := {
  got_base : 0 ≤ b;
  got_top : b + n ≤ LIMIT_4G;
  got_usable x : b ≤ x < b + n → type_at (memmap s) x = Some MEMMAP_USABLE;
  got_type x : b ≤ x < b + n → type_at (memmap s') x = Some type;
  got_zero x : b ≤ x < b + n → mem s' x = 0;
  got_rest x : type_at (memmap s) x ≠ Some MEMMAP_USABLE → mem s' x = mem s x;
}.

Lemma alloc_kept s count type alignment b s' : pmm_ok s → has_room s → allocations_disallowed s = false → type ≠ MEMMAP_USABLE → 0 ≤ count → 0 < alignment ≤ 2 ^ 63 →
  ext_mem_alloc_type_aligned s count type alignment = Some (b, s') →
  kept s s' 4 ∧ got s s' b (block_size count alignment) type ∧ count ≤ block_size count alignment ∧ block_size count alignment mod alignment = 0 ∧ b mod alignment = 0.
Proof.
  intros Hok Hroom Hd Ht Hc Ha Heq. unfold ext_mem_alloc_type_aligned in Heq. destruct (alloc_small _ _ _ _ _ _ _ Hok Hc Ha Heq eq_refl) as [_ Hlt].
  destruct (block_size_ok count alignment Hc ltac:(lia) Hlt) as (Hn & Hcn & Hm).
  pose proof (ext_mem_alloc_ok s count type alignment false Hok Hroom Hd Ht Hc ltac:(lia) Hlt) as Hal. cbv zeta in Hal. rewrite Heq in Hal.
  destruct Hal as [(l & Hl & Hb & Hlim & _ & Hal & Hu & Hty & Hmem & Hd' & _ & _ & Hok')|(? & _)]; [|done]. split_and!; [|split| | |]; try (done || lia).
  - split; [done|done| |].
    + clear -Heq Hok Hroom Hn Ha Hc Hlt. unfold ext_mem_alloc_type_aligned_mode in Heq. rewrite (u64_id (alignment - 1)) in Heq by lia.
      rewrite add64_lt in Heq by (destruct (Z.eqb_spec count 0); lia). cbn [mbind option_bind] in Heq. destruct (allocations_disallowed s); [done|].
      fold (block_size count alignment) in Heq. match type of Heq with (?w ≫= _) = _ => destruct w as [[wb wl]|] eqn:Hwin end; cbn [mbind option_bind] in Heq; [|done].
      apply (alloc_window_cases s _ alignment false wb wl Hok) in Hwin; [|lia|lia]. unfold memmap_alloc_range in Heq.
      destruct (memmap_alloc_range_in _ _ _ _ _ _ _ _ _) as [[ok m1]|] eqn:Hr; cbn [mbind option_bind] in Heq; [|done]. apply alloc_range_len in Hr as [Hw1 Hl1]; [|done|done|lia|lia].
      unfold sanitise_state in Heq. cbn [set_memmap set_mem memmap keep_first] in Heq. destruct (pmm_sanitise_entries _ _ m1) as [m2|] eqn:Hm2; cbn [mbind option_bind] in Heq; [|done].
      injection Heq as _ <-. cbn [set_memmap memmap]. apply sanitise_len in Hm2. lia.
    + intros x Hx. rewrite Hty. unfold retype. case_decide as Hx'; [by apply Hu in Hx'|done].
  - intros x Hx. apply Hu. lia.
  - intros x Hx. rewrite Hty. unfold retype. by rewrite decide_True by lia.
  - intros x Hx. rewrite Hmem. by rewrite decide_True.
  - intros x Hx. rewrite Hmem. case_decide; [|done]. exfalso. apply Hx, Hu. lia.
Qed.

(** Giving back a block that was usable memory in [s0]. *)
Lemma free_kept s0 s k b count : kept s0 s k → has_room s → allocations_disallowed s0 = false → 0 < b → b mod 4096 = 0 → 0 ≤ count → count + 4096 ≤ 2 ^ 64 - 1 →
  b + block_size count 4096 < 2 ^ 64 → (∀ x, b ≤ x < b + block_size count 4096 → type_at (memmap s0) x = Some MEMMAP_USABLE) →
  returns (pmm_free s b count) (λ s', kept s0 s' (k + 2) ∧ mem s' = mem s).
Proof.
  intros [Hok Hd Hl Hty] Hroom Hd0 Hb Hm Hc Hlt Htop Hu. assert (allocations_disallowed s = false) as Hds by congruence.
  destruct (pmm_free_ok s b count Hok Hroom Hds Hb Hm Hc Hlt) as (s' & Hs' & Ht' & Hmem & Hd' & _ & _ & Hok'); [by rewrite free_size_block|].
  exists s'. split; [done|]. split; [|done]. split; [done|congruence| |].
  - unfold pmm_free in Hs'. rewrite (proj2 (Z.eqb_neq b 0)), Hm in Hs' by lia. cbn [Z.eqb negb] in Hs'. rewrite align_up_free_size in Hs' by done. cbn [mbind option_bind] in Hs'.
    rewrite Hds in Hs'. unfold memmap_alloc_range in Hs'. destruct (memmap_alloc_range_in _ _ _ _ _ _ _ _ _) as [[ok m1]|] eqn:Hr; cbn [mbind option_bind] in Hs'; [|done].
    injection Hs' as <-. apply alloc_range_len in Hr as [_ Hr]; [|done|done|lia|]; [cbn [set_memmap memmap]; lia|]. rewrite free_size_block by done. destruct (block_size_ok count 4096) as (? & _); lia.
  - intros x Hx. rewrite Ht'. unfold retype. rewrite free_size_block by done. case_decide as Hx'; [by apply Hu in Hx'|by apply Hty].
Qed.
