(* ===== verification/Elsewhere.v ===== *)
(** Ranges that are copied to their place at the last moment,
    [limine/common/lib/elsewhere.c] and the copying of
    [limine/common/protos/multiboot_reloc.asm_x86]: the kernel, its tables and
    modules are loaded anywhere and get a target where the kernel wants them.

    The ranges are a list; none in place of a state is a call of [panic]. *)
From S2P Require Import Prelude Pmm.

Record elsewhere_range := ER { elsewhere : Z; target : Z; r_length : Z }.

Definition elsewhere_overlap_check (base1 top1 base2 top2 : Z) : bool := (base1 <? top2) && (base2 <? top1).

Definition elsewhere_memmap_type (type : Z) : bool := (type =? MEMMAP_USABLE) || (type =? MEMMAP_BOOTLOADER_RECLAIMABLE).

(** The lowest place above [target] that is worth a try: the base of a later
    entry with room, or the top of the one [target] is in. *)
Fixpoint next_candidate (m : list memmap_entry) (target length best : Z) : Z :=
  match m with
  | [] => best
  | e :: m =>
      if negb (elsewhere_memmap_type (e_type e)) then next_candidate m target length best else
      let base := e_base e in
      match e_top e with
      | None => next_candidate m target length best
      | Some top =>
          if LIMIT_4G <=? base then next_candidate m target length best else
          let top := if LIMIT_4G <? top then LIMIT_4G else top in
          if top <=? target then next_candidate m target length best else
          if target <? base then
            if top - base <? length then next_candidate m target length best
            else next_candidate m target length (if base <? best then base else best)
          else next_candidate m target length (if top <? best then top else best)
      end
  end.

Definition elsewhere_next_memmap_candidate (m : list memmap_entry) (target length : Z) : option Z :=
  let best := next_candidate m target length SIZE_MAX in
  if best =? SIZE_MAX then None else align_up64 best 4096.

(** What one pass over the ranges says of a target. *)
Inductive verdict :=
  | Fits
  | MoveTo (target : option Z)
  | NoRoom
  | Refused.

(** [memmap_alloc_range] as a question. *)
Definition could_alloc (m : list memmap_entry) (base length overlay_type : Z) : bool :=
  match memmap_alloc_range_in false m base length MEMMAP_BOOTLOADER_RECLAIMABLE overlay_type false true false with
  | Some (b, _) => b
  | None => false
  end.

Fixpoint check_ranges (m : list memmap_entry) (rs : list elsewhere_range) (t t_length : Z) : verdict :=
  match rs with
  | [] => Fits
  | r :: rs =>
      match add64 t t_length with
      | None => Refused
      | Some t_top =>
          if LIMIT_4G <? t_top then NoRoom else
          match add64 (target r) (r_length r) with
          | None => check_ranges m rs t t_length
          | Some top =>
              if elsewhere_overlap_check (target r) top t t_top then MoveTo (align_up64 top 4096) else
              match add64 (elsewhere r) (r_length r) with
              | None => check_ranges m rs t t_length
              | Some top =>
                  if elsewhere_overlap_check (elsewhere r) top t t_top then MoveTo (align_up64 top 4096) else
                  if could_alloc m t t_length MEMMAP_USABLE || could_alloc m t t_length MEMMAP_BOOTLOADER_RECLAIMABLE
                  then check_ranges m rs t t_length
                  else match elsewhere_next_memmap_candidate m t t_length with
                       | None => NoRoom
                       | Some next_target => MoveTo (Some next_target)
                       end
              end
          end
      end
  end.

(** The passes, at most [n]; [wrapped] once the search went back to low memory. *)
Fixpoint search (n : nat) (allow_wraparound wrapped : bool) (m : list memmap_entry) (rs : list elsewhere_range) (t t_length : Z) : option Z :=
  match n with
  | O => None
  | S n =>
      match check_ranges m rs t t_length with
      | Fits => Some t
      | MoveTo None | Refused => None
      | MoveTo (Some t) => search n allow_wraparound wrapped m rs t t_length
      | NoRoom => if allow_wraparound && negb wrapped then search n allow_wraparound true m rs 0x100000 t_length else None
      end
  end.

(** Behind the targets of all ranges. *)
Definition top_of_ranges (rs : list elsewhere_range) : Z :=
  foldl (λ top r, match add64 (target r) (r_length r) with None => top | Some r_top => if top <? r_top then r_top else top end) 0 rs.

Definition max_retries : nat := Z.to_nat 0x10000.

(** The usable parts of a range, at most [n]. *)
Fixpoint usable_parts (n : nat) (m : list memmap_entry) (base top : Z) : list (Z * Z) :=
  match n, m with
  | O, _ | _, [] => []
  | S n', e :: m =>
      if negb (e_type e =? MEMMAP_USABLE) then usable_parts n m base top else
      match e_top e with
      | None => usable_parts n m base top
      | Some e_top =>
          let o_base := if e_base e <? base then base else e_base e in
          let o_top := if top <? e_top then top else e_top in
          if o_base <? o_top then (o_base, o_top - o_base) :: usable_parts n' m base top else usable_parts n m base top
      end
  end.

Fixpoint reserve_parts (s : pmm_state) (parts : list (Z * Z)) : option pmm_state :=
  match parts with
  | [] => Some s
  | (base, length) :: parts =>
      '(_, s) ← memmap_alloc_range s base length MEMMAP_BOOTLOADER_RECLAIMABLE MEMMAP_USABLE false false false;
      reserve_parts s parts
  end.

Definition elsewhere_reserve_target (s : pmm_state) (base length : Z) : option pmm_state :=
  match add64 base length with
  | None => Some s
  | Some top => reserve_parts s (usable_parts 64 (memmap s) base top)
  end.

(** The answer: the state, the ranges and the target, or none where it is
    false. *)
Definition elsewhere_append (allow_wraparound : bool) (s : pmm_state) (rs : list elsewhere_range) (ranges_max : Z)
    (elsewhere t t_length : Z) : option (option (pmm_state * list elsewhere_range * Z)) :=
  match (if t =? SIZE_MAX then align_up64 (top_of_ranges rs) 4096 else Some t) with
  | None => Some None
  | Some t =>
      match search max_retries allow_wraparound false (memmap s) rs t t_length with
      | None => Some None
      | Some t =>
          s ← elsewhere_reserve_target s t t_length;
          if ranges_max <=? len rs then None else Some (Some (s, rs ++ [ER elsewhere t t_length], t))
      end
  end.

(** ** The copying

    [rep movsb] in either direction, one byte at a time. *)
Fixpoint movsb (n : nat) (dir esi edi : Z) (f : Z → Z) : Z → Z :=
  match n with
  | O => f
  | S n => movsb n dir (esi + dir) (edi + dir) (λ x, if x =? edi then f esi else f x)
  end.

Definition copy_range (f : Z → Z) (r : elsewhere_range) : Z → Z :=
  let n := Z.to_nat (r_length r) in
  if target r <=? elsewhere r then movsb n 1 (elsewhere r) (target r) f
  else movsb n (-1) (elsewhere r + r_length r - 1) (target r + r_length r - 1) f.

Definition relocate (f : Z → Z) (rs : list elsewhere_range) : Z → Z := foldl copy_range f rs.
