(* ===== verification/ElsewhereProofs.v ===== *)
(** Ranges put aside for later get targets that exist, overlap nothing and are
    reserved, and copying them in order moves every one of them whole. *)
From stdpp Require Import relations.
From S2P Require Import Prelude Pmm PmmSanitise PmmAlloc PmmUse Elsewhere.

(** ** Copying *)
Lemma movsb_forwards n esi edi f x : edi ≤ esi →
  movsb n 1 esi edi f x = if decide (edi ≤ x < edi + Z.of_nat n) then f (esi + (x - edi)) else f x.
Proof.
  revert esi edi f. induction n as [|n IH]; intros esi edi f Hle; cbn [movsb]; [by rewrite decide_False by lia|].
  rewrite IH by lia. repeat case_decide; try lia.
  - rewrite (proj2 (Z.eqb_neq _ _)) by lia. f_equal. lia.
  - assert (x = edi) as -> by lia. rewrite Z.eqb_refl. f_equal. lia.
  - by rewrite (proj2 (Z.eqb_neq _ _)) by lia.
Qed.

Lemma movsb_backwards n esi edi f x : esi ≤ edi →
  movsb n (-1) esi edi f x = if decide (edi - Z.of_nat n < x ≤ edi) then f (esi + (x - edi)) else f x.
Proof.
  revert esi edi f. induction n as [|n IH]; intros esi edi f Hle; cbn [movsb]; [by rewrite decide_False by lia|].
  rewrite IH by lia. repeat case_decide; try lia.
  - rewrite (proj2 (Z.eqb_neq _ _)) by lia. f_equal. lia.
  - assert (x = edi) as -> by lia. rewrite Z.eqb_refl. f_equal. lia.
  - by rewrite (proj2 (Z.eqb_neq _ _)) by lia.
Qed.

(** A range arrives whole even where it overlaps its source. *)
Lemma copy_range_ok f r x : 0 ≤ r_length r →
  copy_range f r x = if decide (target r ≤ x < target r + r_length r) then f (elsewhere r + (x - target r)) else f x.
Proof.
  intros Hl. unfold copy_range. destruct (Z.leb_spec (target r) (elsewhere r)).
  - rewrite movsb_forwards by lia. by rewrite Z2Nat.id.
  - rewrite movsb_backwards by lia. rewrite Z2Nat.id by done. repeat case_decide; try lia; f_equal; lia.
Qed.

(** The target of a range is apart from what comes after it. *)
Definition apart (a n b k : Z) : Prop := ∀ x, a ≤ x < a + n → ¬ (b ≤ x < b + k).
Definition range_before (r q : elsewhere_range) : Prop :=
  apart (target r) (r_length r) (target q) (r_length q) ∧ apart (target r) (r_length r) (elsewhere q) (r_length q).

Fixpoint ordered (rs : list elsewhere_range) : Prop :=
  match rs with [] => True | r :: rs => 0 ≤ r_length r ∧ Forall (range_before r) rs ∧ ordered rs end.

Lemma ordered_app rs q : ordered (rs ++ [q]) ↔ ordered rs ∧ Forall (λ r, range_before r q) rs ∧ 0 ≤ r_length q.
Proof.
  induction rs as [|r rs IH]; cbn [ordered app]; [rewrite Forall_nil; cbn; intuition; by constructor|].
  rewrite IH, Forall_app, !Forall_cons, Forall_nil. tauto.
Qed.

Lemma relocate_frame rs f x : ordered rs → (∀ r, r ∈ rs → ¬ (target r ≤ x < target r + r_length r)) → relocate f rs x = f x.
Proof.
  unfold relocate. revert f. induction rs as [|r rs IH]; intros f Ho Hx; [done|]. cbn [foldl]. destruct Ho as (Hl & _ & Ho).
  rewrite IH; [|done|intros q Hq; apply Hx; by right]. rewrite copy_range_ok by done. rewrite decide_False; [done|]. apply Hx. by left.
Qed.

Lemma relocate_ok rs f r i : ordered rs → r ∈ rs → 0 ≤ i < r_length r → relocate f rs (target r + i) = f (elsewhere r + i).
Proof.
  revert f. induction rs as [|q rs IH]; intros f Ho Hr Hi; [by apply elem_of_nil in Hr|]. destruct Ho as (Hl & Hb & Ho).
  unfold relocate. cbn [foldl]. fold (relocate (copy_range f q) rs). apply elem_of_cons in Hr as [->|Hr].
  - rewrite relocate_frame; [|done|].
    + rewrite copy_range_ok by done. rewrite decide_True by lia. f_equal. lia.
    + intros p Hp Hx. rewrite List.Forall_forall in Hb. apply list_elem_of_In in Hp. destruct (Hb p Hp) as [Ht _]. apply (Ht (target q + i)); lia.
  - rewrite (IH _ Ho Hr Hi). rewrite copy_range_ok by done. rewrite decide_False; [done|]. intros Hx.
    rewrite List.Forall_forall in Hb. apply list_elem_of_In in Hr. destruct (Hb r Hr) as [_ Hs]. apply (Hs (elsewhere r + i)); lia.
Qed.

(** ** The search *)

(** A range whose ends are addresses. *)
Definition range_sane (r : elsewhere_range) : Prop :=
  0 ≤ target r ∧ 0 ≤ elsewhere r ∧ 0 ≤ r_length r ∧ target r + r_length r < 2 ^ 64 ∧ elsewhere r + r_length r < 2 ^ 64.

(** All of a block is memory of one entry, usable or the boot loader's. *)
Definition exists_in (m : list memmap_entry) (t n : Z) : Prop :=
  n = 0 ∨ ∃ e, e ∈ m ∧ elsewhere_memmap_type (e_type e) = true ∧ holds_range (e_type e) t (t + n) e = true.

Lemma could_alloc_ok m t n type : could_alloc m t n type = true → t + n < 2 ^ 64 → type ≠ 0 →
  n = 0 ∨ ∃ e, e ∈ m ∧ e_type e = type ∧ holds_range type t (t + n) e = true.
Proof.
  intros Hc Hlt Ht. unfold could_alloc, memmap_alloc_range_in in Hc. destruct (Z.eqb_spec n 0); [by left|]. right. cbn [andb] in Hc. rewrite add64_lt in Hc by done.
  destruct (existsb _ m) eqn:He; [|done]. apply existsb_exists in He as (e & Hin & He). exists e. split; [by apply list_elem_of_In|].
  split; [|done]. unfold holds_range in He. rewrite (proj2 (Z.eqb_neq _ _) Ht) in He. cbn [negb andb] in He. destruct (Z.eqb_spec (e_type e) type); done.
Qed.

Lemma overlap_apart a n b k : elsewhere_overlap_check a (a + n) b (b + k) = false → 0 ≤ n → 0 ≤ k → apart b k a n.
Proof. unfold elsewhere_overlap_check. intros Ho Hn Hk x Hx Hx'. apply andb_false_iff in Ho. lia. Qed.

Lemma check_fits m rs t n : check_ranges m rs t n = Fits → 0 ≤ t → 0 ≤ n → Forall range_sane rs →
  Forall (λ r, apart t n (target r) (r_length r) ∧ apart t n (elsewhere r) (r_length r)) rs ∧
  (rs ≠ [] → t + n ≤ LIMIT_4G ∧ exists_in m t n).
Proof.
  intros Hc Ht Hn Hs. induction Hs as [|r rs (H1 & H2 & H3 & H4 & H5) Hs IH]; [by split|]. cbn [check_ranges] in Hc.
  destruct (add64 t n) as [tt|] eqn:Htt; [|done]. apply add64_Some in Htt as [-> Hlt]. destruct (Z.ltb_spec LIMIT_4G (t + n)); [done|].
  rewrite !add64_lt in Hc by done. destruct (elsewhere_overlap_check (target r) _ _ _) eqn:Ho1; [done|].
  destruct (elsewhere_overlap_check (elsewhere r) _ _ _) eqn:Ho2; [done|]. destruct (_ || _) eqn:Hcan.
  - destruct (IH Hc) as [Hrs _]. split.
    + constructor; [|done]. split; by apply overlap_apart.
    + intros _. split; [done|]. unfold exists_in. apply orb_true_iff in Hcan as [Hcan|Hcan]; apply could_alloc_ok in Hcan; try done;
        (destruct Hcan as [->|(e & He & Hty & Hh)]; [by left|right; exists e; rewrite Hty; by split_and!]).
  - by destruct (elsewhere_next_memmap_candidate m t n).
Qed.

Lemma search_fits k allow wrapped m rs t n t' : 0 ≤ t → search k allow wrapped m rs t n = Some t' → 0 ≤ t' ∧ check_ranges m rs t' n = Fits.
Proof.
  revert wrapped t. induction k as [|k IH]; intros wrapped t Ht; cbn [search]; [done|]. destruct (check_ranges m rs t n) as [|[u|]| |] eqn:Hc; [by intros [= <-]| |done| |done].
  - apply IH. clear IH. revert Hc. induction rs as [|r rs IHr]; cbn [check_ranges]; [done|]. destruct (add64 t n) as [tt|]; [|done]. destruct (_ <? tt); [done|].
    destruct (add64 (target r) (r_length r)) as [a|]; [|done]. destruct (elsewhere_overlap_check _ _ _ _); [intros [= Hu]; by eapply align_up64_nonneg|].
    destruct (add64 (elsewhere r) (r_length r)) as [b|]; [|done]. destruct (elsewhere_overlap_check _ _ _ _); [intros [= Hu]; by eapply align_up64_nonneg|].
    destruct (_ || _); [done|]. destruct (elsewhere_next_memmap_candidate m t n) as [v|] eqn:Hv; [|done]. intros [= <-]. unfold elsewhere_next_memmap_candidate in Hv.
    destruct (_ =? _); [done|]. by eapply align_up64_nonneg.
  - destruct (_ && _); [|done]. by apply IH.
Qed.

(** A map as the sanitiser leaves it: in it, usable bytes in a row are in one
    entry. *)
Definition tidy (m : list memmap_entry) : Prop := sorted m ∧ ∀ p, 0 ≤ p → unmergeable m p.

(** Making a block of usable memory the boot loader's. *)
Lemma reserve_part_ok s b n : pmm_ok s → len (memmap s) + 1 < memmap_max_entries → 0 ≤ b → 0 < n → b + n < 2 ^ 64 →
  returns (memmap_alloc_range s b n MEMMAP_BOOTLOADER_RECLAIMABLE MEMMAP_USABLE false false false) (λ '(_, s'),
    pmm_ok s' ∧ (tidy (memmap s) → tidy (memmap s')) ∧ len (memmap s') ≤ len (memmap s) + 2 ∧ mem s' = mem s ∧ allocations_disallowed s' = allocations_disallowed s ∧
    (existsb (holds_range MEMMAP_USABLE b (b + n)) (memmap s) = true →
      ∀ a, type_at (memmap s') a = retype b (b + n) MEMMAP_BOOTLOADER_RECLAIMABLE (type_at (memmap s)) a) ∧
    (∀ a, type_at (memmap s') a = type_at (memmap s) a ∨ type_at (memmap s') a = Some MEMMAP_BOOTLOADER_RECLAIMABLE)).
Proof.
  intros Hok Hroom Hb Hn Htop. unfold memmap_alloc_range, memmap_alloc_range_in. rewrite (proj2 (Z.eqb_neq n 0)), add64_lt by lia. cbn [andb].
  destruct (existsb _ _).
  2: { cbn. eexists. split; [done|]. cbn [set_memmap memmap mem allocations_disallowed]. split_and!; [exact Hok|done|lia|done|done|done|by left]. }
  pose proof (reserve_ok (keep_first s) (memmap s) b n MEMMAP_BOOTLOADER_RECLAIMABLE Hok Hb Hn Htop Hroom) as Hr.
  destruct Hr as ([ok m] & Hr & -> & Hv & Ht); [intros a _; by apply page_kept_not_usable|].
  assert ((tidy (memmap s) → tidy m) ∧ len m ≤ len (memmap s) + 2) as Hlt.
  { pose proof Hok as [Hw [Hne Hq] _]. pose proof (pmm_new_entry_room b (b + n) ltac:(lia) Htop (memmap s) MEMMAP_BOOTLOADER_RECLAIMABLE Hw) as Hnew.
    replace (b + n - b) with n in Hnew by lia. pose proof (Hq b) as Hqb. destruct Hnew as (m1 & Hm1 & Hw1 & Hne1 & Hl & Hcnt); [lia|].
    rewrite Hm1 in Hr. cbn [mbind option_bind] in Hr.
    destruct (pmm_sanitise_quiet (keep_first s) false m1 Hw1) as (m2 & Hm2 & Hs2).
    { split; [by apply Hne1|]. intros a. rewrite Hcnt. case_decide; [cbn; lia|apply Hq]. }
    rewrite Hm2 in Hr. cbn [mbind option_bind] in Hr. injection Hr as <-. apply sanitise_len in Hm2. split; [|lia]. intros _. split; [apply Hs2|].
    intros p. by apply (san_merged _ _ _ _ Hs2). }
  rewrite Hr. cbn [mbind option_bind]. eexists. split; [done|]. cbn [set_memmap memmap mem allocations_disallowed].
  split_and!; [done|apply Hlt|apply Hlt|done|done|done|].
  - intros a. rewrite Ht. unfold retype. case_decide; [by right|by left].
Qed.

(** ** Reserving a target *)

(** The usable parts are inside their entries and cover the usable bytes. *)
Lemma usable_parts_in n m base top b k : (b, k) ∈ usable_parts n m base top → Forall (λ e, 0 ≤ e_base e ∧ 0 ≤ e_len e ∧ e_base e + e_len e < 2 ^ 64) m → 0 ≤ base →
  0 < k ∧ 0 ≤ b ∧ b + k < 2 ^ 64 ∧ base ≤ b ∧ b + k ≤ top ∧ existsb (holds_range MEMMAP_USABLE b (b + k)) m = true.
Proof.
  intros Hin Hw Hbase. revert n Hin. induction Hw as [|e m (H1 & H2 & H3) Hw IH]; intros [|n] Hin; cbn [usable_parts] in Hin; try by apply elem_of_nil in Hin.
  assert (∀ n, (b, k) ∈ usable_parts n m base top → 0 < k ∧ 0 ≤ b ∧ b + k < 2 ^ 64 ∧ base ≤ b ∧ b + k ≤ top ∧ existsb (holds_range MEMMAP_USABLE b (b + k)) (e :: m) = true) as IH'.
  { intros n' Hn'. destruct (IH n' Hn') as (? & ? & ? & ? & ? & He). split_and!; try done. cbn [existsb]. by rewrite He, orb_true_r. }
  destruct (negb (e_type e =? MEMMAP_USABLE)) eqn:Hu; [by eapply IH'|]. unfold e_top in Hin. rewrite add64_lt in Hin by done.
  set (o := if e_base e <? base then base else e_base e) in *. set (p := if top <? e_base e + e_len e then top else e_base e + e_len e) in *.
  assert (base ≤ o ∧ e_base e ≤ o ∧ p ≤ top ∧ p ≤ e_base e + e_len e) as (Ho1 & Ho2 & Hp1 & Hp2).
  { unfold o, p. destruct (Z.ltb_spec (e_base e) base), (Z.ltb_spec top (e_base e + e_len e)); lia. }
  destruct (Z.ltb_spec o p); [|by eapply IH']. apply elem_of_cons in Hin as [[= -> ->]|Hin]; [|by eapply IH'].
  split_and!; [lia|lia|lia|lia|lia|]. cbn [existsb]. apply orb_true_iff. left. unfold holds_range, e_top. rewrite add64_lt by done.
  apply negb_false_iff in Hu. rewrite Hu. cbn. rewrite !andb_true_iff, !Z.leb_le, Z.ltb_lt. lia.
Qed.

Definition usable_count (m : list memmap_entry) : nat := length (List.filter (λ e, e_type e =? MEMMAP_USABLE) m).

Lemma usable_parts_cover n m base top a : (usable_count m ≤ n)%nat → wf m → base ≤ a < top → 0 < cnt usable m a →
  ∃ b k, (b, k) ∈ usable_parts n m base top ∧ b ≤ a < b + k.
Proof.
  intros Hn Hw Ha. revert n Hn. induction Hw as [|e m (H1 & H2 & H3) Hw IH]; intros n Hn Hc; [done|]. unfold usable_count in *. cbn [List.filter cnt] in *.
  unfold usable in Hc at 1. destruct (e_type e =? MEMMAP_USABLE) eqn:Hu.
  2: { cbn [andb b2z] in Hc. destruct n as [|n].
       - destruct (IH 0%nat Hn) as (b & k & Hin & _); [lia|]. destruct m; by apply elem_of_nil in Hin.
       - cbn [usable_parts]. rewrite Hu. cbn [negb]. apply IH; [done|lia]. }
  destruct n as [|n]; [cbn in Hn; lia|]. cbn [usable_parts]. rewrite Hu. cbn [negb]. unfold e_top. rewrite add64_lt by done.
  set (o := if e_base e <? base then base else e_base e) in *. set (p := if top <? e_base e + e_len e then top else e_base e + e_len e) in *.
  destruct (covb e a) eqn:Hcov.
  - apply covb_true in Hcov. assert (o ≤ a < p) as Hop by (unfold o, p; destruct (Z.ltb_spec (e_base e) base), (Z.ltb_spec top (e_base e + e_len e)); lia).
    rewrite (proj2 (Z.ltb_lt o p)) by lia. exists o, (p - o). split; [by left|lia].
  - cbn [andb b2z] in Hc. rewrite Z.add_0_l in Hc. destruct (o <? p).
    + destruct (IH n) as (b & k & Hin & Hab); [cbn in Hn; lia|done|]. exists b, k. split; [by right|done].
    + apply IH; [cbn in Hn; lia|done].
Qed.

Lemma usable_parts_usable n m base top b k a : (b, k) ∈ usable_parts n m base top → wf m → 0 ≤ base → b ≤ a < b + k → 0 < cnt usable m a.
Proof.
  intros Hin Hw Hb Ha. destruct (usable_parts_in _ _ _ _ _ _ Hin Hw Hb) as (_ & _ & _ & _ & _ & He). apply existsb_exists in He as (e & He & Hh).
  unfold holds_range in Hh. destruct (e_type e =? MEMMAP_USABLE) eqn:Hu; [|done]. cbn in Hh. apply list_elem_of_In in He.
  assert (ok_entry e) as Hoe by (eapply Forall_forall; [exact Hw|done]). rewrite (e_top_ok e Hoe), !andb_true_iff, !Z.leb_le, Z.ltb_lt in Hh.
  apply cnt_pos. exists e. split; [done|]. split; [done|]. apply covb_true. lia.
Qed.

(** Parts are apart from each other where entries are. *)
Fixpoint parts_apart (ps : list (Z * Z)) : Prop :=
  match ps with [] => True | (b, k) :: ps => Forall (λ '(c, l), ∀ a, b ≤ a < b + k → ¬ (c ≤ a < c + l)) ps ∧ parts_apart ps end.

Lemma usable_parts_apart n m base top : wf m → 0 ≤ base → (∀ a, cnt any_type m a ≤ 1) → parts_apart (usable_parts n m base top).
Proof.
  intros Hw Hb. revert n. induction Hw as [|e m (H1 & H2 & H3) Hw IH]; intros n Hq; [by destruct n|]. destruct n as [|n]; [done|]. cbn [usable_parts].
  assert (∀ a, cnt any_type m a ≤ 1) as Hq'. { intros a. specialize (Hq a). cbn [cnt] in Hq. pose proof (b2z_range (any_type (e_type e) && covb e a)). lia. }
  destruct (negb (e_type e =? MEMMAP_USABLE)); [by apply IH|]. unfold e_top. rewrite add64_lt by done.
  set (o := if e_base e <? base then base else e_base e) in *. set (p := if top <? e_base e + e_len e then top else e_base e + e_len e) in *.
  destruct (Z.ltb_spec o p); [|by apply IH]. split; [|by apply IH]. apply List.Forall_forall. intros [c l] Hin a Ha Hc. apply list_elem_of_In in Hin.
  pose proof (usable_parts_usable _ _ _ _ _ _ a Hin Hw Hb Hc) as Hu. specialize (Hq a). cbn [cnt] in Hq. rewrite cnt_split in Hq. pose proof (cnt_nonneg not_usable m a).
  assert (covb e a = true) as Hcov.
  { apply covb_true. unfold o, p in *. destruct (Z.ltb_spec (e_base e) base), (Z.ltb_spec top (e_base e + e_len e)); lia. }
  rewrite Hcov in Hq. change (any_type (e_type e)) with true in Hq. cbn in Hq. lia.
Qed.

Lemma cnt_two m (i j : nat) e f a : m !! i = Some e → m !! j = Some f → i ≠ j → covb e a = true → covb f a = true → 2 ≤ cnt any_type m a.
Proof.
  assert (∀ m j f, m !! j = Some f → covb f a = true → 1 ≤ cnt any_type m a) as Hone.
  { clear. intros m j f Hf Hc. assert (0 < cnt any_type m a); [|lia]. apply cnt_pos. exists f. split; [by eapply list_elem_of_lookup_2|done]. }
  revert i j. induction m as [|g m IH]; intros i j Hi Hj Hne He Hf; [done|]. cbn [cnt]. pose proof (b2z_range (any_type (e_type g) && covb g a)).
  destruct i as [|i], j as [|j]; [done| | |].
  - injection Hi as ->. rewrite He. specialize (Hone m j f Hj Hf). change (b2z (any_type (e_type e) && true)) with 1. lia.
  - injection Hj as ->. rewrite Hf. specialize (Hone m i e Hi He). change (b2z (any_type (e_type f) && true)) with 1. lia.
  - assert (2 ≤ cnt any_type m a); [|lia]. apply (IH i j); (done || congruence).
Qed.

Lemma tidy_holds keep m base top : valid keep m → tidy m → base < top → (∀ a, base ≤ a < top → type_at m a = Some MEMMAP_USABLE) →
  existsb (holds_range MEMMAP_USABLE base top) m = true.
Proof.
  intros [Hw [Hne Hq] _] [Hs Hm] Hlt Hu. assert (∀ a, base ≤ a < top → ∃ p e, m !! p = Some e ∧ e_type e = MEMMAP_USABLE ∧ covb e a = true) as Hcov.
  { intros a Ha. specialize (Hu a Ha). apply (type_at_Some m a _ (Hq a)) in Hu. apply cnt_pos in Hu as (e & [p Hp]%list_elem_of_lookup & Ht%Z.eqb_eq & Hc). by exists p, e. }
  destruct (Hcov base ltac:(lia)) as (p & e & Hp & Het & Hec). apply covb_true in Hec. assert (ok_entry e) as Hoe by (by eapply Forall_lookup_1).
  assert (top ≤ e_base e + e_len e) as Htop.
  2: { apply existsb_exists. exists e. split; [apply list_elem_of_In; by eapply list_elem_of_lookup_2|]. unfold holds_range. rewrite (e_top_ok e Hoe), Het. cbn.
       rewrite !andb_true_iff, !Z.leb_le, Z.ltb_lt. lia. }
  destruct (Z.le_gt_cases top (e_base e + e_len e)) as [|Hgt]; [done|exfalso]. set (t := e_base e + e_len e) in *.
  assert (∀ q f a, m !! q = Some f → q ≠ p → covb f a = true → covb e a = true → False) as Hdis.
  { intros q f a Hf Hqp Hfa Hea. pose proof (cnt_two m q p f e a Hf Hp Hqp Hfa Hea). specialize (Hq a). lia. }
  destruct (Hcov t ltac:(lia)) as (q & f & Hq' & Hft & Hfc). apply covb_true in Hfc. assert (q ≠ p) as Hqp.
  { intros ->. assert (f = e) as -> by congruence. lia. }
  assert (e_base f = t) as Hfb.
  { destruct (Z.lt_ge_cases (e_base f) t); [|lia]. exfalso. apply (Hdis q f (t - 1) Hq' Hqp); apply covb_true; lia. }
  assert (∀ i j e f, m !! i = Some e → m !! j = Some f → (i ≤ j)%nat → e_base e ≤ e_base f) as Hsort.
  { intros i j e' f' Hi Hj Hij. apply (Hs (Z.of_nat i) (Z.of_nat j)); [|lia|by rewrite arr_get_lookup|by rewrite arr_get_lookup].
    pose proof (lookup_lt_Some _ _ _ Hi). unfold len. lia. }
  assert (p < q)%nat as Hpq. { destruct (Nat.lt_ge_cases p q); [done|]. pose proof (Hsort q p f e Hq' Hp ltac:(lia)). lia. }
  destruct (lookup_lt_is_Some_2 m (S p)) as (g & Hg); [pose proof (lookup_lt_Some _ _ _ Hq'); lia|].
  pose proof (Hsort p (S p) e g Hp Hg ltac:(lia)). pose proof (Hsort (S p) q g f Hg Hq' ltac:(lia)).
  assert (0 < e_len g) as Hgl by (unfold all_nonempty in Hne; rewrite List.Forall_forall in Hne; apply Hne, list_elem_of_In; by eapply list_elem_of_lookup_2).
  assert (e_base g = t) as Hgb.
  { destruct (Z.lt_ge_cases (e_base g) t); [|lia]. exfalso. apply (Hdis (S p) g (e_base g) Hg ltac:(lia)); apply covb_true; lia. }
  destruct (decide (q = S p)) as [->|Hne'].
  - apply (Hm (Z.of_nat p) ltac:(lia) e f); [by rewrite arr_get_lookup|by replace (Z.of_nat p + 1) with (Z.of_nat (S p)) by lia; rewrite arr_get_lookup|by rewrite Het|congruence|done].
  - pose proof (cnt_two m q (S p) f g t Hq' Hg Hne' ltac:(apply covb_true; lia) ltac:(apply covb_true; lia)). specialize (Hq t). lia.
Qed.

Definition part_ok (s : pmm_state) (p : Z * Z) : Prop :=
  0 ≤ fst p ∧ 0 < snd p ∧ fst p + snd p < 2 ^ 64 ∧ ∀ a, fst p ≤ a < fst p + snd p → type_at (memmap s) a = Some MEMMAP_USABLE.
Definition in_parts (ps : list (Z * Z)) (a : Z) : bool := existsb (λ '(b, k), (b <=? a) && (a <? b + k)) ps.

Lemma reserve_parts_ok ps s : pmm_ok s → tidy (memmap s) → len (memmap s) + 2 * len ps + 1 < memmap_max_entries → Forall (part_ok s) ps → parts_apart ps →
  returns (reserve_parts s ps) (λ s', pmm_ok s' ∧ tidy (memmap s') ∧ mem s' = mem s ∧ allocations_disallowed s' = allocations_disallowed s ∧
    ∀ a, type_at (memmap s') a = if in_parts ps a then Some MEMMAP_BOOTLOADER_RECLAIMABLE else type_at (memmap s) a).
Proof.
  intros Hok Ht Hroom Hps Hap. revert s Hok Ht Hroom Hps Hap. induction ps as [|[b k] ps IH]; intros s Hok Ht Hroom Hps Hap; cbn [reserve_parts]; [by apply returns_ret|].
  rewrite len_cons in Hroom. pose proof (len_nonneg ps). apply Forall_cons in Hps as [(H1 & H2 & H3 & Hu) Hps]. cbn [fst snd] in *. destruct Hap as [Hb Hap].
  eapply returns_bind; [apply reserve_part_ok; (done || lia)|]. cbv beta. intros [ok s1] (Hok1 & Ht1 & Hl1 & Hm1 & Hd1 & Hty & _). specialize (Ht1 Ht).
  specialize (Hty (tidy_holds (keep_first s) _ b (b + k) Hok Ht ltac:(lia) Hu)). eapply returns_weaken; [apply IH; try done; [lia|]|].
  - rewrite List.Forall_forall in Hps, Hb |- *. intros [c l] Hin. specialize (Hps _ Hin) as (G1 & G2 & G3 & Gu). specialize (Hb _ Hin). cbn [fst snd] in *. split_and!; try done.
    intros a Ha. rewrite Hty. unfold retype. rewrite decide_False; [by apply Gu|]. intros Hab. by apply (Hb a Hab).
  - cbv beta. intros s' (G1 & G2 & G3 & G4 & G5). split_and!; [done|done|congruence|congruence|]. intros a. rewrite G5, Hty. unfold retype. cbn [in_parts existsb].
    fold (in_parts ps a). destruct (in_parts ps a); [by rewrite orb_true_r|]. rewrite orb_false_r. case_decide as Ha.
    + by rewrite (proj2 (Z.leb_le b a)), (proj2 (Z.ltb_lt a _)) by lia.
    + destruct (Z.leb_spec b a), (Z.ltb_spec a (b + k)); cbn [andb]; (done || lia).
Qed.

(** Room in the map for the most that one target can take. *)
Record room (s : pmm_state) : Prop := {
  rm_ok : pmm_ok s;
  rm_tidy : tidy (memmap s);
  rm_len : len (memmap s) + 130 < memmap_max_entries;
  rm_usable : (usable_count (memmap s) ≤ 64)%nat;
}.

Lemma usable_parts_len n m base top : (length (usable_parts n m base top) ≤ n)%nat.
Proof.
  revert n. induction m as [|e m IH]; intros [|n]; cbn [usable_parts length]; try lia. destruct (negb _); [apply IH|]. destruct (Pmm.e_top e); [|apply IH].
  destruct (_ <? _); [|apply IH]. cbn [length]. specialize (IH n). lia.
Qed.

Definition reserved (s s' : pmm_state) (base n : Z) : Prop :=
  pmm_ok s' ∧ tidy (memmap s') ∧ mem s' = mem s ∧ allocations_disallowed s' = allocations_disallowed s ∧
  ∀ a, type_at (memmap s') a =
    if decide (base ≤ a < base + n ∧ type_at (memmap s) a = Some MEMMAP_USABLE) then Some MEMMAP_BOOTLOADER_RECLAIMABLE else type_at (memmap s) a.

Lemma reserve_target_ok s base n : room s → 0 ≤ base → 0 ≤ n → base + n < 2 ^ 64 → returns (elsewhere_reserve_target s base n) (λ s', reserved s s' base n).
Proof.
  intros [Hok Ht Hl Hu] Hb Hn Htop. unfold elsewhere_reserve_target. rewrite add64_lt by done. set (ps := usable_parts 64 (memmap s) base (base + n)).
  pose proof Hok as [Hw [Hne Hq] Hpg]. pose proof (usable_parts_len 64 (memmap s) base (base + n)) as Hlen. fold ps in Hlen.
  assert (∀ a, 0 < cnt usable (memmap s) a ↔ type_at (memmap s) a = Some MEMMAP_USABLE) as Htype by (intros a; symmetry; apply (type_at_Some (memmap s) a MEMMAP_USABLE), Hq).
  eapply returns_weaken; [apply reserve_parts_ok; [done|done|unfold len in *; lia| |by apply usable_parts_apart]|].
  - apply List.Forall_forall. intros [b k] Hin. apply list_elem_of_In in Hin. destruct (usable_parts_in _ _ _ _ _ _ Hin Hw Hb) as (? & ? & ? & ? & ? & _). cbn [fst snd].
    split_and!; [done|done|done|]. intros a Ha. apply Htype. by eapply usable_parts_usable.
  - cbv beta. intros s' (H1 & H2 & H3 & H4 & H5). split_and!; try done. intros a. rewrite H5. assert (in_parts ps a = bool_decide (base ≤ a < base + n ∧ type_at (memmap s) a = Some MEMMAP_USABLE)) as ->.
    2: { case_bool_decide; case_decide; done. }
    apply eq_true_iff_eq. rewrite bool_decide_eq_true. unfold in_parts. rewrite existsb_exists. split.
    + intros ([b k] & Hin & Ha). apply list_elem_of_In in Hin. apply andb_true_iff in Ha as [?%Z.leb_le ?%Z.ltb_lt]. destruct (usable_parts_in _ _ _ _ _ _ Hin Hw Hb) as (? & ? & ? & ? & ? & _).
      split; [lia|]. apply Htype. eapply usable_parts_usable; [done|done|done|lia].
    + intros [Ha Hty]. apply Htype in Hty. destruct (usable_parts_cover 64 (memmap s) base (base + n) a Hu Hw Ha Hty) as (b & k & Hin & Hab).
      exists (b, k). split; [by apply list_elem_of_In|]. apply andb_true_iff. rewrite Z.leb_le, Z.ltb_lt. lia.
Qed.

(** ** Tidy maps stay tidy *)
Lemma sanitised_tidy keep al m m' : wf m → pmm_sanitise_entries keep al m = Some m' → tidy m'.
Proof.
  intros Hw Hs. pose proof (pmm_sanitise_cases keep al m Hw) as H. rewrite Hs in H. split; [apply H|]. intros p. by apply (san_merged _ _ _ _ H).
Qed.

Lemma sanitised_wf keep al m m' : wf m → pmm_sanitise_entries keep al m = Some m' → wf m'.
Proof. intros Hw Hs. pose proof (pmm_sanitise_cases keep al m Hw) as H. rewrite Hs in H. apply H. Qed.

Lemma alloc_range_tidy keep m b n type overlay p sim new ok m' : valid keep m → len m + 1 < memmap_max_entries → 0 ≤ b → 0 ≤ n →
  memmap_alloc_range_in keep m b n type overlay p sim new = Some (ok, m') → wf m' ∧ (tidy m → tidy m').
Proof.
  intros [Hw [Hne Hq] Hpg] Hroom Hb Hn. unfold memmap_alloc_range_in. destruct (Z.eqb_spec n 0); [by intros [= <- <-]|]. destruct (sim && new); [by intros [= <- <-]|].
  destruct (add64 b n) as [top|] eqn:Htop; [apply add64_Some in Htop as [-> Htop]|destruct p; [done|by intros [= <- <-]]].
  assert ((m ← pmm_new_entry m b n type; m ← pmm_sanitise_entries keep false m; Some (true, m)) = Some (ok, m') → wf m' ∧ (tidy m → tidy m')) as Hres.
  { intros Hr. pose proof (pmm_new_entry_room b (b + n) ltac:(lia) Htop m type Hw) as Hnew. replace (b + n - b) with n in Hnew by lia. specialize (Hq b).
    destruct Hnew as (m1 & Hm1 & Hw1 & _); [lia|]. rewrite Hm1 in Hr. cbn [mbind option_bind] in Hr.
    destruct (pmm_sanitise_entries keep false m1) as [m2|] eqn:Hm2; cbn [mbind option_bind] in Hr; [|done]. injection Hr as _ <-.
    split; [by eapply sanitised_wf|]. intros _. by eapply sanitised_tidy. }
  destruct (existsb _ m); [destruct sim; [by intros [= <- <-]|exact Hres]|]. destruct new; [exact Hres|]. destruct p; [done|by intros [= <- <-]].
Qed.

Lemma alloc_tidy s count type alignment high b s' : pmm_ok s → has_room s → 0 ≤ count → 0 < alignment → count + alignment ≤ 2 ^ 64 - 1 →
  ext_mem_alloc_type_aligned_mode s count type alignment high = Some (b, s') → tidy (memmap s').
Proof.
  intros Hok Hroom Hc Ha Hlt. destruct (block_size_ok count alignment Hc Ha Hlt) as (Hn & _ & _). unfold ext_mem_alloc_type_aligned_mode. rewrite (u64_id (alignment - 1)) by lia.
  rewrite add64_lt by (destruct (Z.eqb_spec count 0); lia). cbn [mbind option_bind]. destruct (allocations_disallowed s); [done|].
  fold (block_size count alignment). set (n := block_size count alignment) in *.
  assert (wf (rev (memmap s))) as Hw by (rewrite <- (Permutation_rev (memmap s)); apply Hok).
  destruct (match find_window LIMIT_4G n alignment (rev (memmap s)) with Some w => Some w | None => _ end) as [[wb wl]|] eqn:Hwin; cbn [mbind option_bind]; [|done].
  assert (0 ≤ wb ∧ 0 ≤ wl) as [Hwb Hwl].
  { pose proof (find_window_ok LIMIT_4G n alignment _ Hw Hn Ha) as Hlow. pose proof (find_window_ok SIZE_MAX n alignment _ Hw Hn Ha) as Hhigh.
    destruct (find_window LIMIT_4G n alignment _) as [w|]; [injection Hwin as ->|].
    - destruct Hlow as (e & He & (_ & _ & H1 & _ & _) & H2 & _). pose proof (proj1 (List.Forall_forall _ _) Hw e ltac:(by apply list_elem_of_In)) as (? & _). lia.
    - destruct high; [|done]. rewrite Hwin in Hhigh. destruct Hhigh as (e & He & (_ & _ & H1 & _ & _) & H2 & _).
      pose proof (proj1 (List.Forall_forall _ _) Hw e ltac:(by apply list_elem_of_In)) as (? & _). lia. }
  unfold memmap_alloc_range. destruct (memmap_alloc_range_in _ _ _ _ _ _ _ _ _) as [[ok m1]|] eqn:Hr; cbn [mbind option_bind]; [|done].
  apply alloc_range_tidy in Hr as [Hw1 _]; try done. unfold sanitise_state. cbn [set_memmap set_mem memmap keep_first].
  destruct (pmm_sanitise_entries _ _ m1) as [m2|] eqn:Hm2; cbn [mbind option_bind]; [|done]. intros [= <- <-]. cbn [set_memmap memmap]. by eapply sanitised_tidy.
Qed.

Lemma free_tidy s ptr count s' : pmm_ok s → has_room s → tidy (memmap s) → 0 ≤ ptr → 0 ≤ count → pmm_free s ptr count = Some s' → tidy (memmap s').
Proof.
  intros Hok Hroom Ht Hp Hc. unfold pmm_free. destruct (ptr =? 0); [by intros [= <-]|]. destruct (negb _); [done|].
  destruct (align_up64 _ 4096) as [n|] eqn:Hn; cbn [mbind option_bind]; [|done]. apply align_up64_nonneg in Hn. destruct (allocations_disallowed s); [done|].
  unfold memmap_alloc_range. destruct (memmap_alloc_range_in _ _ _ _ _ _ _ _ _) as [[ok m1]|] eqn:Hr; cbn [mbind option_bind]; [|done]. intros [= <-].
  apply alloc_range_tidy in Hr as [_ Hr]; try done. by apply Hr.
Qed.

(** ** One more range *)
Lemma top_of_ranges_nonneg rs : 0 ≤ top_of_ranges rs.
Proof.
  unfold top_of_ranges. enough (∀ t, 0 ≤ t → 0 ≤ foldl (λ top r, match add64 (target r) (r_length r) with None => top | Some r_top => if top <? r_top then r_top else top end) t rs) as H by by apply H.
  induction rs as [|r rs IH]; intros t Ht; [done|]. cbn [foldl]. apply IH. destruct (add64 _ _) as [u|]; [|done]. destruct (Z.ltb_spec t u); lia.
Qed.

(** What is known of the target of a range behind the first. *)
Definition placed (s : pmm_state) (rs : list elsewhere_range) (t n : Z) : Prop :=
  0 ≤ t ∧ t + n ≤ LIMIT_4G ∧ exists_in (memmap s) t n ∧
  Forall (λ r, apart t n (target r) (r_length r) ∧ apart t n (elsewhere r) (r_length r)) rs.

Lemma append_ok allow s rs ranges_max b t n : room s → Forall range_sane rs → rs ≠ [] → 0 ≤ n → 0 ≤ t →
  match elsewhere_append allow s rs ranges_max b t n with
  | None => ranges_max ≤ len rs
  | Some None => True
  | Some (Some (s', rs', t')) => len rs < ranges_max ∧ rs' = rs ++ [ER b t' n] ∧ placed s rs t' n ∧ reserved s s' t' n
  end.
Proof.
  intros Hroom Hsane Hne Hn Ht. unfold elsewhere_append.
  destruct (if t =? SIZE_MAX then align_up64 (top_of_ranges rs) 4096 else Some t) as [u|] eqn:Hu; [|done].
  assert (0 ≤ u) as Hu0 by (destruct (t =? SIZE_MAX); [by eapply align_up64_nonneg|by injection Hu as <-]).
  destruct (search max_retries allow false (memmap s) rs u n) as [t'|] eqn:Hs; [|done]. apply search_fits in Hs as [Ht' Hc]; [|done].
  apply check_fits in Hc as [Hap Hmem]; try done. destruct (Hmem Hne) as [Hlim Hex].
  destruct (reserve_target_ok s t' n Hroom Ht' Hn) as (s' & Hs' & Hres). { unfold LIMIT_4G in Hlim. lia. }
  rewrite Hs'. cbn [mbind option_bind]. destruct (Z.leb_spec ranges_max (len rs)); [done|]. by split_and!.
Qed.

Lemma append_keeps allow s rs ranges_max b t n : room s → Forall range_sane rs → rs ≠ [] → 0 ≤ n → 0 ≤ t → t ≠ SIZE_MAX → len rs < ranges_max →
  check_ranges (memmap s) rs t n = Fits → ∃ s', elsewhere_append allow s rs ranges_max b t n = Some (Some (s', rs ++ [ER b t n], t)).
Proof.
  intros Hroom Hsane Hne Hn Ht Htm Hl Hc. unfold elsewhere_append. rewrite (proj2 (Z.eqb_neq t SIZE_MAX) Htm).
  assert (search max_retries allow false (memmap s) rs t n = Some t) as ->.
  { destruct max_retries as [|k] eqn:Hk; [exfalso; revert Hk; unfold max_retries; lia|]. cbn [search]. by rewrite Hc. }
  destruct (check_fits _ _ _ _ Hc Ht Hn Hsane) as [_ Hm]. destruct (Hm Hne) as [Hlim _].
  destruct (reserve_target_ok s t n Hroom Ht Hn) as (s' & Hs' & _). { unfold LIMIT_4G in Hlim. lia. }
  exists s'. rewrite Hs'. cbn [mbind option_bind]. by rewrite (proj2 (Z.leb_gt _ _) Hl).
Qed.

(** ** Loading a kernel

    The state, the ranges and the blocks got since the last range.  A range
    comes from one of these; what is given back is in no target. *)
Definition boot_state : Type := pmm_state * list elsewhere_range * list (Z * Z).

Definition roomy (s : pmm_state) : Prop := len (memmap s) + 130 < memmap_max_entries ∧ (usable_count (memmap s) ≤ 64)%nat.

Inductive boot_step (allow : bool) (ranges_max : Z) : boot_state → boot_state → Prop :=
  | boot_alloc s rs blocks count type alignment high b s' :
      roomy s → type ≠ MEMMAP_USABLE → 0 ≤ count → 0 < alignment → count + alignment ≤ 2 ^ 64 - 1 →
      ext_mem_alloc_type_aligned_mode s count type alignment high = Some (b, s') →
      boot_step allow ranges_max (s, rs, blocks) (s', rs, (b, count) :: blocks)
  | boot_free s rs blocks ptr count s' :
      roomy s → 0 ≤ ptr → 0 ≤ count → count + 4096 ≤ 2 ^ 64 - 1 → ptr + free_size count < 2 ^ 64 →
      (∀ r, r ∈ rs → apart (target r) (r_length r) ptr (free_size count)) → pmm_free s ptr count = Some s' →
      boot_step allow ranges_max (s, rs, blocks) (s', rs, blocks)
  | boot_write s rs blocks f : boot_step allow ranges_max (s, rs, blocks) (set_mem s f, rs, blocks)
  | boot_append s rs blocks c k b t n s' rs' t' :
      roomy s → (c, k) ∈ blocks → 0 ≤ n → c ≤ b → b + n ≤ c + k → 0 ≤ t →
      elsewhere_append allow s rs ranges_max b t n = Some (Some (s', rs', t')) →
      boot_step allow ranges_max (s, rs, blocks) (s', rs', []).

Record boot_inv (x : boot_state) : Prop := {
  bi_ok : pmm_ok x.1.1;
  bi_tidy : tidy (memmap x.1.1);
  bi_on : allocations_disallowed x.1.1 = false;
  bi_some : x.1.2 ≠ [];
  bi_sane : Forall range_sane x.1.2;
  bi_ordered : ordered x.1.2;
  bi_taken : ∀ r a, r ∈ x.1.2 → target r ≤ a < target r + r_length r → type_at (memmap x.1.1) a ≠ Some MEMMAP_USABLE;
  bi_blocks : ∀ b n, (b, n) ∈ x.2 → 0 ≤ b ∧ b + n < 2 ^ 64 ∧ ∀ r, r ∈ x.1.2 → apart (target r) (r_length r) b n;
}.

Lemma boot_alloc_inv s rs blocks count type alignment high b s' : boot_inv (s, rs, blocks) → roomy s → type ≠ MEMMAP_USABLE → 0 ≤ count → 0 < alignment →
  count + alignment ≤ 2 ^ 64 - 1 → ext_mem_alloc_type_aligned_mode s count type alignment high = Some (b, s') → boot_inv (s', rs, (b, count) :: blocks).
Proof.
  intros [Hok Ht Hd Hne Hsane Hord Htk Hbl] [Hl _] Hty Hc Ha Hlt Heq. cbn [fst snd] in *. assert (has_room s) as Hroom by (unfold has_room; lia).
  pose proof (alloc_tidy _ _ _ _ _ _ _ Hok Hroom Hc Ha Hlt Heq) as Ht'. destruct (block_size_ok count alignment Hc Ha Hlt) as (_ & Hle & _).
  pose proof (ext_mem_alloc_ok s count type alignment high Hok Hroom Hd Hty Hc Ha Hlt) as Hal. cbv zeta in Hal. rewrite Heq in Hal.
  assert (∃ limit, allocated s (block_size count alignment) type alignment limit b s') as (limit & l & Hl1 & Hb & _ & Hbl' & _ & Hu & Hty' & _ & Hd' & _ & _ & Hok').
  { destruct Hal as [Hal|(_ & _ & Hal)]; by eexists. }
  split; cbn [fst snd]; try done; [congruence| |].
  - intros r a Hr Hra. rewrite Hty'. unfold retype. case_decide; [congruence|by apply (Htk r)].
  - intros c n [[= -> ->]|Hin]%elem_of_cons; [|by apply Hbl]. split_and!; [done|lia|]. intros r Hr x Hx Hx'. apply (Htk r x Hr Hx), Hu. lia.
Qed.

Lemma boot_free_inv s rs blocks ptr count s' : boot_inv (s, rs, blocks) → roomy s → 0 ≤ ptr → 0 ≤ count → count + 4096 ≤ 2 ^ 64 - 1 → ptr + free_size count < 2 ^ 64 →
  (∀ r, r ∈ rs → apart (target r) (r_length r) ptr (free_size count)) → pmm_free s ptr count = Some s' → boot_inv (s', rs, blocks).
Proof.
  intros Hinv [Hl _] Hp Hc Hlt Htop Hap Heq. pose proof Hinv as [Hok Ht Hd Hne Hsane Hord Htk Hbl]. cbn [fst snd] in *. assert (has_room s) as Hroom by (unfold has_room; lia).
  pose proof (free_tidy _ _ _ _ Hok Hroom Ht Hp Hc Heq) as Ht'. destruct (Z.eqb_spec ptr 0) as [->|Hp0]; [by injection Heq as <-|].
  assert (ptr mod 4096 = 0) as Hm. { unfold pmm_free in Heq. rewrite (proj2 (Z.eqb_neq ptr 0) Hp0) in Heq. by destruct (Z.eqb_spec (ptr mod 4096) 0). }
  destruct (pmm_free_ok s ptr count Hok Hroom Hd ltac:(lia) Hm Hc Hlt Htop) as (s1 & Hs1 & Hty & _ & Hd' & _ & _ & Hok'). rewrite Heq in Hs1. injection Hs1 as <-.
  split; cbn [fst snd]; try done; [congruence|]. intros r a Hr Hra. rewrite Hty. unfold retype. case_decide as Ha; [|by apply (Htk r)]. by destruct (Hap r Hr a Hra).
Qed.

Lemma boot_append_inv allow ranges_max s rs blocks c k b t n s' rs' t' : boot_inv (s, rs, blocks) → roomy s → (c, k) ∈ blocks → 0 ≤ n → c ≤ b → b + n ≤ c + k → 0 ≤ t →
  elsewhere_append allow s rs ranges_max b t n = Some (Some (s', rs', t')) → boot_inv (s', rs', []).
Proof.
  intros [Hok Ht Hd Hne Hsane Hord Htk Hbl] [Hl Hu] Hin Hn Hb Hbn Ht0 Heq. cbn [fst snd] in *. assert (room s) as Hroom by done.
  pose proof (append_ok allow s rs ranges_max b t n Hroom Hsane Hne Hn Ht0) as Hap. rewrite Heq in Hap.
  destruct Hap as (_ & -> & (Ht1 & Hlim & _ & Hrs) & Hok' & Ht' & _ & Hd' & Hty). destruct (Hbl _ _ Hin) as (Hc & Hck & Hsrc). unfold LIMIT_4G in Hlim.
  split; cbn [fst snd]; try done; [congruence|by destruct rs| | | |by intros ? ? ?%elem_of_nil].
  - apply Forall_app. split; [done|]. apply Forall_singleton. split_and!; cbn [target elsewhere r_length]; lia.
  - apply ordered_app. split_and!; [done| |done]. rewrite List.Forall_forall in Hrs |- *. intros r Hr. destruct (Hrs r Hr) as [H1 _]. apply list_elem_of_In in Hr.
    split; cbn [target elsewhere r_length]; intros x Hx Hx'; [by apply (H1 x)|]. apply (Hsrc r Hr x Hx). lia.
  - intros r a [Hr|Hr]%elem_of_app Ha; rewrite Hty; case_decide as Hx; (done || (try (by apply (Htk r)))).
    apply list_elem_of_singleton in Hr as ->. cbn [target r_length] in Ha. tauto.
Qed.

Lemma boot_step_inv allow ranges_max x y : boot_step allow ranges_max x y → boot_inv x → boot_inv y.
Proof.
  intros Hst Hinv. destruct Hst as [s rs blocks count type al high b s' H1 H2 H3 H4 H5 Heq|s rs blocks ptr count s' H1 H2 H3 H4 H5 H6 Heq|s rs blocks f|s rs blocks c k b t n s' rs' t' H1 Hin H2 H3 H4 H5 Heq].
  - exact (boot_alloc_inv _ _ _ _ _ _ _ _ _ Hinv H1 H2 H3 H4 H5 Heq).
  - exact (boot_free_inv _ _ _ _ _ _ Hinv H1 H2 H3 H4 H5 H6 Heq).
  - by destruct Hinv.
  - exact (boot_append_inv _ _ _ _ _ _ _ _ _ _ _ _ _ Hinv H1 Hin H2 H3 H4 H5 Heq).
Qed.

Lemma boot_start_inv s s' r : room s → allocations_disallowed s = false → range_sane r → elsewhere_reserve_target s (target r) (r_length r) = Some s' → boot_inv (s', [r], []).
Proof.
  intros Hroom Hd Hsane Heq. pose proof Hsane as (H1 & H2 & H3 & H4 & H5).
  destruct (reserve_target_ok s (target r) (r_length r) Hroom H1 H3 H4) as (s1 & Hs1 & Hok & Ht & _ & Hd' & Hty). rewrite Heq in Hs1. injection Hs1 as <-.
  split; cbn [fst snd]; try done; [congruence|by apply Forall_singleton| |by intros ? ? ?%elem_of_nil].
  intros q a Hq Ha. apply list_elem_of_singleton in Hq as ->. rewrite Hty. case_decide as Hx; [done|]. tauto.
Qed.

Lemma boot_reachable allow ranges_max x y : rtc (boot_step allow ranges_max) x y → boot_inv x → boot_inv y.
Proof. induction 1; eauto using boot_step_inv. Qed.

(** ** The properties *)



(** ** A machine with one piece of memory *)
Definition small_state : pmm_state := PMM [ME 0x100000 0x400000 1] false 0 true (λ _, 0).
Definition small_kernel : elsewhere_range := ER 0x400000 0x100000 0x1000.

Lemma small_room : room small_state.
Proof.
  split; [| |vm_compute; done|vm_compute; lia].
  - apply valid_intro; [repeat constructor; cbn; lia|repeat constructor; cbn; lia|]. intros a. cbn [small_state memmap cnt any_type andb]. destruct (covb _ a); cbn; lia.
  - split.
    + intros i j e f _ Hij He Hf. pose proof (arr_get_Some_lt _ _ _ He) as Hi. pose proof (arr_get_Some_lt _ _ _ Hf) as Hj. change (len (memmap small_state)) with 1 in *.
      assert (i = 0 ∧ j = 0) as [-> ->] by lia. injection He as <-. injection Hf as <-. done.
    + intros p Hp e f He Hf. apply arr_get_Some_lt in Hf. change (len (memmap small_state)) with 1 in *. lia.
Qed.

Lemma small_reserved : returns (elsewhere_reserve_target small_state 0x100000 0x1000) (λ s, memmap s = [ME 0x100000 0x1000 0x1000; ME 0x101000 0x3ff000 1] ∧ keep_first s = true).
Proof.
  assert ((λ s, (memmap s, keep_first s)) <$> elsewhere_reserve_target small_state 0x100000 0x1000 = Some ([ME 0x100000 0x1000 0x1000; ME 0x101000 0x3ff000 1], true)) as H by (vm_compute; done).
  destruct (elsewhere_reserve_target _ _ _) as [s|]; [|done]. injection H as H1 H2. by exists s.
Qed.

Lemma small_room_again : ∃ s1 b s2, elsewhere_reserve_target small_state 0x100000 0x1000 = Some s1 ∧ roomy s1 ∧
  ext_mem_alloc_type_aligned_mode s1 0x2000 MEMMAP_BOOTLOADER_RECLAIMABLE 4096 false = Some (b, s2) ∧ roomy s2 ∧ 0 ≤ b ∧
  check_ranges (memmap s2) [small_kernel] 0x200000 0x2000 = Fits.
Proof.
  destruct small_reserved as ([m1 d1 c1 k1 f1] & Hs1 & Hm & Hk). cbn [memmap keep_first] in Hm, Hk. subst m1 k1.
  assert (d1 = false) as -> by (destruct (reserve_target_ok small_state 0x100000 0x1000 small_room) as (s & Hs & _ & _ & _ & Hd & _); [lia..|]; rewrite Hs1 in Hs; by injection Hs as <-).
  assert ((λ x, (fst x, memmap (snd x))) <$> ext_mem_alloc_type_aligned_mode (PMM [ME 0x100000 0x1000 0x1000; ME 0x101000 0x3ff000 1] false c1 true f1) 0x2000 MEMMAP_BOOTLOADER_RECLAIMABLE 4096 false =
    Some (0x4fe000, [ME 0x100000 0x1000 0x1000; ME 0x101000 0x3fd000 1; ME 0x4fe000 0x2000 0x1000])) as H by (vm_compute; done).
  destruct (ext_mem_alloc_type_aligned_mode _ _ _ _ _) as [[b s2]|] eqn:Ha; [|done]. injection H as -> Hm2.
  eexists _, _, s2. split_and!; [exact Hs1|vm_compute; split; [done|lia]|exact Ha| |done|]; unfold roomy; rewrite Hm2; [vm_compute; split; [done|lia]|by vm_compute].
Qed.

Lemma small_reach : ∃ s1 s rs, elsewhere_reserve_target small_state 0x100000 0x1000 = Some s1 ∧ rtc (boot_step false 8) (s1, [small_kernel], []) (s, rs, []) ∧ len rs = 2.
Proof.
  destruct small_room_again as (s1 & b & s2 & Hs1 & Hr1 & Ha & Hr2 & Hb & Hc). assert (boot_step false 8 (s1, [small_kernel], []) (s2, [small_kernel], [(b, 0x2000)])) as Hst.
  { apply (boot_alloc false 8 s1 [small_kernel] [] 0x2000 MEMMAP_BOOTLOADER_RECLAIMABLE 4096 false); (done || lia). }
  assert (range_sane small_kernel) as Hsane by (split_and!; cbn; lia).
  pose proof (boot_step_inv _ _ _ _ Hst (boot_start_inv small_state s1 small_kernel small_room eq_refl Hsane Hs1)) as [Hok Ht _ Hne Hrs _ _ _].
  assert (room s2) as Hroom by (destruct Hr2; done). destruct (append_keeps false s2 [small_kernel] 8 b 0x200000 0x2000 Hroom Hrs Hne) as (s3 & Hs3); [done..|].
  exists s1, s3, ([small_kernel] ++ [ER b 0x200000 0x2000]). split_and!; [done| |done]. eapply rtc_l; [exact Hst|]. apply rtc_once.
  by apply (boot_append false 8 s2 [small_kernel] [(b, 0x2000)] b 0x2000 b 0x200000 0x2000 s3 ([small_kernel] ++ [ER b 0x200000 0x2000]) 0x200000); [done|left|lia..|].
Qed.


