(* ===== verification/Os.v ===== *)
(** Unix as the runit programs see it: a program is a state transformer that
    makes system calls, an oracle answers them, and the trace records both.
    Nothing is assumed of the oracle here: a theorem that needs the kernel to
    behave says so as a hypothesis on the oracle. *)
From stdpp Require Import strings.
From S2P Require Import Prelude.
Open Scope string_scope.

Inductive call :=
  | OpenTrunc (fn : string)
  | OpenRead (fn : string)
  | OpenWrite (fn : string)
  | OpenAppend (fn : string)
  | Close (fd : Z)
  | Read (fd n : Z)
  | Write (fd : Z) (bytes : list Z)
  | Rename (from to : string)
  | Unlink (fn : string)
  | Stat (fn : string)
  | Chdir (fn : string)
  | Fchdir (fd : Z)
  | Fd_copy (to from : Z)
  | Fork
  | Kill (pid sig : Z)
  | Wait_pid (pid : Z)
  | Wait_nohang
  | Sleep (seconds : Z)
  | Now
  | Iopause
  | Lock (fd : Z)
  | Chmod (mode : Z)
  | Fsync (fd : Z)
  | Opendir (fn : string)
  | Readdir
  | Closedir
  | Setsid
  | Mkdir (fn : string)
  | Readlink (fn : string)
  | Mkfifo (fn : string)
  | Pipe
  | Warn (msg : string).

(** What a call gives: its result, [errno] where that is -1, and what it stores
    through its pointer arguments (a mode, a wait status, bytes read, ...). *)
Record answer := Ans { ret : Z; errno : Z; out : list Z }.

(** How a process ends: it leaves, or becomes another program. *)
Inductive ending :=
  | Exited (code : Z)
  | Execd (prog : string) (args : list (list Z)).

(** [Spin]: the fuel of a loop ran out, the process is still in it. *)
Inductive outcome (A : Type) :=
  | Ret (a : A)
  | End (e : ending)
  | Spin.
Arguments Ret {A} a.
Arguments End {A} e.
Arguments Spin {A}.

(** The calls made so far, the last one first; their number is the oracle's
    clock. *)
Definition trace := list (call * answer).

Definition oracle := trace → call → answer.

Definition prog (G A : Type) := G * trace → outcome A * (G * trace).

#[export] Instance prog_ret {G} : MRet (prog G) := λ A a st, (Ret a, st).
#[export] Instance prog_bind {G} : MBind (prog G) := λ A B k m st,
  match m st with
  | (Ret a, st) => k a st
  | (End e, st) => (End e, st)
  | (Spin, st) => (Spin, st)
  end.

Definition done {G A} (e : ending) : prog G A := λ st, (End e, st).
Definition spin {G A} : prog G A := λ st, (Spin, st).
Definition get {G} : prog G G := λ st, (Ret (fst st), st).
Definition put {G} (g : G) : prog G unit := λ st, (Ret tt, (g, snd st)).
Definition modify {G} (f : G → G) : prog G unit := λ st, (Ret tt, (f (fst st), snd st)).
Definition skip {G} : prog G unit := mret tt.
Definition sys {G} (os : oracle) (c : call) : prog G answer := λ st,
  let a := os (snd st) c in (Ret a, (fst st, (c, a) :: snd st)).

(** A loop of a process: [true] goes on. *)
Fixpoint repeat {G} (fuel : nat) (body : prog G bool) : prog G unit :=
  match fuel with
  | O => spin
  | S fuel => again ← body; if (again : bool) then repeat fuel body else skip
  end.

(** ** Reasoning

    [post m st Q E]: where [m] returns, [Q] holds of what it gives; where the
    process ends in it, [E]. *)
Definition post {G A} (m : prog G A) (st : G * trace)
    (Q : A → G * trace → Prop) (E : ending → G * trace → Prop) : Prop :=
  match m st with
  | (Ret a, st') => Q a st'
  | (End e, st') => E e st'
  | (Spin, _) => True
  end.

Section post.
Context {G : Type}.
Implicit Types st : G * trace.

Lemma post_ret {A} (a : A) st (Q : A → G * trace → Prop) E : Q a st → post (mret a : prog G A) st Q E.
Proof. done. Qed.

Lemma post_bind {A B} (m : prog G A) (k : A → prog G B) st (P : A → G * trace → Prop) Q E :
  post m st P E → (∀ a st', P a st' → post (k a) st' Q E) → post (m ≫= k) st Q E.
Proof.
  unfold post, mbind, prog_bind. destruct (m st) as [[a|e|] st']; [|done..].
  intros HP Hk. by apply Hk.
Qed.

Lemma post_mono {A} (m : prog G A) st (P Q : A → G * trace → Prop) (E F : ending → G * trace → Prop) :
  post m st P E → (∀ a st', P a st' → Q a st') → (∀ e st', E e st' → F e st') → post m st Q F.
Proof. unfold post. destruct (m st) as [[a|e|] st']; auto. Qed.

Lemma post_sys os c st (Q : answer → G * trace → Prop) E :
  (∀ a, a = os (snd st) c → Q a (fst st, (c, a) :: snd st)) → post (sys os c) st Q E.
Proof. intros HQ. by apply HQ. Qed.

Lemma post_get st (Q : G → G * trace → Prop) E : Q (fst st) st → post get st Q E.
Proof. done. Qed.

Lemma post_modify f st (Q : unit → G * trace → Prop) E : Q tt (f (fst st), snd st) → post (modify f) st Q E.
Proof. done. Qed.

Lemma post_repeat (I : G * trace → Prop) (body : prog G bool) E fuel st :
  I st → (∀ st, I st → post body st (λ _ st', I st') E) →
  post (repeat fuel body) st (λ _ st', I st') E.
Proof.
  intros HI Hb. revert st HI. induction fuel as [|fuel IH]; intros st HI; [done|].
  cbn [repeat]. eapply post_bind; [by apply Hb|]. cbv beta. intros [] st' HI'; [by apply IH|done].
Qed.
End post.

(** [m] returns, and [Q] holds of what it gives. *)
Definition total {G A} (m : prog G A) (st : G * trace) (Q : A → G * trace → Prop) : Prop :=
  match m st with (Ret a, st') => Q a st' | _ => False end.

Lemma total_bind {G A B} (m : prog G A) (k : A → prog G B) st (P : A → G * trace → Prop) Q :
  total m st P → (∀ a st', P a st' → total (k a) st' Q) → total (m ≫= k) st Q.
Proof.
  unfold total, mbind, prog_bind. destruct (m st) as [[a|e|] st']; [|done..].
  intros HP Hk. by apply Hk.
Qed.

Lemma total_mono {G A} (m : prog G A) st (P Q : A → G * trace → Prop) :
  total m st P → (∀ a st', P a st' → Q a st') → total m st Q.
Proof. unfold total. destruct (m st) as [[a|e|] st']; auto. Qed.

Lemma total_post {G A} (m : prog G A) st (P Q : A → G * trace → Prop) E :
  total m st P → post m st Q E → total m st (λ a st', P a st' ∧ Q a st').
Proof. unfold total, post. destruct (m st) as [[a|e|] st']; auto. Qed.
