(* ===== verification/Djb.v ===== *)
(** The library the runit programs share ([runit/src]): bytes and C strings,
    decimal numbers, TAI64 time stamps and output buffers.  A [char *] is a
    list of bytes; reading or writing past its end gives [None].  The loops
    the C code unrolls four times are written once. *)
From stdpp Require Import strings.
From S2P Require Import Prelude Os.
Open Scope list_scope.
Open Scope Z_scope.

(** ** Bytes: [byte_copy.c], [byte_cr.c], [byte_diff.c], [byte_chr.c], [byte_rchr.c]

    [to] and [from] are offsets in one memory, so they may overlap. *)

Fixpoint byte_copy_loop (n : nat) (m : list Z) (to from : Z) : option (list Z) :=
  match n with
  | O => Some m
  | S n => c ← m.[from]; m ← m.[to <- c]; byte_copy_loop n m (to + 1) (from + 1)
  end.

Definition byte_copy (m : list Z) (to n from : Z) : option (list Z) :=
  byte_copy_loop (Z.to_nat n) m to from.

Fixpoint byte_copyr_loop (n : nat) (m : list Z) (to from : Z) : option (list Z) :=
  match n with
  | O => Some m
  | S n => c ← m.[from - 1]; m ← m.[to - 1 <- c]; byte_copyr_loop n m (to - 1) (from - 1)
  end.

Definition byte_copyr (m : list Z) (to n from : Z) : option (list Z) :=
  byte_copyr_loop (Z.to_nat n) m (to + n) (from + n).

Fixpoint byte_diff (n : nat) (s t : list Z) : option Z :=
  match n with
  | O => Some 0
  | S n =>
      match s, t with
      | a :: s, b :: t => if a =? b then byte_diff n s t else Some (a - b)
      | _, _ => None
      end
  end.

Fixpoint byte_chr (n : nat) (s : list Z) (c : Z) : option Z :=
  match n with
  | O => Some 0
  | S n =>
      match s with
      | a :: s => if a =? u8 c then Some 0 else i ← byte_chr n s c; Some (1 + i)
      | [] => None
      end
  end.

(** [u] is the last match so far, [-1] for none. *)
Fixpoint byte_rchr_loop (n : nat) (s : list Z) (c t u : Z) : option Z :=
  match n with
  | O => Some (if u =? -1 then t else u)
  | S n =>
      match s with
      | a :: s => byte_rchr_loop n s c (t + 1) (if a =? u8 c then t else u)
      | [] => None
      end
  end.

Definition byte_rchr (n : nat) (s : list Z) (c : Z) : option Z := byte_rchr_loop n s c 0 (-1).

(** ** C strings: [str_len.c], [str_diff.c], [str_chr.c], [str_start.c] *)

Fixpoint str_len (s : list Z) : option Z :=
  match s with
  | [] => None
  | a :: s => if a =? 0 then Some 0 else i ← str_len s; Some (1 + i)
  end.

Fixpoint str_diff (s t : list Z) : option Z :=
  match s, t with
  | a :: s, b :: t =>
      if negb (a =? b) then Some (a - b) else if a =? 0 then Some (a - b) else str_diff s t
  | _, _ => None
  end.

Fixpoint str_chr (s : list Z) (c : Z) : option Z :=
  match s with
  | [] => None
  | a :: s => if a =? 0 then Some 0 else if a =? u8 c then Some 0 else i ← str_chr s c; Some (1 + i)
  end.

Fixpoint str_start (s t : list Z) : option bool :=
  match t with
  | [] => None
  | b :: t =>
      if b =? 0 then Some true else
      match s with
      | [] => None
      | a :: s => if b =? a then str_start s t else Some false
      end
  end.

(** ** Decimal numbers: [fmt_ulong.c], [fmt_uint0.c], [scan_ulong.c]

    [unsigned long] has 64 bits, so at most 20 digits. *)

Definition fmt_ulong_len (u : Z) : option Z :=
  loop 20 (λ '(len, q), if 9 <? q then Some (inl (len + 1, q / 10)) else Some (inr len)) (1, u).

Fixpoint fmt_ulong_digits (fuel : nat) (s : list Z) (p u : Z) : option (list Z) :=
  match fuel with
  | O => None
  | S fuel =>
      s ← s.[p - 1 <- 48 + u mod 10];
      if u / 10 =? 0 then Some s else fmt_ulong_digits fuel s (p - 1) (u / 10)
  end.

(** The digits go to [s] at offset [off]. *)
Definition fmt_ulong (s : list Z) (off u : Z) : option (Z * list Z) :=
  len ← fmt_ulong_len u;
  s ← fmt_ulong_digits 20 s (off + len) u;
  Some (len, s).

Definition fmt_uint0 (s : list Z) (off u n : Z) : option (Z * list Z) :=
  len ← fmt_ulong_len u;
  let pad := Z.max 0 (n - len) in
  s ← for_range off (off + pad) (λ i s, s.[i <- 48]) s;
  '(_, s) ← fmt_ulong s (off + pad) u;
  Some (len + pad, s).

(** The number read and how many bytes of it. *)
Fixpoint scan_ulong_loop (s : list Z) (pos result : Z) : option (Z * Z) :=
  match s with
  | [] => None
  | a :: s =>
      let c := u8 (a - 48) in
      if c <? 10 then scan_ulong_loop s (pos + 1) (u64 (u64 (result * 10) + c)) else Some (pos, result)
  end.

Definition scan_ulong (s : list Z) : option (Z * Z) := scan_ulong_loop s 0 0.

(** ** Time: [tai_pack.c], [tai_unpack.c], [tai_sub.c], [taia_*.c] *)

Record taia := TAIA { sec : Z; nano : Z; atto : Z }.

Definition tai_unix (u : Z) : Z := u64 (4611686018427387914 + u64 u).

(** [taia_now], of what [gettimeofday] stores. *)
Definition taia_of_timeval (tv : list Z) : taia :=
  TAIA (tai_unix (peek tv 0)) (u64 (1000 * peek tv 1 + 500)) 0.

Definition taia_now {G} (os : oracle) : prog G taia :=
  a ← sys os Now; mret (taia_of_timeval (out a)).

Definition tai_pack (x : Z) : list Z :=
  [u8 (Z.shiftr x 56); Z.land (Z.shiftr x 48) 255; Z.land (Z.shiftr x 40) 255; Z.land (Z.shiftr x 32) 255;
   Z.land (Z.shiftr x 24) 255; Z.land (Z.shiftr x 16) 255; Z.land (Z.shiftr x 8) 255; Z.land x 255].

Definition tai_unpack (s : list Z) : option Z :=
  foldl (λ x i, x ← x; c ← s.[i]; Some (u64 (u64 (Z.shiftl x 8) + c))) (Some 0) (seqZ 0 8).

(** [taia_pack] stores the seconds, then four bytes each of nano and atto. *)
Definition pack32 (x : Z) : list Z :=
  [u8 (Z.shiftr x 24); Z.land (Z.shiftr x 16) 255; Z.land (Z.shiftr x 8) 255; Z.land x 255].
Definition taia_pack (t : taia) : list Z := tai_pack (sec t) ++ pack32 (nano t) ++ pack32 (atto t).

Definition tai_less (t u : Z) : bool := t <? u.
Definition tai_sub (u v : Z) : Z := u64 (u - v).

Definition taia_uint (s : Z) : taia := TAIA s 0 0.

Definition taia_add (u v : taia) : taia :=
  let s := u64 (sec u + sec v) in
  let n := u64 (nano u + nano v) in
  let a := u64 (atto u + atto v) in
  let '(a, n) := if 999999999 <? a then (u64 (a - 1000000000), u64 (n + 1)) else (a, n) in
  let '(n, s) := if 999999999 <? n then (u64 (n - 1000000000), u64 (s + 1)) else (n, s) in
  TAIA s n a.

Definition taia_sub (u v : taia) : taia :=
  let unano := nano u in
  let uatto := atto u in
  let s := u64 (sec u - sec v) in
  let n := u64 (unano - nano v) in
  let a := u64 (uatto - atto v) in
  let '(a, n) := if uatto <? a then (u64 (a + 1000000000), u64 (n - 1)) else (a, n) in
  let '(n, s) := if unano <? n then (u64 (n + 1000000000), u64 (s - 1)) else (n, s) in
  TAIA s n a.

Definition taia_less (t u : taia) : bool :=
  if sec t <? sec u then true else
  if sec u <? sec t then false else
  if nano t <? nano u then true else
  if nano u <? nano t then false else
  atto t <? atto u.

(** ** Wait statuses: [wait.h] *)

Definition wait_crashed (w : Z) : Z := Z.land w 127.
Definition wait_exitcode (w : Z) : Z := Z.shiftr w 8.

(** ** Output buffers: [buffer.c], [buffer_put.c]

    [bx] is the array, [bp] the bytes in it, [bn] its size. *)

Record buffer := Buffer { bx : list Z; bp : Z; bn : Z; bfd : Z }.

Definition buffer_init (fd : Z) (space : list Z) : buffer := Buffer space 0 (len space) fd.

Definition EINTR : Z := 4.

Section buffer.
Context {G : Type} (os : oracle).

(** The fuel bounds the calls of [op], [write] here; the flag is [true] for
    success, C's 0. *)
Fixpoint allwrite (fuel : nat) (fd : Z) (buf : list Z) : prog G bool :=
  match fuel with
  | O => spin
  | S fuel =>
      if len buf =? 0 then mret true else
      a ← sys os (Write fd buf);
      if ret a =? -1 then
        if errno a =? EINTR then allwrite fuel fd buf else mret false
      else allwrite fuel fd (drop (Z.to_nat (ret a)) buf)
  end.

Context (fuel : nat).

Definition buffer_flush (s : buffer) : prog G (bool * buffer) :=
  if bp s =? 0 then mret (true, s) else
  ok ← allwrite fuel (bfd s) (take (Z.to_nat (bp s)) (bx s));
  mret (ok, Buffer (bx s) 0 (bn s) (bfd s)).

Definition BUFFER_OUTSIZE : Z := 8192.

(** The writes of whole blocks that bypass the buffer: success and the rest. *)
Fixpoint put_blocks (rounds : nat) (s : buffer) (n : Z) (buf : list Z) : prog G (bool * list Z) :=
  match rounds with
  | O => spin
  | S rounds =>
      if bn s <? len buf then
        let n := if len buf <? n then len buf else n in
        ok ← allwrite fuel (bfd s) (take (Z.to_nat n) buf);
        if (ok : bool) then put_blocks rounds s n (drop (Z.to_nat n) buf) else mret (false, buf)
      else mret (true, buf)
  end.

(** [byte_copy(s->x + s->p, len, buf); s->p += len]: what fits is stored. *)
Definition buffer_store (s : buffer) (buf : list Z) : buffer :=
  Buffer (take (Z.to_nat (bp s)) (bx s) ++ buf ++ drop (Z.to_nat (bp s + len buf)) (bx s))
    (bp s + len buf) (bn s) (bfd s).

Definition buffer_put (s : buffer) (buf : list Z) : prog G (bool * buffer) :=
  if bn s - bp s <? len buf then
    '(ok, s) ← buffer_flush s;
    if negb ok then mret (false, s) else
    '(ok, rest) ← put_blocks (S (length buf)) s (Z.max (bn s) BUFFER_OUTSIZE) buf;
    if (ok : bool) then mret (true, buffer_store s rest) else mret (false, s)
  else mret (true, buffer_store s buf).

Definition buffer_putflush (s : buffer) (buf : list Z) : prog G (bool * buffer) :=
  '(ok, s) ← buffer_flush s;
  if negb ok then mret (false, s) else
  ok ← allwrite fuel (bfd s) buf; mret (ok, s).
End buffer.
