(* ===== verification/DjbProofs.v ===== *)
(** The runit library does what its callers count on: copies of overlapping
    ranges, decimal numbers and time stamps that survive a round trip,
    time arithmetic, and buffers that pass every byte on once and in order. *)
From stdpp Require Import strings.
From S2P Require Import Prelude Os Djb.
Open Scope list_scope.
Open Scope Z_scope.

(** ** Copies *)

Lemma byte_copy_loop_ok n m to from :
  0 ≤ to → 0 ≤ from → to + Z.of_nat n ≤ len m → from + Z.of_nat n ≤ len m →
  to ≤ from ∨ from + Z.of_nat n ≤ to →
  returns (byte_copy_loop n m to from) (λ m', len m' = len m ∧
    ∀ i, m'.[i] = if decide (to ≤ i < to + Z.of_nat n) then m.[from + (i - to)] else m.[i]).
Proof.
  revert m to from. induction n as [|n IH]; intros m to from Ht Hf Htl Hfl Hov; cbn [byte_copy_loop].
  { apply returns_ret. split; [done|]. intros i. rewrite decide_False by lia. done. }
  apply returns_bind_get; [lia|]. intros c Hc. apply returns_bind_set; [lia|]. intros m1 Hm1 Hl1.
  eapply returns_weaken; [apply IH; lia|]. cbv beta. intros m' [Hl' Hm']. split; [lia|].
  intros i. rewrite Hm', !(arr_get_set _ _ _ _ _ Hm1).
  repeat case_decide; try lia; try done.
  - f_equal. lia.
  - subst i. by rewrite Z.sub_diag, Z.add_0_r.
Qed.

Lemma byte_copyr_loop_ok n m to from :
  0 ≤ to - Z.of_nat n → 0 ≤ from - Z.of_nat n → to ≤ len m → from ≤ len m →
  from ≤ to ∨ to ≤ from - Z.of_nat n →
  returns (byte_copyr_loop n m to from) (λ m', len m' = len m ∧
    ∀ i, m'.[i] = if decide (to - Z.of_nat n ≤ i < to) then m.[from + (i - to)] else m.[i]).
Proof.
  revert m to from. induction n as [|n IH]; intros m to from Ht Hf Htl Hfl Hov; cbn [byte_copyr_loop].
  { apply returns_ret. split; [done|]. intros i. rewrite decide_False by lia. done. }
  apply returns_bind_get; [lia|]. intros c Hc. apply returns_bind_set; [lia|]. intros m1 Hm1 Hl1.
  eapply returns_weaken; [apply IH; lia|]. cbv beta. intros m' [Hl' Hm']. split; [lia|].
  intros i. rewrite Hm', !(arr_get_set _ _ _ _ _ Hm1).
  repeat case_decide; try lia; try done.
  - f_equal. lia.
  - subst i. rewrite <- Hc. f_equal. lia.
Qed.

(** [byte_copy] moves a range within one memory correctly if it overlaps
    its target from above or not at all, [byte_copyr] if from below or not at
    all; both leave every other byte alone and stay inside the memory. *)
Theorem byte_copies_correct m to n from :
  0 ≤ to → 0 ≤ from → 0 ≤ n → to + n ≤ len m → from + n ≤ len m →
  let moved m' := len m' = len m ∧
    ∀ i, m'.[i] = if decide (to ≤ i < to + n) then m.[from + (i - to)] else m.[i] in
  (to ≤ from ∨ from + n ≤ to → returns (byte_copy m to n from) moved) ∧
  (from ≤ to ∨ to + n ≤ from → returns (byte_copyr m to n from) moved).
Proof.
  intros Ht Hf Hn Htl Hfl moved. split; intros Hov.
  - unfold byte_copy. eapply returns_weaken; [apply byte_copy_loop_ok; lia|].
    cbv beta. by rewrite Z2Nat.id by done.
  - unfold byte_copyr. eapply returns_weaken; [apply byte_copyr_loop_ok; lia|].
    cbv beta. intros m' [Hl Hm']. split; [done|]. intros i. rewrite Hm', Z2Nat.id by done.
    repeat case_decide; try lia; f_equal; lia.
Qed.

Lemma byte_copies_correct_witness :
  byte_copy [1; 2; 3; 4; 5] 0 3 2 = Some [3; 4; 5; 4; 5] ∧
  returns (byte_copyr [1; 2; 3; 4; 5] 2 3 0) (λ m', len m' = len [1; 2; 3; 4; 5] ∧
    ∀ i, m'.[i] = if decide (2 ≤ i < 2 + 3) then [1; 2; 3; 4; 5].[0 + (i - 2)] else [1; 2; 3; 4; 5].[i]).
Proof.
  split; [vm_compute; reflexivity|].
  assert (0 ≤ 2 ∨ 2 + 3 ≤ 0) as Hov by lia.
  exact (proj2 (byte_copies_correct [1; 2; 3; 4; 5] 2 3 0 ltac:(lia) ltac:(lia) ltac:(lia) ltac:(done) ltac:(done)) Hov).
Defined.

(** ** Decimal numbers *)

(** The [n] digits of [u]. *)
Fixpoint decimal (n : nat) (u : Z) : list Z :=
  match n with O => [] | S n => decimal n (u / 10) ++ [48 + u mod 10] end.

(** [n] digits are what [u] needs, no leading zero but for 0 itself. *)
Definition needs (n : nat) (u : Z) : Prop :=
  (n = 1%nat ∧ u = 0) ∨ (1 ≤ n)%nat ∧ 10 ^ (Z.of_nat n - 1) ≤ u < 10 ^ Z.of_nat n.

Lemma len_decimal n u : len (decimal n u) = Z.of_nat n.
Proof. revert u. induction n as [|n IH]; intros u; [done|]. cbn [decimal]. rewrite len_app, IH, len_cons, len_nil. lia. Qed.

Lemma fmt_ulong_len_ok u :
  0 ≤ u < 2 ^ 64 → returns (fmt_ulong_len u) (λ l, 1 ≤ l ≤ 20 ∧ needs (Z.to_nat l) u).
Proof.
  intros Hu. unfold fmt_ulong_len.
  apply (loop_inv (λ '(l, q), 1 ≤ l ≤ 20 ∧ q = u / 10 ^ (l - 1) ∧ (l = 1 ∨ 0 < q)) _ (λ '(l, q), Z.to_nat (20 - l))).
  - intros [l q] (Hl & Hq & Hp). assert (0 < 10 ^ (l - 1)) by (apply Z.pow_pos_nonneg; lia).
    assert (10 ^ l = 10 * 10 ^ (l - 1)) as Hpow by (rewrite <- Z.pow_succ_r by lia; f_equal; lia).
    pose proof (Z.div_mod u (10 ^ (l - 1)) ltac:(lia)). pose proof (Z.mod_pos_bound u (10 ^ (l - 1)) ltac:(lia)).
    destruct (Z.ltb_spec 9 q); apply returns_ret.
    + assert (10 ^ l ≤ u) by nia.
      assert (l < 20).
      { destruct (decide (l = 20)) as [->|]; [|lia]. assert (2 ^ 64 < 10 ^ 20) by done. lia. }
      assert (q / 10 = u / 10 ^ l) as Hdiv by (rewrite Hq, Z.div_div, Hpow by lia; f_equal; lia).
      split; [|lia]. split; [lia|]. split; [rewrite Hdiv; f_equal; f_equal; lia|right]. apply Z.div_str_pos. lia.
    + split; [lia|]. unfold needs. rewrite Z2Nat.id by lia. rewrite Hpow.
      destruct (decide (l = 1)) as [->|]; [|right; split; [lia|nia]].
      destruct (decide (u = 0)); [by left|right]. split; [lia|]. change (10 ^ (1 - 1)) with 1 in *. lia.
  - split; [lia|]. split; [|by left]. by rewrite Z.div_1_r.
  - lia.
Qed.

Lemma fmt_ulong_digits_ok fuel n s p u :
  needs n u → (n ≤ fuel)%nat → 0 ≤ p - Z.of_nat n → p ≤ len s →
  fmt_ulong_digits fuel s p u =
    Some (take (Z.to_nat (p - Z.of_nat n)) s ++ decimal n u ++ drop (Z.to_nat p) s).
Proof.
  revert n s p u. induction fuel as [|fuel IH]; intros n s p u Hn Hf Hp Hl.
  { destruct Hn as [[??]|[??]]; lia. }
  assert (1 ≤ n)%nat by (destruct Hn as [[??]|[??]]; lia). cbn [fmt_ulong_digits].
  pose proof (arr_set_lt s (p - 1) (48 + u mod 10) ltac:(lia)) as Hset. rewrite Hset. cbn [mbind option_bind].
  set (s1 := <[Z.to_nat (p - 1):=48 + u mod 10]> s) in *.
  assert (drop (Z.to_nat (p - 1)) s1 = (48 + u mod 10) :: drop (Z.to_nat p) s) as Hdrop.
  { unfold s1. rewrite drop_insert_ge by lia. rewrite Nat.sub_diag.
    destruct (drop (Z.to_nat (p - 1)) s) as [|x r] eqn:Hd.
    - apply (f_equal length) in Hd. rewrite length_drop in Hd. unfold len in *. simpl in Hd. lia.
    - cbn. f_equal. replace (Z.to_nat p) with (Z.to_nat (p - 1) + 1)%nat by lia. by rewrite <- drop_drop, Hd. }
  pose proof (Z.div_mod u 10 ltac:(lia)) as Hdm. pose proof (Z.mod_pos_bound u 10 ltac:(lia)).
  destruct n as [|n]; [lia|]. cbn [decimal].
  destruct (Z.eqb_spec (u / 10) 0) as [Hz|Hz].
  - assert (n = 0%nat) as ->.
    { destruct Hn as [[? _]|[_ Hn]]; [lia|]. destruct n as [|n]; [done|exfalso].
      replace (Z.of_nat (S (S n)) - 1) with (1 + Z.of_nat n) in Hn by lia. rewrite Z.pow_add_r in Hn by lia.
      assert (0 < 10 ^ Z.of_nat n) by (apply Z.pow_pos_nonneg; lia). lia. }
    cbn [decimal app]. f_equal. rewrite <- (take_drop (Z.to_nat (p - 1)) s1) at 1. rewrite Hdrop.
    unfold s1. rewrite take_insert_ge by lia. f_equal.
  - assert (needs n (u / 10)) as Hn'.
    { destruct Hn as [[? ->]|[_ Hn]]; [done|]. right. destruct n as [|n].
      - change (10 ^ (Z.of_nat 1 - 1)) with 1 in Hn. change (10 ^ Z.of_nat 1) with 10 in Hn.
        rewrite Z.div_small in Hz by lia. done.
      - split; [lia|]. replace (Z.of_nat (S (S n)) - 1) with (1 + (Z.of_nat (S n) - 1)) in Hn by lia.
        replace (Z.of_nat (S (S n))) with (1 + Z.of_nat (S n)) in Hn by lia.
        rewrite !Z.pow_add_r in Hn by lia. split; [apply Z.div_le_lower_bound; lia|apply Z.div_lt_upper_bound; lia]. }
    rewrite (IH n s1 (p - 1) (u / 10) Hn') by (try lia; unfold s1, len; rewrite length_insert; unfold len in Hl; lia).
    f_equal. rewrite Hdrop, <- !app_assoc. cbn [app].
    unfold s1. rewrite take_insert_ge by lia. f_equal. f_equal. lia.
Qed.

Lemma scan_ulong_decimal n u rest pos r :
  0 ≤ u < 10 ^ Z.of_nat n → 0 ≤ r → r * 10 ^ Z.of_nat n + u < 2 ^ 64 →
  scan_ulong_loop (decimal n u ++ rest) pos r =
    scan_ulong_loop rest (pos + Z.of_nat n) (r * 10 ^ Z.of_nat n + u).
Proof.
  revert u rest. induction n as [|n IH]; intros u rest Hu Hr Hlt.
  { change (10 ^ Z.of_nat 0) with 1 in *. cbn [decimal app]. f_equal; lia. }
  pose proof (Z.div_mod u 10 ltac:(lia)) as Hdm. pose proof (Z.mod_pos_bound u 10 ltac:(lia)).
  replace (Z.of_nat (S n)) with (Z.succ (Z.of_nat n)) in * by lia. rewrite Z.pow_succ_r in * by lia.
  assert (0 < 10 ^ Z.of_nat n) by (apply Z.pow_pos_nonneg; lia).
  cbn [decimal]. rewrite <- app_assoc. cbn [app].
  rewrite IH; [|split; [apply Z.div_pos; lia|apply Z.div_lt_upper_bound; lia]|done|nia].
  cbn [scan_ulong_loop]. replace (48 + u mod 10 - 48) with (u mod 10) by lia.
  rewrite u8_id by lia. rewrite (proj2 (Z.ltb_lt _ _)) by lia.
  rewrite (u64_id ((r * _ + _) * 10)) by nia. rewrite u64_id by nia. f_equal; nia.
Qed.

(** A number written by [fmt_ulong] takes at most 20 bytes, no more than
    it needs, touches no other byte, and [scan_ulong] reads it back whatever
    non-digit follows. *)
Theorem fmt_scan_ulong s off u :
  0 ≤ u < 2 ^ 64 → 0 ≤ off → off + 20 ≤ len s →
  returns (fmt_ulong s off u) (λ '(n, s'), 1 ≤ n ≤ 20 ∧ needs (Z.to_nat n) u ∧
    s' = take (Z.to_nat off) s ++ decimal (Z.to_nat n) u ++ drop (Z.to_nat (off + n)) s ∧
    ∀ c rest, 10 ≤ u8 (c - 48) → scan_ulong (decimal (Z.to_nat n) u ++ c :: rest) = Some (n, u)).
Proof.
  intros Hu Ho Hl. unfold fmt_ulong. eapply returns_bind; [by apply fmt_ulong_len_ok|]. cbv beta.
  intros n [Hn Hneed]. rewrite (fmt_ulong_digits_ok _ (Z.to_nat n)) by (done || lia).
  apply returns_ret. rewrite Z2Nat.id by lia. split_and!; [lia|lia|done|repeat f_equal; lia|].
  intros c rest Hc. unfold scan_ulong.
  assert (u < 10 ^ Z.of_nat (Z.to_nat n)).
  { destruct Hneed as [[-> ->]|[_ ?]]; [done|lia]. }
  rewrite scan_ulong_decimal by lia. cbn [scan_ulong_loop]. rewrite (proj2 (Z.ltb_ge _ _)) by done.
  f_equal. f_equal; lia.
Qed.

Lemma fmt_scan_ulong_witness :
  fmt_ulong (replicate 40 0) 3 1024 = Some (4, replicate 3 0 ++ [49; 48; 50; 52] ++ replicate 33 0) ∧
  returns (fmt_ulong (replicate 40 0) 3 18446744073709551615) (λ '(n, s'), 1 ≤ n ≤ 20 ∧ needs (Z.to_nat n) 18446744073709551615 ∧
    s' = take (Z.to_nat 3) (replicate 40 0) ++ decimal (Z.to_nat n) 18446744073709551615 ++ drop (Z.to_nat (3 + n)) (replicate 40 0) ∧
    ∀ c rest, 10 ≤ u8 (c - 48) → scan_ulong (decimal (Z.to_nat n) 18446744073709551615 ++ c :: rest) = Some (n, 18446744073709551615)).
Proof.
  split; [vm_compute; reflexivity|].
  exact (fmt_scan_ulong (replicate 40 0) 3 18446744073709551615 ltac:(lia) ltac:(lia) ltac:(vm_compute; discriminate)).
Defined.

(** ** Time *)

Definition ATTO : Z := 1000000000 * 1000000000.

(** A time stamp as a number of attoseconds. *)
Definition taia_val (t : taia) : Z := sec t * ATTO + nano t * 1000000000 + atto t.

Record taia_ok (t : taia) : Prop := {
  taia_sec : 0 ≤ sec t < 2 ^ 64;
  taia_nano : 0 ≤ nano t < 1000000000;
  taia_atto : 0 ≤ atto t < 1000000000;
}.

Lemma taia_val_mod x n a :
  0 ≤ n < 1000000000 → 0 ≤ a < 1000000000 →
  (x * ATTO + n * 1000000000 + a) mod (2 ^ 64 * ATTO) = u64 x * ATTO + n * 1000000000 + a.
Proof.
  intros Hn Ha. unfold u64, wrap, ATTO. symmetry. apply Zmod_unique with (x / 2 ^ 64).
  - pose proof (Z.mod_pos_bound x (2 ^ 64) ltac:(done)). lia.
  - pose proof (Z.div_mod x (2 ^ 64) ltac:(done)). lia.
Qed.

Lemma taia_val_parts x n a y :
  0 ≤ n < 1000000000 → 0 ≤ a < 1000000000 → x * ATTO + n * 1000000000 + a = y →
  taia_ok (TAIA (u64 x) n a) ∧ taia_val (TAIA (u64 x) n a) = y mod (2 ^ 64 * ATTO).
Proof.
  intros Hn Ha <-. split; [split; cbn; [apply Z.mod_pos_bound|..]; done|].
  unfold taia_val. cbn [sec nano atto]. by rewrite taia_val_mod.
Qed.

Lemma u64_add_l x y : u64 (u64 x + y) = u64 (x + y).
Proof. unfold u64, wrap. by rewrite Zplus_mod_idemp_l. Qed.
Lemma u64_sub_l x y : u64 (u64 x - y) = u64 (x - y).
Proof. unfold u64, wrap. by rewrite Zminus_mod_idemp_l. Qed.
Lemma u64_neg x : -2 ^ 64 ≤ x < 0 → u64 x = x + 2 ^ 64.
Proof.
  intros Hx. rewrite <- (u64_id (x + 2 ^ 64)) by lia. unfold u64, wrap.
  rewrite <- (Z_mod_plus_full x 1 (2 ^ 64)). f_equal.
Qed.

(** A billion makes up for a borrow. *)
Lemma u64_refill x : -1000000000 ≤ x < 0 → u64 (x + 2 ^ 64 + 1000000000) = x + 1000000000.
Proof.
  intros Hx. unfold u64, wrap. replace (x + 2 ^ 64 + 1000000000) with (x + 1000000000 + 1 * 2 ^ 64) by lia.
  rewrite Z_mod_plus_full. apply Z.mod_small. lia.
Qed.

Lemma taia_add_ok u v : taia_ok u → taia_ok v →
  taia_ok (taia_add u v) ∧ taia_val (taia_add u v) = (taia_val u + taia_val v) mod (2 ^ 64 * ATTO).
Proof.
  intros [Hus Hun Hua] [Hvs Hvn Hva].
  unfold taia_add. rewrite (u64_id (nano u + nano v)), (u64_id (atto u + atto v)) by lia.
  destruct (Z.ltb_spec 999999999 (atto u + atto v)).
  - rewrite (u64_id (atto u + atto v - 1000000000)), (u64_id (nano u + nano v + 1)) by lia.
    destruct (Z.ltb_spec 999999999 (nano u + nano v + 1)); rewrite ?u64_add_l;
      rewrite ?(u64_id (nano u + nano v + 1 - 1000000000)) by lia; apply taia_val_parts; unfold taia_val, ATTO; lia.
  - destruct (Z.ltb_spec 999999999 (nano u + nano v)); rewrite ?u64_add_l;
      rewrite ?(u64_id (nano u + nano v - 1000000000)) by lia; apply taia_val_parts; unfold taia_val, ATTO; lia.
Qed.

(** The nanoseconds [x] are left of [nu], or [x] is below zero and a second is
    borrowed from [s]. *)
Lemma taia_borrow nu s x : 0 ≤ nu < 1000000000 → x ≤ nu → -1000000000 ≤ x →
  let '(n, s') := if nu <? u64 x then (u64 (u64 x + 1000000000), u64 (u64 s - 1)) else (u64 x, u64 s) in
  0 ≤ n < 1000000000 ∧ ∃ b, s' = u64 (s - b) ∧ n = x + b * 1000000000.
Proof.
  intros Hnu Hx Hlo. destruct (decide (0 ≤ x)).
  - rewrite u64_id by lia. rewrite (proj2 (Z.ltb_ge _ _)) by lia. split; [lia|]. exists 0. split; [f_equal; lia|lia].
  - rewrite u64_neg by lia. rewrite (proj2 (Z.ltb_lt _ _)) by lia. rewrite u64_sub_l, u64_refill by lia.
    split; [lia|]. exists 1. split; [done|lia].
Qed.

Lemma taia_sub_ok u v : taia_ok u → taia_ok v →
  taia_ok (taia_sub u v) ∧ taia_val (taia_sub u v) = (taia_val u - taia_val v) mod (2 ^ 64 * ATTO).
Proof.
  intros [Hus Hun Hua] [Hvs Hvn Hva]. unfold taia_sub. destruct (decide (atto v ≤ atto u)).
  - rewrite (u64_id (atto u - atto v)) by lia. rewrite (proj2 (Z.ltb_ge _ (_ - _))) by lia.
    pose proof (taia_borrow (nano u) (sec u - sec v) (nano u - nano v) ltac:(lia) ltac:(lia) ltac:(lia)) as Hb.
    destruct (if nano u <? u64 (nano u - nano v) then _ else _) as [n1 s1].
    destruct Hb as (Hn & b & -> & ->). apply taia_val_parts; unfold taia_val, ATTO; lia.
  - rewrite (u64_neg (atto u - atto v)) by lia. rewrite (proj2 (Z.ltb_lt _ (_ + _))) by lia. rewrite u64_sub_l.
    pose proof (taia_borrow (nano u) (sec u - sec v) (nano u - nano v - 1) ltac:(lia) ltac:(lia) ltac:(lia)) as Hb.
    destruct (if nano u <? u64 (nano u - nano v - 1) then _ else _) as [n1 s1].
    destruct Hb as (Hn & b & -> & ->). rewrite u64_refill by lia. apply taia_val_parts; unfold taia_val, ATTO; lia.
Qed.

Lemma taia_less_ok u v : taia_ok u → taia_ok v → taia_less u v = (taia_val u <? taia_val v).
Proof.
  intros [Hus Hun Hua] [Hvs Hvn Hva]. unfold taia_less, taia_val, ATTO. apply eq_true_iff_eq. rewrite Z.ltb_lt.
  destruct (Z.ltb_spec (sec u) (sec v)), (Z.ltb_spec (sec v) (sec u)), (Z.ltb_spec (nano u) (nano v)),
    (Z.ltb_spec (nano v) (nano u)), (Z.ltb_spec (atto u) (atto v)); split; (done || lia).
Qed.

(** C28: On time stamps in normal form, [taia_add] and [taia_sub] add and
    subtract modulo 2^64 seconds and give one in normal form, and [taia_less]
    compares. *)
Theorem taia_arithmetic u v :
  taia_ok u → taia_ok v →
  (taia_ok (taia_add u v) ∧ taia_val (taia_add u v) = (taia_val u + taia_val v) mod (2 ^ 64 * ATTO)) ∧
  (taia_ok (taia_sub u v) ∧ taia_val (taia_sub u v) = (taia_val u - taia_val v) mod (2 ^ 64 * ATTO)) ∧
  taia_less u v = (taia_val u <? taia_val v).
Proof. intros Hu Hv. split; [by apply taia_add_ok|]. split; [by apply taia_sub_ok|by apply taia_less_ok]. Qed.

Lemma taia_arithmetic_witness :
  let u := TAIA 5 999999999 500000000 in
  let v := TAIA 7 0 500000001 in
  taia_add u v = TAIA 13 0 1 ∧ taia_sub v u = TAIA 1 1 1 ∧
  taia_less u v = (taia_val u <? taia_val v).
Proof.
  intros u v. split; [vm_compute; reflexivity|]. split; [vm_compute; reflexivity|].
  assert (taia_ok u) as Hu by (split; cbn; lia). assert (taia_ok v) as Hv by (split; cbn; lia).
  exact (proj2 (proj2 (taia_arithmetic u v Hu Hv))).
Defined.

Lemma byte_of_shift x k : 0 ≤ k → Z.land (Z.shiftr x k) 255 = (x / 2 ^ k) mod 256.
Proof. intros. change 255 with (Z.ones 8). by rewrite Z.land_ones, Z.shiftr_div_pow2. Qed.

Lemma tai_pack_be x : tai_pack x = be_bytes 8 x.
Proof.
  unfold tai_pack, be_bytes. cbn [le_bytes rev app]. rewrite !Z.div_div by lia.
  rewrite !byte_of_shift by lia. unfold u8, wrap. rewrite Z.shiftr_div_pow2 by lia.
  change 255 with (Z.ones 8). by rewrite Z.land_ones by lia.
Qed.

Lemma be_val_cons b l : be_val (b :: l) = b * 256 ^ len l + be_val l.
Proof.
  unfold be_val. cbn [rev].
  assert (∀ k, le_val (k ++ [b]) = b * 256 ^ len k + le_val k) as ->.
  { induction k as [|x k IH]; cbn [le_val app]; [change (256 ^ len (@nil Z)) with 1; lia|].
    rewrite IH, len_cons, Z.pow_add_r by (pose proof (len_nonneg k); lia). lia. }
  unfold len. by rewrite length_rev.
Qed.

Lemma be_val_nonneg l : is_bytes l → 0 ≤ be_val l.
Proof.
  induction 1 as [|b l Hb _ IH]; [done|]. rewrite be_val_cons. unfold is_word in Hb.
  assert (0 ≤ 256 ^ len l) by (apply Z.pow_nonneg; done). nia.
Qed.

Lemma unpack_loop pre l rest x :
  is_bytes l → 0 ≤ x → x * 256 ^ len l + be_val l < 2 ^ 64 →
  foldl (λ x i, x ← x; c ← (pre ++ l ++ rest).[i]; Some (u64 (u64 (Z.shiftl x 8) + c))) (Some x)
    (seqZ (len pre) (len l)) = Some (x * 256 ^ len l + be_val l).
Proof.
  intros Hb. revert pre x. induction Hb as [|b l Hb Hl IH]; intros pre x Hx Hlt.
  { change (256 ^ len (@nil Z)) with 1. change (be_val []) with 0. transitivity (Some x); [done|f_equal; lia]. }
  rewrite be_val_cons, len_cons, Z.pow_add_r in Hlt |- * by (pose proof (len_nonneg l); lia).
  pose proof (be_val_nonneg l Hl). unfold is_word in Hb. change (2 ^ 8) with 256 in Hb.
  assert (1 ≤ 256 ^ len l) by (pose proof (Z.pow_pos_nonneg 256 (len l) ltac:(done) (len_nonneg l)); lia).
  change (256 ^ 1) with 256 in *. set (P := 256 ^ len l) in *.
  assert (x * 256 + b ≤ (x * 256 + b) * P) by nia.
  rewrite seqZ_cons by (pose proof (len_nonneg l); lia). cbn [foldl].
  rewrite arr_get_app_r, Z.sub_diag by lia. cbn [app]. change ((b :: l ++ rest).[0]) with (Some b).
  cbn [mbind option_bind]. rewrite Z.shiftl_mul_pow2 by lia. change (2 ^ 8) with 256.
  rewrite (u64_id (x * 256)) by lia. rewrite u64_id by lia.
  specialize (IH (pre ++ [b]) (x * 256 + b) ltac:(lia) ltac:(lia)).
  rewrite <- app_assoc in IH. cbn [app] in IH. rewrite len_app, len_cons, len_nil in IH.
  replace (Z.succ (len pre)) with (len pre + (1 + 0)) by lia. replace (Z.pred (1 + len l)) with (len l) by lia.
  rewrite IH. f_equal. lia.
Qed.

Lemma tai_unpack_be l rest :
  is_bytes l → len l = 8 → tai_unpack (l ++ rest) = Some (be_val l).
Proof.
  intros Hb Hl. unfold tai_unpack. rewrite <- Hl at 1.
  pose proof (unpack_loop [] l rest 0 Hb ltac:(lia)) as H. cbn [app] in H. change (len (@nil Z)) with 0 in H.
  rewrite H; [f_equal; lia|]. pose proof (le_val_range (rev l) (Forall_rev Hb)) as Hr. unfold be_val.
  unfold len in *. rewrite length_rev, Hl in Hr. change (2 ^ (8 * 8)) with (2 ^ 64) in Hr. lia.
Qed.

(** A packed time stamp has 16 bytes, the first 8 of which [tai_unpack]
    reads back as the seconds, whatever follows. *)
Theorem tai_pack_unpack t rest :
  0 ≤ sec t < 2 ^ 64 →
  tai_unpack (taia_pack t ++ rest) = Some (sec t) ∧ len (taia_pack t) = 16.
Proof.
  intros Hx. split; [|done]. unfold taia_pack. rewrite tai_pack_be, <- !app_assoc. unfold be_bytes.
  assert (is_bytes (rev (le_bytes 8 (sec t)))) as Hb by (apply Forall_rev; apply is_bytes_le).
  rewrite tai_unpack_be; [|done|unfold len; by rewrite length_rev, length_le_bytes].
  f_equal. unfold be_val. rewrite rev_involutive, le_val_bytes by lia. apply Z.mod_small. done.
Qed.

Lemma tai_pack_unpack_witness :
  tai_unpack (taia_pack (TAIA 4611686018427387914 7 0) ++ [1; 2]) = Some 4611686018427387914.
Proof. exact (proj1 (tai_pack_unpack (TAIA 4611686018427387914 7 0) [1; 2] ltac:(cbn; lia))). Defined.

(** ** Buffers *)

(** What the descriptor took, in order. *)
Fixpoint accepted (fd : Z) (tr : trace) : list Z :=
  match tr with
  | [] => []
  | (Write fd' b, a) :: tr =>
      accepted fd tr ++ (if (fd' =? fd) && negb (ret a =? -1) then take (Z.to_nat (ret a)) b else [])
  | _ :: tr => accepted fd tr
  end.

(** [write(2)]: it takes at least a byte of what it is given, or fails. *)
Definition write_ok (os : oracle) : Prop :=
  ∀ tr fd b, b ≠ [] → let a := os tr (Write fd b) in ret a = -1 ∨ 1 ≤ ret a ≤ len b.

(** It does not fail. *)
Definition write_works (os : oracle) : Prop :=
  ∀ tr fd b, b ≠ [] → ret (os tr (Write fd b)) ≠ -1.

Section buffer_proofs.
Context {G : Type} (os : oracle).
Hypothesis (Hos : write_ok os).
Implicit Types st : G * trace.

Definition took (fd : Z) st (l : list Z) : Prop := accepted fd (snd st) = l.

Lemma allwrite_ok fuel fd buf st :
  post (allwrite os fuel fd buf) st (λ ok st', ∃ k,
    accepted fd (snd st') = accepted fd (snd st) ++ take k buf ∧
    ((ok : bool) = true → take k buf = buf)) (λ _ _, False).
Proof.
  revert buf st. induction fuel as [|fuel IH]; intros buf st; cbn [allwrite]; [done|].
  destruct (Z.eqb_spec (len buf) 0) as [Hz|Hz].
  { apply post_ret. exists 0%nat. assert (buf = []) as -> by (destruct buf; [done|rewrite len_cons in Hz; pose proof (len_nonneg buf); lia]).
    by rewrite app_nil_r. }
  assert (buf ≠ []) as Hne by (intros ->; done).
  eapply (post_bind _ _ _ (λ a st', a = os (snd st) (Write fd buf) ∧ snd st' = (Write fd buf, a) :: snd st)); [by apply post_sys|].
  intros a st' [Ha Hst']. specialize (Hos (snd st) fd buf Hne). rewrite <- Ha in Hos.
  assert (accepted fd (snd st') = accepted fd (snd st) ++ (if ret a =? -1 then [] else take (Z.to_nat (ret a)) buf)) as Hacc.
  { rewrite Hst'. cbn [accepted]. rewrite Z.eqb_refl. by destruct (ret a =? -1). }
  destruct (Z.eqb_spec (ret a) (-1)) as [|Hr].
  - destruct (Z.eqb_spec (errno a) EINTR).
    + eapply post_mono; [apply IH| |done]. cbv beta. intros ok st'' (k & Hk & Hok). exists k.
      by rewrite Hk, Hacc, app_nil_r.
    + apply post_ret. exists 0%nat. by rewrite Hacc.
  - destruct Hos as [|Hr']; [done|]. eapply post_mono; [apply IH| |done]. cbv beta. intros ok st'' (k & Hk & Hok).
    exists (Z.to_nat (ret a) + k)%nat. rewrite Hk, Hacc, <- app_assoc.
    assert (take (Z.to_nat (ret a) + k) buf = take (Z.to_nat (ret a)) buf ++ take k (drop (Z.to_nat (ret a)) buf)) as Htk.
    { rewrite <- (take_drop (Z.to_nat (ret a)) buf) at 1. rewrite take_app_add'; [done|].
      rewrite length_take. unfold len in *. lia. }
    rewrite Htk. split; [done|]. intros Ht. rewrite (Hok Ht). apply take_drop.
Qed.

Lemma allwrite_total fuel fd buf st :
  write_works os → (length buf < fuel)%nat → total (allwrite os fuel fd buf) st (λ ok _, ok = true).
Proof.
  intros Hw. revert buf st. induction fuel as [|fuel IH]; intros buf st Hf; [lia|]. cbn [allwrite].
  destruct (Z.eqb_spec (len buf) 0) as [Hz|Hz]; [done|].
  assert (buf ≠ []) as Hne by (intros ->; done).
  specialize (Hos (snd st) fd buf Hne). specialize (Hw (snd st) fd buf Hne).
  unfold total, mbind, prog_bind, sys. destruct st as [g tr]. cbn [fst snd] in *.
  set (a := os tr (Write fd buf)) in *. rewrite (proj2 (Z.eqb_neq (ret a) (-1))) by done.
  apply IH. rewrite length_drop. unfold len in *. lia.
Qed.

(** The bytes that wait in the buffer. *)
Definition pending (s : buffer) : list Z := take (Z.to_nat (bp s)) (bx s).

Record buffer_ok (s : buffer) : Prop := {
  buf_len : len (bx s) = bn s;
  buf_pos : 0 ≤ bp s ≤ bn s;
}.

(** Everything put so far went out or waits, in order; after a failure what
    went out is a prefix of it. *)
Definition streams (s s' : buffer) (buf : list Z) (ok : bool) (st st' : G * trace) : Prop :=
  bfd s' = bfd s ∧ bn s' = bn s ∧ buffer_ok s' ∧
  (ok = true → accepted (bfd s) (snd st') ++ pending s' = accepted (bfd s) (snd st) ++ pending s ++ buf) ∧
  ∃ k, accepted (bfd s) (snd st') = accepted (bfd s) (snd st) ++ take k (pending s ++ buf).

Lemma buffer_flush_ok fuel s st :
  buffer_ok s →
  post (buffer_flush os fuel s) st (λ '(ok, s') st', streams s s' [] ok st st' ∧ ((ok : bool) = true → bp s' = 0))
    (λ _ _, False).
Proof.
  intros [Hl Hp]. unfold buffer_flush. destruct (Z.eqb_spec (bp s) 0) as [Hz|Hz].
  - apply post_ret. split; [|done]. split_and!; [done|done|by split| |].
    + intros _. by rewrite app_nil_r.
    + exists 0%nat. by rewrite app_nil_r.
  - eapply post_bind; [apply allwrite_ok|]. cbv beta. intros ok st' (k & Hk & Hok). apply post_ret.
    cbn [bp]. split; [|done]. unfold streams. cbn [bfd bn]. split_and!; [done|done|by split; cbn; lia| |].
    + intros Ht. specialize (Hok Ht). rewrite Hok in Hk. unfold pending. cbn [bp bx]. by rewrite Hk, !app_nil_r.
    + exists k. unfold pending. by rewrite app_nil_r.
Qed.

Lemma put_blocks_ok fuel rounds s n buf st :
  0 ≤ bn s → 0 < n →
  post (put_blocks os fuel rounds s n buf) st (λ '(ok, rest) st',
    ((ok : bool) = true → ∃ sent, buf = sent ++ rest ∧ len rest ≤ bn s ∧
      accepted (bfd s) (snd st') = accepted (bfd s) (snd st) ++ sent) ∧
    ∃ k, accepted (bfd s) (snd st') = accepted (bfd s) (snd st) ++ take k buf) (λ _ _, False).
Proof.
  intros Hbn. revert n buf st. induction rounds as [|rounds IH]; intros n buf st Hn; cbn [put_blocks]; [done|].
  destruct (Z.ltb_spec (bn s) (len buf)) as [Hlt|].
  2: { apply post_ret. split; [intros _; exists []; split_and!; [done|done|by rewrite app_nil_r]|].
       exists 0%nat. by rewrite app_nil_r. }
  set (m := if len buf <? n then len buf else n).
  assert (0 < m ≤ len buf) as Hm by (unfold m; destruct (Z.ltb_spec (len buf) n); lia).
  eapply post_bind; [apply allwrite_ok|]. cbv beta. intros [] st' (k & Hk & Hok).
  - specialize (Hok eq_refl). rewrite Hok in Hk.
    eapply post_mono; [apply (IH m); lia| |done]. intros [ok rest] st''. cbv beta iota. intros [Hr (k' & Hk')]. split.
    + intros Ht. destruct (Hr Ht) as (sent & Hd & Hl & Ha). exists (take (Z.to_nat m) buf ++ sent).
      split_and!; [|done|by rewrite Ha, Hk, app_assoc]. by rewrite <- app_assoc, <- Hd, take_drop.
    + exists (Z.to_nat m + k')%nat. rewrite Hk', Hk, <- app_assoc. f_equal.
      rewrite <- (take_drop (Z.to_nat m) buf) at 3. rewrite take_app_add'; [done|].
      rewrite length_take. unfold len in *. lia.
  - apply post_ret. split; [done|]. exists (k `min` Z.to_nat m)%nat. by rewrite Hk, take_take.
Qed.

Lemma buffer_store_ok s buf :
  buffer_ok s → bp s + len buf ≤ bn s →
  buffer_ok (buffer_store s buf) ∧ pending (buffer_store s buf) = pending s ++ buf.
Proof.
  intros [Hl Hp] Hle. unfold buffer_store, pending. cbn [bp bx bn]. pose proof (len_nonneg buf). split.
  - split; cbn [bx bn bp]; [|lia]. rewrite !len_app. unfold len in *. rewrite length_take, length_drop. lia.
  - rewrite app_assoc, take_app_le.
    + rewrite take_ge; [done|]. rewrite length_app, length_take. unfold len in *. lia.
    + rewrite length_app, length_take. unfold len in *. lia.
Qed.

Lemma streams_trans s s1 s2 b1 b2 ok st st1 st2 :
  streams s s1 b1 true st st1 → streams s1 s2 b2 ok st1 st2 → streams s s2 (b1 ++ b2) ok st st2.
Proof.
  intros (Hf1 & Hn1 & Hb1 & Ha1 & k1 & Hk1) (Hf2 & Hn2 & Hb2 & Ha2 & k2 & Hk2). specialize (Ha1 eq_refl).
  rewrite Hf1 in *. split_and!; [congruence|congruence|done| |].
  - intros Ht. rewrite (Ha2 Ht), app_assoc, Ha1. by rewrite <- !app_assoc.
  - assert (accepted (bfd s) (snd st1) ++ pending s1 ++ b2 = accepted (bfd s) (snd st) ++ pending s ++ b1 ++ b2) as Heq.
    { by rewrite app_assoc, Ha1, <- !app_assoc. }
    rewrite Hk1, <- app_assoc in Heq. apply app_inv_head in Heq.
    exists (length (take k1 (pending s ++ b1)) + k2)%nat. rewrite Hk2, Hk1, <- app_assoc. f_equal.
    rewrite <- Heq. by rewrite take_app_add' by done.
Qed.

Lemma buffer_put_ok fuel s buf st :
  buffer_ok s → post (buffer_put os fuel s buf) st (λ '(ok, s') st', streams s s' buf ok st st') (λ _ _, False).
Proof.
  intros Hb. unfold buffer_put. destruct (Z.ltb_spec (bn s - bp s) (len buf)) as [Hlt|].
  2: { apply post_ret. destruct (buffer_store_ok s buf Hb ltac:(lia)) as [? Hp]. split_and!; try done.
       - intros _. by rewrite Hp.
       - exists 0%nat. by rewrite app_nil_r. }
  eapply post_bind; [by apply buffer_flush_ok|]. intros [ok s1] st1 [Hs1 Hz]. cbv beta iota.
  destruct ok; cbn [negb]; [|apply post_ret].
  2: { destruct Hs1 as (? & ? & ? & _ & k & Hk). split_and!; try done.
       exists (k `min` length (pending s))%nat. rewrite Hk. f_equal. rewrite app_nil_r.
       rewrite take_app_le by lia. by rewrite <- take_take, firstn_all. }
  specialize (Hz eq_refl). pose proof Hs1 as (_ & _ & Hb1 & _). pose proof Hb1 as [_ Hp1].
  eapply post_bind; [apply (put_blocks_ok fuel); [lia|unfold BUFFER_OUTSIZE; lia]|].
  intros [ok rest] st2. cbv beta iota. intros [Hok (k & Hk)].
  assert (pending s1 = []) as Hnil by (unfold pending; by rewrite Hz).
  destruct ok; apply post_ret; change buf with ([] ++ buf); (eapply streams_trans; [exact Hs1|]).
  - destruct (Hok eq_refl) as (sent & -> & Hl & Ha). destruct (buffer_store_ok s1 rest Hb1 ltac:(lia)) as [? Hp].
    split_and!; try done.
    + intros _. by rewrite Ha, Hp, Hnil, <- app_assoc.
    + exists (length sent). by rewrite Ha, Hnil; cbn [app]; rewrite take_app_length.
  - split_and!; try done. exists k. by rewrite Hk, Hnil.
Qed.

(** Puts followed by a flush. *)
Fixpoint put_all (fuel : nat) (s : buffer) (bufs : list (list Z)) : prog G bool :=
  match bufs with
  | [] => '(ok, _) ← buffer_flush os fuel s; mret ok
  | buf :: bufs => '(ok, s) ← buffer_put os fuel s buf; if (ok : bool) then put_all fuel s bufs else mret false
  end.

Lemma put_all_ok fuel s bufs st :
  buffer_ok s → post (put_all fuel s bufs) st (λ ok st',
    ((ok : bool) = true → accepted (bfd s) (snd st') = accepted (bfd s) (snd st) ++ pending s ++ concat bufs) ∧
    ∃ k, accepted (bfd s) (snd st') = accepted (bfd s) (snd st) ++ take k (pending s ++ concat bufs)) (λ _ _, False).
Proof.
  revert s st. induction bufs as [|buf bufs IH]; intros s st Hb; cbn [put_all concat].
  - eapply post_bind; [by apply buffer_flush_ok|]. intros [ok s1] st1 [(Hf & _ & _ & Ha & Hk) Hz]. apply post_ret.
    split; [|done]. intros Ht. rewrite <- (Ha Ht). unfold pending. by rewrite (Hz Ht), app_nil_r.
  - eapply post_bind; [by apply buffer_put_ok|]. intros [ok s1] st1. cbv beta iota.
    intros (Hf & Hn & Hb1 & Ha & k & Hk). destruct ok.
    + eapply post_mono; [by apply IH| |done]. cbv beta. intros ok st2 [Hok (k2 & Hk2)]. rewrite Hf in *. specialize (Ha eq_refl).
      assert (accepted (bfd s) (snd st1) ++ pending s1 ++ concat bufs = accepted (bfd s) (snd st) ++ pending s ++ buf ++ concat bufs) as Heq.
      { by rewrite app_assoc, Ha, <- !app_assoc. }
      split; [intros Ht; by rewrite (Hok Ht)|].
      rewrite Hk, <- app_assoc in Heq. apply app_inv_head in Heq.
      exists (length (take k (pending s ++ buf)) + k2)%nat. rewrite Hk2, Hk, <- app_assoc. f_equal.
      rewrite <- Heq. by rewrite take_app_add' by done.
    + apply post_ret. split; [done|]. exists (k `min` length (pending s ++ buf))%nat. rewrite Hk. f_equal.
      rewrite app_assoc, (take_app_le (pending s ++ buf)) by lia. by rewrite <- take_take, firstn_all.
Qed.

(** With a kernel whose writes work, enough fuel is the size of the largest
    piece written at once. *)
Section works.
Hypothesis (Hw : write_works os).

Lemma buffer_flush_total fuel s st :
  buffer_ok s → (Z.to_nat (bn s) < fuel)%nat → total (buffer_flush os fuel s) st (λ '(ok, _) _, ok = true).
Proof.
  intros [Hl Hp] Hf. unfold buffer_flush. destruct (bp s =? 0); [done|].
  eapply total_bind; [apply allwrite_total; [done|]|].
  - rewrite length_take. lia.
  - by intros ok st' ->.
Qed.

Lemma put_blocks_total fuel rounds s n buf st :
  0 ≤ bn s → 0 < n → (length buf < rounds)%nat → (length buf < fuel)%nat →
  total (put_blocks os fuel rounds s n buf) st (λ '(ok, _) _, ok = true).
Proof.
  intros Hbn. revert n buf st. induction rounds as [|rounds IH]; intros n buf st Hn Hr Hf; cbn [put_blocks]; [lia|].
  destruct (Z.ltb_spec (bn s) (len buf)) as [Hlt|]; [|done].
  assert (0 < (if len buf <? n then len buf else n)) by (destruct (Z.ltb_spec (len buf) n); lia).
  eapply total_bind; [apply allwrite_total; [done|]|].
  - rewrite length_take. lia.
  - intros ok st' ->. cbv beta iota. apply IH; rewrite ?length_drop; unfold len in *; lia.
Qed.

Lemma buffer_put_total fuel s buf st :
  buffer_ok s → (Z.to_nat (bn s) < fuel)%nat → (length buf < fuel)%nat →
  total (buffer_put os fuel s buf) st (λ '(ok, _) _, ok = true).
Proof.
  intros Hb Hf Hf'. unfold buffer_put. destruct (bn s - bp s <? len buf); [|done].
  eapply total_bind; [eapply total_post; [by apply buffer_flush_total|by apply buffer_flush_ok]|].
  intros [ok s1] st1 [-> [(_ & Hn & Hb1 & _) _]]. cbn [negb].
  eapply total_bind; [apply put_blocks_total; [destruct Hb1; lia|unfold BUFFER_OUTSIZE; lia|lia|lia]|].
  by intros [ok rest] st2 ->.
Qed.

Lemma put_all_total fuel s bufs st :
  buffer_ok s → (Z.to_nat (bn s) < fuel)%nat → Forall (λ buf, length buf < fuel)%nat bufs →
  total (put_all fuel s bufs) st (λ ok _, ok = true).
Proof.
  intros Hb Hf Hall. revert s st Hb Hf. induction Hall as [|buf bufs Hbuf _ IH]; intros s st Hb Hf; cbn [put_all].
  - eapply total_bind; [by apply buffer_flush_total|]. by intros [ok s1] st1 ->.
  - eapply total_bind; [eapply total_post; [by apply buffer_put_total|by apply buffer_put_ok]|].
    intros [ok s1] st1 [-> (_ & Hn & Hb1 & _)]. apply IH; [done|by rewrite Hn].
Qed.
End works.
End buffer_proofs.

(** Bytes put into a fresh buffer and flushed reach the descriptor once
    each and in order whatever sizes the kernel's writes take and however
    often they are interrupted; after a failure what reached it is a prefix.
    With a kernel whose writes work all of it succeeds. *)
Theorem buffer_stream {G} (os : oracle) fuel fd space bufs (st : G * trace) :
  write_ok os →
  post (put_all os fuel (buffer_init fd space) bufs) st (λ ok st', ∃ sent rest,
    accepted fd (snd st') = accepted fd (snd st) ++ sent ∧ concat bufs = sent ++ rest ∧
    ((ok : bool) = true → rest = [])) (λ _ _, False) ∧
  (write_works os → (length space < fuel)%nat → Forall (λ buf, length buf < fuel)%nat bufs →
    total (put_all os fuel (buffer_init fd space) bufs) st (λ ok _, ok = true)).
Proof.
  intros Hos. assert (buffer_ok (buffer_init fd space)) as Hb.
  { split; cbn; [done|]. pose proof (len_nonneg space). lia. }
  split.
  - eapply post_mono; [apply (put_all_ok os Hos fuel (buffer_init fd space) bufs st Hb)| |done].
    cbv beta. cbn [buffer_init bfd]. change (pending _) with (@nil Z). cbn [app]. intros ok st' [Hok (k & Hk)].
    destruct ok.
    + exists (concat bufs), []. split_and!; [by apply Hok|by rewrite app_nil_r|done].
    + exists (take k (concat bufs)), (drop k (concat bufs)). split_and!; [done|by rewrite take_drop|done].
  - intros Hw Hf Hall. apply put_all_total; try done. cbn [buffer_init bn]. unfold len. lia.
Qed.

(** A kernel that takes at most three bytes at a time. *)
Definition slow_kernel : oracle := λ tr c,
  match c with
  | Write _ b => Ans (Z.min 3 (len b)) 0 []
  | _ => Ans 0 0 []
  end.

Lemma slow_kernel_ok : write_ok slow_kernel.
Proof. intros tr fd b Hb. cbn. right. destruct b; [done|]. rewrite len_cons. pose proof (len_nonneg b). lia. Qed.

Lemma buffer_stream_witness :
  total (put_all slow_kernel 10 (buffer_init 1 [0; 0; 0; 0]) [[1; 2; 3]; [4; 5; 6; 7; 8]; [9]]) (tt, [])
    (λ ok _, ok = true).
Proof.
  refine (proj2 (buffer_stream slow_kernel 10 1 [0; 0; 0; 0] [[1; 2; 3]; [4; 5; 6; 7; 8]; [9]] (tt, []) slow_kernel_ok) _ _ _).
  - intros tr fd b Hb. cbn. destruct b; [done|]. rewrite len_cons. pose proof (len_nonneg b). lia.
  - cbn. lia.
  - repeat constructor; cbn; lia.
Defined.
