(* ===== verification/Runsv.v ===== *)
(** The process supervisor, [runit/src/runsv.c]: the two services it keeps
    ([svd[0]] and its logger [svd[1]]), the control characters, the main loop. *)
From stdpp Require Import strings.
From S2P Require Import Prelude Os Djb.
Open Scope list_scope.
Open Scope Z_scope.

Definition S_DOWN : Z := 0.
Definition S_RUN : Z := 1.
Definition S_FINISH : Z := 2.
Definition C_NOOP : Z := 0.
Definition C_TERM : Z := 1.
Definition C_PAUSE : Z := 2.
Definition W_UP : Z := 0.
Definition W_DOWN : Z := 1.
Definition W_EXIT : Z := 2.

Definition SIGHUP : Z := 1.
Definition SIGINT : Z := 2.
Definition SIGQUIT : Z := 3.
Definition SIGKILL : Z := 9.
Definition SIGUSR1 : Z := 10.
Definition SIGUSR2 : Z := 12.
Definition SIGALRM : Z := 14.
Definition SIGTERM : Z := 15.
Definition SIGCONT : Z := 18.
Definition SIGSTOP : Z := 19.
Definition ENOENT : Z := 2.
Definition EINVAL : Z := 22.
Definition S_IXUSR : Z := 64.
Definition S_ISDIR (mode : Z) : bool := Z.land mode 61440 =? 16384.
Definition S_ISFIFO (mode : Z) : bool := Z.land mode 61440 =? 4096.

(** The bytes of a string constant, and a character constant. *)
Definition bytes (s : string) : list Z := map (λ a, Z.of_N (Ascii.N_of_ascii a)) (String.list_ascii_of_string s).
Definition chr (s : string) : Z := peek (bytes s) 0.

Record svdir := SV {
  pid : Z;
  state : Z;
  ctrls : Z;
  want : Z;
  start : taia;
  wstat : Z;
  fdcontrol : Z;
  islog : bool;
}.

Record runsv := RS {
  svd0 : svdir;
  svd1 : svdir;
  sigterm : bool;
  haslog : bool;
  pidchanged : bool;
  logpipe0 : Z;
  logpipe1 : Z;
}.

(** [&svd[1]] is [true], [&svd[0]] is [false]. *)
Definition svd (g : runsv) (i : bool) : svdir := if i then svd1 g else svd0 g.

Definition set_svd (i : bool) (f : svdir → svdir) (g : runsv) : runsv :=
  RS (if i then svd0 g else f (svd0 g)) (if i then f (svd1 g) else svd1 g)
     (sigterm g) (haslog g) (pidchanged g) (logpipe0 g) (logpipe1 g).
Definition set_pidchanged (b : bool) (g : runsv) : runsv :=
  RS (svd0 g) (svd1 g) (sigterm g) (haslog g) b (logpipe0 g) (logpipe1 g).
Definition set_sigterm (b : bool) (g : runsv) : runsv :=
  RS (svd0 g) (svd1 g) b (haslog g) (pidchanged g) (logpipe0 g) (logpipe1 g).

Definition with_pid (p : Z) (s : svdir) := SV p (state s) (ctrls s) (want s) (start s) (wstat s) (fdcontrol s) (islog s).
Definition with_state (x : Z) (s : svdir) := SV (pid s) x (ctrls s) (want s) (start s) (wstat s) (fdcontrol s) (islog s).
Definition with_ctrl (x : Z) (s : svdir) := SV (pid s) (state s) x (want s) (start s) (wstat s) (fdcontrol s) (islog s).
Definition with_want (x : Z) (s : svdir) := SV (pid s) (state s) (ctrls s) x (start s) (wstat s) (fdcontrol s) (islog s).
Definition with_start (x : taia) (s : svdir) := SV (pid s) (state s) (ctrls s) (want s) x (wstat s) (fdcontrol s) (islog s).
Definition with_wstat (x : Z) (s : svdir) := SV (pid s) (state s) (ctrls s) (want s) (start s) x (fdcontrol s) (islog s).
Definition with_fdcontrol (x : Z) (s : svdir) := SV (pid s) (state s) (ctrls s) (want s) (start s) (wstat s) x (islog s).

Definition has (flags bit : Z) : bool := negb (Z.land flags bit =? 0).

(** [s[fmt_ulong(s, u)] = 0] on an array of FMT_ULONG bytes, as a string. *)
Definition FMT_ULONG : Z := 40.
Definition ulong_str (u : Z) : list Z :=
  match fmt_ulong (replicate (Z.to_nat FMT_ULONG) 0) 0 (u64 u) with
  | Some (n, s) => take (Z.to_nat n) s
  | None => []
  end.

(** The text of supervise/stat. *)
Definition stat_line (s : svdir) : list (list Z) :=
  (if state s =? S_DOWN then [bytes "down"] else if state s =? S_RUN then [bytes "run"]
   else if state s =? S_FINISH then [bytes "finish"] else []) ++
  (if has (ctrls s) C_PAUSE then [bytes ", paused"] else []) ++
  (if has (ctrls s) C_TERM then [bytes ", got TERM"] else []) ++
  (if negb (state s =? S_DOWN) then
     if want s =? W_DOWN then [bytes ", want down"] else if want s =? W_EXIT then [bytes ", want exit"] else []
   else []) ++
  [[10]].

(** The 20 bytes of supervise/status. *)
Definition status_bytes (s : svdir) : list Z :=
  take 12 (taia_pack (start s)) ++
  [u8 (pid s); u8 (Z.shiftr (u64 (pid s)) 8); u8 (Z.shiftr (u64 (pid s)) 16); u8 (Z.shiftr (u64 (pid s)) 24);
   if has (ctrls s) C_PAUSE then 1 else 0;
   if want s =? W_UP then chr "u" else chr "d";
   if has (ctrls s) C_TERM then 1 else 0;
   u8 (state s)].

Section runsv.
Context (os : oracle) (fuel : nat).
Notation P := (prog runsv).

Definition warn (msg : string) : P unit := _ ← sys os (Warn msg); mret tt.
Definition fatal {A} : P A := done (Exited 111).

Definition sup (s : svdir) (f : string) : string :=
  String.append (if islog s then "log/supervise/" else "supervise/") f.

(** [buffer_puts] of each piece, then [buffer_flush]; the results are not
    looked at. *)
Fixpoint puts_flush (b : buffer) (pieces : list (list Z)) : P unit :=
  match pieces with
  | [] => _ ← buffer_flush os fuel b; mret tt
  | l :: pieces => '(_, b) ← buffer_put os fuel b l; puts_flush b pieces
  end.

(** What a step of [update_status] ends with: [false] for its early returns. *)
Definition update_pid (i : bool) : P bool :=
  g ← get;
  let s := svd g i in
  if pidchanged g then
    fd ← sys os (OpenTrunc (sup s "pid.new"));
    if ret fd =? -1 then warn "unable to open pid.new";; mret false else
    (if pid s =? 0 then mret tt
     else puts_flush (buffer_init (ret fd) (replicate 64 0)) [ulong_str (pid s); [10]]);;
    sys os (Close (ret fd));;
    r ← sys os (Rename (sup s "pid.new") (sup s "pid"));
    if ret r =? -1 then warn "unable to rename pid.new";; mret false else
    modify (set_pidchanged false);; mret true
  else mret true.

Definition update_stat (i : bool) : P bool :=
  g ← get;
  let s := svd g i in
  fd ← sys os (OpenTrunc (sup s "stat.new"));
  if ret fd =? -1 then warn "unable to open stat.new";; mret false else
  puts_flush (buffer_init (ret fd) (replicate 64 0)) (stat_line s);;
  sys os (Close (ret fd));;
  r ← sys os (Rename (sup s "stat.new") (sup s "stat"));
  (if ret r =? -1 then warn "unable to rename stat.new" else mret tt);;
  mret true.

Definition update_bytes (i : bool) : P unit :=
  g ← get;
  let s := svd g i in
  fd ← sys os (OpenTrunc (sup s "status.new"));
  if ret fd =? -1 then warn "unable to open status.new" else
  l ← sys os (Write (ret fd) (status_bytes s));
  if ret l =? -1 then
    warn "unable to write status.new";; sys os (Close (ret fd));;
    sys os (Unlink (sup s "status.new"));; mret tt
  else
    sys os (Close (ret fd));;
    if ret l <? 20 then warn "unable to write status.new: partial write." else
    r ← sys os (Rename (sup s "status.new") (sup s "status"));
    if ret r =? -1 then warn "unable to rename status.new" else mret tt.

Definition update_status (i : bool) : P unit :=
  ok ← update_pid i;
  if negb ok then mret tt else
  ok ← update_stat i;
  if negb ok then mret tt else update_bytes i.

(** [while (wait_pid(&w, pid) == -1)]: the status, or nothing after an error. *)
Fixpoint wait_child (n : nat) (p : Z) : P (option Z) :=
  match n with
  | O => spin
  | S n =>
      a ← sys os (Wait_pid p);
      if ret a =? -1 then
        if errno a =? EINTR then wait_child n p else warn "unable to wait for child";; mret None
      else mret (Some (peek (out a) 0))
  end.

(** A process that runs another program; the program's failure to start ends
    it with 111. *)
Definition exec {A} (prog : string) (args : list (list Z)) : P A := done (Execd prog args).

Definition control_name (c : Z) : string :=
  String.append "control/" (String.String (Ascii.ascii_of_N (Z.to_N c)) String.EmptyString).

Definition custom (i : bool) (c : Z) : P bool :=
  g ← get;
  if islog (svd g i) then mret false else
  let a := control_name c in
  st ← sys os (Stat a);
  if ret st =? 0 then
    if negb (has (peek (out st) 0) S_IXUSR) then mret false else
    p ← sys os Fork;
    if ret p =? -1 then warn "unable to fork";; mret false else
    if ret p =? 0 then
      (if haslog g then
         r ← sys os (Fd_copy 1 (logpipe1 g));
         if ret r =? -1 then warn "unable to setup stdout" else mret tt
       else mret tt);;
      exec a []
    else
      w ← wait_child fuel (ret p);
      mret (match w with Some w => wait_exitcode w =? 0 | None => false end)
  else if errno st =? ENOENT then mret false
  else warn "unable to stat";; mret false.

Definition kill (p sig : Z) : P unit := _ ← sys os (Kill p sig); mret tt.

Definition stopservice (i : bool) : P unit :=
  g ← get;
  (if negb (pid (svd g i) =? 0) then
     done ← custom i (chr "t");
     if (done : bool) then mret tt else
     kill (pid (svd g i)) SIGTERM;;
     modify (set_svd i (λ s, with_ctrl (Z.lor (ctrls s) C_TERM) s));;
     update_status i
   else mret tt);;
  g ← get;
  let s := svd g i in
  if want s =? W_DOWN then kill (pid s) SIGCONT;; _ ← custom i (chr "d"); mret tt else
  if want s =? W_EXIT then kill (pid s) SIGCONT;; _ ← custom i (chr "x"); mret tt else mret tt.

(** [while ((p = fork()) == -1)]. *)
Fixpoint fork_retry (n : nat) : P Z :=
  match n with
  | O => spin
  | S n =>
      p ← sys os Fork;
      if ret p =? -1 then warn "unable to fork, sleeping";; sys os (Sleep 5);; fork_retry n
      else mret (ret p)
  end.

(** The child of [startservice]. *)
Definition start_child {A} (i : bool) (run : string) (args : list (list Z)) : P A :=
  g ← get;
  (if haslog g then
     if islog (svd g i) then
       r ← sys os (Fd_copy 0 (logpipe0 g));
       if ret r =? -1 then fatal else
       sys os (Close (logpipe1 g));;
       r ← sys os (Chdir "./log");
       if ret r =? -1 then fatal else mret tt
     else
       r ← sys os (Fd_copy 1 (logpipe1 g));
       if ret r =? -1 then fatal else
       sys os (Close (logpipe0 g));; mret tt
   else mret tt);;
  exec run args.

Definition startservice (i : bool) : P unit :=
  g ← get;
  let s := svd g i in
  '(run, args) ←
     (if state s =? S_FINISH then
        let code := ulong_str (wait_exitcode (wstat s)) in
        mret ("./finish"%string,
              [if negb (wait_crashed (wstat s) =? 0) then bytes "-1" else code;
               ulong_str (Z.land (wstat s) 255)])
      else _ ← custom i (chr "u"); mret ("./run"%string, []));
  g ← get;
  (if negb (pid (svd g i) =? 0) then stopservice i else mret tt);;
  p ← fork_retry fuel;
  if p =? 0 then start_child i run args else
  g ← get;
  (if negb (state (svd g i) =? S_FINISH) then
     t ← taia_now os;
     modify (set_svd i (λ s, with_state S_RUN (with_start t s)))
   else mret tt);;
  modify (set_svd i (λ s, with_ctrl C_NOOP (with_pid p s)));;
  modify (set_pidchanged true);;
  update_status i.

(** The signal of the control characters that only send one. *)
Definition signal_of (c : Z) : option Z :=
  if c =? chr "a" then Some SIGALRM else if c =? chr "h" then Some SIGHUP
  else if c =? chr "i" then Some SIGINT else if c =? chr "q" then Some SIGQUIT
  else if c =? chr "1" then Some SIGUSR1 else if c =? chr "2" then Some SIGUSR2 else None.

(** [if ((s->state == S_RUN) && ! custom(s, c)) kill(s->pid, sig)]. *)
Definition signal_service (i : bool) (c sig : Z) : P unit :=
  g ← get;
  if state (svd g i) =? S_RUN then
    done ← custom i c;
    if (done : bool) then mret tt else kill (pid (svd g i)) sig
  else mret tt.

Definition set_want (i : bool) (w : Z) : P unit :=
  modify (set_svd i (with_want w));; update_status i.

Definition stop_running (i : bool) : P unit :=
  g ← get; if state (svd g i) =? S_RUN then stopservice i else mret tt.
Definition start_down (i : bool) : P unit :=
  g ← get; if state (svd g i) =? S_DOWN then startservice i else mret tt.

Definition ctrl (i : bool) (c : Z) : P unit :=
  g ← get;
  if c =? chr "d" then set_want i W_DOWN;; stop_running i
  else if c =? chr "u" then set_want i W_UP;; start_down i
  else if c =? chr "x" then
    if islog (svd g i) then mret tt else set_want i W_EXIT;; stop_running i
  else if c =? chr "t" then stop_running i
  else if c =? chr "k" then
    signal_service i c SIGKILL;; modify (set_svd i (with_state S_DOWN))
  else if c =? chr "p" then
    signal_service i c SIGSTOP;;
    modify (set_svd i (λ s, with_ctrl (Z.lor (ctrls s) C_PAUSE) s));; update_status i
  else if c =? chr "c" then
    signal_service i c SIGCONT;;
    modify (set_svd i (λ s, if has (ctrls s) C_PAUSE then with_ctrl (Z.ldiff (ctrls s) C_PAUSE) s else s));;
    update_status i
  else if c =? chr "o" then set_want i W_DOWN;; start_down i
  else match signal_of c with
       | Some sig => signal_service i c sig
       | None => mret tt
       end.

(** ** The main loop *)

(** "[if (! svd[1].pid && ...) startservice(&svd[1]); ...]". *)
Definition start_wanted : P unit :=
  g ← get;
  (if haslog g && (pid (svd1 g) =? 0) && (want (svd1 g) =? W_UP) then startservice true else mret tt);;
  g ← get;
  if (pid (svd0 g) =? 0) && ((want (svd0 g) =? W_UP) || (state (svd0 g) =? S_FINISH))
  then startservice false else mret tt.

(** [while (read(selfpipe[0], &ch, 1) == 1)]. *)
Definition drain (selfpipe : Z) : P unit :=
  repeat fuel (a ← sys os (Read selfpipe 1); mret (ret a =? 1)).

(** A child that is down: the time of its death becomes [start], and a start
    less than a second ago is paid for. *)
Definition went_down (i : bool) : P unit :=
  g ← get;
  let deadline := taia_add (taia_uint 1) (start (svd g i)) in
  t ← taia_now os;
  modify (set_svd i (with_start t));;
  update_status i;;
  if taia_less t deadline then sys os (Sleep 1);; mret tt else mret tt.

(** [true]: [continue]. *)
Definition reap_service (child w : Z) : P bool :=
  g ← get;
  if child =? pid (svd0 g) then
    modify (set_svd false (λ s, with_ctrl (Z.ldiff (ctrls s) C_TERM) (with_wstat w (with_pid 0 s))));;
    modify (set_pidchanged true);;
    g ← get;
    finish ← (if negb (state (svd0 g) =? S_FINISH) then
                fd ← sys os (OpenRead "finish");
                if ret fd =? -1 then mret false else
                sys os (Close (ret fd));;
                modify (set_svd false (with_state S_FINISH));;
                update_status false;; mret true
              else mret false);
    if (finish : bool) then mret true else
    modify (set_svd false (with_state S_DOWN));;
    went_down false;; mret false
  else mret false.

Definition reap_log (child : Z) : P unit :=
  g ← get;
  if haslog g && (child =? pid (svd1 g)) then
    modify (set_svd true (λ s, with_ctrl (Z.ldiff (ctrls s) C_TERM) (with_state S_DOWN (with_pid 0 s))));;
    modify (set_pidchanged true);;
    went_down true
  else mret tt.

Definition reap : P unit :=
  repeat fuel
    (a ← sys os Wait_nohang;
     let child := ret a in
     if child =? 0 then mret false else
     if (child =? -1) && negb (errno a =? EINTR) then mret false else
     next ← reap_service child (peek (out a) 0);
     if (next : bool) then mret true else
     reap_log child;; mret true).

Definition read_control (i : bool) : P unit :=
  g ← get;
  a ← sys os (Read (fdcontrol (svd g i)) 1);
  if ret a =? 1 then ctrl i (peek (out a) 0) else mret tt.

Definition check_exit : P unit :=
  g ← get;
  if (want (svd0 g) =? W_EXIT) && (state (svd0 g) =? S_DOWN) then
    if pid (svd1 g) =? 0 then done (Exited 0) else
    if negb (want (svd1 g) =? W_EXIT) then
      modify (set_svd true (with_want W_EXIT));;
      update_status true;;
      r ← sys os (Close (logpipe1 g));
      (if ret r =? -1 then warn "unable to close logpipe[1]" else mret tt);;
      r ← sys os (Close (logpipe0 g));
      if ret r =? -1 then warn "unable to close logpipe[0]" else mret tt
    else mret tt
  else mret tt.

(** One round; the signals are unblocked during [iopause] only, so it is there
    that a SIGTERM sets [sigterm]. *)
Definition main_round (selfpipe : Z) : P unit :=
  start_wanted;;
  _ ← taia_now os;
  a ← sys os Iopause;
  (if peek (out a) 0 =? 1 then modify (set_sigterm true) else mret tt);;
  drain selfpipe;;
  reap;;
  read_control false;;
  g ← get;
  (if haslog g then read_control true else mret tt);;
  g ← get;
  (if sigterm g then ctrl false (chr "x");; modify (set_sigterm false) else mret tt);;
  check_exit.

(** The first rounds of [for (;;)]; what holds after any number of them holds
    of the loop. *)
Fixpoint main_loop (rounds : nat) (selfpipe : Z) : P unit :=
  match rounds with
  | O => skip
  | S rounds => main_round selfpipe;; main_loop rounds selfpipe
  end.

(** ** Startup

    What [main] does before the loop.  Close-on-exec and non-blocking flags
    and the signal handlers are left out; [pidchanged] and the rest of the
    globals start as C initialises them. *)
Definition set_haslog (b : bool) (g : runsv) : runsv :=
  RS (svd0 g) (svd1 g) (sigterm g) b (pidchanged g) (logpipe0 g) (logpipe1 g).
Definition set_logpipe (p : list Z) (g : runsv) : runsv :=
  RS (svd0 g) (svd1 g) (sigterm g) (haslog g) (pidchanged g) (peek p 0) (peek p 1).

Definition svdir_zero : svdir := SV 0 0 0 0 (TAIA 0 0 0) 0 0 false.
Definition runsv_zero : runsv := RS svdir_zero svdir_zero false false true 0 0.

(** A call that must not fail. *)
Definition need (c : call) : P answer := a ← sys os c; if ret a =? -1 then fatal else mret a.

Definition init_services : P unit :=
  modify (set_svd false (λ s, with_want W_UP (with_ctrl C_NOOP (with_state S_DOWN (with_pid 0 s)))));;
  t ← taia_now os;
  modify (set_svd false (with_start t));;
  a ← sys os (Stat "down");
  (if ret a =? -1 then mret tt else modify (set_svd false (with_want W_DOWN)));;
  a ← sys os (Stat "log");
  if ret a =? -1 then
    if errno a =? ENOENT then mret tt else warn "unable to stat() ./log"
  else if negb (S_ISDIR (peek (out a) 0)) then warn "./log: not a directory."
  else
    modify (λ g, set_haslog true (set_svd true (λ s, SV 0 S_DOWN C_NOOP W_UP (start s) (wstat s) (fdcontrol s) true) g));;
    t ← taia_now os;
    modify (set_svd true (with_start t));;
    a ← sys os (Stat "log/down");
    (if ret a =? -1 then mret tt else modify (set_svd true (with_want W_DOWN)));;
    a ← need Pipe;
    modify (set_logpipe (out a)).

Definition make_supervise : P unit :=
  a ← sys os (Mkdir "supervise");
  if negb (ret a =? -1) then mret tt else
  r ← sys os (Readlink "supervise");
  if negb (ret r =? -1) then
    if ret r =? 256 then fatal else sys os (Mkdir "target of supervise");; mret tt
  else if negb (errno r =? ENOENT) && negb (errno r =? EINVAL) then fatal else mret tt.

Definition make_log_supervise : P unit :=
  a ← sys os (Mkdir "log/supervise");
  if negb (ret a =? -1) then mret tt else
  r ← sys os (Readlink "log/supervise");
  if negb (ret r =? -1) then
    if ret r =? 256 then fatal else
    fd ← need (OpenRead ".");
    need (Chdir "./log");;
    sys os (Mkdir "target of log/supervise");;
    need (Fchdir (ret fd));;
    sys os (Close (ret fd));; mret tt
  else if negb (errno r =? ENOENT) && negb (errno r =? EINVAL) then fatal else mret tt.

Definition lock_file (fn : string) : P unit :=
  fd ← need (OpenAppend fn); need (Lock (ret fd));; mret tt.

(** The fifo a service is controlled by; what is checked for the logger's is
    supervise/control again. *)
Definition open_control (i : bool) (fn : string) : P unit :=
  sys os (Mkfifo fn);;
  a ← need (Stat "supervise/control");
  if negb (S_ISFIFO (peek (out a) 0)) then fatal else
  fd ← need (OpenRead fn);
  modify (set_svd i (with_fdcontrol (ret fd)));;
  need (OpenWrite fn);;
  update_status i.

Definition open_ok (fn : string) : P unit :=
  sys os (Mkfifo fn);; need (OpenRead fn);; mret tt.

Definition startup (dir : string) : P Z :=
  a ← need Pipe;
  need (Chdir dir);;
  init_services;;
  make_supervise;;
  lock_file "supervise/lock";;
  g ← get;
  (if haslog g then make_log_supervise;; lock_file "log/supervise/lock" else mret tt);;
  open_control false "supervise/control";;
  (if haslog g then open_control true "log/supervise/control" else mret tt);;
  open_ok "supervise/ok";;
  (if haslog g then open_ok "log/supervise/ok" else mret tt);;
  mret (peek (out a) 0).

Definition runsv_main (rounds : nat) (dir : string) : P unit :=
  selfpipe ← startup dir; main_loop rounds selfpipe.
End runsv.
