(* ===== verification/RunsvProofs.v ===== *)
(** The supervisor signals only processes that are its own living children,
    keeps its two records in order, leaves only when it is told to and its
    services are gone, and starts what is wanted before it sleeps. *)
From stdpp Require Import strings.
From S2P Require Import Prelude Os Djb DjbProofs Runsv.
Open Scope list_scope.
Open Scope Z_scope.

(** ** What the trace says of processes *)

(** [p] was forked and not yet waited for. *)
Fixpoint live (tr : trace) (p : Z) : Prop :=
  match tr with
  | [] => False
  | (Fork, a) :: tr => (0 < ret a ∧ p = ret a) ∨ live tr p
  | (Wait_nohang, a) :: tr => p ≠ ret a ∧ live tr p
  | (Wait_pid q, a) :: tr => ¬ (ret a ≠ -1 ∧ p = q) ∧ live tr p
  | _ :: tr => live tr p
  end.

(** Every signal went to a living child. *)
Fixpoint safe (tr : trace) : Prop :=
  match tr with
  | [] => True
  | (Kill p _, _) :: tr => 0 < p ∧ live tr p ∧ safe tr
  | _ :: tr => safe tr
  end.

(** The signals sent, the first one first. *)
Fixpoint kills (tr : trace) : list (Z * Z) :=
  match tr with
  | [] => []
  | (Kill p sig, _) :: tr => kills tr ++ [(p, sig)]
  | _ :: tr => kills tr
  end.

(** [fork(2)]: an error, the child, or the number of a process that is not one
    of the children there are. *)
Definition fork_ok (os : oracle) : Prop :=
  ∀ tr, let p := ret (os tr Fork) in p = -1 ∨ p = 0 ∨ 0 < p ∧ ¬ live tr p.

Lemma live_pos tr p : live tr p → 0 < p.
Proof.
  induction tr as [|[c a] tr IH]; cbn [live]; [done|].
  destruct c; try done; naive_solver.
Qed.

(** Calls that neither signal nor make nor reap a process. *)
Definition harmless (c : call) : bool :=
  match c with Fork | Kill _ _ | Wait_pid _ | Wait_nohang => false | _ => true end.

(** ** Parts that only do such calls *)

Record same_view (st st' : runsv * trace) : Prop := {
  same_svd : ∀ i, svd (fst st') i = svd (fst st) i;
  same_log : haslog (fst st') = haslog (fst st);
  same_live : ∀ p, live (snd st') p ↔ live (snd st) p;
  same_safe : safe (snd st) → safe (snd st');
  same_kills : kills (snd st') = kills (snd st);
}.

Lemma same_refl st : same_view st st.
Proof. by split. Qed.

Lemma same_trans st1 st2 st3 : same_view st1 st2 → same_view st2 st3 → same_view st1 st3.
Proof.
  intros [H1 H2 H3 H4 Hk1] [H5 H6 H7 H8 Hk2]. split.
  - intros i. by rewrite H5.
  - by rewrite H6.
  - intros p. by rewrite H7.
  - auto.
  - congruence.
Qed.

Definition calm {A} (m : prog runsv A) : Prop :=
  ∀ st, post m st (λ _, same_view st) (λ _ _, False).

Lemma calm_ret {A} (a : A) : calm (mret a).
Proof. intros st. apply same_refl. Qed.

Lemma calm_bind {A B} (m : prog runsv A) (k : A → prog runsv B) :
  calm m → (∀ a, calm (k a)) → calm (m ≫= k).
Proof.
  intros Hm Hk st. eapply post_bind; [apply Hm|]. cbv beta. intros a st' Hs.
  eapply post_mono; [apply Hk| |done]. cbv beta. intros b st''. by apply same_trans.
Qed.

Lemma calm_get {B} (k : runsv → prog runsv B) : (∀ g, calm (k g)) → calm (get ≫= k).
Proof. intros Hk st. apply (Hk (fst st) st). Qed.

Lemma calm_sys os c : harmless c = true → calm (sys os c).
Proof.
  intros Hc st. apply post_sys. intros a _. split; try done; cbn [snd]; intros; destruct c; done.
Qed.

Lemma calm_spin {A} : calm (spin : prog runsv A).
Proof. done. Qed.

Lemma calm_if {A} (b : bool) (m k : prog runsv A) : calm m → calm k → calm (if b then m else k).
Proof. by destruct b. Qed.

Lemma calm_pidchanged b : calm (modify (set_pidchanged b)).
Proof. intros st. by split. Qed.

Create HintDb calm.
#[export] Hint Resolve calm_ret calm_sys calm_spin calm_pidchanged : calm.

(** Proves [calm] by the structure of the program. *)
Ltac calm_step :=
  first
    [ assumption
    | solve [auto with calm]
    | apply calm_get; intros ?
    | apply calm_if
    | apply calm_bind; [|intros ?]
    | match goal with |- calm (match ?x with _ => _ end) => destruct x end
    | match goal with |- calm (let '_ := ?x in _) => destruct x end ].
Ltac calm_tac := repeat calm_step.

Section runsv_proofs.
Context (os : oracle) (fuel : nat).
Hypothesis (Hfork : fork_ok os).

Lemma calm_warn msg : calm (warn os msg).
Proof. unfold warn. calm_tac. Qed.
#[local] Hint Resolve calm_warn : calm.

Lemma calm_allwrite n fd buf : calm (allwrite os n fd buf).
Proof.
  revert buf. induction n as [|n IH]; intros buf; cbn [allwrite]; calm_tac.
Qed.
#[local] Hint Resolve calm_allwrite : calm.

Lemma calm_flush b : calm (buffer_flush os fuel b).
Proof. unfold buffer_flush. calm_tac. Qed.
#[local] Hint Resolve calm_flush : calm.

Lemma calm_blocks rounds b n buf : calm (put_blocks os fuel rounds b n buf).
Proof.
  revert n buf. induction rounds as [|rounds IH]; intros n buf; cbn [put_blocks]; calm_tac.
Qed.
#[local] Hint Resolve calm_blocks : calm.

Lemma calm_put b buf : calm (buffer_put os fuel b buf).
Proof. unfold buffer_put. calm_tac. Qed.
#[local] Hint Resolve calm_put : calm.

Lemma calm_puts b pieces : calm (puts_flush os fuel b pieces).
Proof. revert b. induction pieces as [|l pieces IH]; intros b; cbn [puts_flush]; calm_tac. Qed.
#[local] Hint Resolve calm_puts : calm.

Lemma calm_update_status i : calm (update_status os fuel i).
Proof. unfold update_status, update_pid, update_stat, update_bytes. calm_tac. Qed.

Lemma calm_now : calm (taia_now os).
Proof. unfold taia_now. calm_tac. Qed.
#[local] Hint Resolve calm_update_status calm_now : calm.

(** ** Parts that fork and signal *)

(** Children stay alive, nothing unsafe was done, the records are the same. *)
Record keeps (st st' : runsv * trace) : Prop := {
  keep_svd : ∀ i, svd (fst st') i = svd (fst st) i;
  keep_log : haslog (fst st') = haslog (fst st);
  keep_live : ∀ p, live (snd st) p → live (snd st') p;
  keep_safe : safe (snd st) → safe (snd st');
}.

Lemma same_keeps st st' : same_view st st' → keeps st st'.
Proof. intros [? ? Hl ? ?]. split; try done. intros p. by rewrite Hl. Qed.

Lemma keeps_trans st1 st2 st3 : keeps st1 st2 → keeps st2 st3 → keeps st1 st3.
Proof.
  intros [H1 H2 H3 H4] [H5 H6 H7 H8]. split; auto.
  - intros i. by rewrite H5.
  - by rewrite H6.
Qed.

Lemma keeps_refl st : keeps st st.
Proof. by split. Qed.

(** How a child ends, if nothing unsafe was done before. *)
Definition child_end (st : runsv * trace) (e : ending) (st' : runsv * trace) : Prop :=
  e ≠ Exited 0 ∧ (safe (snd st) → safe (snd st')).

Lemma post_calm {A} (m : prog runsv A) st (Q : A → runsv * trace → Prop) E :
  calm m → (∀ a st', same_view st st' → Q a st') → post m st Q E.
Proof. intros Hm HQ. eapply post_mono; [apply Hm|done|done]. Qed.

(** A part without effect on what is tracked, then the rest. *)
Lemma post_calm_bind {A B} (m : prog runsv A) (k : A → prog runsv B) st Q E :
  calm m → (∀ a st', same_view st st' → post (k a) st' Q E) → post (m ≫= k) st Q E.
Proof.
  intros Hm Hk. apply (post_bind _ _ _ (λ _ st', same_view st st')); [|exact Hk].
  by apply post_calm.
Qed.

Lemma live_wait_pid st0 tr p a q :
  ¬ live st0 p → live st0 q → live tr q → live ((Wait_pid p, a) :: tr) q.
Proof. intros Hp Hq Htr. cbn [live]. split; [|done]. intros [_ ->]. done. Qed.

Lemma wait_child_ok st0 n p st :
  ¬ live (snd st0) p → keeps st0 st →
  post (wait_child os n p) st (λ _ st', keeps st0 st') (λ _ _, False).
Proof.
  intros Hp. revert st. induction n as [|n IH]; intros st Hk; cbn [wait_child]; [done|].
  eapply (post_bind _ _ _ (λ a st', keeps st0 st')).
  { apply post_sys. intros a _. destruct Hk as [? ? Hl ?]. split; try done; cbn [snd fst].
    intros q Hq. apply (live_wait_pid (snd st0)); auto. }
  intros a st' Hk'. cbv beta. destruct (ret a =? -1); [|by apply post_ret].
  destruct (errno a =? EINTR); [by apply IH|].
  apply post_calm_bind; [calm_tac|]. intros _ st2 Hs. apply post_ret.
  eapply keeps_trans; [exact Hk'|by apply same_keeps].
Qed.

Lemma custom_ok i c st :
  post (custom os fuel i c) st (λ _ st', keeps st st') (child_end st).
Proof.
  unfold custom. apply post_bind with (P := λ g st', g = fst st ∧ st' = st); [done|].
  intros g st' [-> ->]. destruct (islog _); [apply post_ret, keeps_refl|].
  apply post_calm_bind; [calm_tac|]. intros a st1 Hs1. apply same_keeps in Hs1 as Hk1.
  destruct (ret a =? 0).
  2: { destruct (errno a =? ENOENT); [by apply post_ret|].
       apply post_calm_bind; [calm_tac|]. intros _ st2 Hs2. apply post_ret.
       eapply keeps_trans; [exact Hk1|by apply same_keeps]. }
  destruct (negb _); [by apply post_ret|].
  eapply (post_bind _ _ _ (λ p st', p = os (snd st1) Fork ∧ st' = (fst st1, (Fork, p) :: snd st1))); [by apply post_sys|].
  intros p st2 [Hp ->]. cbv beta. pose proof (Hfork (snd st1)) as Hf. cbv beta zeta in Hf. rewrite <- Hp in Hf.
  assert (keeps st (fst st1, (Fork, p) :: snd st1)) as Hk2.
  { destruct Hk1 as [? ? Hl ?]. split; try done. cbn [snd live]. intros q Hq. right. by apply Hl. }
  destruct (Z.eqb_spec (ret p) (-1)).
  { apply post_calm_bind; [calm_tac|]. intros _ st3 Hs3. apply post_ret.
    eapply keeps_trans; [exact Hk2|by apply same_keeps]. }
  destruct (Z.eqb_spec (ret p) 0).
  { apply post_calm_bind; [calm_tac|]. intros _ st3 Hs3. split; [done|].
    intros Hsafe. by apply (same_safe _ _ Hs3), (keep_safe _ _ Hk2). }
  destruct Hf as [|[|[Hpos Hnl]]]; [done|done|].
  eapply post_bind.
  - eapply post_mono; [apply (wait_child_ok st); [|exact Hk2]|intros a0 st3 H3; exact H3|done].
    intros Hl. apply Hnl. by apply (same_live _ _ Hs1).
  - cbv beta. intros w st3 H3. by apply post_ret.
Qed.

(** ** The invariant *)

Record sv_ok (s : svdir) : Prop := {
  sv_pid : 0 ≤ pid s;
  sv_run : state s = S_RUN → pid s ≠ 0;
  sv_state : 0 ≤ state s ≤ 2;
  sv_want : 0 ≤ want s ≤ 2;
}.

(** [c] is a child that was just waited for, 0 for none. *)
Record inv_but (c : Z) (st : runsv * trace) : Prop := {
  inv_safe : safe (snd st);
  inv_sv : ∀ i, sv_ok (svd (fst st) i);
  inv_live : ∀ i, pid (svd (fst st) i) ≠ 0 → pid (svd (fst st) i) ≠ c → live (snd st) (pid (svd (fst st) i));
  inv_two : pid (svd0 (fst st)) ≠ 0 → pid (svd0 (fst st)) ≠ pid (svd1 (fst st));
  inv_log : ∀ i, islog (svd (fst st) i) = i && haslog (fst st);
  inv_nolog : haslog (fst st) = false → pid (svd1 (fst st)) = 0;
}.
Definition inv := inv_but 0.

Lemma keeps_inv c st st' : keeps st st' → inv_but c st → inv_but c st'.
Proof.
  intros [Hs Hl Hli Hsa] [H1 H2 H3 H4 H5 H6].
  pose proof (Hs false) as Hs0. pose proof (Hs true) as Hs1. cbn [svd] in Hs0, Hs1. split.
  - auto.
  - intros i. by rewrite Hs.
  - intros i. rewrite Hs. auto.
  - by rewrite Hs0, Hs1.
  - intros i. by rewrite Hs, Hl.
  - by rewrite Hl, Hs1.
Qed.

Lemma same_inv c st st' : same_view st st' → inv_but c st → inv_but c st'.
Proof. intros Hs. by apply keeps_inv, same_keeps. Qed.

(** What a service is, for the invariant. *)
Definition core (s : svdir) : Z * Z * Z * bool := (pid s, state s, want s, islog s).

Definition same_core (st st' : runsv * trace) : Prop :=
  haslog (fst st') = haslog (fst st) ∧ ∀ i, core (svd (fst st') i) = core (svd (fst st) i).

Lemma same_core_trans st1 st2 st3 : same_core st1 st2 → same_core st2 st3 → same_core st1 st3.
Proof. intros [? H1] [? H2]. split; [congruence|]. intros i. by rewrite H2. Qed.

Lemma keeps_core st st' : keeps st st' → same_core st st'.
Proof. intros [Hs Hl _ _]. split; [done|]. intros i. by rewrite Hs. Qed.

(** A change of a record that keeps its core keeps the invariant. *)
Lemma modify_core c i f st :
  (∀ s, core (f s) = core s) → inv_but c st → inv_but c (set_svd i f (fst st), snd st) ∧ same_core st (set_svd i f (fst st), snd st).
Proof.
  intros Hf [H1 H2 H3 H4 H5 H6].
  assert (∀ j, core (svd (set_svd i f (fst st)) j) = core (svd (fst st) j)) as Hc.
  { intros j. destruct i, j; cbn; rewrite ?Hf; done. }
  assert (∀ s s', core s' = core s → sv_ok s → sv_ok s') as Hok.
  { intros s s' Heq [? ? ? ?]. injection Heq as Hp Hst Hwt _. split; by rewrite ?Hp, ?Hst, ?Hwt. }
  assert (∀ j, pid (svd (set_svd i f (fst st)) j) = pid (svd (fst st) j)) as Hp.
  { intros j. specialize (Hc j). by injection Hc. }
  pose proof (Hp false) as Hp0. pose proof (Hp true) as Hp1. cbn [svd] in Hp0, Hp1.
  split; [|by split]. split; cbn [fst snd].
  - done.
  - intros j. eapply Hok; [apply Hc|apply H2].
  - intros j. rewrite Hp. apply H3.
  - by rewrite Hp0, Hp1.
  - intros j. specialize (Hc j). injection Hc as _ _ _ ->. apply H5.
  - by rewrite Hp1.
Qed.

(** The postconditions: the invariant holds and the cores are the same; a child
    that ended kept the trace safe. *)
Definition kept (st : runsv * trace) {A} (_ : A) (st' : runsv * trace) : Prop :=
  inv st' ∧ same_core st st'.
Definition ended (e : ending) (st' : runsv * trace) : Prop := e ≠ Exited 0 ∧ safe (snd st').

Lemma same_core_refl st : same_core st st.
Proof. by split. Qed.

Lemma post_get_bind {B} (k : runsv → prog runsv B) st Q E : post (k (fst st)) st Q E → post (get ≫= k) st Q E.
Proof. done. Qed.

Lemma post_modify_bind {B} f (k : unit → prog runsv B) st Q E :
  post (k tt) (f (fst st), snd st) Q E → post (modify f ≫= k) st Q E.
Proof. done. Qed.

Lemma kept_bind {A B} (m : prog runsv A) (k : A → prog runsv B) st0 st Q E :
  same_core st0 st → post m st (kept st) E →
  (∀ a st', inv st' → same_core st0 st' → post (k a) st' Q E) → post (m ≫= k) st Q E.
Proof.
  intros H0 Hm Hk. eapply post_bind; [exact Hm|]. intros a st' [Hi Hc]. apply Hk; [done|].
  exact (same_core_trans _ _ _ H0 Hc).
Qed.

Lemma kept_calm {A} (m : prog runsv A) st E : calm m → inv st → post m st (kept st) E.
Proof.
  intros Hm Hi. apply post_calm; [done|]. intros a st' Hs. split; [exact (same_inv _ _ _ Hs Hi)|].
  by apply keeps_core, same_keeps.
Qed.

Lemma kept_ret {A} (a : A) st E : inv st → post (mret a) st (kept st) E.
Proof. intros Hi. apply post_ret. split; [done|by split]. Qed.

Lemma kept_custom i c st : inv st → post (custom os fuel i c) st (kept st) ended.
Proof.
  intros Hi. eapply post_mono; [apply custom_ok|..].
  - intros a st' Hk. split; [exact (keeps_inv _ _ _ Hk Hi)|by apply keeps_core].
  - intros e st' [? Hs]. split; [done|]. apply Hs, Hi.
Qed.

Lemma kept_kill p sig st E :
  inv st → p ≠ 0 → live (snd st) p → post (kill os p sig) st (kept st) E.
Proof.
  intros [H1 H2 H3 H4 H5 H6] Hp Hl. unfold kill. apply post_bind with (P := λ _ st', kept st tt st').
  - apply post_sys. intros a _. split; [|by split]. split; cbn [fst snd]; try done.
    cbn [safe]. split; [|done]. by apply (live_pos _ _ Hl).
  - by intros a st' ?.
Qed.

Lemma kept_modify i f st E :
  (∀ s, core (f s) = core s) → inv st → post (modify (set_svd i f)) st (kept st) E.
Proof. intros Hf Hi. apply post_modify. by apply modify_core. Qed.

Lemma core_eq st st' i : same_core st st' → 
  pid (svd (fst st') i) = pid (svd (fst st) i) ∧ state (svd (fst st') i) = state (svd (fst st) i) ∧
  want (svd (fst st') i) = want (svd (fst st) i) ∧ islog (svd (fst st') i) = islog (svd (fst st) i).
Proof. intros [_ Hc]. specialize (Hc i). by injection Hc. Qed.

Lemma inv_pid_live st i : inv st → pid (svd (fst st) i) ≠ 0 → live (snd st) (pid (svd (fst st) i)).
Proof. intros Hi Hp. by apply (inv_live _ _ Hi). Qed.

Lemma stopservice_ok i st :
  inv st → pid (svd (fst st) i) ≠ 0 → post (stopservice os fuel i) st (kept st) ended.
Proof.
  intros Hi Hp. unfold stopservice. apply post_get_bind.
  rewrite (proj2 (Z.eqb_neq _ 0)) by done. cbn [negb].
  apply (kept_bind _ _ st); [apply same_core_refl| |].
  - apply (kept_bind _ _ st); [apply same_core_refl|by apply kept_custom|]. intros [] st1 Hi1 Hc1.
    { apply post_ret. by split. }
    destruct (core_eq _ _ i Hc1) as (Hpid & _).
    apply (kept_bind _ _ st); [done| |].
    { rewrite <- Hpid. apply kept_kill; [done|by rewrite Hpid|apply inv_pid_live; [done|by rewrite Hpid]]. }
    intros ? st2 Hi2 Hc2. apply (kept_bind _ _ st); [done|by apply kept_modify|]. intros ? st3 Hi3 Hc3.
    eapply post_mono; [by apply kept_calm; [apply calm_update_status|]| |done].
    intros ? st4 [? ?]. split; [done|]. by eapply same_core_trans.
  - intros ? st1 Hi1 Hc1. apply post_get_bind. destruct (core_eq _ _ i Hc1) as (Hpid & _ & Hw & _).
    assert (∀ c, post (kill os (pid (svd (fst st1) i)) SIGCONT;; _ ← custom os fuel i c; mret tt) st1 (kept st) ended) as Hgo.
    { intros c. apply (kept_bind _ _ st); [done|apply kept_kill; [done|by rewrite Hpid|apply inv_pid_live; [done|by rewrite Hpid]]|].
      intros ? st2 Hi2 Hc2. apply (kept_bind _ _ st); [done|by apply kept_custom|].
      intros ? st3 Hi3 Hc3. apply post_ret. by split. }
    cbv zeta. destruct (want _ =? W_DOWN); [apply Hgo|]. destruct (want _ =? W_EXIT); [apply Hgo|].
    apply post_ret. by split.
Qed.

(** A fork gives a new child, or is the child. *)
Lemma fork_retry_ok n st :
  inv st →
  post (fork_retry os n) st (λ p st', same_core st st' ∧ safe (snd st') ∧
    (p = 0 ∨ 0 < p ∧ ∃ st1, inv st1 ∧ same_core st st1 ∧ ¬ live (snd st1) p ∧
      fst st' = fst st1 ∧ ∃ a, ret a = p ∧ snd st' = (Fork, a) :: snd st1)) (λ _ _, False).
Proof.
  revert st. induction n as [|n IH]; intros st Hi; cbn [fork_retry]; [done|].
  eapply (post_bind _ _ _ (λ p st', p = os (snd st) Fork ∧ st' = (fst st, (Fork, p) :: snd st))); [by apply post_sys|].
  intros p st1 [Hp ->]. cbv beta. pose proof (Hfork (snd st)) as Hf. cbv beta zeta in Hf. rewrite <- Hp in Hf.
  destruct (Z.eqb_spec (ret p) (-1)) as [Hm|Hm].
  - assert (inv (fst st, (Fork, p) :: snd st)) as Hi1.
    { eapply keeps_inv; [|exact Hi]. split; try done. cbn [snd live]. by right. }
    apply post_calm_bind; [calm_tac|]. intros ? st2 Hs2. apply post_calm_bind; [calm_tac|]. intros ? st3 Hs3.
    pose proof (same_trans _ _ _ Hs2 Hs3) as Hs.
    assert (same_core st st3) as Hc by (apply same_keeps, keeps_core in Hs; exact Hs).
    eapply post_mono; [apply IH; by eapply same_inv| |done]. cbv beta.
    intros q st4 (Hc4 & Hsafe & Hq). split; [by eapply same_core_trans|]. split; [done|].
    destruct Hq as [?|(? & st5 & ? & ? & ?)]; [by left|right]. split; [done|]. exists st5.
    split; [done|]. split; [by eapply same_core_trans|done].
  - apply post_ret. split; [by split|]. split; [apply Hi|].
    destruct Hf as [|[|[? ?]]]; [done|by left|right]. split; [done|]. exists st.
    split_and!; try done. by exists p.
Qed.

Lemma start_child_ok {A} i run args st (Q : A → runsv * trace → Prop) :
  safe (snd st) → post (start_child os i run args : prog runsv A) st Q ended.
Proof.
  intros Hs. unfold start_child. apply post_get_bind. generalize (fst st) as g. intros g.
  apply (post_bind _ _ _ (λ _ st', safe (snd st'))).
  - assert (∀ (m : prog runsv unit), (∀ st, post m st (λ _ st', safe (snd st) → safe (snd st')) (λ e st', e ≠ Exited 0 ∧ (safe (snd st) → safe (snd st')))) →
      post m st (λ _ st', safe (snd st')) ended) as Hgo.
    { intros m Hm. eapply post_mono; [apply Hm|auto|]. intros e st' [? ?]. split; auto. }
    apply Hgo. clear Hs Hgo st. intros st.
    assert (∀ c (k : answer → prog runsv unit), harmless c = true →
      (∀ a st, post (k a) st (λ _ st', safe (snd st) → safe (snd st')) (λ e st', e ≠ Exited 0 ∧ (safe (snd st) → safe (snd st')))) →
      ∀ st, post (sys os c ≫= k) st (λ _ st', safe (snd st) → safe (snd st')) (λ e st', e ≠ Exited 0 ∧ (safe (snd st) → safe (snd st')))) as Hsys.
    { intros c k Hc Hk st'. apply post_calm_bind; [by apply calm_sys|]. intros a st'' Hs.
      eapply post_mono; [apply Hk| |]; cbv beta; intros; destruct Hs; naive_solver. }
    assert (∀ st, post (fatal : prog runsv unit) st (λ _ st', safe (snd st) → safe (snd st')) (λ e st', e ≠ Exited 0 ∧ (safe (snd st) → safe (snd st')))) as Hfatal by done.
    assert (∀ st, post (mret tt : prog runsv unit) st (λ _ st', safe (snd st) → safe (snd st')) (λ e st', e ≠ Exited 0 ∧ (safe (snd st) → safe (snd st')))) as Hret by (intros ?; by apply post_ret).
    destruct (haslog g); [|apply Hret]. destruct (islog _).
    + apply Hsys; [done|]. intros a st1. destruct (ret a =? -1); [apply Hfatal|revert st1].
      apply Hsys; [done|]. intros ?. apply Hsys; [done|]. intros b st3. destruct (ret b =? -1); [apply Hfatal|apply Hret].
    + apply Hsys; [done|]. intros a st1. destruct (ret a =? -1); [apply Hfatal|revert st1].
      apply Hsys; [done|]. intros ? st2. apply Hret.
  - intros ? st' Hs'. by split.
Qed.

(** Service [i] was given a new process; the other is as it was. *)
Record started (i : bool) (st st' : runsv * trace) : Prop := {
  st_log : haslog (fst st') = haslog (fst st);
  st_other : core (svd (fst st') (negb i)) = core (svd (fst st) (negb i));
  st_want : want (svd (fst st') i) = want (svd (fst st) i);
  st_islog : islog (svd (fst st') i) = islog (svd (fst st) i);
  st_pid : pid (svd (fst st') i) ≠ 0;
  st_state : state (svd (fst st') i) = (if state (svd (fst st) i) =? S_FINISH then S_FINISH else S_RUN);
}.

(** The new child becomes the service's process. *)
Lemma adopt_ok i st1 g2 tr2 p :
  inv st1 → 0 < p → ¬ live (snd st1) p →
  (∀ q, live tr2 q ↔ q = p ∨ live (snd st1) q) → safe tr2 →
  haslog g2 = haslog (fst st1) → core (svd g2 (negb i)) = core (svd (fst st1) (negb i)) →
  pid (svd g2 i) = p → want (svd g2 i) = want (svd (fst st1) i) → islog (svd g2 i) = islog (svd (fst st1) i) →
  0 ≤ state (svd g2 i) ≤ 2 → (haslog (fst st1) = false → i = false) →
  inv (g2, tr2).
Proof.
  intros [H1 H2 H3 H4 H5 H6] Hp Hnl Hlive Hsafe Hlog Hoth Hpid Hw Hil Hst Hi.
  injection Hoth as Ho1 Ho2 Ho3 Ho4.
  assert (∀ j, j = i ∨ j = negb i) as Hj by (intros []; destruct i; auto).
  assert (∀ j, pid (svd (fst st1) j) ≠ 0 → pid (svd (fst st1) j) ≠ p) as Hne.
  { intros j Hj0 Heq. apply Hnl. rewrite <- Heq. by apply H3. }
  split; cbn [fst snd].
  - done.
  - intros j. destruct (Hj j) as [->| ->].
    + destruct (H2 i). split; rewrite ?Hpid, ?Hw; (done || lia).
    + destruct (H2 (negb i)). split; by rewrite ?Ho1, ?Ho2, ?Ho3.
  - intros j Hj0 _. apply Hlive. destruct (Hj j) as [->| ->]; [by left|right].
    rewrite Ho1 in *. by apply H3.
  - destruct i; cbn [svd negb] in *.
    + intros Hp0. rewrite Hpid. rewrite Ho1 in *. by apply (Hne false).
    + intros _. rewrite Hpid, Ho1. intros Heq. apply (Hne true); cbn [svd]; lia.
  - intros j. destruct (Hj j) as [->| ->]; [by rewrite Hil, Hlog|by rewrite Ho4, Hlog].
  - rewrite Hlog. intros Hno. specialize (Hi Hno). subst i. cbn [svd negb] in *. rewrite Ho1. by apply H6.
Qed.

Lemma startservice_ok i st :
  inv st → (haslog (fst st) = false → i = false) →
  post (startservice os fuel i) st (λ _ st', inv st' ∧ started i st st') ended.
Proof.
  intros Hinv Hi. unfold startservice. apply post_get_bind. cbv zeta.
  apply (kept_bind _ _ st); [apply same_core_refl| |].
  { destruct (state _ =? S_FINISH); [by apply kept_ret|].
    apply (kept_bind _ _ st); [apply same_core_refl|by apply kept_custom|]. intros ? st1 ? ?. apply post_ret. by split. }
  intros [run args] st1 Hi1 Hc1. apply post_get_bind.
  apply (kept_bind _ _ st); [done| |].
  { destruct (Z.eqb_spec (pid (svd (fst st1) i)) 0); cbn [negb]; [by apply kept_ret|by apply stopservice_ok]. }
  intros ? st2 Hi2 Hc2. eapply post_bind; [eapply post_mono; [by apply fork_retry_ok|intros p st3 H3; exact H3|done]|].
  cbv beta. intros p st3 (Hc3 & Hsafe3 & Hp). destruct (Z.eqb_spec p 0); [by apply start_child_ok|].
  destruct Hp as [|(Hpos & st4 & Hi4 & Hc4 & Hnl & Hg3 & r & Hr & Ht3)]; [done|].
  pose proof (same_core_trans _ _ _ Hc2 Hc4) as Hcore.
  destruct (core_eq _ _ i Hcore) as (_ & Hcs & Hcw & Hcl).
  assert (∀ q, live (snd st3) q ↔ q = p ∨ live (snd st4) q) as Hlive.
  { intros q. rewrite Ht3. cbn [live]. rewrite Hr. intuition. }
  apply post_get_bind. rewrite Hg3.
  apply (post_bind _ _ _ (λ _ st5, same_view st3 (fst st3, snd st5) ∧
    haslog (fst st5) = haslog (fst st4) ∧ svd (fst st5) (negb i) = svd (fst st4) (negb i) ∧
    want (svd (fst st5) i) = want (svd (fst st4) i) ∧ islog (svd (fst st5) i) = islog (svd (fst st4) i) ∧
    state (svd (fst st5) i) = (if state (svd (fst st4) i) =? S_FINISH then S_FINISH else S_RUN))).
  { destruct (Z.eqb_spec (state (svd (fst st4) i)) S_FINISH) as [Hf|Hf]; cbn [negb].
    - apply post_ret. split; [by split|]. rewrite Hg3. by split_and!.
    - apply post_calm_bind; [apply calm_now|]. intros t st5 Hs5. apply post_modify. cbn [fst snd].
      split; [destruct Hs5; by split|]. destruct Hs5 as [Hv Hl _ _ _]. rewrite Hg3 in Hv, Hl.
      pose proof (Hv i) as Hvi. pose proof (Hv (negb i)) as Hvn.
      destruct i; cbn in *; rewrite ?Hvi, ?Hvn, ?Hl; by split_and!. }
  intros ? st5 (Hs5 & Hlog5 & Hoth5 & Hw5 & Hil5 & Hst5). cbv beta.
  apply post_modify_bind. cbn [fst snd]. apply post_modify_bind. cbn [fst snd].
  set (g6 := set_pidchanged true (set_svd i (λ s, with_ctrl C_NOOP (with_pid p s)) (fst st5))).
  assert (haslog g6 = haslog (fst st4) ∧ svd g6 (negb i) = svd (fst st4) (negb i) ∧ pid (svd g6 i) = p ∧
    want (svd g6 i) = want (svd (fst st4) i) ∧ islog (svd g6 i) = islog (svd (fst st4) i) ∧
    state (svd g6 i) = (if state (svd (fst st4) i) =? S_FINISH then S_FINISH else S_RUN)) as (G1 & G2 & G3 & G4 & G5 & G6).
  { unfold g6. destruct i; cbn in *; split_and!; done. }
  assert (inv (g6, snd st5)) as Hi6.
  { apply (adopt_ok i st4 _ _ p); try done.
    - intros q. rewrite <- Hlive. apply (same_live _ _ Hs5).
    - by apply (same_safe _ _ Hs5).
    - by rewrite G2.
    - rewrite G6. destruct (_ =? _); unfold S_FINISH, S_RUN; lia.
    - destruct Hcore as [Hl _]. rewrite Hl. done. }
  apply post_calm; [apply calm_update_status|]. intros ? st7 Hs7. split; [by eapply same_inv|].
  destruct Hs7 as [Hv7 Hl7 _ _ _]. cbn [fst] in *. destruct Hcore as [Hl Hc]. split.
  - congruence.
  - rewrite Hv7, G2. apply Hc.
  - rewrite Hv7, G4. done.
  - rewrite Hv7, G5. done.
  - rewrite Hv7, G3. lia.
  - rewrite Hv7, G6, Hcs. done.
Qed.

(** ** The control characters *)

Lemma set_svd_inv i f st :
  inv st → (∀ s, pid (f s) = pid s ∧ islog (f s) = islog s) →
  (sv_ok (svd (fst st) i) → sv_ok (f (svd (fst st) i))) → inv (set_svd i f (fst st), snd st).
Proof.
  intros [H1 H2 H3 H4 H5 H6] Hf Hok.
  assert (∀ j, pid (svd (set_svd i f (fst st)) j) = pid (svd (fst st) j) ∧
               islog (svd (set_svd i f (fst st)) j) = islog (svd (fst st) j)) as Hj.
  { intros j. destruct i, j; cbn; try apply Hf; done. }
  pose proof (Hj false) as [Hp0 _]. pose proof (Hj true) as [Hp1 _]. cbn [svd] in Hp0, Hp1.
  split; cbn [fst snd].
  - done.
  - intros j. destruct i, j; cbn; first [exact (H2 true) | exact (H2 false) | exact (Hok (H2 true)) | exact (Hok (H2 false))].
  - intros j. destruct (Hj j) as [-> _]. apply H3.
  - by rewrite Hp0, Hp1.
  - intros j. destruct (Hj j) as [_ ->]. apply H5.
  - by rewrite Hp1.
Qed.

(** The invariant alone, for the parts that change a record's core. *)
Definition still (st : runsv * trace) {A} (_ : A) (st' : runsv * trace) : Prop :=
  inv st' ∧ haslog (fst st') = haslog (fst st).

Lemma still_bind {A B} (m : prog runsv A) (k : A → prog runsv B) st E Q :
  post m st (still st) E → (∀ a st', inv st' → haslog (fst st') = haslog (fst st) → post (k a) st' Q E) →
  post (m ≫= k) st Q E.
Proof. intros Hm Hk. eapply post_bind; [exact Hm|]. intros a st' [? ?]. by apply Hk. Qed.

Lemma kept_still {A} (m : prog runsv A) st E : post m st (kept st) E → post m st (still st) E.
Proof. intros Hm. eapply post_mono; [exact Hm| |done]. intros a st' [? [? _]]. by split. Qed.

Lemma still_trans {A} (m : prog runsv A) st0 st E :
  haslog (fst st) = haslog (fst st0) → post m st (still st) E → post m st (still st0) E.
Proof. intros Hl Hm. eapply post_mono; [exact Hm| |done]. intros a st' [? ?]. split; [done|congruence]. Qed.

Lemma signal_ok i c sig st : inv st → post (signal_service os fuel i c sig) st (kept st) ended.
Proof.
  intros Hi. unfold signal_service. apply post_get_bind.
  destruct (Z.eqb_spec (state (svd (fst st) i)) S_RUN) as [Hs|]; [|by apply kept_ret].
  pose proof (sv_run _ (inv_sv _ _ Hi i) Hs) as Hp.
  apply (kept_bind _ _ st); [apply same_core_refl|by apply kept_custom|]. intros [] st1 Hi1 Hc1.
  - apply post_ret. by split.
  - destruct (core_eq _ _ i Hc1) as (Hpid & _). rewrite <- Hpid in Hp |- *.
    eapply post_mono; [apply (kept_kill _ _ st1); [done|done|by apply inv_pid_live]| |done].
    intros ? st2 [? ?]. split; [done|]. exact (same_core_trans _ _ _ Hc1 H0).
Qed.

Lemma set_want_ok i w st : 0 ≤ w ≤ 2 → inv st → post (set_want os fuel i w) st (still st) ended.
Proof.
  intros Hw Hi. unfold set_want. apply post_modify_bind. cbn [fst snd].
  eapply still_trans; [|apply kept_still, kept_calm; [apply calm_update_status|]]; [done|].
  apply set_svd_inv; [done|done|]. intros [? ? ? ?]. by split.
Qed.

Lemma stop_running_ok i st : inv st → post (stop_running os fuel i) st (still st) ended.
Proof.
  intros Hi. unfold stop_running. apply post_get_bind.
  destruct (Z.eqb_spec (state (svd (fst st) i)) S_RUN) as [Hs|]; [|by apply kept_still, kept_ret].
  apply kept_still, stopservice_ok; [done|]. apply (sv_run _ (inv_sv _ _ Hi i) Hs).
Qed.

Lemma start_ok i st :
  inv st → (haslog (fst st) = false → i = false) → post (startservice os fuel i) st (still st) ended.
Proof.
  intros Hi Hl. eapply post_mono; [by apply startservice_ok| |done]. intros ? st' [? [? _ _ _ _ _]]. by split.
Qed.

Lemma start_down_ok i st :
  inv st → (haslog (fst st) = false → i = false) → post (start_down os fuel i) st (still st) ended.
Proof.
  intros Hi Hl. unfold start_down. apply post_get_bind. destruct (_ =? S_DOWN); [by apply start_ok|].
  by apply kept_still, kept_ret.
Qed.

Lemma ctrl_ok i c st :
  inv st → (haslog (fst st) = false → i = false) → post (ctrl os fuel i c) st (still st) ended.
Proof.
  intros Hi Hl. unfold ctrl. apply post_get_bind.
  assert (∀ sig, post (signal_service os fuel i c sig) st (still st) ended) as Hsig
    by (intros; by apply kept_still, signal_ok).
  assert (∀ w, 0 ≤ w ≤ 2 → post (set_want os fuel i w;; stop_running os fuel i) st (still st) ended) as Hstop.
  { intros w Hw. eapply still_bind; [by apply set_want_ok|]. intros ? st1 ? ?.
    eapply still_trans; [done|by apply stop_running_ok]. }
  assert (∀ w, 0 ≤ w ≤ 2 → post (set_want os fuel i w;; start_down os fuel i) st (still st) ended) as Hstart.
  { intros w Hw. eapply still_bind; [by apply set_want_ok|]. intros ? st1 ? Heq.
    eapply still_trans; [done|apply start_down_ok; [done|by rewrite Heq]]. }
  assert (∀ sig f, (∀ s, core (f s) = core s) →
    post (signal_service os fuel i c sig;; modify (set_svd i f);; update_status os fuel i) st (still st) ended) as Hflag.
  { intros sig f Hf. eapply still_bind; [apply Hsig|]. intros ? st1 Hi1 Heq1.
    eapply still_bind; [by apply kept_still, kept_modify|]. intros ? st2 Hi2 Heq2.
    eapply still_trans; [|by apply kept_still, kept_calm; [apply calm_update_status|]]. congruence. }
  destruct (c =? chr "d"); [by apply Hstop|]. destruct (c =? chr "u"); [by apply Hstart|].
  destruct (c =? chr "x"); [destruct (islog _); [by apply kept_still, kept_ret|by apply Hstop]|].
  destruct (c =? chr "t"); [by apply stop_running_ok|].
  destruct (c =? chr "k").
  { eapply still_bind; [apply Hsig|]. intros ? st1 Hi1 Heq1. apply post_modify. split; [|done].
    apply set_svd_inv; [done|done|]. intros [? ? ? ?]. split; try done; cbn; unfold S_DOWN, S_RUN in *; lia. }
  destruct (c =? chr "p"); [by apply Hflag|].
  destruct (c =? chr "c"); [apply Hflag; intros s; by destruct (has _ _)|].
  destruct (c =? chr "o"); [by apply Hstart|].
  destruct (signal_of c); [apply Hsig|by apply kept_still, kept_ret].
Qed.

(** ** The main loop *)

(** What is wanted runs when the supervisor goes to sleep. *)
Definition wanted_runs (g : runsv) : Prop :=
  (want (svd0 g) = W_UP ∨ state (svd0 g) = S_FINISH → pid (svd0 g) ≠ 0) ∧
  (haslog g = true → want (svd1 g) = W_UP → pid (svd1 g) ≠ 0).

Lemma start_wanted_ok st :
  inv st → post (start_wanted os fuel) st (λ _ st', inv st' ∧ haslog (fst st') = haslog (fst st) ∧ wanted_runs (fst st')) ended.
Proof.
  intros Hi. unfold start_wanted. apply post_get_bind.
  apply (post_bind _ _ _ (λ _ st1, inv st1 ∧ haslog (fst st1) = haslog (fst st) ∧
    (haslog (fst st) = true → want (svd1 (fst st1)) = W_UP → pid (svd1 (fst st1)) ≠ 0))).
  - destruct (haslog (fst st)) eqn:Hl; cbn [andb]; [|apply post_ret; split_and!; done].
    destruct (Z.eqb_spec (pid (svd1 (fst st))) 0); cbn [andb]; [|apply post_ret; by split_and!].
    destruct (Z.eqb_spec (want (svd1 (fst st))) W_UP); [|apply post_ret; by split_and!].
    eapply post_mono; [apply startservice_ok; [done|by rewrite Hl]| |done].
    intros ? st1 [? [? ? ? ? Hp ?]]. split_and!; [done|congruence|]. intros _ _. exact Hp.
  - intros ? st1 (Hi1 & Hl1 & Hw1). apply post_get_bind.
    destruct (Z.eqb_spec (pid (svd0 (fst st1))) 0) as [Hz|]; cbn [andb].
    2: { apply post_ret. split_and!; [done|done|split; [done|by rewrite Hl1]]. }
    destruct (Z.eqb_spec (want (svd0 (fst st1))) W_UP); cbn [orb].
    2: destruct (Z.eqb_spec (state (svd0 (fst st1))) S_FINISH).
    3: { apply post_ret. split_and!; [done|done|split; [by intros [?|?]|by rewrite Hl1]]. }
    all: eapply post_mono; [by apply startservice_ok| |done];
      intros ? st2 [? [Hl2 Ho ? ? Hp ?]]; split_and!; [done|congruence|split; [done|]];
      rewrite Hl2, Hl1; cbn [svd negb] in *; injection Ho as Hop _ How _; rewrite Hop, How; done.
Qed.

Lemma kept_went_down c i st :
  inv_but c st → post (went_down os fuel i) st (λ _ st', inv_but c st' ∧ same_core st st') ended.
Proof.
  intros Hi. unfold went_down. apply post_get_bind. cbv zeta.
  apply post_calm_bind; [apply calm_now|]. intros t st1 Hs1. pose proof (same_inv _ _ _ Hs1 Hi) as Hi1.
  apply post_modify_bind. destruct (modify_core c i (with_start t) st1 (λ _, eq_refl) Hi1) as [Hi2 Hc2].
  apply same_keeps, keeps_core in Hs1 as Hc1.
  assert (calm (update_status os fuel i;; (if taia_less t (taia_add (taia_uint 1) (start (svd (fst st) i)))
    then sys os (Sleep 1);; mret tt else mret tt))) as Hcalm.
  { pose proof (calm_update_status i). calm_tac. }
  apply post_calm; [exact Hcalm|]. intros ? st3 Hs3. split; [exact (same_inv _ _ _ Hs3 Hi2)|].
  apply same_keeps, keeps_core in Hs3. exact (same_core_trans _ _ _ Hc1 (same_core_trans _ _ _ Hc2 Hs3)).
Qed.

(** After the service's record is settled the child may still be the logger. *)
Lemma reap_service_ok c w st :
  inv_but c st → c ≠ 0 →
  post (reap_service os fuel c w) st (λ next st',
    if (next : bool) then inv st' ∧ haslog (fst st') = haslog (fst st)
    else inv_but c st' ∧ haslog (fst st') = haslog (fst st) ∧ pid (svd0 (fst st')) ≠ c) ended.
Proof.
  intros Hi Hc. unfold reap_service. apply post_get_bind.
  destruct (Z.eqb_spec c (pid (svd0 (fst st)))) as [Heq|]; [|apply post_ret; split_and!; [done..|congruence]].
  apply post_modify_bind, post_modify_bind. cbn [fst snd]. apply post_get_bind. cbn [fst snd].
  set (g1 := set_pidchanged true (set_svd false _ (fst st))).
  assert (∀ f, (∀ s, pid (f s) = pid s ∧ islog (f s) = islog s ∧ want (f s) = want s) → (∀ s, 0 ≤ state s ≤ 2 → 0 ≤ state (f s) ≤ 2 ∧ state (f s) ≠ S_RUN) →
    inv (set_svd false f g1, snd st)) as Hdead.
  { intros f Hf Hf2. destruct Hi as [H1 H2 H3 H4 H5 H6].
    pose proof (H2 false) as [? ? ? ?]. pose proof (H2 true) as Hok1. pose proof (H5 false) as Hf0. pose proof (H5 true) as Hf1.
    pose proof (H3 true) as Hl1. unfold g1. cbn [svd fst] in *.
    set (s0 := with_ctrl (Z.ldiff (ctrls (svd0 (fst st))) C_TERM) (with_wstat w (with_pid 0 (svd0 (fst st))))).
    destruct (Hf s0) as (Hp & Hil & Hw). destruct (Hf2 s0 ltac:(done)) as [Hst Hnr].
    split; cbn [fst snd]; [done| | | | |].
    - intros []; [exact Hok1|]. change (sv_ok (f s0)). split; rewrite ?Hp, ?Hw; first [done | by intros].
    - intros []; [intros Hp1 _; apply Hl1; [done|]|change (pid (f s0) ≠ 0 → pid (f s0) ≠ 0 → live (snd st) (pid (f s0))); by rewrite Hp].
      intros He. apply H4; [lia|]. rewrite <- Heq. symmetry. exact He.
    - change (pid (f s0) ≠ 0 → pid (f s0) ≠ pid (svd1 (fst st))). by rewrite Hp.
    - intros []; [exact Hf1|]. change (islog (f s0) = false && haslog (fst st)). by rewrite Hil.
    - exact H6. }
  assert (haslog g1 = haslog (fst st)) as Hl1 by done.
  eapply (post_bind _ _ _ (λ fin st2, if (fin : bool) then inv st2 ∧ haslog (fst st2) = haslog (fst st)
     else same_view (g1, snd st) st2)).
  - destruct (negb _); [|apply post_ret, same_refl].
    apply post_calm_bind; [by apply calm_sys|]. intros fd st2 Hs2. destruct (ret fd =? -1); [by apply post_ret|].
    apply post_calm_bind; [by apply calm_sys|]. intros ? st3 Hs3. pose proof (same_trans _ _ _ Hs2 Hs3) as Hs.
    apply post_modify_bind.
    assert (inv (set_svd false (with_state S_FINISH) (fst st3), snd st3)) as Hi3.
    { eapply keeps_inv; [|apply (Hdead (with_state S_FINISH)); [done|]].
      - destruct Hs as [Hv Hl Hlv Hsf _]. split; cbn [fst snd] in *; [|done|by intros; apply Hlv|done].
        pose proof (Hv false) as Hv0. pose proof (Hv true) as Hv1. cbn [svd] in Hv0, Hv1.
        intros []; cbn; by rewrite ?Hv0, ?Hv1.
      - intros s _. unfold S_FINISH, S_RUN. cbn. lia. }
    apply post_calm_bind; [apply calm_update_status|]. intros ? st4 Hs4. apply post_ret.
    split; [by eapply same_inv|]. rewrite (same_log _ _ Hs4). cbn [fst haslog set_svd]. by rewrite (same_log _ _ Hs).
  - intros [] st2 H2; [by apply post_ret|]. apply post_modify_bind.
    assert (inv (set_svd false (with_state S_DOWN) (fst st2), snd st2)) as Hi2.
    { eapply keeps_inv; [|apply (Hdead (with_state S_DOWN)); [done|]].
      - destruct H2 as [Hv Hl Hlv Hsf _]. split; cbn [fst snd] in *; [|done|by intros; apply Hlv|done].
        pose proof (Hv false) as Hv0. pose proof (Hv true) as Hv1. cbn [svd] in Hv0, Hv1.
        intros []; cbn; by rewrite ?Hv0, ?Hv1.
      - intros s _. unfold S_DOWN, S_RUN. cbn. lia. }
    eapply post_bind; [by apply (kept_went_down 0)|]. intros ? st3 [Hi3 Hc3]. apply post_ret.
    split_and!.
    + destruct Hi3. by split; auto.
    + destruct Hc3 as [-> _]. cbn [fst haslog set_svd]. by rewrite (same_log _ _ H2).
    + destruct (core_eq _ _ false Hc3) as (Hp3 & _). cbn [svd] in Hp3. rewrite Hp3. cbn [fst svd svd0 set_svd with_state pid].
      pose proof (same_svd _ _ H2 false) as Hv. cbn [svd fst] in Hv. rewrite Hv. cbn. done.
Qed.

Lemma reap_log_ok c st :
  inv_but c st → c ≠ 0 → pid (svd0 (fst st)) ≠ c →
  post (reap_log os fuel c) st (still st) ended.
Proof.
  intros Hi Hc Hne. unfold reap_log. apply post_get_bind. pose proof Hi as [H1 H2 H3 H4 H5 H6].
  assert (pid (svd1 (fst st)) ≠ c → inv st) as Hdone.
  { intros Hne1. split; try done. intros [] ? _; apply H3; done. }
  destruct (haslog (fst st)) eqn:Hl; cbn [andb].
  2: { apply post_ret. split; [|done]. apply Hdone. rewrite H6; done. }
  destruct (Z.eqb_spec c (pid (svd1 (fst st)))) as [Heq|]; [|apply post_ret; split; [by apply Hdone|done]].
  apply post_modify_bind, post_modify_bind. cbn [fst snd].
  set (st1 := (set_pidchanged true _, snd st)).
  assert (inv st1) as Hi1.
  { pose proof (H2 false) as Hok0. pose proof (H2 true) as [? ? ? ?]. pose proof (H3 false) as Hl0.
    pose proof (H5 false) as Hf0. pose proof (H5 true) as Hf1. cbn [svd] in *.
    unfold st1. split; cbn [fst snd]; [done| | | | |].
    - intros []; [|exact Hok0]. split; cbn; unfold S_DOWN, S_RUN; (done || lia).
    - intros []; cbn; intros; [done|]. apply Hl0; [done|]. exact Hne.
    - cbn. by intros.
    - intros []; cbn; rewrite ?Hl; [exact Hf1|exact Hf0].
    - cbn. by rewrite Hl. }
  eapply post_mono; [by apply (kept_went_down 0)| |done]. intros ? st2 [? [Hl2 _]]. split; [done|]. by rewrite Hl2.
Qed.

Lemma post_weaken_E {A} (m : prog runsv A) st Q (E F : ending → runsv * trace → Prop) :
  post m st Q E → (∀ e st', E e st' → F e st') → post m st Q F.
Proof. intros Hm HE. by eapply post_mono. Qed.

Lemma reap_ok st : inv st → post (reap os fuel) st (still st) ended.
Proof.
  intros Hi. unfold reap. apply (post_repeat (λ st', inv st' ∧ haslog (fst st') = haslog (fst st))); [by split|].
  clear Hi. intros st1 [Hi Hl].
  eapply (post_bind _ _ _ (λ a st2, fst st2 = fst st1 ∧ snd st2 = (Wait_nohang, a) :: snd st1)); [by apply post_sys|].
  intros a st2 [Hg Ht]. cbv beta zeta.
  destruct (Z.eqb_spec (ret a) 0) as [Hz|Hz].
  { apply post_ret. destruct st2 as [g2 tr2]. cbn in Hg, Ht. subst. split; [|done].
    destruct Hi as [? ? H3 ? ? ?]. split; cbn [fst snd live safe]; try done. intros i Hp _. split; [lia|]. by apply H3. }
  assert (∀ c, c = ret a → inv_but c st2) as Hbut.
  { intros c ->. destruct st2 as [g2 tr2]. cbn in Hg, Ht. subst. destruct Hi as [? ? H3 ? ? ?].
    split; cbn [fst snd live safe]; try done. intros i Hp Hne. split; [done|]. by apply H3. }
  specialize (Hbut _ eq_refl). rewrite <- Hg in Hl.
  destruct (_ && _) eqn:Herr.
  { apply post_ret. split; [|done]. apply andb_true_iff in Herr as [Herr%Z.eqb_eq _]. rewrite Herr in Hbut.
    destruct Hbut as [? H2 H3 ? ? ?]. split; try done. intros i Hp _. apply H3; [done|]. destruct (H2 i). lia. }
  eapply post_bind; [by apply reap_service_ok|]. intros [] st3 Hst3; cbv beta iota in *.
  { apply post_ret. split; [apply Hst3|]. destruct Hst3 as [_ ->]. done. }
  destruct Hst3 as (Hi3 & Hl3 & Hne3). eapply still_bind; [by apply reap_log_ok|].
  intros ? st4 Hi4 Hl4. apply post_ret. split; [done|congruence].
Qed.

Lemma read_control_ok i st :
  inv st → (haslog (fst st) = false → i = false) → post (read_control os fuel i) st (still st) ended.
Proof.
  intros Hi Hl. unfold read_control. apply post_get_bind.
  apply post_calm_bind; [by apply calm_sys|]. intros a st1 Hs1. pose proof (same_log _ _ Hs1) as Hl1.
  pose proof (same_inv _ _ _ Hs1 Hi) as Hi1.
  destruct (ret a =? 1); [|apply post_ret; by split].
  eapply still_trans; [exact Hl1|]. apply ctrl_ok; [done|by rewrite Hl1].
Qed.

(** The supervisor leaves only when it is told to, the service is down and its
    logger is gone. *)
Definition left_or_ended (e : ending) (st : runsv * trace) : Prop :=
  safe (snd st) ∧
  (e = Exited 0 → want (svd0 (fst st)) = W_EXIT ∧ state (svd0 (fst st)) = S_DOWN ∧ pid (svd1 (fst st)) = 0).

Lemma ended_left e st : ended e st → left_or_ended e st.
Proof. intros [? ?]. by split. Qed.

Lemma check_exit_ok st : inv st → post (check_exit os fuel) st (still st) left_or_ended.
Proof.
  intros Hi. unfold check_exit. apply post_get_bind.
  destruct (Z.eqb_spec (want (svd0 (fst st))) W_EXIT), (Z.eqb_spec (state (svd0 (fst st))) S_DOWN); cbn [andb];
    try (by apply kept_still, kept_ret).
  destruct (Z.eqb_spec (pid (svd1 (fst st))) 0).
  { split; [apply Hi|done]. }
  destruct (negb _); [|by apply kept_still, kept_ret].
  apply post_modify_bind. cbn [fst snd].
  eapply still_trans; [|apply kept_still, kept_calm; [pose proof (calm_update_status true); calm_tac|]]; [done|].
  apply (set_svd_inv true (with_want W_EXIT)); [done|done|]. intros [? ? ? ?]. by split.
Qed.

Lemma main_round_ok selfpipe st : inv st → post (main_round os fuel selfpipe) st (λ _ st', inv st') left_or_ended.
Proof.
  intros Hi. unfold main_round.
  eapply post_bind; [eapply post_mono; [by apply start_wanted_ok|intros a st1 H1; exact H1|apply ended_left]|].
  cbv beta. intros ? st1 (Hi1 & _ & _).
  apply post_calm_bind; [apply calm_now|]. intros ? st2 Hs2.
  apply post_calm_bind; [by apply calm_sys|]. intros w st3 Hs3.
  assert (inv st3) as Hi3 by (eapply same_inv; [exact Hs3|eapply same_inv; [exact Hs2|done]]).
  apply (post_bind _ _ _ (λ _ st', inv st')).
  { destruct (_ =? 1); [|by apply post_ret]. apply post_modify. destruct Hi3. split; try done. }
  intros ? st4 Hi4. apply (post_bind _ _ _ (λ _ st', inv st')).
  { unfold drain. apply (post_repeat inv); [done|]. intros st5 Hi5. apply post_calm; [calm_tac|].
    intros ? st6 Hs6. by eapply same_inv. }
  intros ? st5 Hi5. eapply post_bind; [eapply post_weaken_E; [by apply reap_ok|apply ended_left]|].
  intros ? st6 [Hi6 _]. eapply post_bind; [eapply post_weaken_E; [by apply read_control_ok|apply ended_left]|].
  intros ? st7 [Hi7 _]. apply post_get_bind. apply (post_bind _ _ _ (λ _ st', inv st')).
  { destruct (haslog (fst st7)) eqn:Hl; [|by apply post_ret].
    eapply post_mono; [apply read_control_ok; [done|by rewrite Hl]|by intros ? ? []|apply ended_left]. }
  intros ? st8 Hi8. apply post_get_bind. apply (post_bind _ _ _ (λ _ st', inv st')).
  { destruct (sigterm (fst st8)); [|by apply post_ret].
    eapply post_bind; [eapply post_weaken_E; [by apply ctrl_ok|apply ended_left]|].
    intros ? st9 [Hi9 _]. apply post_modify. destruct Hi9. split; try done. }
  intros ? st9 Hi9. eapply post_mono; [by apply check_exit_ok|by intros ? ? []|done].
Qed.

Lemma main_loop_ok rounds selfpipe st :
  inv st → post (main_loop os fuel rounds selfpipe) st (λ _ st', inv st') left_or_ended.
Proof.
  revert st. induction rounds as [|rounds IH]; intros st Hi; cbn [main_loop]; [by apply post_ret|].
  eapply post_bind; [by apply main_round_ok|]. intros ? st1 Hi1. by apply IH.
Qed.

(** ** Startup *)

Definition sets_up {A} (m : prog runsv A) : Prop := ∀ st, inv st → post m st (λ _ st', inv st') ended.

Lemma sets_up_ret {A} (a : A) : sets_up (mret a).
Proof. intros st Hi. by apply post_ret. Qed.

Lemma sets_up_bind {A B} (m : prog runsv A) (k : A → prog runsv B) :
  sets_up m → (∀ a, sets_up (k a)) → sets_up (m ≫= k).
Proof. intros Hm Hk st Hi. eapply post_bind; [by apply Hm|]. intros a st' Hi'. by apply Hk. Qed.

Lemma sets_up_calm {A} (m : prog runsv A) : calm m → sets_up m.
Proof. intros Hm st Hi. apply post_calm; [done|]. intros a st' Hs. by eapply same_inv. Qed.

Lemma sets_up_sys c : harmless c = true → sets_up (sys os c).
Proof. intros Hc. by apply sets_up_calm, calm_sys. Qed.

Lemma sets_up_fatal {A} : sets_up (fatal : prog runsv A).
Proof. intros st Hi. split; [done|apply Hi]. Qed.

Lemma sets_up_if {A} (b : bool) (m k : prog runsv A) : sets_up m → sets_up k → sets_up (if b then m else k).
Proof. by destruct b. Qed.

Lemma sets_up_get {B} (k : runsv → prog runsv B) : (∀ g, sets_up (k g)) → sets_up (get ≫= k).
Proof. intros Hk st Hi. by apply Hk. Qed.

Lemma sets_up_core i f : (∀ s, core (f s) = core s) → sets_up (modify (set_svd i f)).
Proof. intros Hf st Hi. apply post_modify. by apply (modify_core 0). Qed.

Lemma sets_up_want i w : 0 ≤ w ≤ 2 → sets_up (modify (set_svd i (with_want w))).
Proof.
  intros Hw st Hi. apply post_modify. apply set_svd_inv; [done|done|]. intros [? ? ? ?]. by split.
Qed.

Lemma sets_up_logpipe p : sets_up (modify (set_logpipe p)).
Proof. intros st [? ? ? ? ? ?]. apply post_modify. by split. Qed.

Lemma calm_update i : calm (update_status os fuel i).
Proof. apply calm_update_status. Qed.
#[local] Hint Resolve sets_up_ret sets_up_sys sets_up_fatal sets_up_logpipe : setup.
#[local] Hint Extern 1 (sets_up (update_status _ _ _)) => apply sets_up_calm, calm_update : setup.
#[local] Hint Extern 1 (sets_up (warn _ _)) => apply sets_up_calm, calm_warn : setup.
#[local] Hint Extern 1 (sets_up (taia_now _)) => apply sets_up_calm, calm_now : setup.
#[local] Hint Extern 1 (sets_up (modify (set_svd _ (with_want _)))) => apply sets_up_want; unfold W_DOWN, W_UP; lia : setup.
#[local] Hint Extern 1 (sets_up (modify (set_svd _ (with_start _)))) => by apply sets_up_core : setup.
#[local] Hint Extern 1 (sets_up (modify (set_svd _ (with_fdcontrol _)))) => by apply sets_up_core : setup.

Ltac setup_tac :=
  repeat first
    [ assumption | solve [auto with setup] | apply sets_up_get; intros ? | apply sets_up_if
    | apply sets_up_bind; [|intros ?] ].

Lemma sets_up_need c : harmless c = true → sets_up (need os c).
Proof. intros Hc. unfold need. setup_tac. Qed.
#[local] Hint Resolve sets_up_need : setup.

(** Of the two records only the second needs a word: it is the logger's from
    here on. *)
Lemma init_services_ok st :
  inv st → (∀ i, pid (svd (fst st) i) = 0) → post (init_services os) st (λ _ st', inv st') ended.
Proof.
  intros Hi Hp. unfold init_services. apply post_modify_bind. cbn [fst snd].
  assert (inv (set_svd false (λ s, with_want W_UP (with_ctrl C_NOOP (with_state S_DOWN (with_pid 0 s)))) (fst st), snd st) ∧
    pid (svd1 (fst st)) = 0) as [Hi1 Hp1].
  { pose proof (Hp false) as Hp0. pose proof (Hp true) as Hp1. split; [|done].
    destruct Hi as [H1 H2 H3 H4 H5 H6]. pose proof (H2 true) as Hok. pose proof (H3 true) as Hl.
    pose proof (H5 false) as Hf0. pose proof (H5 true) as Hf1. split; cbn [fst snd].
    - done.
    - intros []; [exact Hok|]. split; cbn; unfold S_DOWN, S_RUN, W_UP; (done || lia).
    - intros []; [exact Hl|done].
    - done.
    - intros []; [exact Hf1|exact Hf0].
    - done. }
  set (st1 := (set_svd false _ (fst st), snd st)) in *.
  apply (post_bind _ _ _ (λ _ st2, inv st2 ∧ pid (svd1 (fst st2)) = 0)).
  { apply post_calm; [apply calm_now|]. intros t st2 Hs2. split; [by eapply same_inv|].
    pose proof (same_svd _ _ Hs2 true) as Hv. cbn [svd] in Hv. by rewrite Hv. }
  intros t st2 [Hi2 Hp2]. apply post_modify_bind.
  apply (post_bind _ _ _ (λ _ st3, inv st3 ∧ pid (svd1 (fst st3)) = 0)).
  { apply post_sys. intros a _. cbn [fst snd]. destruct (modify_core 0 false (with_start t) st2 (λ _, eq_refl) Hi2) as [Hi3 _].
    split; [|done]. eapply same_inv; [|exact Hi3]. by split. }
  intros a st3 [Hi3 Hp3].
  apply (post_bind _ _ _ (λ _ st4, inv st4 ∧ pid (svd1 (fst st4)) = 0)).
  { destruct (ret a =? -1); [by apply post_ret|]. apply post_modify. split; [|done].
    apply set_svd_inv; [done|done|]. intros [? ? ? ?]. split; try done; cbn; unfold W_DOWN; lia. }
  intros ? st4 [Hi4 Hp4].
  apply (post_bind _ _ _ (λ _ st5, inv st5 ∧ pid (svd1 (fst st5)) = 0)).
  { apply post_sys. intros b _. split; [|done]. eapply same_inv; [|exact Hi4]. by split. }
  intros b st5 [Hi5 Hp5].
  destruct (ret b =? -1); [destruct (_ =? ENOENT); [by apply post_ret|]|destruct (negb _)].
  1-2: revert Hi5; apply sets_up_calm, calm_warn.
  apply post_modify_bind.
  assert (inv (set_haslog true (set_svd true (λ s, SV 0 S_DOWN C_NOOP W_UP (start s) (wstat s) (fdcontrol s) true) (fst st5)), snd st5)) as Hi6.
  { destruct Hi5 as [H1 H2 H3 H4 H5 H6]. pose proof (H2 false) as Hok. pose proof (H3 false) as Hl. pose proof (H5 false) as Hf0.
    split; cbn [fst snd].
    - done.
    - intros []; [|exact Hok]. split; cbn; unfold S_DOWN, S_RUN, W_UP; (done || lia).
    - intros []; [done|exact Hl].
    - cbn. by intros.
    - intros []; [done|exact Hf0].
    - done. }
  revert Hi6. generalize (set_haslog true (set_svd true (λ s, SV 0 S_DOWN C_NOOP W_UP (start s) (wstat s) (fdcontrol s) true) (fst st5)), snd st5).
  change (sets_up (t ← taia_now os; modify (set_svd true (with_start t));; a ← sys os (Stat "log/down");
    (if ret a =? -1 then mret tt else modify (set_svd true (with_want W_DOWN)));; a ← need os Pipe; modify (set_logpipe (out a)))).
  setup_tac.
Qed.

Lemma zero_inv : inv (runsv_zero, []).
Proof.
  split; cbn; try done.
  - intros []; (split; cbn; unfold S_RUN; (done || lia)).
  - by intros [].
  - by intros [].
Qed.

Lemma runsv_main_ok rounds dir :
  post (runsv_main os fuel rounds dir) (runsv_zero, []) (λ _ st', inv st') left_or_ended.
Proof.
  unfold runsv_main. apply (post_bind _ _ _ (λ _ st', inv st')).
  2: { intros selfpipe st Hi. by apply main_loop_ok. }
  eapply post_weaken_E; [|apply ended_left]. unfold startup.
  pose proof zero_inv as Hi. assert (∀ i, pid (svd (fst (runsv_zero, @nil (call * answer))) i) = 0) as Hp by (by intros []).
  revert Hi Hp. generalize (runsv_zero, @nil (call * answer)). intros st Hi Hp.
  assert (∀ c, harmless c = true → ∀ st, inv st → (∀ i, pid (svd (fst st) i) = 0) →
    post (need os c) st (λ _ st', inv st' ∧ ∀ i, pid (svd (fst st') i) = 0) ended) as Hneed.
  { clear. intros c Hc st Hi Hp. unfold need. apply (post_bind _ _ _ (λ _ st', inv st' ∧ ∀ i, pid (svd (fst st') i) = 0)).
    - apply post_calm; [by apply calm_sys|]. intros a st' Hs. split; [by eapply same_inv|]. intros i. by rewrite (same_svd _ _ Hs).
    - intros a st' [Hi' Hp']. destruct (ret a =? -1); [split; [done|apply Hi']|by apply post_ret]. }
  eapply post_bind; [by apply Hneed|]. intros a st1 [Hi1 Hp1].
  eapply post_bind; [by apply Hneed|]. intros ? st2 [Hi2 Hp2].
  eapply post_bind; [by apply init_services_ok|]. intros ? st3 Hi3.
  revert Hi3. generalize st3. clear. match goal with |- ∀ st, inv st → post ?m st _ _ => change (sets_up m) end.
  unfold make_supervise, lock_file, make_log_supervise, open_control, open_ok. setup_tac.
Qed.

(** ** The signals a control character sends *)

(** A service without control scripts. *)
Definition no_scripts : Prop :=
  ∀ tr c, let a := os tr (Stat (control_name c)) in ret a = -1 ∧ errno a = ENOENT.

Definition sends (s : svdir) (c : Z) : list Z :=
  if (c =? chr "d") || ((c =? chr "x") && negb (islog s)) then [SIGTERM; SIGCONT]
  else if c =? chr "t" then SIGTERM :: (if want s =? W_UP then [] else [SIGCONT])
  else if c =? chr "k" then [SIGKILL]
  else if c =? chr "p" then [SIGSTOP]
  else if c =? chr "c" then [SIGCONT]
  else match signal_of c with Some sig => [sig] | None => [] end.

Definition wants (s : svdir) (c : Z) : Z :=
  if (c =? chr "d") || (c =? chr "o") then W_DOWN
  else if c =? chr "u" then W_UP
  else if (c =? chr "x") && negb (islog s) then W_EXIT else want s.

(** The service keeps its process and sends it [sigs]. *)
Record signalled (i : bool) (w : Z) (sigs : list Z) (st st' : runsv * trace) : Prop := {
  sg_pid : pid (svd (fst st') i) = pid (svd (fst st) i);
  sg_want : want (svd (fst st') i) = w;
  sg_islog : islog (svd (fst st') i) = islog (svd (fst st) i);
  sg_state : state (svd (fst st') i) = state (svd (fst st) i);
  sg_kills : kills (snd st') = kills (snd st) ++ map (pair (pid (svd (fst st) i))) sigs;
}.

Lemma signalled_refl i st : signalled i (want (svd (fst st) i)) [] st st.
Proof. split; try done. by rewrite app_nil_r. Qed.

Lemma signalled_trans i w1 w2 s1 s2 st1 st2 st3 :
  signalled i w1 s1 st1 st2 → signalled i w2 s2 st2 st3 → signalled i w2 (s1 ++ s2) st1 st3.
Proof.
  intros [H1 H2 H3 H4 H5] [H6 H7 H8 H9 H10]. split; try congruence.
  by rewrite H10, H5, H1, map_app, <- app_assoc.
Qed.

Lemma signalled_same i st st' : same_view st st' → signalled i (want (svd (fst st) i)) [] st st'.
Proof. intros [Hv _ _ _ Hk]. split; rewrite ?Hv; try done. by rewrite app_nil_r. Qed.

Lemma signalled_bind {A B} (m : prog runsv A) (k : A → prog runsv B) i w1 w2 s1 s2 st E :
  post m st (λ _ st', signalled i w1 s1 st st') E →
  (∀ a st', signalled i w1 s1 st st' → post (k a) st' (λ _ st'', signalled i w2 s2 st' st'') E) →
  post (m ≫= k) st (λ _ st', signalled i w2 (s1 ++ s2) st st') E.
Proof.
  intros Hm Hk. eapply post_bind; [exact Hm|]. cbv beta. intros a st' H1.
  eapply post_mono; [by apply Hk| |done]. cbv beta. intros b st'' H2. by eapply signalled_trans.
Qed.

Hypothesis (Hno : no_scripts).

Lemma custom_none i c st :
  post (custom os fuel i c) st (λ b st', b = false ∧ same_view st st') ended.
Proof.
  unfold custom. apply post_get_bind. destruct (islog _); [apply post_ret; by split|].
  eapply (post_bind _ _ _ (λ a st', (ret a = -1 ∧ errno a = ENOENT) ∧ same_view st st')).
  { apply post_sys. intros a ->. split; [apply Hno|]. by split. }
  intros a st' [[Hr He] Hs]. cbv beta. rewrite Hr, He, Z.eqb_refl. change (-1 =? 0) with false. cbv iota. apply post_ret. by split.
Qed.

Lemma kill_signalled i sig st :
  post (kill os (pid (svd (fst st) i)) sig) st (λ _ st', signalled i (want (svd (fst st) i)) [sig] st st') ended.
Proof.
  unfold kill. eapply post_bind; [apply post_sys with (Q := λ _ st', signalled i (want (svd (fst st) i)) [sig] st st'); by intros|].
  intros ? st' H. by apply post_ret.
Qed.

Lemma update_signalled i j st :
  post (update_status os fuel j) st (λ _ st', signalled i (want (svd (fst st) i)) [] st st') ended.
Proof. apply post_calm; [apply calm_update_status|]. intros ? st' Hs. by apply signalled_same. Qed.

Lemma modify_signalled i f st :
  (∀ s, pid (f s) = pid s ∧ islog (f s) = islog s ∧ state (f s) = state s) →
  post (modify (set_svd i f)) st (λ _ st', signalled i (want (f (svd (fst st) i))) [] st st') ended.
Proof.
  intros Hf. apply post_modify.
  assert (svd (set_svd i f (fst st)) i = f (svd (fst st) i)) as Hs by (by destruct i).
  destruct (Hf (svd (fst st) i)) as (? & ? & ?). split; cbn [fst snd]; rewrite ?Hs; try done. by rewrite app_nil_r.
Qed.

Lemma stopservice_signals i st :
  pid (svd (fst st) i) ≠ 0 → 0 ≤ want (svd (fst st) i) ≤ 2 →
  post (stopservice os fuel i) st (λ _ st', signalled i (want (svd (fst st) i))
    (SIGTERM :: (if want (svd (fst st) i) =? W_UP then [] else [SIGCONT])) st st') ended.
Proof.
  intros Hp Hw. unfold stopservice. apply post_get_bind. rewrite (proj2 (Z.eqb_neq _ 0)) by done. cbn [negb].
  apply (signalled_bind _ _ i (want (svd (fst st) i)) _ [SIGTERM]).
  - eapply post_bind; [apply custom_none|]. cbv beta. intros b st1 [-> Hs1].
    pose proof (signalled_same i _ _ Hs1) as H1. destruct H1 as [Hp1 Hw1 _ _ _]. rewrite <- Hp1.
    eapply (post_mono _ _ (λ _ st', signalled i (want (svd (fst st1) i)) ([SIGTERM] ++ [] ++ []) st1 st')); [| |done].
    + eapply signalled_bind; [apply kill_signalled|].
      intros ? st2 [_ Hw2 _ _ _]. eapply signalled_bind; [by apply modify_signalled|].
      intros ? st3 [_ Hw3 _ _ _]. cbn [want with_ctrl] in Hw3. rewrite <- Hw2, <- Hw3. apply update_signalled.
    + cbv beta. intros ? st4 H4. rewrite <- Hw1.
      change (SIGTERM :: []) with ([] ++ [SIGTERM] ++ [] ++ @nil Z). rewrite Hw1 in H4 |- *.
      eapply signalled_trans; [|exact H4]. by apply signalled_same.
  - intros ? st1 [Hp1 Hw1 _ _ _]. apply post_get_bind. cbv zeta. rewrite Hw1.
    assert (∀ c, post (kill os (pid (svd (fst st1) i)) SIGCONT;; _ ← custom os fuel i c; mret tt) st1
      (λ _ st', signalled i (want (svd (fst st) i)) [SIGCONT] st1 st') ended) as Hgo.
    { intros c. rewrite <- Hw1. change [SIGCONT] with ([SIGCONT] ++ [] ++ @nil Z).
      eapply signalled_bind; [apply kill_signalled|]. intros ? st2 [_ Hw2 _ _ _].
      eapply signalled_bind; [eapply post_mono; [apply custom_none| |done]; cbv beta; intros b st3 [_ Hs]; by apply signalled_same|].
      intros ? st3 [_ Hw3 _ _ _]. apply post_ret. rewrite <- Hw2, <- Hw3. apply signalled_refl. }
    destruct (Z.eqb_spec (want (svd (fst st) i)) W_DOWN) as [Heq|]; [rewrite Heq in Hgo |- *; apply Hgo|].
    destruct (Z.eqb_spec (want (svd (fst st) i)) W_EXIT) as [Heq|]; [rewrite Heq in Hgo |- *; apply Hgo|].
    unfold W_UP, W_DOWN, W_EXIT in *. rewrite (proj2 (Z.eqb_eq _ _)) by lia.
    apply post_ret. rewrite <- Hw1. apply signalled_refl.
Qed.

Lemma signal_signals i c sig st :
  state (svd (fst st) i) = S_RUN →
  post (signal_service os fuel i c sig) st (λ _ st', signalled i (want (svd (fst st) i)) [sig] st st') ended.
Proof.
  intros Hr. unfold signal_service. apply post_get_bind. rewrite Hr, Z.eqb_refl.
  eapply post_bind; [apply custom_none|]. cbv beta. intros b st1 [-> Hs1].
  pose proof (signalled_same i _ _ Hs1) as H1. pose proof H1 as [Hp1 Hw1 _ _ _]. rewrite <- Hp1.
  eapply post_mono; [apply kill_signalled| |done]. cbv beta. intros ? st2 H2.
  rewrite Hw1 in H2. change [sig] with ([] ++ [sig]). by eapply signalled_trans.
Qed.

Lemma set_want_signals i w st :
  post (set_want os fuel i w) st (λ _ st', signalled i w [] st st') ended.
Proof.
  unfold set_want. change (@nil Z) with (@nil Z ++ []). eapply signalled_bind; [by apply modify_signalled|].
  intros ? st1 [_ Hw _ _ _]. cbn [want with_want] in Hw. rewrite <- Hw. apply update_signalled.
Qed.

Lemma ctrl_signals_ok i c st :
  state (svd (fst st) i) = S_RUN → pid (svd (fst st) i) ≠ 0 → 0 ≤ want (svd (fst st) i) ≤ 2 →
  post (ctrl os fuel i c) st (λ _ st',
    pid (svd (fst st') i) = pid (svd (fst st) i) ∧ want (svd (fst st') i) = wants (svd (fst st) i) c ∧
    kills (snd st') = kills (snd st) ++ map (pair (pid (svd (fst st) i))) (sends (svd (fst st) i) c)) ended.
Proof.
  intros Hr Hp Hw. unfold ctrl. apply post_get_bind.
  assert (∀ (m : prog runsv unit) w sigs, post m st (λ _ st', signalled i w sigs st st') ended →
    w = wants (svd (fst st) i) c → sigs = sends (svd (fst st) i) c →
    post m st (λ _ st', pid (svd (fst st') i) = pid (svd (fst st) i) ∧ want (svd (fst st') i) = wants (svd (fst st) i) c ∧
      kills (snd st') = kills (snd st) ++ map (pair (pid (svd (fst st) i))) (sends (svd (fst st) i) c)) ended) as Hgo.
  { intros m w sigs Hm <- <-. eapply post_mono; [exact Hm| |done]. by intros ? st' [? ? ? ? ?]. }
  assert (∀ w, 0 ≤ w ≤ 2 → post (set_want os fuel i w;; stop_running os fuel i) st
    (λ _ st', signalled i w ([] ++ SIGTERM :: (if w =? W_UP then [] else [SIGCONT])) st st') ended) as Hstop.
  { intros w Hw'. eapply signalled_bind; [apply set_want_signals|]. intros ? st1 [Hp1 Hw1 _ Hs1 _].
    unfold stop_running. apply post_get_bind. rewrite Hs1, Hr, Z.eqb_refl, <- Hw1.
    apply stopservice_signals; [by rewrite Hp1|by rewrite Hw1]. }
  assert (∀ w, post (set_want os fuel i w;; start_down os fuel i) st (λ _ st', signalled i w ([] ++ []) st st') ended) as Hstart.
  { intros w. eapply signalled_bind; [apply set_want_signals|]. intros ? st1 [Hp1 Hw1 _ Hs1 _].
    unfold start_down. apply post_get_bind. rewrite Hs1, Hr. apply post_ret. rewrite <- Hw1. apply signalled_refl. }
  assert (∀ sig f, (∀ s, pid (f s) = pid s ∧ islog (f s) = islog s ∧ state (f s) = state s ∧ want (f s) = want s) →
    post (signal_service os fuel i c sig;; modify (set_svd i f);; update_status os fuel i) st
      (λ _ st', signalled i (want (svd (fst st) i)) ([sig] ++ [] ++ []) st st') ended) as Hflag.
  { intros sig f Hf. eapply signalled_bind; [by apply signal_signals|]. intros ? st1 [_ Hw1 _ _ _].
    eapply signalled_bind; [apply modify_signalled; intros s; destruct (Hf s) as (? & ? & ? & _); done|].
    intros ? st2 [_ Hw2 _ _ _]. destruct (Hf (svd (fst st1) i)) as (_ & _ & _ & Hwf).
    rewrite <- Hw1, <- Hwf, <- Hw2. apply update_signalled. }
  unfold wants, sends in *.
  destruct (Z.eqb_spec c (chr "d")) as [->|]; [by eapply Hgo; [by apply Hstop|..]|].
  destruct (Z.eqb_spec c (chr "u")) as [->|]; [by eapply Hgo; [apply Hstart|..]|].
  destruct (Z.eqb_spec c (chr "x")) as [->|].
  { destruct (islog _); (eapply Hgo; [first [by apply Hstop | apply post_ret, signalled_refl]|done|done]). }
  destruct (Z.eqb_spec c (chr "t")) as [->|].
  { eapply Hgo; [|done|done]. unfold stop_running. apply post_get_bind. rewrite Hr. by apply stopservice_signals. }
  destruct (Z.eqb_spec c (chr "k")) as [->|].
  { eapply post_bind; [by apply signal_signals|]. cbv beta. intros ? st1 [Hp1 Hw1 _ _ Hk1]. apply post_modify.
    cbn [fst snd]. rewrite Hk1. destruct i; cbn in *; by split_and!. }
  destruct (Z.eqb_spec c (chr "p")) as [->|]; [by eapply Hgo; [by apply Hflag|..]|].
  destruct (Z.eqb_spec c (chr "c")) as [->|].
  { eapply Hgo; [apply Hflag|done|done]. intros s. by destruct (has _ _). }
  destruct (Z.eqb_spec c (chr "o")) as [->|]; [by eapply Hgo; [apply Hstart|..]|].
  cbn [orb andb]. destruct (signal_of c); (eapply Hgo; [first [by apply signal_signals | apply post_ret, signalled_refl]|done|done]).
Qed.

(** ** No step hangs on a kernel that answers *)

(** [m] returns or its process ends: no loop in it runs out of fuel. *)
Definition ends {A} (m : prog runsv A) : Prop := ∀ st, match m st with (Spin, _) => False | _ => True end.

Lemma ends_ret {A} (a : A) : ends (mret a).
Proof. done. Qed.
Lemma ends_sys c : ends (sys os c).
Proof. done. Qed.
Lemma ends_modify f : ends (modify f).
Proof. done. Qed.
Lemma ends_done {A} e : ends (done e : prog runsv A).
Proof. done. Qed.

Lemma ends_bind {A B} (m : prog runsv A) (k : A → prog runsv B) : ends m → (∀ a, ends (k a)) → ends (m ≫= k).
Proof.
  intros Hm Hk st. specialize (Hm st). unfold mbind, prog_bind. destruct (m st) as [[a|e|] st']; [|done..]. apply Hk.
Qed.

Lemma ends_get {B} (k : runsv → prog runsv B) : (∀ g, ends (k g)) → ends (get ≫= k).
Proof. intros Hk st. apply (Hk (fst st) st). Qed.

Lemma ends_if {A} (b : bool) (m k : prog runsv A) : ends m → ends k → ends (if b then m else k).
Proof. by destruct b. Qed.

Lemma ends_sys_bind {B} c (k : answer → prog runsv B) : (∀ tr, ends (k (os tr c))) → ends (sys os c ≫= k).
Proof. intros Hk st. apply Hk. Qed.

Create HintDb ends.
#[local] Hint Resolve ends_ret ends_sys ends_modify ends_done : ends.

Ltac ends_step :=
  first
    [ assumption
    | solve [auto with ends]
    | apply ends_get; intros ?
    | apply ends_if
    | apply ends_bind; [|intros ?]
    | match goal with |- ends (match ?x with _ => _ end) => destruct x end
    | match goal with |- ends (let '_ := ?x in _) => destruct x end ].
Ltac ends_tac := repeat ends_step.

(** Forks and waits succeed, writes make progress; the fuel is more than what
    a buffer holds. *)
Record answers_ok : Prop := {
  ans_write : write_ok os;
  ans_works : write_works os;
  ans_fork : ∀ tr, ret (os tr Fork) ≠ -1;
  ans_wait : ∀ tr p, ret (os tr (Wait_pid p)) ≠ -1;
  ans_fuel : (64 < fuel)%nat;
}.
Hypothesis (Hans : answers_ok).

Lemma ulong_str_length u : (length (ulong_str u) ≤ 40)%nat.
Proof.
  unfold ulong_str, fmt_ulong. destruct (fmt_ulong_len_ok (u64 u)) as (n & -> & Hn & _).
  { unfold u64. by apply Z.mod_pos_bound. }
  cbn [mbind option_bind]. destruct (fmt_ulong_digits _ _ _ _); cbn; [|lia]. rewrite length_take. lia.
Qed.

Lemma ends_puts b pieces :
  buffer_ok b → bn b = 64 → Forall (λ l, length l ≤ 64)%nat pieces → ends (puts_flush os fuel b pieces).
Proof.
  intros Hb Hn Hall. revert b Hb Hn. destruct Hans. induction Hall as [|l pieces Hl _ IH]; intros b Hb Hn; cbn [puts_flush].
  - apply ends_bind; [|done]. intros st. pose proof (buffer_flush_total os ans_write0 ans_works0 fuel b st Hb) as Ht.
    rewrite Hn in Ht. specialize (Ht ltac:(lia)). unfold total in Ht. by destruct (buffer_flush _ _ _ _) as [[?|?|] ?].
  - intros st. pose proof (buffer_put_total os ans_write0 ans_works0 fuel b l st Hb) as Ht. rewrite Hn in Ht.
    specialize (Ht ltac:(lia) ltac:(lia)). pose proof (buffer_put_ok os ans_write0 fuel b l st Hb) as Hp.
    unfold total, post, mbind, prog_bind in *. destruct (buffer_put _ _ _ _ _) as [[[ok b1]|?|] st1]; try done.
    destruct Hp as (_ & Hn1 & Hb1 & _). apply IH; [done|congruence].
Qed.

Lemma ends_update_status i : ends (update_status os fuel i).
Proof.
  assert (∀ fd pieces, Forall (λ l, length l ≤ 64)%nat pieces →
    ends (puts_flush os fuel (buffer_init fd (replicate 64 0)) pieces)) as Hputs.
  { intros fd pieces Hall. apply ends_puts; [|done|done]. by split. }
  assert (∀ fd s, ends (puts_flush os fuel (buffer_init fd (replicate 64 0)) (stat_line s))) as Hstat.
  { intros fd s. apply Hputs. unfold stat_line. repeat (apply Forall_app; split).
    all: repeat case_match; repeat (apply Forall_cons; split); try apply Forall_nil_2; by (apply Nat.leb_le; vm_compute). }
  assert (∀ fd u, ends (puts_flush os fuel (buffer_init fd (replicate 64 0)) [ulong_str u; [10]])) as Hpid.
  { intros fd u. apply Hputs. pose proof (ulong_str_length u).
    apply Forall_cons; split; [lia|]. apply Forall_cons; split; [by (apply Nat.leb_le; vm_compute)|apply Forall_nil_2]. }
  unfold update_status, update_pid, update_stat, update_bytes, warn. ends_tac.
Qed.

Lemma ends_custom i c : ends (custom os fuel i c).
Proof.
  assert (∀ p, ends (wait_child os fuel p)) as Hw.
  { intros p. destruct Hans. destruct fuel as [|n]; [lia|]. cbn [wait_child]. apply ends_sys_bind. intros tr.
    rewrite (proj2 (Z.eqb_neq _ _)) by done. ends_tac. }
  unfold custom, warn, exec. ends_tac.
Qed.
#[local] Hint Resolve ends_update_status ends_custom : ends.

Lemma ends_stopservice i : ends (stopservice os fuel i).
Proof. unfold stopservice, kill. ends_tac. Qed.
#[local] Hint Resolve ends_stopservice : ends.

Lemma ends_startservice i : ends (startservice os fuel i).
Proof.
  assert (ends (fork_retry os fuel)) as Hf.
  { destruct Hans. destruct fuel as [|n]; [lia|]. cbn [fork_retry]. apply ends_sys_bind. intros tr.
    rewrite (proj2 (Z.eqb_neq _ _)) by done. ends_tac. }
  unfold startservice, start_child, taia_now, fatal, exec. ends_tac.
Qed.
#[local] Hint Resolve ends_startservice : ends.

Lemma ends_start_wanted : ends (start_wanted os fuel).
Proof. unfold start_wanted. ends_tac. Qed.

Lemma ends_ctrl i c : ends (ctrl os fuel i c).
Proof. unfold ctrl, set_want, stop_running, start_down, signal_service, kill. ends_tac. Qed.
End runsv_proofs.

(** C7: From its start on and for any number of rounds, whatever control
    characters and deaths of children the kernel reports, the supervisor and
    its children signal only processes the supervisor forked and has not yet
    waited for, never a process group; the records of the service and its
    logger stay in order, each nonzero process number in them being a
    different living child; and the supervisor leaves with success only when
    it was told to exit, the service is down and its logger gone. *)
Theorem runsv_signals_own_children os fuel rounds dir :
  fork_ok os →
  post (runsv_main os fuel rounds dir) (runsv_zero, []) (λ _ st', inv st') left_or_ended.
Proof. intros Hfork. by apply runsv_main_ok. Qed.

(** C26: Before the supervisor sleeps it has started what is wanted: the service
    when it is wanted up or has a finish script to run, the logger when it is
    wanted up; and on a kernel whose forks, waits and writes succeed this
    needs no more than finitely many attempts. *)
Theorem start_wanted_runs os fuel st :
  fork_ok os → inv st →
  post (start_wanted os fuel) st (λ _ st',
    inv st' ∧ haslog (fst st') = haslog (fst st) ∧ wanted_runs (fst st')) ended ∧
  (answers_ok os fuel → ends (start_wanted os fuel)).
Proof. intros Hfork Hi. split; [by apply start_wanted_ok|apply ends_start_wanted]. Qed.

(** A control character sent to a running service without control scripts
    sends its process exactly the signals of the table [sends] in that order,
    TERM before CONT for a stop, and sets what is wanted as [wants] says; a
    logger ignores the exit character.  On a kernel that answers it ends. *)
Theorem ctrl_signals os fuel i c st :
  no_scripts os →
  state (svd (fst st) i) = S_RUN → pid (svd (fst st) i) ≠ 0 → 0 ≤ want (svd (fst st) i) ≤ 2 →
  post (ctrl os fuel i c) st (λ _ st',
    pid (svd (fst st') i) = pid (svd (fst st) i) ∧ want (svd (fst st') i) = wants (svd (fst st) i) c ∧
    kills (snd st') = kills (snd st) ++ map (pair (pid (svd (fst st) i))) (sends (svd (fst st) i) c)) ended ∧
  (answers_ok os fuel → ends (ctrl os fuel i c)).
Proof. intros Hno Hr Hp Hw. split; [by apply ctrl_signals_ok|by intros Hans; apply ends_ctrl]. Qed.

(** A kernel that numbers processes upwards, on which a [t] is always waiting
    in the fifo of the service. *)
Definition newest (tr : trace) : Z := foldr (λ ca m, Z.max m (ret (snd ca))) 0 tr.

Definition demo_kernel : oracle := λ tr c,
  match c with
  | Fork => Ans (newest tr + 1) 0 []
  | Stat "supervise/control" => Ans 0 0 [4096]
  | Stat _ => Ans (-1) ENOENT []
  | Read 7 _ => Ans 0 0 []
  | Read _ _ => Ans 1 0 [116]
  | Pipe => Ans 0 0 [7; 8]
  | Write _ b => Ans (len b) 0 []
  | Wait_nohang => Ans 0 0 []
  | Wait_pid p => Ans p 0 [0]
  | OpenRead "supervise/control" => Ans 9 0 []
  | _ => Ans 0 0 []
  end.

Lemma newest_live tr p : live tr p → p ≤ newest tr.
Proof.
  induction tr as [|[c a] tr IH]; cbn [live newest foldr]; [done|].
  change (foldr _ 0 tr) with (newest tr). cbn [snd].
  destruct c; intros Hl; try (specialize (IH Hl); lia).
  - destruct Hl as [[_ ->]|Hl]; [lia|]. specialize (IH Hl). lia.
  - specialize (IH (proj2 Hl)). lia.
  - specialize (IH (proj2 Hl)). lia.
Qed.

Lemma demo_fork_ok : fork_ok demo_kernel.
Proof.
  intros tr. cbn. right; right. split.
  - induction tr as [|[c a] tr IH]; cbn [newest foldr]; [lia|]. change (foldr _ 0 tr) with (newest tr). lia.
  - intros Hl%newest_live. lia.
Qed.

Lemma runsv_signals_own_children_witness :
  kills (snd (snd (runsv_main demo_kernel 70 2 "." (runsv_zero, [])))) = [(21, SIGTERM); (21, SIGTERM)] ∧
  post (runsv_main demo_kernel 70 2 "." ) (runsv_zero, []) (λ _ st', inv st') left_or_ended.
Proof.
  split; [vm_compute; reflexivity|].
  exact (runsv_signals_own_children demo_kernel 70 2 "." demo_fork_ok).
Defined.

Lemma start_wanted_runs_witness :
  pid (svd0 (fst (snd (start_wanted demo_kernel 70 (runsv_zero, []))))) = 1 ∧
  post (start_wanted demo_kernel 70) (runsv_zero, []) (λ _ st',
    inv st' ∧ haslog (fst st') = false ∧ wanted_runs (fst st')) ended.
Proof.
  split; [vm_compute; reflexivity|].
  exact (proj1 (start_wanted_runs demo_kernel 70 (runsv_zero, []) demo_fork_ok zero_inv)).
Defined.

(** A service that runs as process 42. *)
Definition demo_running : runsv * trace :=
  (RS (SV 42 S_RUN C_NOOP W_UP (TAIA 0 0 0) 0 9 false) svdir_zero false false false 0 0, []).

(** Nothing is found on this kernel. *)
Definition bare_kernel : oracle := λ _ c,
  match c with Stat _ => Ans (-1) ENOENT [] | Write _ b => Ans (len b) 0 [] | _ => Ans 0 0 [] end.

Lemma ctrl_signals_witness :
  sends (svd (fst demo_running) false) (chr "x") = [SIGTERM; SIGCONT] ∧
  post (ctrl bare_kernel 70 false (chr "x")) demo_running (λ _ st',
    pid (svd (fst st') false) = 42 ∧ want (svd (fst st') false) = W_EXIT ∧
    kills (snd st') = [] ++ map (pair 42) [SIGTERM; SIGCONT]) ended.
Proof.
  split; [reflexivity|].
  refine (proj1 (ctrl_signals bare_kernel 70 false (chr "x") demo_running _ _ _ _));
    first [by intros ? ? | done | cbn; unfold W_UP; lia].
Defined.
