(* ===== verification/Sv.v ===== *)
(** The control program, [runit/src/sv.c]: what it reads of a service's
    status, how it prints it, and when it calls an action done. *)
From stdpp Require Import strings.
From S2P Require Import Prelude Os Djb DjbProofs Runsv RunsvProofs.
Open Scope list_scope.
Open Scope Z_scope.

(** The globals: the status read last, [rc], [islog], [tstart], [tnow] and the
    text put on standard output. *)
Record sv := SVG {
  svstatus : list Z;
  rc : Z;
  sv_islog : bool;
  tstart : taia;
  tnow : taia;
  outtext : list Z;
}.

Definition set_svstatus (l : list Z) (g : sv) := SVG l (rc g) (sv_islog g) (tstart g) (tnow g) (outtext g).
Definition set_rc (x : Z) (g : sv) := SVG (svstatus g) x (sv_islog g) (tstart g) (tnow g) (outtext g).
Definition set_islog (b : bool) (g : sv) := SVG (svstatus g) (rc g) b (tstart g) (tnow g) (outtext g).
Definition add_out (l : list Z) (g : sv) := SVG (svstatus g) (rc g) (sv_islog g) (tstart g) (tnow g) (outtext g ++ l).

Definition ENXIO : Z := 6.

(** The status bytes as [sv] and [runsvstat] read them. *)
Definition status_pid (st : list Z) : Z :=
  let pid := peek st 15 in
  let pid := i32 (Z.shiftl pid 8 + peek st 14) in
  let pid := i32 (Z.shiftl pid 8 + peek st 13) in
  i32 (Z.shiftl pid 8 + peek st 12).

Section sv.
Context (os : oracle) (fuel : nat).
Notation P := (prog sv).

Definition outs (s : list Z) : P unit := modify (add_out s).
Definition complain (msg : string) : P unit := _ ← sys os (Warn msg); mret tt.

(** [fail], [failx], [warn], [warnx] count in [rc]; [ok] does not. *)
Definition sv_warn (msg : string) : P unit :=
  modify (λ g, set_rc (rc g + 1) g);; complain msg.

(** 1, 0 when runsv is not running, -1 on errors. *)
Definition svstatus_get (acts : list Z) : P Z :=
  fd ← sys os (OpenWrite "supervise/ok");
  if ret fd =? -1 then
    if errno fd =? ENXIO then
      (if peek acts 0 =? chr "x" then complain "runsv not running" else sv_warn "runsv not running");;
      mret 0
    else sv_warn "unable to open supervise/ok";; mret (-1)
  else
    sys os (Close (ret fd));;
    fd ← sys os (OpenRead "supervise/status");
    if ret fd =? -1 then sv_warn "unable to open supervise/status";; mret (-1) else
    r ← sys os (Read (ret fd) 20);
    (if 0 <? ret r then
       modify (λ g, set_svstatus (take (Z.to_nat (ret r)) (out r) ++ drop (Z.to_nat (ret r)) (svstatus g)) g)
     else mret tt);;
    sys os (Close (ret fd));;
    if ret r =? 20 then mret 1
    else if ret r =? -1 then sv_warn "unable to read supervise/status";; mret (-1)
    else sv_warn "unable to read supervise/status: bad format";; mret (-1).

(** The text of a status line; [normallyup] is whether there is no down file. *)
Definition status_text (m : list Z) (st : list Z) (normallyup : bool) (now : taia) : list Z :=
  let pid := status_pid st in
  let tstatus := default 0 (tai_unpack st) in
  (if peek st 19 =? 0 then bytes "down: " else if peek st 19 =? 1 then bytes "run: "
   else if peek st 19 =? 2 then bytes "finish: " else []) ++
  m ++ bytes ": " ++
  (if negb (peek st 19 =? 0) then bytes "(pid " ++ ulong_str pid ++ bytes ") " else []) ++
  ulong_str (if sec now <? tstatus then 0 else u64 (sec now - tstatus)) ++ bytes "s" ++
  (if negb (pid =? 0) && negb normallyup then bytes ", normally down" else []) ++
  (if (pid =? 0) && normallyup then bytes ", normally up" else []) ++
  (if negb (pid =? 0) && negb (peek st 16 =? 0) then bytes ", paused" else []) ++
  (if (pid =? 0) && (peek st 17 =? chr "u") then bytes ", want up" else []) ++
  (if negb (pid =? 0) && (peek st 17 =? chr "d") then bytes ", want down" else []) ++
  (if negb (pid =? 0) && negb (peek st 18 =? 0) then bytes ", got TERM" else []).

Definition svstatus_print (m : list Z) : P Z :=
  a ← sys os (Stat "down");
  if (ret a =? -1) && negb (errno a =? ENOENT) then complain "unable to stat down";; mret 0 else
  g ← get;
  outs (status_text m (svstatus g) (ret a =? -1) (tnow g));;
  mret (if status_pid (svstatus g) =? 0 then 2 else 1).

Definition checkscript : P bool :=
  a ← sys os (Stat "check");
  if ret a =? -1 then
    if errno a =? ENOENT then mret true else complain "unable to stat check";; mret false
  else
    p ← sys os Fork;
    if ret p =? -1 then complain "unable to fork for check";; mret false else
    if ret p =? 0 then sys os (Close 1);; done (Execd "check" []) else
    w ← (fix wait (n : nat) : P (option Z) :=
           match n with
           | O => spin
           | S n =>
               a ← sys os (Wait_pid (ret p));
               if ret a =? -1 then
                 if errno a =? EINTR then wait n else complain "unable to wait for child check";; mret None
               else mret (Some (peek (out a) 0))
           end) fuel;
    mret (match w with Some w => wait_exitcode w =? 0 | None => false end).

(** One character of [check]: [None] goes on to the next, [Some 0] is not done
    yet. *)
Definition check_char (c : Z) : P (option Z) :=
  g ← get;
  let st := svstatus g in
  let pid := status_pid st in
  let not_yet := mret (Some 0) in
  let next := mret None in
  let script := ok ← checkscript; if (ok : bool) then next else not_yet in
  if c =? chr "x" then not_yet
  else if c =? chr "u" then
    if (pid =? 0) || negb (peek st 19 =? 1) then not_yet else script
  else if c =? chr "d" then
    if negb (pid =? 0) || negb (peek st 19 =? 0) then not_yet else next
  else if c =? chr "C" then if negb (pid =? 0) then script else next
  else if (c =? chr "t") || (c =? chr "k") then
    if (pid =? 0) && (peek st 17 =? chr "d") then next else
    if (default 0 (tai_unpack st) <? sec (tstart g)) || (pid =? 0) || negb (peek st 18 =? 0)
    then not_yet else script
  else if c =? chr "o" then
    if ((pid =? 0) && (default 0 (tai_unpack st) <? sec (tstart g)))
       || (negb (pid =? 0) && negb (peek st 17 =? chr "d")) then not_yet else next
  else if c =? chr "p" then if negb (pid =? 0) && (peek st 16 =? 0) then not_yet else next
  else if c =? chr "c" then if negb (pid =? 0) && negb (peek st 16 =? 0) then not_yet else next
  else next.

Fixpoint check_loop (r : Z) (a : list Z) : P (option Z) :=
  match a with
  | [] => mret None
  | c :: a =>
      if r =? 0 then mret (Some (if c =? chr "x" then 1 else -1)) else
      res ← check_char c;
      match res with Some x => mret (Some x) | None => check_loop r a end
  end.

Definition check (service acts a : list Z) : P Z :=
  r ← svstatus_get acts;
  if r =? -1 then mret (-1) else
  res ← check_loop r a;
  match res with
  | Some x => mret x
  | None => outs (bytes "ok: ");; _ ← svstatus_print service; outs [10];; mret 1
  end.

Definition control (acts a : list Z) : P Z :=
  r ← svstatus_get acts;
  if r <=? 0 then mret (-1) else
  g ← get;
  if (peek (svstatus g) 17 =? peek a 0) && (negb (peek a 0 =? chr "d") || (peek (svstatus g) 18 =? 1))
  then mret 0 else
  fd ← sys os (OpenWrite "supervise/control");
  if ret fd =? -1 then
    (if negb (errno fd =? ENXIO) then sv_warn "unable to open supervise/control"
     else if peek a 0 =? chr "x" then complain "runsv not running" else sv_warn "runsv not running");;
    mret (-1)
  else
    r ← sys os (Write (ret fd) a);
    sys os (Close (ret fd));;
    if negb (ret r =? len a) then sv_warn "unable to write to supervise/control";; mret (-1)
    else mret 1.

Definition status (lsb : bool) (service acts : list Z) : P Z :=
  r ← svstatus_get acts;
  if r =? -1 then (if lsb then done (Exited 4) else mret 0)
  else if r =? 0 then mret 0 else
  rc ← svstatus_print service;
  modify (set_islog true);;
  a ← sys os (Chdir "log");
  rc ← (if ret a =? -1 then
          (if negb (errno a =? ENOENT) then outs (bytes "; ");; sv_warn "unable to change directory"
           else outs [10]);; mret rc
        else
          outs (bytes "; ");;
          r ← svstatus_get acts;
          if r =? 0 then mret rc else
          rc ← svstatus_print (bytes "log"); outs [10];; mret rc);
  modify (set_islog false);;
  if lsb then
    if rc =? 1 then done (Exited 0) else if rc =? 2 then done (Exited 3) else if rc =? 0 then done (Exited 4)
    else mret rc
  else mret rc.
End sv.

(** ** What runsv writes is what sv reads *)

Lemma shift_byte x y : 0 ≤ x → 0 ≤ y < 256 → x * 256 + y < 2 ^ 31 → i32 (Z.shiftl x 8 + y) = x * 256 + y.
Proof. intros. rewrite Z.shiftl_mul_pow2 by lia. change (2 ^ 8) with 256. apply i32_id. lia. Qed.

(** The four bytes of a process number. *)
Lemma pid_bytes p :
  0 ≤ p < 2 ^ 31 →
  i32 (Z.shiftl (i32 (Z.shiftl (i32 (Z.shiftl (u8 (Z.shiftr p 24)) 8 + u8 (Z.shiftr p 16))) 8 + u8 (Z.shiftr p 8))) 8 + u8 p) = p.
Proof.
  intros Hp. rewrite !Z.shiftr_div_pow2 by lia. unfold u8, wrap. change (2 ^ 8) with 256.
  pose proof (Z.div_mod p 256 ltac:(done)). pose proof (Z.mod_pos_bound p 256 ltac:(done)).
  change (2 ^ 16) with (256 * 256). change (2 ^ 24) with (256 * 256 * 256). rewrite <- !Z.div_div by lia.
  set (q := p / 256) in *. pose proof (Z.div_mod q 256 ltac:(done)). pose proof (Z.mod_pos_bound q 256 ltac:(done)).
  set (r := q / 256) in *. pose proof (Z.div_mod r 256 ltac:(done)). pose proof (Z.mod_pos_bound r 256 ltac:(done)).
  set (t := r / 256) in *. rewrite (Z.mod_small t) by lia.
  rewrite (shift_byte t), (shift_byte (t * 256 + _)), shift_byte by lia. lia.
Qed.

(** The service as [sv] sees it. *)
Lemma status_bytes_read s :
  0 ≤ pid s < 2 ^ 31 → 0 ≤ state s ≤ 2 → 0 ≤ sec (start s) < 2 ^ 64 →
  let st := status_bytes s in
  len st = 20 ∧ status_pid st = pid s ∧ tai_unpack st = Some (sec (start s)) ∧
  peek st 16 = b2z (has (ctrls s) C_PAUSE) ∧ peek st 17 = (if want s =? W_UP then chr "u" else chr "d") ∧
  peek st 18 = b2z (has (ctrls s) C_TERM) ∧ peek st 19 = state s.
Proof.
  intros Hp Hs Ht st.
  assert (u64 (pid s) = pid s) as Hu by (apply u64_id; lia).
  split_and!.
  - done.
  - unfold status_pid. change (peek st 15) with (u8 (Z.shiftr (u64 (pid s)) 24)).
    change (peek st 14) with (u8 (Z.shiftr (u64 (pid s)) 16)). change (peek st 13) with (u8 (Z.shiftr (u64 (pid s)) 8)).
    change (peek st 12) with (u8 (pid s)). rewrite Hu. by apply pid_bytes.
  - unfold st, status_bytes. change (take 12 (taia_pack (start s))) with (tai_pack (sec (start s)) ++ pack32 (nano (start s))).
    rewrite tai_pack_be, <- app_assoc. unfold be_bytes.
    rewrite tai_unpack_be; [|apply Forall_rev, is_bytes_le|done].
    f_equal. unfold be_val. rewrite rev_involutive, le_val_bytes by lia. by apply Z.mod_small.
  - change (peek st 16) with (if has (ctrls s) C_PAUSE then 1 else 0). by destruct (has _ _).
  - done.
  - change (peek st 18) with (if has (ctrls s) C_TERM then 1 else 0). by destruct (has _ _).
  - change (peek st 19) with (u8 (state s)). apply u8_id. lia.
Qed.

(** What an action being done means for the service itself. *)
Definition action_done (s : svdir) (since c : Z) : bool :=
  if c =? chr "x" then false
  else if c =? chr "u" then negb (pid s =? 0) && (state s =? S_RUN)
  else if c =? chr "d" then (pid s =? 0) && (state s =? S_DOWN)
  else if (c =? chr "t") || (c =? chr "k") then
    ((pid s =? 0) && negb (want s =? W_UP)) ||
    (negb (pid s =? 0) && (since <=? sec (start s)) && negb (has (ctrls s) C_TERM))
  else if c =? chr "o" then
    if pid s =? 0 then since <=? sec (start s) else negb (want s =? W_UP)
  else if c =? chr "p" then (pid s =? 0) || has (ctrls s) C_PAUSE
  else if c =? chr "c" then (pid s =? 0) || negb (has (ctrls s) C_PAUSE)
  else true.

(** A service without a check script. *)
Definition no_check (os : oracle) : Prop :=
  ∀ tr, let a := os tr (Stat "check") in ret a = -1 ∧ errno a = ENOENT.

Lemma checkscript_none os fuel st :
  no_check os → total (checkscript os fuel) st (λ ok st', ok = true ∧ fst st' = fst st).
Proof.
  intros Hno. unfold checkscript. destruct st as [g tr]. unfold total, mbind, prog_bind, sys. cbn [fst snd].
  destruct (Hno tr) as [Hr He]. rewrite Hr, He. done.
Qed.

Lemma script_none os fuel st :
  no_check os →
  total (ok ← checkscript os fuel; if (ok : bool) then mret None else mret (Some 0)) st
    (λ res st', res = None ∧ fst st' = fst st).
Proof.
  intros Hno. eapply total_bind; [by apply checkscript_none|]. cbv beta. by intros ok st' [-> Hst'].
Qed.

Lemma check_char_spec os fuel s c g tr :
  no_check os → 0 ≤ pid s < 2 ^ 31 → 0 ≤ state s ≤ 2 → 0 ≤ want s ≤ 2 → 0 ≤ sec (start s) < 2 ^ 64 →
  svstatus g = status_bytes s →
  total (check_char os fuel c) (g, tr) (λ res st',
    res = (if action_done s (sec (tstart g)) c then None else Some 0) ∧ fst st' = g).
Proof.
  intros Hno Hp Hs Hw Ht Hg.
  destruct (status_bytes_read s Hp Hs Ht) as (_ & Hpid & Htai & H16 & H17 & H18 & H19).
  unfold check_char. eapply (total_bind _ _ _ (λ g' st', g' = g ∧ st' = (g, tr))); [done|]. intros ? ? [-> ->].
  cbv zeta. rewrite Hg, Hpid, Htai, H16, H17, H18, H19. cbn [from_option id].
  pose proof (script_none os fuel (g, tr) Hno) as Hscript. cbn [fst] in Hscript.
  assert ((if want s =? W_UP then chr "u" else chr "d") =? chr "d" = negb (want s =? W_UP)) as Hd by (by destruct (_ =? W_UP)).
  assert (∀ b, b2z b =? 0 = negb b) as Hb by (by intros []).
  rewrite ?Hd, ?Hb, ?negb_involutive. unfold action_done. set (since := sec (tstart g)). set (t := sec (start s)).
  rewrite (Z.leb_antisym t since).
  assert (total (mret (Some 0) : prog sv (option Z)) (g, tr) (λ res st', res = Some 0 ∧ fst st' = g)) as H0 by done.
  assert (total (mret None : prog sv (option Z)) (g, tr) (λ res st', res = None ∧ fst st' = g)) as H1 by done.
  destruct (c =? chr "x"); [done|].
  destruct (c =? chr "u"); [unfold S_RUN; by destruct (pid s =? 0), (state s =? 1)|].
  destruct (c =? chr "d"); [unfold S_DOWN; by destruct (pid s =? 0), (state s =? 0)|].
  destruct (Z.eqb_spec c (chr "C")) as [->|].
  { change (chr "C" =? chr "t") with false. change (chr "C" =? chr "k") with false. change (chr "C" =? chr "o") with false.
    change (chr "C" =? chr "p") with false. change (chr "C" =? chr "c") with false. by destruct (pid s =? 0). }
  destruct (_ || _); [by destruct (pid s =? 0), (want s =? W_UP), (t <? since), (has (ctrls s) C_TERM)|].
  destruct (c =? chr "o"); [by destruct (pid s =? 0), (t <? since), (want s =? W_UP)|].
  destruct (c =? chr "p"); [by destruct (pid s =? 0), (has (ctrls s) C_PAUSE)|].
  destruct (c =? chr "c"); [by destruct (pid s =? 0), (has (ctrls s) C_PAUSE)|]. done.
Qed.

(** The read of a status file that holds [l]. *)
Definition status_file (os : oracle) (l : list Z) : Prop :=
  ∀ tr, ret (os tr (OpenWrite "supervise/ok")) ≠ -1 ∧ ret (os tr (OpenRead "supervise/status")) ≠ -1 ∧
    ∀ fd, ret (os tr (Read fd 20)) = len l ∧ out (os tr (Read fd 20)) = l.

Lemma svstatus_get_ok os acts l g tr :
  status_file os l → len l = 20 → total (svstatus_get os acts) (g, tr) (λ r st',
    r = 1 ∧ fst st' = set_svstatus (l ++ drop 20 (svstatus g)) g).
Proof.
  intros Hf Hl. unfold svstatus_get, total, mbind, prog_bind, sys, modify. cbn [fst snd].
  destruct (Hf tr) as (H1 & _ & _). rewrite (proj2 (Z.eqb_neq _ (-1)) H1).
  match goal with |- context [os ?t (OpenRead _)] => set (tr1 := t) end.
  destruct (Hf tr1) as (_ & H2 & _). rewrite (proj2 (Z.eqb_neq _ (-1)) H2). cbn [fst snd].
  match goal with |- context [os ?t (Read ?fd 20)] => set (tr2 := t); destruct (Hf tr2) as (_ & _ & H3); destruct (H3 fd) as [H4 H5] end.
  rewrite H4, Hl. change (0 <? 20) with true. change (20 =? 20) with true. cbv beta iota. cbn [fst snd].
  split; [done|]. rewrite H5. f_equal. change (Z.to_nat 20) with 20%nat.
  rewrite take_ge; [done|]. unfold len in Hl. lia.
Qed.

Lemma svstatus_print_total os m st :
  total (svstatus_print os m) st (λ _ _, True).
Proof.
  unfold svstatus_print, total, mbind, prog_bind, sys, complain, outs, modify, get. destruct st as [g tr]. cbn [fst snd].
  by destruct (_ && _).
Qed.

(** C27: The bytes [update_status] writes are read back by [sv] as the service's
    process, state, flags and start time; and where they are what
    supervise/status holds, [sv]'s check of an action without a check script
    says 1 exactly when the action is done for the service, 0 otherwise. *)
Theorem sv_check_agrees os fuel s service acts c g tr :
  no_check os → status_file os (status_bytes s) →
  0 ≤ pid s < 2 ^ 31 → 0 ≤ state s ≤ 2 → 0 ≤ want s ≤ 2 → 0 ≤ sec (start s) < 2 ^ 64 → len (svstatus g) = 20 →
  total (check os fuel service acts [c]) (g, tr) (λ r _, r = (if action_done s (sec (tstart g)) c then 1 else 0)).
Proof.
  intros Hno Hf Hp Hs Hw Ht Hg. unfold check.
  assert (len (status_bytes s) = 20) as Hl by done.
  eapply total_bind; [by apply svstatus_get_ok|]. cbv beta. intros r [g1 tr1] [-> Hg1]. cbn [fst] in Hg1.
  change (1 =? -1) with false. cbv iota.
  assert (svstatus g1 = status_bytes s ∧ tstart g1 = tstart g) as [Hst Hts].
  { rewrite Hg1. cbn [svstatus set_svstatus tstart]. split; [|done]. rewrite drop_ge; [apply app_nil_r|]. unfold len in Hg. lia. }
  eapply (total_bind _ _ _ (λ res st', res = (if action_done s (sec (tstart g1)) c then None else Some 0) ∧ fst st' = g1)).
  - cbn [check_loop]. change (1 =? 0) with false. cbv iota.
    eapply total_bind; [by apply (check_char_spec os fuel s)|]. cbv beta. intros res st' [-> Hst'].
    by destruct (action_done s (sec (tstart g1)) c).
  - cbv beta. intros res st' [-> _]. rewrite Hts. destruct (action_done s (sec (tstart g)) c); [|done].
    unfold outs. eapply (total_bind _ _ _ (λ _ _, True)); [done|]. intros ? st2 _.
    eapply total_bind; [apply svstatus_print_total|]. intros ? st3 _.
    eapply (total_bind _ _ _ (λ _ _, True)); done.
Qed.

Definition example_service : svdir :=
  SV 4242 S_RUN C_NOOP W_UP (TAIA 4611686018427387914 0 0) 0 3 false.

(** A kernel that holds its status. *)
Definition status_kernel : oracle := λ tr c,
  match c with
  | Read _ 20 => Ans 20 0 (status_bytes example_service)
  | Stat _ => Ans (-1) ENOENT []
  | _ => Ans 3 0 []
  end.

Lemma sv_check_agrees_witness :
  let g := SVG (replicate 20 0) 0 false (TAIA 0 0 0) (TAIA 0 0 0) [] in
  total (check status_kernel 5 [] [117] [117]) (g, []) (λ r _, r = 1).
Proof.
  intros g.
  refine (sv_check_agrees status_kernel 5 example_service [] [117] 117 g [] _ _ _ _ _ _ _);
    first [done | intros ?; split_and!; done | cbn; unfold S_RUN, W_UP; lia].
Defined.
