(* ===== verification/Vmm.v ===== *)
(** Page tables, [limine/common/mm/vmm.c]: the parts the architectures share,
    [get_next_level] and [map_pages], over the memory the tables live in and
    the encoding of their entries. *)
From S2P Require Import Prelude.

Definition PT_SIZE : Z := 0x1000.

(** What a computation on the tables gives: out of memory, [ext_mem_alloc]
    panics, in the state it was called in; the other panics lose the state. *)
Inductive res (S A : Type) :=
  | Ok (a : A)
  | OutOfMemory (s : S)
  | Panicked.
Arguments Ok {S A} a.
Arguments OutOfMemory {S A} s.
Arguments Panicked {S A}.

#[export] Instance res_ret {S} : MRet (res S) := λ A a, Ok a.
#[export] Instance res_bind {S} : MBind (res S) := λ A B k m,
  match m with Ok a => k a | OutOfMemory s => OutOfMemory s | Panicked => Panicked end.

(** [for (i = 0; i < n * step; i += step)]. *)
Fixpoint each {S} (n : nat) (i step : Z) (body : Z → S → res S S) (s : S) : res S S :=
  match n with
  | O => Ok s
  | Datatypes.S n => s ← body i s; each n (i + step) step body s
  end.

(** ** The memory of the tables

    [pt_alloc] is [ext_mem_alloc(PT_SIZE)], [pt_read s t i] is [t[i]] and
    [pt_write s t i e] is [t[i] = e] for a table at address [t];
    [pt_owned s t]: the page at [t] was allocated. *)
Class pt_memory (S : Type) := PtMemory {
  pt_alloc : S → option (Z * S);
  pt_read : S → Z → Z → Z;
  pt_write : S → Z → Z → Z → S;
  pt_owned : S → Z → Prop;
  pt_read_write s t i e t' j :
    pt_owned s t → pt_owned s t' → 0 ≤ i < 512 → 0 ≤ j < 512 → is_word 64 e →
    pt_read (pt_write s t i e) t' j = if decide (t' = t ∧ j = i) then e else pt_read s t' j;
  pt_owned_write s t i e t' : pt_owned s t → 0 ≤ i < 512 → pt_owned (pt_write s t i e) t' ↔ pt_owned s t';
  pt_read_word s t i : pt_owned s t → 0 ≤ i < 512 → is_word 64 (pt_read s t i);
  pt_alloc_fresh s p s' : pt_alloc s = Some (p, s') →
    ¬ pt_owned s p ∧ p mod PT_SIZE = 0 ∧ 0 < p < 2 ^ 48 ∧
    pt_owned s' p ∧ (∀ q, pt_owned s q → pt_owned s' q) ∧
    (∀ i, 0 ≤ i < 512 → pt_read s' p i = 0) ∧
    (∀ q i, pt_owned s q → 0 ≤ i < 512 → pt_read s' q i = pt_read s q i);
}.

(** ** Shared code *)

(** The macros an architecture gives; [PT_IS_TABLE] may look at the level. *)
Record arch := Arch {
  VMM_MAX_LEVEL : nat;
  PT_TABLE_FLAGS : Z;
  PT_IS_TABLE : nat → Z → bool;
  PT_IS_LARGE : Z → bool;
  PT_TO_VMM_FLAGS : Z → Z;
  pte_new : Z → Z → Z;
  pte_addr : Z → Z;
}.

(** [page_sizes[]]. *)
Definition page_size (level : nat) : Z :=
  match level with
  | 0%nat => 0x1000
  | 1%nat => 0x200000
  | 2%nat => 0x40000000
  | 3%nat => 0x8000000000
  | _ => 0x1000000000000
  end.

Section code.
Context {S : Type} `{!pt_memory S} (A : arch).
(** [map_page] of the architecture, for this pagemap. *)
Context (map_page : Z → Z → Z → nat → S → res S S).

(** A fresh table at an entry. *)
Definition new_level (s : S) (current_level entry : Z) : res S (Z * S) :=
  match pt_alloc s with
  | None => OutOfMemory s
  | Some (ret, s) => Ok (ret, pt_write s current_level entry (pte_new A ret (PT_TABLE_FLAGS A)))
  end.

Definition get_next_level (s : S) (current_level virt : Z) (desired_sz level_idx : nat) (entry : Z)
    : res S (Z * S) :=
  let e := pt_read s current_level entry in
  if PT_IS_TABLE A level_idx e then Ok (pte_addr A e, s)
  else if PT_IS_LARGE A e then
    if (VMM_MAX_LEVEL A <=? level_idx)%nat || (level_idx =? 0)%nat then Panicked else
    if (VMM_MAX_LEVEL A <=? desired_sz)%nat then Panicked else
    let old_page_size := page_size level_idx in
    let new_page_size := page_size desired_sz in
    let old_flags := PT_TO_VMM_FLAGS A e in
    let old_phys := pte_addr A e in
    let old_virt := Z.ldiff virt (old_page_size - 1) in
    if negb (Z.land old_phys (old_page_size - 1) =? 0) then Panicked else
    '(ret, s) ← new_level s current_level entry;
    s ← each (Z.to_nat (old_page_size / new_page_size)) 0 new_page_size
      (λ i s, map_page (u64 (old_virt + i)) (u64 (old_phys + i)) old_flags desired_sz s) s;
    Ok (ret, s)
  else new_level s current_level entry.

Definition Size4KiB : nat := 0.
Definition Size2MiB : nat := 1.
Definition Size1GiB : nat := 2.

(** The size [map_pages] takes next. *)
Definition next_size (virt phys left : Z) : nat :=
  if (Z.land phys (0x40000000 - 1) =? 0) && (Z.land virt (0x40000000 - 1) =? 0) && (0x40000000 <=? left)
  then Size1GiB
  else if (Z.land phys (0x200000 - 1) =? 0) && (Z.land virt (0x200000 - 1) =? 0) && (0x200000 <=? left)
  then Size2MiB else Size4KiB.

Fixpoint map_pages_loop (fuel : nat) (virt phys flags count i : Z) (s : S) : res S S :=
  match fuel with
  | O => Panicked
  | Datatypes.S fuel =>
      if i <? count then
        let sz := next_size (u64 (virt + i)) (u64 (phys + i)) (count - i) in
        s ← map_page (u64 (virt + i)) (u64 (phys + i)) flags sz s;
        map_pages_loop fuel virt phys flags count (i + page_size sz) s
      else Ok s
  end.

Definition map_pages (virt phys flags count : Z) (s : S) : res S S :=
  if negb (virt mod 0x1000 =? 0) || negb (phys mod 0x1000 =? 0) || negb (count mod 0x1000 =? 0)
  then Panicked
  else map_pages_loop (Datatypes.S (Z.to_nat (count / 0x1000))) virt phys flags count 0 s.
End code.
