(* ===== verification/VmmWalk.v ===== *)
(** What the page tables mean: the walk the processor does, well-formed
    tables, and how one store to a table changes what they map. *)
From S2P Require Import Prelude Vmm.

(** An architecture to the eyes of its processor: where a walk starts, which
    entry it takes, and how the last level is encoded; [leaf] is the entry
    [map_page] stores, [ok_flags] the flags it is given and [norm] what
    becomes of them. *)
Record mmu := Mmu {
  m_arch : arch;
  top : nat;
  root : bool → Z;
  half : Z → bool;
  slots : nat → Z;
  leaf : nat → Z → Z → Z;
  present0 : Z → bool;
  frame0 : Z → Z;
  flags0 : Z → Z;
  ok_flags : Z → Prop;
  ok_large : nat → Z → Prop;
  norm : Z → Z;
  phys_bits : Z;
}.
Coercion m_arch : mmu >-> arch.

(** The entry of a level that an address goes through. *)
Definition index (M : mmu) (l : nat) (v : Z) : Z := (v / page_size l) mod slots M l.

Record mmu_ok (M : mmu) : Prop := {
  law_top : (top M ≤ 4)%nat ∧ (2 ≤ top M)%nat;
  law_max : (VMM_MAX_LEVEL M ≤ 5)%nat;
  law_slots l : 0 < slots M l ≤ 512 ∧ ((l < top M)%nat → slots M l = 512);
  law_half l v w : (l ≤ top M)%nat → v / page_size l = w / page_size l → half M v = half M w;
  law_phys : 0 ≤ phys_bits M ≤ 64;
  law_table l p : (1 ≤ l ≤ top M)%nat → p mod 0x1000 = 0 → 0 < p < 2 ^ 48 →
    let e := pte_new M p (PT_TABLE_FLAGS M) in
    is_word 64 e ∧ PT_IS_TABLE M l e = true ∧ pte_addr M e = p;
  law_zero l : PT_IS_TABLE M l 0 = false ∧ PT_IS_LARGE M 0 = false ∧ present0 M 0 = false;
  law_leaf l p f : (l < VMM_MAX_LEVEL M)%nat → ok_flags M f →
    p mod page_size l = 0 → 0 ≤ p < 2 ^ phys_bits M →
    let e := leaf M l p f in
    is_word 64 e ∧
    ((1 ≤ l)%nat → PT_IS_TABLE M l e = false ∧ PT_IS_LARGE M e = true ∧ ok_large M l e ∧
       PT_TO_VMM_FLAGS M e = norm M f ∧ pte_addr M e / page_size l * page_size l = p) ∧
    (l = 0%nat → present0 M e = true ∧ frame0 M e = p ∧ flags0 M e = norm M f);
  law_split l e : (1 ≤ l < VMM_MAX_LEVEL M)%nat → is_word 64 e →
    PT_IS_LARGE M e = true → ok_large M l e → pte_addr M e mod page_size l = 0 →
    let f := PT_TO_VMM_FLAGS M e in
    ok_flags M f ∧ norm M f = f ∧ 0 ≤ pte_addr M e ∧ pte_addr M e + page_size l ≤ 2 ^ phys_bits M ∧
    (∀ k p, (1 ≤ k < l)%nat → p mod page_size k = 0 → 0 ≤ p < 2 ^ phys_bits M →
       pte_addr M (leaf M k p f) mod page_size k = 0);
}.

(** ** Page sizes *)

Lemma page_size_pos l : 0 < page_size l.
Proof. do 4 (destruct l as [|l]; [done|]). done. Qed.

Lemma page_size_S l : (l < 4)%nat → page_size (S l) = 512 * page_size l.
Proof. intros. do 4 (destruct l as [|l]; [done|]). lia. Qed.

Lemma page_size_pow l : (l ≤ 4)%nat → page_size l = 2 ^ (12 + 9 * Z.of_nat l).
Proof. intros. do 5 (destruct l as [|l]; [done|]). lia. Qed.

Lemma page_size_le l k : (l ≤ k ≤ 4)%nat → ∃ q, page_size k = q * page_size l ∧ 0 < q.
Proof.
  intros [Hl Hk]. induction Hl as [|k Hl IH]; [exists 1; lia|].
  destruct IH as (q & Hq & Hpos); [lia|]. exists (512 * q). rewrite page_size_S by lia. lia.
Qed.

Section walk.
Context {S : Type} `{!pt_memory S} (M : mmu) (HM : mmu_ok M).
Implicit Types (s : S) (l sz : nat) (v w t p e : Z).

Lemma index_range l v : 0 ≤ index M l v < 512.
Proof.
  destruct (law_slots M HM l) as [? _]. unfold index.
  pose proof (Z.mod_pos_bound (v / page_size l) (slots M l)). lia.
Qed.

(** [v] and [w] go through the same entries down to level [l]. *)
Definition same_page (l : nat) (v w : Z) : Prop :=
  half M v = half M w ∧ Forall (λ k, index M k v = index M k w) (seq l (Datatypes.S (top M) - l)).

#[export] Instance same_page_dec l v w : Decision (same_page l v w).
Proof. unfold same_page. apply _. Defined.

Lemma same_page_spec l v w :
  same_page l v w ↔ half M v = half M w ∧ ∀ k, (l ≤ k ≤ top M)%nat → index M k v = index M k w.
Proof.
  unfold same_page. rewrite Forall_forall. setoid_rewrite elem_of_seq.
  split; intros [? Hi]; (split; [done|]); intros k Hk; apply Hi; lia.
Qed.

Lemma same_page_refl l v : same_page l v v.
Proof. by apply same_page_spec. Qed.
Lemma same_page_sym l v w : same_page l v w → same_page l w v.
Proof. rewrite !same_page_spec. intros [? Hi]. split; [done|]. intros k Hk. symmetry. by apply Hi. Qed.
Lemma same_page_trans l v w u : same_page l v w → same_page l w u → same_page l v u.
Proof.
  rewrite !same_page_spec. intros [? Hi] [? Hj]. split; [congruence|]. intros k Hk. rewrite Hi by done. by apply Hj.
Qed.
Lemma same_page_le l k v w : (l ≤ k)%nat → same_page l v w → same_page k v w.
Proof. rewrite !same_page_spec. intros Hl [? Hi]. split; [done|]. intros j Hj. apply Hi. lia. Qed.
Lemma same_page_S l v w : (l ≤ top M)%nat → index M l v = index M l w → same_page (Datatypes.S l) v w → same_page l v w.
Proof.
  rewrite !same_page_spec. intros Hl He [? Hi]. split; [done|]. intros k Hk.
  destruct (decide (k = l)) as [->|]; [done|]. apply Hi. lia.
Qed.
Lemma same_page_index l v w : (l ≤ top M)%nat → same_page l v w → index M l v = index M l w.
Proof. rewrite same_page_spec. intros Hl [_ Hi]. by apply Hi. Qed.

(** ** The walk *)

Fixpoint walk (s : S) (l : nat) (t v : Z) : option (Z * Z) :=
  let e := pt_read s t (index M l v) in
  match l with
  | O => if present0 M e then Some (frame0 M e + v mod page_size 0, flags0 M e) else None
  | Datatypes.S l' =>
      if PT_IS_TABLE M l e then walk s l' (pte_addr M e) v
      else if PT_IS_LARGE M e then
        Some (pte_addr M e / page_size l * page_size l + v mod page_size l, PT_TO_VMM_FLAGS M e)
      else None
  end.

(** Where an address leads, and with what flags. *)
Definition translate (s : S) (v : Z) : option (Z * Z) := walk s (top M) (root M (half M v)) v.

(** The table of a level the walk of [v] goes through. *)
Fixpoint at_depth (n : nat) (s : S) (v : Z) : option Z :=
  match n with
  | O => Some (root M (half M v))
  | Datatypes.S n =>
      t ← at_depth n s v;
      let l := (top M - n)%nat in
      let e := pt_read s t (index M l v) in
      if PT_IS_TABLE M l e then Some (pte_addr M e) else None
  end.
Definition table_at (s : S) (l : nat) (v : Z) : option Z := at_depth (top M - l) s v.

Lemma table_at_top s v : table_at s (top M) v = Some (root M (half M v)).
Proof. unfold table_at. by rewrite Nat.sub_diag. Qed.

Lemma table_at_below s l v : (l < top M)%nat →
  table_at s l v = (t ← table_at s (Datatypes.S l) v;
    let e := pt_read s t (index M (Datatypes.S l) v) in
    if PT_IS_TABLE M (Datatypes.S l) e then Some (pte_addr M e) else None).
Proof.
  intros Hl. unfold table_at.
  replace (top M - l)%nat with (Datatypes.S (top M - Datatypes.S l)) by lia. cbn [at_depth].
  replace (top M - (top M - Datatypes.S l))%nat with (Datatypes.S l) by lia. done.
Qed.

(** Induction down the levels. *)
Lemma level_ind (Q : nat → Prop) :
  Q (top M) → (∀ l, (l < top M)%nat → Q (Datatypes.S l) → Q l) → ∀ l, (l ≤ top M)%nat → Q l.
Proof.
  intros Ht Hs l Hl. remember (top M - l)%nat as n eqn:Hn. revert l Hl Hn. induction n as [|n IH]; intros l Hl Hn.
  - by replace l with (top M) by lia.
  - apply Hs; [lia|]. apply IH; lia.
Qed.

Lemma table_at_same s l v w : (l ≤ top M)%nat → same_page (Datatypes.S l) v w → table_at s l v = table_at s l w.
Proof.
  intros Hl. revert l Hl. refine (level_ind _ _ _).
  - intros [Hh _]. by rewrite !table_at_top, Hh.
  - intros l Hl IH Hs. rewrite (table_at_below s l v), (table_at_below s l w) by done.
    rewrite (IH (same_page_le _ (Datatypes.S (Datatypes.S l)) _ _ (Nat.le_succ_diag_r _) Hs)). by rewrite (same_page_index (Datatypes.S l) v w Hl Hs).
Qed.

Lemma walk_at s l v t : (l ≤ top M)%nat → table_at s l v = Some t → translate s v = walk s l t v.
Proof.
  intros Hl. revert l Hl t. refine (level_ind _ _ _).
  - intros t. rewrite table_at_top. by intros [= <-].
  - intros l Hl IH t. rewrite table_at_below by done.
    destruct (table_at s (Datatypes.S l) v) as [t1|]; [|done]. cbn [mbind option_bind]. rewrite (IH t1 eq_refl).
    cbn [walk]. cbv zeta. destruct (PT_IS_TABLE _ _ _); [|done]. by intros [= <-].
Qed.

(** A walk that ended stays so. *)
Lemma table_at_none s l k v : (k ≤ l ≤ top M)%nat → table_at s l v = None → table_at s k v = None.
Proof.
  intros [Hk Hl] Hn. induction Hk as [|l Hk IH]; [done|]. apply IH; [lia|].
  rewrite table_at_below by lia. by rewrite Hn.
Qed.

Lemma table_at_stop s l k v t : (k < l ≤ top M)%nat → table_at s l v = Some t →
  PT_IS_TABLE M l (pt_read s t (index M l v)) = false → table_at s k v = None.
Proof.
  intros Hk Ht Hf. apply (table_at_none s (l - 1)); [lia|]. rewrite table_at_below by lia.
  replace (Datatypes.S (l - 1)) with l by lia. rewrite Ht. cbn [mbind option_bind]. cbv zeta. by rewrite Hf.
Qed.

(** The walk only depends on the entries it meets. *)
Lemma walk_ext s s' l v t :
  (l ≤ top M)%nat → table_at s l v = Some t →
  (∀ k u, (k ≤ l)%nat → table_at s k v = Some u → pt_read s' u (index M k v) = pt_read s u (index M k v)) →
  walk s' l t v = walk s l t v.
Proof.
  intros Hl Ht Hr. revert t Hl Ht. induction l as [|l IH]; intros t Hl Ht; cbn [walk]; cbv zeta; rewrite (Hr _ _ (le_n _) Ht); [done|].
  destruct (PT_IS_TABLE _ _ _) eqn:He; [|done]. apply IH; [|lia|].
  - intros k u Hk. apply Hr. lia.
  - rewrite table_at_below, Ht by lia. cbn [mbind option_bind]. cbv zeta. by rewrite He.
Qed.

(** ** Well-formed tables *)

(** No table is shared, every table was allocated, large pages are of a size
    the code can split and as it stores them. *)
Record wf (s : S) : Prop := {
  wf_owned l v t : (l ≤ top M)%nat → table_at s l v = Some t → pt_owned s t;
  wf_inj l k v w t : (l ≤ top M)%nat → (k ≤ top M)%nat → table_at s l v = Some t → table_at s k w = Some t →
    l = k ∧ same_page (Datatypes.S l) v w;
  wf_large l v t : (1 ≤ l ≤ top M)%nat → table_at s l v = Some t →
    let e := pt_read s t (index M l v) in
    PT_IS_TABLE M l e = false → PT_IS_LARGE M e = true → (l < VMM_MAX_LEVEL M)%nat ∧ ok_large M l e;
}.

(** No large page lies above level [sz] on the way of [v]. *)
Definition clear (s : S) (sz : nat) (v : Z) : Prop :=
  ∀ l t, (sz < l ≤ top M)%nat → table_at s l v = Some t →
    let e := pt_read s t (index M l v) in PT_IS_TABLE M l e = true ∨ PT_IS_LARGE M e = false.

(** The large page of [v] has an entry whose address is not a multiple of its
    size, which happens where a flag lies among the address bits. *)
Definition misaligned (s : S) (v : Z) : Prop :=
  ∃ l t, (1 ≤ l ≤ top M)%nat ∧ table_at s l v = Some t ∧
    let e := pt_read s t (index M l v) in
    PT_IS_TABLE M l e = false ∧ PT_IS_LARGE M e = true ∧ pte_addr M e mod page_size l ≠ 0.

(** Where the entries the code stores have no flags among their address bits,
    no large page is so. *)
Lemma wf_aligned s v : (∀ l e, ok_large M l e → pte_addr M e mod page_size l = 0) → wf s → ¬ misaligned s v.
Proof.
  intros Hal Hwf (l & t & Hl & Ht & H1 & H2 & H3). apply H3, Hal. by apply (wf_large _ Hwf l v t Hl Ht).
Qed.

(** ** One store *)

Section store.
Context (s : S) (l : nat) (w t e : Z).
Hypothesis (Hwf : wf s) (Hl : (l ≤ top M)%nat) (Ht : table_at s l w = Some t) (He : is_word 64 e).
Let s' := pt_write s t (index M l w) e.

Lemma store_read k v u : (k ≤ top M)%nat → table_at s k v = Some u →
  pt_read s' u (index M k v) = if decide (k = l ∧ same_page l v w) then e else pt_read s u (index M k v).
Proof.
  intros Hk Hu. unfold s'. pose proof (wf_owned _ Hwf _ _ _ Hl Ht). pose proof (wf_owned _ Hwf _ _ _ Hk Hu).
  rewrite pt_read_write by (done || apply index_range).
  destruct (decide (u = t ∧ index M k v = index M l w)) as [[-> Hi]|Hne].
  - destruct (wf_inj _ Hwf _ _ _ _ _ Hk Hl Hu Ht) as [-> Hs]. rewrite decide_True; [done|]. split; [done|]. by apply same_page_S.
  - rewrite decide_False; [done|]. intros [-> Hs]. apply Hne. split; [|by apply same_page_index].
    pose proof (table_at_same s l v w Hl (same_page_le l (Datatypes.S l) _ _ (Nat.le_succ_diag_r l) Hs)) as Heq. rewrite Hu, Ht in Heq. by injection Heq.
Qed.

Lemma store_above k v : (k ≤ top M)%nat → (l ≤ k)%nat → table_at s' k v = table_at s k v.
Proof.
  intros Hk. revert k Hk. refine (level_ind _ _ _).
  - intros _. by rewrite (table_at_top s'), (table_at_top s).
  - intros k Hk IH Hlk. rewrite (table_at_below s' k v), (table_at_below s k v) by done. rewrite IH by lia.
    destruct (table_at s (Datatypes.S k) v) as [u|] eqn:Hu; [|done]. cbn [mbind option_bind]. cbv zeta.
    rewrite (store_read _ v u) by (done || lia). rewrite decide_False by lia. done.
Qed.

Lemma store_other k v : (k ≤ top M)%nat → ¬ same_page l v w → table_at s' k v = table_at s k v.
Proof.
  intros Hk Hn. revert k Hk. refine (level_ind _ _ _).
  - by rewrite (table_at_top s'), (table_at_top s).
  - intros k Hk IH. rewrite (table_at_below s' k v), (table_at_below s k v) by done. rewrite IH.
    destruct (table_at s (Datatypes.S k) v) as [u|] eqn:Hu; [|done]. cbn [mbind option_bind]. cbv zeta.
    rewrite (store_read _ v u) by (done || lia). rewrite decide_False by naive_solver. done.
Qed.

Lemma store_at v : same_page l v w → table_at s' l v = Some t.
Proof. intros Hs. rewrite store_above by done. rewrite <- Ht. apply table_at_same; [done|]. eapply same_page_le; [|done]. lia. Qed.

Lemma store_entry v : same_page l v w → pt_read s' t (index M l v) = e.
Proof.
  intros Hs. assert (table_at s l v = Some t) as Hv.
  { rewrite <- Ht. apply table_at_same; [done|]. eapply same_page_le; [|done]. lia. }
  rewrite (store_read l v t) by done. by rewrite decide_True.
Qed.

Lemma store_translate_other v : ¬ same_page l v w → translate s' v = translate s v.
Proof.
  intros Hn. unfold translate. apply walk_ext; [done|apply table_at_top|].
  intros k u Hk Hu. rewrite store_read by done. by rewrite decide_False by naive_solver.
Qed.

Lemma store_misaligned_other v : ¬ same_page l v w → misaligned s' v → misaligned s v.
Proof.
  intros Hn (k & u & Hk & Hu & Hm). rewrite store_other in Hu by (done || lia). exists k, u. split; [done|]. split; [done|].
  cbv zeta in *. rewrite store_read in Hm by (done || lia). by rewrite decide_False in Hm by naive_solver.
Qed.

Lemma store_clear_other sz v : ¬ same_page l v w → clear s sz v → clear s' sz v.
Proof.
  intros Hn Hc k u Hk Hu. rewrite store_other in Hu by (done || lia). cbv zeta.
  rewrite store_read by (done || lia). rewrite decide_False by naive_solver. by apply (Hc k u).
Qed.

(** An entry that ends the walk. *)
Hypothesis (Hend : l = 0%nat ∨ PT_IS_TABLE M l e = false).

Lemma store_end_tables k v u : (k ≤ top M)%nat → table_at s' k v = Some u → table_at s k v = Some u ∧ (same_page l v w → (l ≤ k)%nat).
Proof.
  intros Hk. destruct (decide (same_page l v w)) as [Hs|Hn].
  2: { rewrite store_other by done. intros Hu. split; [done|]. by intros. }
  destruct (decide (l ≤ k)%nat) as [Hlk|Hlk]; [rewrite store_above by done; by intros|].
  intros Hu. exfalso. destruct Hend as [->|Hf]; [lia|].
  rewrite (table_at_stop s' l k v t) in Hu; [done|lia|by apply store_at|by rewrite (store_entry v Hs)].
Qed.

Lemma store_end_wf : ((1 ≤ l)%nat → PT_IS_LARGE M e = true → (l < VMM_MAX_LEVEL M)%nat ∧ ok_large M l e) → wf s'.
Proof.
  intros Hmax. split.
  - intros k v u Hk [Hu _]%store_end_tables; [|done]. unfold s'.
    rewrite pt_owned_write; [exact (wf_owned _ Hwf _ _ _ Hk Hu)|exact (wf_owned _ Hwf _ _ _ Hl Ht)|apply index_range].
  - intros k j v u x Hk Hj [Hv _]%store_end_tables [Hu _]%store_end_tables; [|done..]. exact (wf_inj _ Hwf _ _ _ _ _ Hk Hj Hv Hu).
  - intros k v u Hk [Hu _]%store_end_tables; [|lia]. cbv zeta. rewrite store_read by (done || lia).
    case_decide as Hd; [destruct Hd as [-> _]; intros; apply Hmax; [lia|done]|]. by apply (wf_large _ Hwf k v u).
Qed.

Lemma store_end_translate v : same_page l v w → translate s' v =
  match l with
  | O => if present0 M e then Some (frame0 M e + v mod page_size 0, flags0 M e) else None
  | _ => if PT_IS_LARGE M e then Some (pte_addr M e / page_size l * page_size l + v mod page_size l, PT_TO_VMM_FLAGS M e) else None
  end.
Proof.
  intros Hs. rewrite (walk_at s' l v t) by (done || by apply store_at).
  pose proof (store_entry v Hs) as Hr. revert Hr Hend. generalize s'. intros s1 Hr Hend.
  destruct l as [|l']; cbn [walk]; cbv zeta; rewrite Hr; [done|].
  destruct Hend as [|Hf]; [done|]. by rewrite Hf.
Qed.

Lemma store_end_clear sz v : (l ≤ sz)%nat → clear s sz v → clear s' sz v.
Proof.
  intros Hle Hc k u Hk Hu. rewrite store_above in Hu by lia. cbv zeta.
  rewrite store_read by (done || lia). rewrite decide_False by lia. by apply (Hc k u).
Qed.

Lemma store_end_misaligned v : same_page l v w → misaligned s' v →
  (∃ k u, (l < k ≤ top M)%nat ∧ table_at s k v = Some u ∧ PT_IS_TABLE M k (pt_read s u (index M k v)) = false) ∨
  ((1 ≤ l)%nat ∧ pte_addr M e mod page_size l ≠ 0).
Proof.
  intros Hs (k & u & Hk & Hu & H1 & H2 & H3). apply store_end_tables in Hu as [Hu Hlk]; [|lia]. specialize (Hlk Hs).
  rewrite store_read in H1, H2, H3 by (done || lia). case_decide as Hd.
  - destruct Hd as [-> _]. right. split; [lia|done].
  - left. exists k, u. split; [|done]. split; [|lia]. apply Nat.lt_eq_cases in Hlk as [|Heq]; [done|]. subst k. naive_solver.
Qed.
End store.
End walk.
