(* ===== verification/VmmMap.v ===== *)
(** [get_next_level] and the descent of [map_page] change what the tables map
    in the page they are for and nowhere else, large pages being split on the
    way. *)
From S2P Require Import Prelude Vmm VmmWalk.

Section map.
Context {S : Type} `{!pt_memory S} (M : mmu) (HM : mmu_ok M).
Implicit Types (s : S) (l sz : nat) (v w t p e : Z).
Notation wf := (wf M).
Notation table_at := (table_at M).
Notation translate := (translate M).
Notation same_page := (same_page M).
Notation index := (index M).
Notation clear := (clear M).
Notation misaligned := (misaligned M).

(** ** A fresh table *)

(** The walks of two memories that agree on the tables of the first. *)
Record agrees (s s' : S) : Prop := {
  agrees_tables l v : (l ≤ top M)%nat → table_at s' l v = table_at s l v;
  agrees_read l v t : (l ≤ top M)%nat → table_at s l v = Some t →
    pt_read s' t (index l v) = pt_read s t (index l v);
}.

Lemma alloc_agrees s p s' : wf s → pt_alloc s = Some (p, s') → agrees s s'.
Proof.
  intros Hwf Ha. pose proof (pt_alloc_fresh _ _ _ Ha) as (_ & _ & _ & _ & _ & _ & Hr).
  assert (∀ l v t, (l ≤ top M)%nat → table_at s l v = Some t → pt_read s' t (index l v) = pt_read s t (index l v)) as Hread.
  { intros l v t Hl Ht. apply Hr; [exact (wf_owned _ _ Hwf _ _ _ Hl Ht)|apply (index_range M HM)]. }
  split; [|done]. intros l v Hl. revert l Hl. refine (level_ind M _ _ _).
  - by rewrite (table_at_top M s'), (table_at_top M s).
  - intros l Hl IH. rewrite (table_at_below M s' l v), (table_at_below M s l v) by done. rewrite IH.
    destruct (table_at s (Datatypes.S l) v) as [t|] eqn:Ht; [|done]. cbn [mbind option_bind]. cbv zeta.
    by rewrite (Hread _ _ _ Hl Ht).
Qed.

Lemma agrees_translate s s' v : agrees s s' → translate s' v = translate s v.
Proof.
  intros [Ht Hr]. unfold VmmWalk.translate. apply (walk_ext M); [done|apply table_at_top|]. intros k u. apply Hr.
Qed.

Lemma agrees_misaligned s s' v : agrees s s' → misaligned s' v → misaligned s v.
Proof.
  intros [Ht Hr] (l & t & Hl & Hlt & Hm). rewrite Ht in Hlt by lia. exists l, t. split; [done|]. split; [done|].
  cbv zeta in *. by rewrite (Hr l v t ltac:(lia) Hlt) in Hm.
Qed.

Lemma agrees_clear s s' sz v : agrees s s' → clear s sz v → clear s' sz v.
Proof.
  intros [Ht Hr] Hc l t Hl Hlt. rewrite Ht in Hlt by lia. cbv zeta. rewrite (Hr l v t) by (done || lia). by apply (Hc l t).
Qed.

Lemma alloc_wf s p s' : wf s → pt_alloc s = Some (p, s') → wf s'.
Proof.
  intros Hwf Ha. pose proof (alloc_agrees _ _ _ Hwf Ha) as [Ht Hr].
  pose proof (pt_alloc_fresh _ _ _ Ha) as (_ & _ & _ & _ & Ho & _). split.
  - intros l v t Hl Hlt. rewrite Ht in Hlt by lia. apply Ho. exact (wf_owned _ _ Hwf _ _ _ Hl Hlt).
  - intros l k v w t Hl Hk Hlt Hkt. rewrite Ht in Hlt, Hkt by lia. exact (wf_inj _ _ Hwf _ _ _ _ _ Hl Hk Hlt Hkt).
  - intros l v t Hl Hlt. rewrite Ht in Hlt by lia. cbv zeta. rewrite (Hr l v t) by (done || lia).
    exact (wf_large _ _ Hwf _ _ _ Hl Hlt).
Qed.

Section new_level.
Context (s : S) (l : nat) (w t p : Z) (s1 : S).
Hypothesis (Hwf : wf s) (Hl : (1 ≤ l ≤ top M)%nat) (Ht : table_at s l w = Some t) (Ha : pt_alloc s = Some (p, s1)).
Let e := pte_new M p (PT_TABLE_FLAGS M).
Let s' := pt_write s1 t (index l w) e.

Lemma new_entry : is_word 64 e ∧ PT_IS_TABLE M l e = true ∧ pte_addr M e = p.
Proof. pose proof (pt_alloc_fresh _ _ _ Ha) as (_ & ? & ? & _). by apply (law_table _ HM). Qed.

Lemma new_at_s1 : table_at s1 l w = Some t.
Proof. rewrite (agrees_tables _ _ (alloc_agrees _ _ _ Hwf Ha)); [done|lia]. Qed.

Lemma new_at_page v : same_page l v w → table_at s1 l v = Some t.
Proof.
  intros Hs. rewrite <- new_at_s1. apply (table_at_same M); [lia|]. eapply same_page_le; [|exact Hs]. lia.
Qed.

Lemma new_fresh k v : (k ≤ top M)%nat → table_at s1 k v ≠ Some p.
Proof.
  intros Hk Heq. rewrite (agrees_tables _ _ (alloc_agrees _ _ _ Hwf Ha)) in Heq by done.
  pose proof (pt_alloc_fresh _ _ _ Ha) as (Hn & _). apply Hn. exact (wf_owned _ _ Hwf _ _ _ Hk Heq).
Qed.

Lemma new_zero j : 0 ≤ j < 512 → pt_read s' p j = 0.
Proof.
  intros Hj. pose proof (pt_alloc_fresh _ _ _ Ha) as (Hn & _ & _ & Ho & _ & Hz & _). destruct new_entry as [He _].
  pose proof (wf_owned _ _ (alloc_wf _ _ _ Hwf Ha) _ _ _ (proj2 Hl) new_at_s1) as Ht1. unfold s'.
  rewrite pt_read_write by (done || apply (index_range M HM) || exact Ho).
  rewrite decide_False; [by apply Hz|]. intros [Heq _]. apply (new_fresh l w (proj2 Hl)). rewrite Heq. apply new_at_s1.
Qed.

Lemma new_table v : same_page l v w → table_at s' (l - 1) v = Some p.
Proof.
  intros Hs. destruct new_entry as (He & Hit & Hp). rewrite (table_at_below M) by lia.
  replace (Datatypes.S (l - 1)) with l by lia.
  pose proof (alloc_wf _ _ _ Hwf Ha) as Hwf1. pose proof new_at_s1 as Ht1.
  assert (table_at s' l v = Some t) as -> by (apply (store_at M HM s1 l w t e); done || lia).
  cbn [mbind option_bind]. cbv zeta.
  assert (pt_read s' t (index l v) = e) as -> by (apply (store_entry M HM s1 l w t e); done || lia).
  by rewrite Hit, Hp.
Qed.

Lemma new_none v k : same_page l v w → (k < l - 1)%nat → table_at s' k v = None.
Proof.
  intros Hs Hk. apply (table_at_stop M s' (l - 1) k v p); [lia|by apply new_table|].
  rewrite new_zero by apply (index_range M HM). by rewrite (proj1 (law_zero _ HM _)).
Qed.

(** The tables there are now: the old ones, and the new one. *)
Lemma new_tables k v u : (k ≤ top M)%nat → table_at s' k v = Some u →
  (table_at s1 k v = Some u ∧ (same_page l v w → (l ≤ k)%nat)) ∨ (k = (l - 1)%nat ∧ u = p ∧ same_page l v w).
Proof.
  intros Hk Hu. destruct new_entry as (He & _). pose proof (alloc_wf _ _ _ Hwf Ha) as Hwf1. pose proof new_at_s1 as Ht1.
  destruct (decide (same_page l v w)) as [Hs|Hn].
  2: { left. unfold s' in Hu. rewrite (store_other M HM s1 l w t e) in Hu by (done || lia). split; [done|]. by intros. }
  destruct (decide (l ≤ k)%nat).
  { left. unfold s' in Hu. rewrite (store_above M HM s1 l w t e) in Hu by (done || lia). split; [done|]. by intros. }
  destruct (decide (k = (l - 1)%nat)) as [->|].
  - right. split; [done|]. split; [|done]. rewrite (new_table v Hs) in Hu. by injection Hu.
  - rewrite (new_none v k) in Hu by (done || lia). done.
Qed.

Lemma new_read k v u : (k ≤ top M)%nat → table_at s1 k v = Some u →
  pt_read s' u (index k v) = if decide (k = l ∧ same_page l v w) then e else pt_read s1 u (index k v).
Proof.
  intros Hk Hu. destruct new_entry as (He & _). pose proof (alloc_wf _ _ _ Hwf Ha). pose proof new_at_s1.
  by apply (store_read M HM s1 l w t e); [done|lia|..].
Qed.

Lemma new_wf : wf s'.
Proof.
  destruct new_entry as (He & Hit & _). pose proof (alloc_wf _ _ _ Hwf Ha) as Hwf1. pose proof new_at_s1 as Ht1.
  pose proof (pt_alloc_fresh _ _ _ Ha) as (_ & _ & _ & Ho & _).
  assert (∀ q, pt_owned s' q ↔ pt_owned s1 q) as Ho'.
  { intros q. apply pt_owned_write; [exact (wf_owned _ _ Hwf1 _ _ _ (proj2 Hl) Ht1)|apply (index_range M HM)]. }
  split.
  - intros k v u Hk Hu. apply Ho'. destruct (new_tables k v u Hk Hu) as [[Hu1 _]|(_ & -> & _)].
    + exact (wf_owned _ _ Hwf1 _ _ _ Hk Hu1).
    + exact Ho.
  - intros k j v x u Hk Hj Hu Hx.
    destruct (new_tables k v u Hk Hu) as [[Hu1 _]|(-> & Hup & Hs)], (new_tables j x u Hj Hx) as [[Hx1 _]|(-> & Hxp & Hs')].
    + exact (wf_inj _ _ Hwf1 _ _ _ _ _ Hk Hj Hu1 Hx1).
    + rewrite Hxp in Hu1. by destruct (new_fresh k v Hk).
    + rewrite Hup in Hx1. by destruct (new_fresh j x Hj).
    + split; [done|]. replace (Datatypes.S (l - 1)) with l by lia.
      eapply same_page_trans; [exact Hs|]. by apply same_page_sym.
  - intros k v u Hk Hu. cbv zeta. destruct (new_tables k v u ltac:(lia) Hu) as [[Hu1 _]|(-> & -> & Hs)].
    + rewrite (new_read k v u) by (done || lia). case_decide as Hd; [destruct Hd as [-> _]; congruence|].
      by apply (wf_large _ _ Hwf1 k v u).
    + rewrite new_zero by apply (index_range M HM). destruct (law_zero _ HM 0%nat) as (_ & -> & _). done.
Qed.

Lemma new_translate v : translate s' v = if decide (same_page l v w) then None else translate s v.
Proof.
  destruct new_entry as (He & Hit & Hp). pose proof (alloc_wf _ _ _ Hwf Ha) as Hwf1. pose proof new_at_s1 as Ht1.
  destruct (decide (same_page l v w)) as [Hs|Hn].
  - rewrite (walk_at M s' (l - 1) v p) by (lia || by apply new_table).
    destruct (law_zero _ HM (l - 1)) as (H1 & H2 & H3).
    destruct (l - 1)%nat; cbn [walk]; cbv zeta; rewrite new_zero by apply (index_range M HM); [by rewrite H3|by rewrite H1, H2].
  - unfold s'. rewrite (store_translate_other M HM s1 l w t e) by (done || lia).
    apply agrees_translate. by apply (alloc_agrees _ p).
Qed.

Lemma new_misaligned v : misaligned s' v → misaligned s v ∧ ¬ same_page l v w.
Proof.
  destruct new_entry as (He & Hit & Hp). pose proof (alloc_wf _ _ _ Hwf Ha) as Hwf1. pose proof new_at_s1 as Ht1.
  intros (k & u & Hk & Hu & H1 & H2 & H3). destruct (new_tables k v u ltac:(lia) Hu) as [[Hu1 Hlk]|(-> & -> & Hs)].
  - rewrite (new_read k v u) in H1, H2, H3 by (done || lia). case_decide as Hd; [destruct Hd as [-> _]; congruence|].
    split; [|].
    + apply (agrees_misaligned s s1); [by apply (alloc_agrees _ p)|]. by exists k, u.
    + intros Hs. specialize (Hlk Hs). pose proof (new_at_page v Hs) as Ht1v. assert (l < k)%nat as Hlt by (apply Nat.lt_eq_cases in Hlk as [|Heq]; [done|subst k; naive_solver]).
      rewrite (table_at_stop M s1 k l v u) in Ht1v by (done || lia). done.
  - rewrite new_zero in H2 by apply (index_range M HM). destruct (law_zero _ HM 0%nat) as (_ & Hz & _). congruence.
Qed.

Lemma new_clear sz v : clear s sz v → clear s' sz v.
Proof.
  destruct new_entry as (He & Hit & Hp). intros Hc k u Hk Hu. cbv zeta.
  destruct (new_tables k v u ltac:(lia) Hu) as [[Hu1 _]|(-> & -> & Hs)].
  - rewrite (new_read k v u) by (done || lia). case_decide as Hd; [destruct Hd as [-> _]; by left|].
    pose proof (alloc_agrees _ _ _ Hwf Ha) as Hag. by apply (agrees_clear _ _ _ _ Hag Hc k u).
  - rewrite new_zero by apply (index_range M HM). right. by destruct (law_zero _ HM 0%nat) as (_ & -> & _).
Qed.

(** The page the table is for has no large page above it any more. *)
Lemma new_clear_page sz v : same_page l v w → clear s' sz v.
Proof.
  intros Hs k u Hk Hu. cbv zeta. destruct new_entry as (He & Hit & Hp). pose proof new_at_s1 as Ht1.
  destruct (new_tables k v u ltac:(lia) Hu) as [[Hu1 Hlk]|(-> & -> & _)].
  2: { rewrite new_zero by apply (index_range M HM). right. by destruct (law_zero _ HM 0%nat) as (_ & -> & _). }
  specialize (Hlk Hs). rewrite (new_read k v u) by (done || lia). case_decide as Hd; [destruct Hd as [-> _]; by left|].
  left. assert (l < k)%nat as Hlt by (apply Nat.lt_eq_cases in Hlk as [|Heq]; [done|subst k; naive_solver]).
  destruct (PT_IS_TABLE M k (pt_read s1 u (index k v))) eqn:Hf; [done|]. exfalso.
  pose proof (new_at_page v Hs) as Hv. rewrite (table_at_stop M s1 k l v u) in Hv by (done || lia). done.
Qed.

Lemma new_mono k v u : (k ≤ top M)%nat → PT_IS_TABLE M l (pt_read s t (index l w)) = false →
  table_at s k v = Some u → table_at s' k v = Some u.
Proof.
  intros Hk Hf Hu. destruct new_entry as (He & Hit & Hp). pose proof (alloc_wf _ _ _ Hwf Ha) as Hwf1. pose proof new_at_s1 as Ht1.
  pose proof (alloc_agrees _ _ _ Hwf Ha) as [Hta _]. rewrite <- Hta in Hu by done.
  destruct (decide (same_page l v w)) as [Hs|Hn].
  2: { unfold s'. by rewrite (store_other M HM s1 l w t e) by (done || lia). }
  destruct (decide (l ≤ k)%nat).
  { unfold s'. by rewrite (store_above M HM s1 l w t e) by (done || lia). }
  exfalso. rewrite Hta in Hu by done.
  assert (table_at s l v = Some t) as Hv.
  { rewrite <- Ht. apply (table_at_same M); [lia|]. eapply same_page_le; [|exact Hs]. lia. }
  rewrite (table_at_stop M s l k v t) in Hu; [done|lia|done|]. by rewrite (same_page_index M l v w) by (done || lia).
Qed.
End new_level.
End map.
