(* ===== verification/VmmSplit.v ===== *)
(** The descent of [map_page] over empty entries, tables and large pages, and
    what mapping one page does. *)
From S2P Require Import Prelude Vmm VmmWalk VmmMap.

(** ** Addresses within a page *)

Lemma mod_page_parts v a q : 0 < a → 0 < q → v mod (q * a) = v mod a + a * ((v / a) mod q).
Proof. intros. rewrite (Z.mul_comm q a). by rewrite Z.rem_mul_r by lia. Qed.

Lemma mod_page_div v a q : 0 < a → 0 < q → v mod (q * a) / a = (v / a) mod q.
Proof.
  intros. rewrite mod_page_parts by done. rewrite Z.add_comm, Z.mul_comm, Z.div_add_l by lia.
  rewrite (Z.div_small (v mod a)); [lia|]. by apply Z.mod_pos_bound.
Qed.

Lemma mod_page_mod v a q : 0 < a → 0 < q → v mod (q * a) mod a = v mod a.
Proof.
  intros. rewrite mod_page_parts by done. rewrite (Z.mul_comm a), Z.mod_add by lia.
  apply Z.mod_mod. lia.
Qed.

(** A step of an index from one page size to the next. *)
Lemma mod_split x y q : 0 < q →
  x mod (512 * q) = y mod (512 * q) ↔ (x / 512) mod q = (y / 512) mod q ∧ x mod 512 = y mod 512.
Proof.
  intros. rewrite !(Z.rem_mul_r _ 512 q) by lia. split; [|intros [-> ->]; done].
  pose proof (Z.mod_pos_bound x 512). pose proof (Z.mod_pos_bound y 512). lia.
Qed.

Section split.
Context {S : Type} `{!pt_memory S} (M : mmu) (HM : mmu_ok M).
Implicit Types (s : S) (l sz : nat) (v w t p e : Z).
Notation wf := (wf M).
Notation table_at := (table_at M).
Notation translate := (translate M).
Notation same_page := (same_page M).
Notation index := (index M).
Notation clear := (clear M).
Notation misaligned := (misaligned M).

Lemma same_of_div l v w : (l ≤ top M)%nat → v / page_size l = w / page_size l → same_page l v w.
Proof.
  intros Hl Heq. apply same_page_spec. destruct (law_top M HM) as [H4 _]. split; [by apply (law_half _ HM l)|].
  intros k Hk. unfold VmmWalk.index. destruct (page_size_le l k) as (q & Hq & Hpos); [lia|].
  pose proof (page_size_pos l). rewrite Hq, Z.mul_comm, <- !Z.div_div by lia. by rewrite Heq.
Qed.

Lemma same_page_div l sz v w : (sz ≤ l ≤ top M)%nat → same_page l v w →
  same_page sz v w ↔ v mod page_size l / page_size sz = w mod page_size l / page_size sz.
Proof.
  intros [Hsz Hl] Hs. destruct (law_top M HM) as [H4 _].
  remember (l - sz)%nat as n eqn:Hn. revert sz Hsz Hn. induction n as [|n IH]; intros sz Hsz Hn.
  - assert (sz = l) as -> by lia. pose proof (page_size_pos l). split; [|done].
    intros _. rewrite !Z.div_small by (by apply Z.mod_pos_bound). done.
  - specialize (IH (Datatypes.S sz) ltac:(lia) ltac:(lia)).
    assert (same_page sz v w ↔ same_page (Datatypes.S sz) v w ∧ index sz v = index sz w) as ->.
    { split.
      - intros Hss. split; [|by apply (same_page_index M); [lia|]]. eapply same_page_le; [|exact Hss]. lia.
      - intros [? ?]. apply same_page_S; [lia|done..]. }
    rewrite IH. unfold VmmWalk.index. rewrite (proj2 (law_slots M HM sz)) by lia.
    pose proof (page_size_pos sz) as Hp. pose proof (page_size_pos (Datatypes.S sz)) as HpS.
    destruct (page_size_le (Datatypes.S sz) l) as (q & Hq & Hqpos); [lia|].
    rewrite Hq. rewrite !(mod_page_div _ (page_size (Datatypes.S sz))) by lia.
    rewrite (page_size_S sz) by lia. replace (q * (512 * page_size sz)) with (512 * q * page_size sz) by lia.
    rewrite !(mod_page_div _ (page_size sz)) by lia.
    rewrite (Z.mul_comm 512 (page_size sz)), <- !Z.div_div by lia. symmetry. by apply mod_split.
Qed.

(** The pages of size [sz] of a page of size [l]. *)
Lemma same_page_offset l sz v w i : (sz ≤ l ≤ top M)%nat → same_page l v w →
  0 ≤ i < page_size l → i mod page_size sz = 0 →
  same_page sz v (w - w mod page_size l + i) ↔ i ≤ v mod page_size l < i + page_size sz.
Proof.
  intros Hl Hs Hi Hm. pose proof (page_size_pos l). pose proof (page_size_pos sz).
  assert (w - w mod page_size l + i = (w / page_size l) * page_size l + i) as Heq.
  { pose proof (Z.div_mod w (page_size l)). lia. }
  rewrite (same_page_div l sz); [|done|].
  - rewrite Heq, (Z.add_comm _ i), Z.mod_add, (Z.mod_small i) by lia.
    pose proof (Z.div_mod i (page_size sz)). pose proof (Z.div_mod (v mod page_size l) (page_size sz)).
    pose proof (Z.mod_pos_bound (v mod page_size l) (page_size sz)). split; [intros He; rewrite He in *; lia|].
    intros Hr. symmetry. apply (Z.div_unique_pos _ _ _ (v mod page_size l - i)); [lia|]. lia.
  - eapply same_page_trans; [exact Hs|]. apply same_of_div; [lia|].
    rewrite Heq, Z.div_add_l, (Z.div_small i) by lia. lia.
Qed.

(** ** What steps of the descent change: nothing that is mapped *)

Record grow (sz : nat) (s s' : S) : Prop := {
  g_wf : wf s';
  g_tr v : translate s' v = translate s v;
  g_mis v : misaligned s' v → misaligned s v;
  g_clear v : clear s sz v → clear s' sz v;
  g_tab k v u : (sz ≤ k ≤ top M)%nat → table_at s k v = Some u → table_at s' k v = Some u;
}.

Lemma grow_refl sz s : wf s → grow sz s s.
Proof. by split. Qed.

Lemma grow_trans sz s1 s2 s3 : grow sz s1 s2 → grow sz s2 s3 → grow sz s1 s3.
Proof.
  intros [H1 H2 H3 H4 H5] [J1 J2 J3 J4 J5]. split; auto.
  intros v. by rewrite J2.
Qed.

(** What mapping the page of size [sz] at [w] does. *)
Record mapped (sz : nat) (w phys fl : Z) (s s' : S) : Prop := {
  m_wf : wf s';
  m_tr v : translate s' v = if decide (same_page sz v w) then Some (phys + v mod page_size sz, fl) else translate s v;
  m_mis v : ¬ same_page sz v w → misaligned s' v → misaligned s v;
  m_clear v : clear s sz v → clear s' sz v;
  m_tab k v u : (sz ≤ k ≤ top M)%nat → table_at s k v = Some u → table_at s' k v = Some u;
}.

(** [ext_mem_alloc] had no page. *)
Definition no_page (s : S) : Prop := pt_alloc s = None.

Definition res_post {A} (r : res S A) (Q : A → Prop) (bad : Prop) : Prop :=
  match r with Ok a => Q a | OutOfMemory s => no_page s | Panicked => bad end.

Lemma res_bind_ok {A B} (r : res S A) (k : A → res S B) P Q bad :
  res_post r P bad → (∀ a, P a → res_post (k a) Q bad) → res_post (r ≫= k) Q bad.
Proof. destruct r; cbn; auto. Qed.

Lemma res_mono {A} (r : res S A) (P Q : A → Prop) (bad bad' : Prop) :
  res_post r P bad → (∀ a, P a → Q a) → (bad → bad') → res_post r Q bad'.
Proof. destruct r; cbn; auto. Qed.

Lemma res_each {bad} (I : Z → S → Prop) n i step body s :
  I i s → (∀ k s, 0 ≤ k < Z.of_nat n → I (i + k * step) s → res_post (body (i + k * step) s) (I (i + (k + 1) * step)) bad) →
  res_post (each n i step body s) (I (i + Z.of_nat n * step)) bad.
Proof.
  revert i s. induction n as [|n IH]; intros i s Hi Hb; cbn [each].
  - cbn. by rewrite Z.add_0_r.
  - eapply res_bind_ok.
    + specialize (Hb 0 s ltac:(lia)). rewrite Z.mul_0_l, Z.add_0_r in Hb. by apply Hb.
    + intros s' Hi'. replace (i + Z.of_nat (Datatypes.S n) * step) with ((i + step) + Z.of_nat n * step) by lia.
      apply IH; [by replace (i + step) with (i + (0 + 1) * step) by lia|].
      intros k s'' Hk Hi''. replace (i + step + k * step) with (i + (k + 1) * step) in * by lia.
      replace (i + step + (k + 1) * step) with (i + (k + 1 + 1) * step) by lia. apply Hb; [lia|done].
Qed.

(** ** Going down one level *)

Definition stepped (sz l : nat) (w : Z) (s : S) (r : Z * S) : Prop :=
  grow sz s (snd r) ∧ table_at (snd r) (l - 1) w = Some (fst r).

Lemma empty_grow s l sz w t p s1 :
  wf s → (1 ≤ l ≤ top M)%nat → table_at s l w = Some t → pt_alloc s = Some (p, s1) →
  PT_IS_TABLE M l (pt_read s t (index l w)) = false → PT_IS_LARGE M (pt_read s t (index l w)) = false →
  stepped sz l w s (p, pt_write s1 t (index l w) (pte_new M p (PT_TABLE_FLAGS M))).
Proof.
  intros Hwf Hl Ht Ha Hf Hg. split; cbn [fst snd]; [|apply (new_table M HM s l w t p s1 Hwf Hl Ht Ha), same_page_refl].
  split.
  - by apply (new_wf M HM s l w t p s1).
  - intros v. rewrite (new_translate M HM s l w t p s1) by done. case_decide as Hs; [|done]. symmetry.
    assert (table_at s l v = Some t) as Hv.
    { rewrite <- Ht. apply (table_at_same M); [lia|]. eapply same_page_le; [|exact Hs]. lia. }
    rewrite (walk_at M s l v t) by (done || lia). destruct l as [|l']; [lia|]. cbn [walk]. cbv zeta.
    rewrite (same_page_index M (Datatypes.S l') v w) by (done || lia). by rewrite Hf, Hg.
  - intros v Hm. by apply (new_misaligned M HM s l w t p s1) in Hm as [? _].
  - intros v. by apply (new_clear M HM s l w t p s1).
  - intros k v u [_ Hk]. by apply (new_mono M HM s l w t p s1).
Qed.

Lemma table_step s l sz w t :
  wf s → (1 ≤ l ≤ top M)%nat → table_at s l w = Some t → PT_IS_TABLE M l (pt_read s t (index l w)) = true →
  stepped sz l w s (pte_addr M (pt_read s t (index l w)), s).
Proof.
  intros Hwf Hl Ht Hit. split; [by apply grow_refl|]. cbn [fst snd]. rewrite (table_at_below M) by lia.
  replace (Datatypes.S (l - 1)) with l by lia. rewrite Ht. cbn [mbind option_bind]. cbv zeta. by rewrite Hit.
Qed.

Lemma get_next_clear mp s l sz w t :
  wf s → (sz < l ≤ top M)%nat → table_at s l w = Some t → clear s sz w →
  res_post (get_next_level M mp s t w sz l (index l w)) (stepped sz l w s) False.
Proof.
  intros Hwf Hl Ht Hc. unfold get_next_level. cbv zeta.
  destruct (PT_IS_TABLE M l (pt_read s t (index l w))) eqn:Hit; [cbn; by apply table_step; [|lia|..]|].
  destruct (Hc l t Hl Ht) as [|Hg]; [congruence|]. rewrite Hg. unfold new_level.
  destruct (pt_alloc s) as [[p s1]|] eqn:Ha; [|done]. cbn. by apply empty_grow; [|lia|..].
Qed.

(** [map_page] for an architecture without other cases: down to the level of
    the page size, then the entry. *)
Fixpoint descend (n : nat) (mp : Z → Z → Z → nat → S → res S S) (s : S) (t w : Z) (sz : nat) : res S (Z * S) :=
  match n with
  | O => Ok (t, s)
  | Datatypes.S n' =>
      '(t, s) ← get_next_level M mp s t w sz (sz + n)%nat (index (sz + n) w);
      descend n' mp s t w sz
  end.

Definition map_walk (mp : Z → Z → Z → nat → S → res S S) (w phys flags : Z) (sz : nat) (s : S) : res S S :=
  '(t, s) ← descend (top M - sz) mp s (root M (half M w)) w sz;
  Ok (pt_write s t (index sz w) (leaf M sz phys flags)).

Lemma descend_ok (inv : S → Prop) bad n mp s t w sz :
  (∀ s s', grow sz s s' → inv s → inv s') →
  (∀ s l t, inv s → wf s → (sz < l ≤ top M)%nat → table_at s l w = Some t →
     res_post (get_next_level M mp s t w sz l (index l w)) (stepped sz l w s) bad) →
  (sz + n ≤ top M)%nat → inv s → wf s → table_at s (sz + n) w = Some t →
  res_post (descend n mp s t w sz) (λ r, grow sz s (snd r) ∧ table_at (snd r) sz w = Some (fst r)) bad.
Proof.
  intros Hinv Hnext. revert s t. induction n as [|n IH]; intros s t Hn Hi Hwf Ht; cbn [descend].
  - cbn. rewrite Nat.add_0_r in Ht. split; [by apply grow_refl|done].
  - eapply res_bind_ok; [apply Hnext; [done|done|lia|done]|]. intros [t1 s1] [Hg Ht1]. cbn [fst snd] in *.
    replace (sz + Datatypes.S n - 1)%nat with (sz + n)%nat in Ht1 by lia.
    eapply res_mono; [apply IH; [lia|by eapply Hinv|apply Hg|done]| |done].
    intros [t2 s2] [Hg2 Ht2]. split; [by eapply grow_trans|done].
Qed.

(** The entry of the page. *)
Lemma leaf_mapped s sz w t phys f :
  wf s → (sz ≤ top M)%nat → (sz < VMM_MAX_LEVEL M)%nat → table_at s sz w = Some t →
  ok_flags M f → phys mod page_size sz = 0 → 0 ≤ phys < 2 ^ phys_bits M →
  let s' := pt_write s t (index sz w) (leaf M sz phys f) in
  mapped sz w phys (norm M f) s s' ∧
  (((1 ≤ sz)%nat → pte_addr M (leaf M sz phys f) mod page_size sz = 0) → ∀ v, same_page sz v w → ¬ misaligned s' v).
Proof.
  intros Hwf Hsz Hmax Ht Hf Hal Hp s'. destruct (law_leaf M HM sz phys f Hmax Hf Hal Hp) as (He & H1 & H0).
  assert (sz = 0%nat ∨ PT_IS_TABLE M sz (leaf M sz phys f) = false) as Hend.
  { destruct (decide (sz = 0%nat)); [by left|right]. apply H1. lia. }
  split; [split|].
  - apply (store_end_wf M HM s sz w t); try done. intros Hs1 _. split; [done|]. by apply H1.
  - intros v. case_decide as Hs.
    + unfold s'. rewrite (store_end_translate M HM s sz w t) by done. destruct sz as [|sz'].
      * destruct H0 as (-> & -> & ->); done.
      * destruct H1 as (_ & -> & _ & -> & ->); [lia|]. done.
    + by apply (store_translate_other M HM s sz w t).
  - intros v Hn. by apply (store_misaligned_other M HM s sz w t).
  - intros v. by apply (store_end_clear M HM s sz w t).
  - intros k v u Hk Hu. unfold s'. by rewrite (store_above M HM s sz w t) by (done || lia).
  - intros Hpa v Hs Hm. apply (store_end_misaligned M HM s sz w t) in Hm as [(k & u & Hk & Hu & Hfalse)|[? Hbad]]; [| |done..].
    + assert (table_at s sz v = Some t) as Hv.
      { rewrite <- Ht. apply (table_at_same M); [lia|]. eapply same_page_le; [|exact Hs]. lia. }
      rewrite (table_at_stop M s k sz v u) in Hv by (done || lia). done.
    + apply Hbad. by apply Hpa.
Qed.

Lemma grow_mapped sz w phys fl s s1 s2 : grow sz s s1 → mapped sz w phys fl s1 s2 → mapped sz w phys fl s s2.
Proof.
  intros [H1 H2 H3 H4 H5] [J1 J2 J3 J4 J5]. split; auto.
  intros v. rewrite J2. by rewrite H2.
Qed.

Definition leaf_aligned (sz : nat) (phys f : Z) : Prop :=
  (1 ≤ sz)%nat → pte_addr M (leaf M sz phys f) mod page_size sz = 0.

Definition walked (sz : nat) (w phys f : Z) (s s' : S) : Prop :=
  mapped sz w phys (norm M f) s s' ∧
  (leaf_aligned sz phys f → ∀ v, same_page sz v w → ¬ misaligned s' v).

Lemma map_walk_ok (inv : S → Prop) bad mp w phys f sz s :
  (∀ s s', grow sz s s' → inv s → inv s') →
  (∀ s l t, inv s → wf s → (sz < l ≤ top M)%nat → table_at s l w = Some t →
     res_post (get_next_level M mp s t w sz l (index l w)) (stepped sz l w s) bad) →
  inv s → wf s → (sz ≤ top M)%nat → (sz < VMM_MAX_LEVEL M)%nat →
  ok_flags M f → phys mod page_size sz = 0 → 0 ≤ phys < 2 ^ phys_bits M →
  res_post (map_walk mp w phys f sz s) (walked sz w phys f s) bad.
Proof.
  intros Hinv Hnext Hi Hwf Hsz Hmax Hf Hal Hp. unfold map_walk. eapply res_bind_ok.
  - apply (descend_ok inv); [done..|lia|done|done|]. replace (sz + (top M - sz))%nat with (top M) by lia. apply table_at_top.
  - intros [t s1] [Hg Ht]. cbn [fst snd] in *.
    destruct (leaf_mapped s1 sz w t phys f (g_wf _ _ _ Hg) Hsz Hmax Ht Hf Hal Hp) as [Hm Hna].
    cbn. split; [by eapply grow_mapped|done].
Qed.

(** Where no larger page is in the way, the recursion is not needed. *)
Lemma map_walk_clear mp w phys f sz s :
  clear s sz w → wf s → (sz ≤ top M)%nat → (sz < VMM_MAX_LEVEL M)%nat →
  ok_flags M f → phys mod page_size sz = 0 → 0 ≤ phys < 2 ^ phys_bits M →
  res_post (map_walk mp w phys f sz s) (walked sz w phys f s) False.
Proof.
  intros Hc. apply (map_walk_ok (λ s, clear s sz w)); [|..|done].
  - intros s1 s2 Hg. apply (g_clear _ _ _ Hg).
  - intros s1 l t Hc1 Hwf1 Hl Ht. by apply get_next_clear.
Qed.
End split.
