(* ===== verification/VmmProofs.v ===== *)
(** Splitting a large page keeps what it maps, so [map_page] maps its page and
    changes nothing else, whatever was there, and [map_pages] its range. *)
From S2P Require Import Prelude Vmm VmmWalk VmmMap VmmSplit.

Lemma page_mask l : (l ≤ 4)%nat → page_size l - 1 = Z.ones (12 + 9 * Z.of_nat l).
Proof. intros Hl. rewrite page_size_pow by done. rewrite Z.ones_equiv. lia. Qed.

Lemma land_page_mask l x : (l ≤ 4)%nat → Z.land x (page_size l - 1) = x mod page_size l.
Proof. intros Hl. rewrite page_mask by done. rewrite Z.land_ones by lia. by rewrite page_size_pow. Qed.

Lemma ldiff_page_mask l x : (l ≤ 4)%nat → Z.ldiff x (page_size l - 1) = x - x mod page_size l.
Proof.
  intros Hl. rewrite page_mask, Z.ldiff_ones_r, Z.shiftr_div_pow2, Z.shiftl_mul_pow2 by lia.
  rewrite page_size_pow by done. pose proof (Z.div_mod x (2 ^ (12 + 9 * Z.of_nat l))). lia.
Qed.

(** A page taken from a range leaves fewer. *)
Lemma pages_left a b : 0 < b ≤ a → b mod 0x1000 = 0 → 0 ≤ (a - b) / 0x1000 < a / 0x1000.
Proof.
  intros Hb Hm. apply Z.div_exact in Hm; [|lia]. split; [apply Z.div_pos; lia|].
  rewrite Hm, <- Z.add_opp_r, <- Z.mul_opp_r, Z.mul_comm, Z.div_add by lia.
  pose proof (Z.div_mod b 0x1000). lia.
Qed.

(** A page ends within 64 bits. *)
Lemma page_end_64 l x : (l ≤ 4)%nat → 0 ≤ x < 2 ^ 64 → 0 ≤ x - x mod page_size l ∧ x - x mod page_size l + page_size l ≤ 2 ^ 64.
Proof.
  intros Hl Hx. pose proof (page_size_pos l).
  pose proof (Z.mod_pos_bound x (page_size l)). pose proof (Z.div_mod x (page_size l)).
  assert (∃ q, 2 ^ 64 = q * page_size l) as [q Hq].
  { exists (2 ^ (52 - 9 * Z.of_nat l)). rewrite page_size_pow, <- Z.pow_add_r by lia. f_equal. lia. }
  pose proof (Z.div_pos x (page_size l)). assert (x / page_size l < q) by (apply Z.div_lt_upper_bound; lia). nia.
Qed.

(** Addresses whose upper bits repeat the highest bit of the highest index are
    told apart by their indices. *)
Lemma half_number P k v : 0 < P → 1 ≤ k → 0 ≤ v < 256 * P ∨ 512 * k * P - 256 * P ≤ v < 512 * k * P →
  v / P = (v / P) mod 512 ∧ (v / P) mod 512 < 256 ∨ v / P = 512 * (k - 1) + (v / P) mod 512 ∧ 256 ≤ (v / P) mod 512.
Proof.
  intros HP Hk [Hv|Hv].
  - left. assert (0 ≤ v / P < 256) by (split; [apply Z.div_pos; lia|apply Z.div_lt_upper_bound; lia]).
    rewrite Z.mod_small by lia. lia.
  - right. assert (512 * k - 256 ≤ v / P < 512 * k).
    { split; [apply Z.div_le_lower_bound; nia|apply Z.div_lt_upper_bound; nia]. }
    replace ((v / P) mod 512) with (v / P - 512 * (k - 1)); [lia|]. apply (Z.mod_unique_pos _ _ (k - 1)); lia.
Qed.

Lemma sign_extended_number l v w : (l ≤ 4)%nat →
  0 ≤ v < 256 * page_size l ∨ 2 ^ 64 - 256 * page_size l ≤ v < 2 ^ 64 →
  0 ≤ w < 256 * page_size l ∨ 2 ^ 64 - 256 * page_size l ≤ w < 2 ^ 64 →
  (v / page_size l) mod 512 = (w / page_size l) mod 512 → v / page_size l = w / page_size l.
Proof.
  intros Hl Hv Hw Hs. assert (∃ k, 1 ≤ k ∧ 2 ^ 64 = 512 * k * page_size l) as (k & Hk & Heq).
  { exists (2 ^ (43 - 9 * Z.of_nat l)). split; [apply Z.lt_pred_le, Z.pow_pos_nonneg; lia|].
    rewrite page_size_pow by done. change 512 with (2 ^ 9). rewrite <- !Z.pow_add_r by lia. f_equal. lia. }
  rewrite Heq in Hv, Hw. pose proof (page_size_pos l).
  pose proof (half_number (page_size l) k v). pose proof (half_number (page_size l) k w). lia.
Qed.

(** Addresses of two tables, by the highest bit, are told apart by it and
    their indices. *)
Lemma two_halves_number P n v w :
  (∃ k, 2 ^ 64 = 2 * k * (n * P) ∧ 0 < k ∧ 0 < n ∧ 0 < P) →
  0 ≤ v < n * P ∨ 2 ^ 64 - n * P ≤ v < 2 ^ 64 → 0 ≤ w < n * P ∨ 2 ^ 64 - n * P ≤ w < 2 ^ 64 →
  Z.testbit v 63 = Z.testbit w 63 → (v / P) mod n = (w / P) mod n → v / P = w / P.
Proof.
  intros (k & Hk & Hk0 & Hn & HP) Hv Hw Hh Hi.
  assert (∀ x, 0 ≤ x < n * P ∨ 2 ^ 64 - n * P ≤ x < 2 ^ 64 →
    x / P = (if Z.testbit x 63 then (2 * k - 1) * n else 0) + (x / P) mod n) as Hx.
  { intros x Hx. rewrite Z.testbit_eqb by lia.
    assert (2 ^ 63 = k * (n * P)) as H63 by (change (2 ^ 64) with (2 * 2 ^ 63) in Hk; lia).
    assert (n * P ≤ k * (n * P)) by nia.
    destruct Hx as [Hx|Hx].
    - rewrite (Z.div_small x (2 ^ 63)) by lia.
      change (0 mod 2 =? 1) with false. cbv iota. rewrite Z.add_0_l. symmetry. apply Z.mod_small. split; [apply Z.div_pos; lia|].
      apply Z.div_lt_upper_bound; lia.
    - assert (x / 2 ^ 63 = 1) as -> by (symmetry; apply (Z.div_unique_pos _ _ _ (x - 2 ^ 63)); lia).
      change (1 mod 2 =? 1) with true. cbv iota.
      assert ((2 * k - 1) * n ≤ x / P < 2 * k * n) as Hd.
      { assert (P * ((2 * k - 1) * n) = 2 ^ 64 - n * P) by (rewrite Hk; ring). assert (P * (2 * k * n) = 2 ^ 64) by (rewrite Hk; ring).
        split; [apply Z.div_le_lower_bound; lia|apply Z.div_lt_upper_bound; lia]. }
      assert (x / P - (2 * k - 1) * n = (x / P) mod n); [|lia]. apply (Z.mod_unique_pos _ _ (2 * k - 1)); lia. }
  rewrite (Hx v Hv), (Hx w Hw), Hh. by rewrite Hi.
Qed.

Section proofs.
Context {S : Type} `{!pt_memory S} (M : mmu) (HM : mmu_ok M).
Implicit Types (s : S) (l sz : nat) (v w t p e : Z).
Notation wf := (wf M).
Notation table_at := (table_at M).
Notation translate := (translate M).
Notation same_page := (same_page M).
Notation index := (index M).
Notation clear := (clear M).
Notation misaligned := (misaligned M).

(** [mp] maps a page with no larger one in its way. *)
Definition maps_clear (mp : Z → Z → Z → nat → S → res S S) (sz : nat) : Prop := ∀ s w phys f,
  wf s → clear s sz w → ok_flags M f → phys mod page_size sz = 0 → 0 ≤ phys < 2 ^ phys_bits M → 0 ≤ w < 2 ^ 64 →
  res_post (mp w phys f sz s) (walked M sz w phys f s) False.

(** What [map_page] does for its callers. *)
Record page_mapped (sz : nat) (w phys fl : Z) (s s' : S) : Prop := {
  pm_wf : wf s';
  pm_tr v : translate s' v = if decide (same_page sz v w) then Some (phys + v mod page_size sz, fl) else translate s v;
  pm_mis v : ¬ same_page sz v w → misaligned s' v → misaligned s v;
}.

(** [mp] maps a page; it panics only over a misaligned large page. *)
Definition maps (mp : Z → Z → Z → nat → S → res S S) (sz : nat) : Prop := ∀ s w phys f,
  wf s → ok_flags M f → phys mod page_size sz = 0 → 0 ≤ phys < 2 ^ phys_bits M →
  w mod page_size sz = 0 → 0 ≤ w < 2 ^ 64 →
  res_post (mp w phys f sz s) (page_mapped sz w phys (norm M f) s)
    (∃ v, w ≤ v < w + page_size sz ∧ misaligned s v).

Section split_page.
Context (mp : Z → Z → Z → nat → S → res S S) (s : S) (l sz : nat) (w t : Z).
Hypothesis (Hmp : maps_clear mp sz) (Hwf : wf s) (Hl : (sz < l ≤ top M)%nat) (Ht : table_at s l w = Some t)
  (Hw : 0 ≤ w < 2 ^ 64).
Let e := pt_read s t (index l w).
Hypothesis (Hend : PT_IS_TABLE M l e = false) (Hlarge : PT_IS_LARGE M e = true)
  (Hal : pte_addr M e mod page_size l = 0).
Let base := w - w mod page_size l.
Let f := PT_TO_VMM_FLAGS M e.

(** The state after the pages below offset [i] of the large page are mapped. *)
Record split_at (p i : Z) (s' : S) : Prop := {
  sp_wf : wf s';
  sp_table : table_at s' (l - 1) w = Some p;
  sp_out v : ¬ same_page l v w → translate s' v = translate s v ∧ (misaligned s' v → misaligned s v);
  sp_clear v : clear s sz v → clear s' sz v;
  sp_tab k v u : (sz ≤ k ≤ top M)%nat → table_at s k v = Some u → table_at s' k v = Some u;
  sp_in v : same_page l v w → clear s' sz v ∧ ¬ misaligned s' v ∧
    translate s' v = if decide (v mod page_size l < i) then Some (pte_addr M e + v mod page_size l, f) else None;
}.

Lemma split_max : (1 ≤ l < VMM_MAX_LEVEL M)%nat ∧ (l ≤ 4)%nat.
Proof.
  destruct (law_top M HM). split; [|lia]. split; [lia|]. apply (wf_large _ _ Hwf l w t); [lia|done..].
Qed.

Lemma split_ok : ok_large M l e.
Proof. apply (wf_large _ _ Hwf l w t); [lia|done..]. Qed.

Lemma split_flags : ok_flags M f ∧ norm M f = f ∧ 0 ≤ pte_addr M e ∧ pte_addr M e + page_size l ≤ 2 ^ phys_bits M ∧
  (∀ k p, (1 ≤ k < l)%nat → p mod page_size k = 0 → 0 ≤ p < 2 ^ phys_bits M → pte_addr M (leaf M k p f) mod page_size k = 0).
Proof.
  destruct split_max as [Hm _]. apply (law_split _ HM l e Hm); [|done|apply split_ok|done].
  apply pt_read_word; [exact (wf_owned _ _ Hwf _ _ _ (proj2 Hl) Ht)|apply (index_range M HM)].
Qed.

Lemma split_start p s1 : pt_alloc s = Some (p, s1) →
  split_at p 0 (pt_write s1 t (index l w) (pte_new M p (PT_TABLE_FLAGS M))).
Proof.
  intros Ha. assert (1 ≤ l ≤ top M)%nat as Hl1 by lia. split.
  - by apply (new_wf M HM s l w t p s1).
  - by apply (new_table M HM s l w t p s1 Hwf Hl1 Ht Ha), same_page_refl.
  - intros v Hn. rewrite (new_translate M HM s l w t p s1) by done. rewrite decide_False by done. split; [done|].
    intros Hm. by apply (new_misaligned M HM s l w t p s1) in Hm as [? _].
  - intros v. by apply (new_clear M HM s l w t p s1).
  - intros k v u [_ Hk]. by apply (new_mono M HM s l w t p s1).
  - intros v Hs. split; [by apply (new_clear_page M HM s l w t p s1)|]. split.
    + intros Hm. by apply (new_misaligned M HM s l w t p s1) in Hm as [_ ?].
    + rewrite (new_translate M HM s l w t p s1) by done. rewrite decide_True by done.
      rewrite decide_False; [done|]. pose proof (page_size_pos l). pose proof (Z.mod_pos_bound v (page_size l)). lia.
Qed.

Lemma split_aligned i : i mod page_size sz = 0 → (pte_addr M e + i) mod page_size sz = 0.
Proof.
  intros Hi. destruct split_max as [_ H4l]. destruct (page_size_le sz l) as (q & Hq & Hqp); [lia|]. pose proof (page_size_pos sz).
  rewrite Z.add_mod, Hi by lia. rewrite Hq in Hal.
  rewrite <- (mod_page_mod (pte_addr M e) (page_size sz) q), Hal by lia. by rewrite Z.mod_0_l by lia.
Qed.

Lemma split_step p i s' : split_at p i s' → 0 ≤ i < page_size l → i mod page_size sz = 0 →
  res_post (mp (u64 (base + i)) (u64 (pte_addr M e + i)) f sz s') (split_at p (i + page_size sz)) False.
Proof.
  intros [H1 H2 H3 H4 H5 H6] Hi Him. destruct split_max as [Hm H4l]. destruct split_flags as (Hof & Hnf & Ha0 & Ha1 & Hla).
  destruct (page_end_64 l w H4l Hw) as [Hb0 Hb1]. destruct (law_phys M HM) as [Hp0 Hp1].
  assert (2 ^ phys_bits M ≤ 2 ^ 64) by (apply Z.pow_le_mono_r; lia).
  fold base in Hb0, Hb1. change (2 ^ 64) with 18446744073709551616 in *. rewrite !u64_id by lia.
  pose proof (page_size_pos sz) as Hsp. destruct (page_size_le sz l) as (q & Hq & Hqp); [lia|].
  assert (∀ v, same_page l v w → same_page sz v (base + i) ↔ i ≤ v mod page_size l < i + page_size sz) as Hoff.
  { intros v Hs. by apply same_page_offset; [|lia|..]. }
  assert (same_page l (base + i) w) as Hsame.
  { apply same_of_div; [done|lia|]. unfold base. pose proof (page_size_pos l).
    replace (w - w mod page_size l + i) with (w / page_size l * page_size l + i) by (pose proof (Z.div_mod w (page_size l)); lia).
    rewrite Z.div_add_l, (Z.div_small i) by lia. lia. }
  eapply res_mono; [apply Hmp|..].
  - done.
  - by apply H6.
  - done.
  - by apply split_aligned.
  - lia.
  - lia.
  - intros s2 [Hmap Hna]. rewrite Hnf in Hmap. specialize (Hna (λ Hk, Hla sz (pte_addr M e + i) (conj Hk (proj1 Hl)) (split_aligned i Him) ltac:(lia))).
    destruct Hmap as [J1 J2 J3 J4 J5]. split.
    + done.
    + apply J5; [lia|done].
    + intros v Hn. assert (¬ same_page sz v (base + i)) as Hns.
      { intros Hs. apply Hn. eapply same_page_trans; [|exact Hsame]. eapply same_page_le; [|exact Hs]. lia. }
      rewrite J2. rewrite decide_False by done. split; [by apply H3|]. intros Hm'. apply H3; [done|]. by apply J3.
    + auto.
    + auto.
    + intros v Hs. destruct (H6 v Hs) as (Hc & Hmis & Htr). split; [by apply J4|]. split.
      * destruct (decide (same_page sz v (base + i))); [by apply Hna|]. intros Hm'. apply Hmis. by apply J3.
      * rewrite J2, Htr. pose proof (Hoff v Hs) as Ho.
        assert (v mod page_size sz = v mod page_size l mod page_size sz) as Hvm by (rewrite Hq; by rewrite mod_page_mod by lia).
        destruct (decide (same_page sz v (base + i))) as [Hin|Hout].
        -- apply Ho in Hin. rewrite decide_True by lia. f_equal. f_equal.
           rewrite Hvm. replace (v mod page_size l mod page_size sz) with (v mod page_size l - i); [lia|].
           pose proof (Z.div_mod i (page_size sz)). symmetry.
           rewrite (Z.mod_eq (v mod page_size l) (page_size sz)) by lia.
           replace (v mod page_size l / page_size sz) with (i / page_size sz); [lia|].
           apply (Z.div_unique_pos _ _ _ (v mod page_size l - i)); lia.
        -- destruct (decide (v mod page_size l < i)); [by rewrite decide_True by lia|].
           rewrite decide_False; [done|]. intros Hlt. apply Hout. apply Ho. lia.
  - done.
Qed.

Lemma split_done p s' : split_at p (page_size l) s' → stepped M sz l w s (p, s').
Proof.
  intros [H1 H2 H3 H4 H5 H6]. pose proof (page_size_pos l). split; [|done]. cbn [snd]. split; auto.
  - intros v. destruct (decide (same_page l v w)) as [Hs|Hn]; [|by apply H3].
    destruct (H6 v Hs) as (_ & _ & ->). rewrite decide_True by (by apply Z.mod_pos_bound).
    assert (table_at s l v = Some t) as Hv.
    { rewrite <- Ht. apply (table_at_same M); [lia|]. eapply same_page_le; [|exact Hs]. lia. }
    rewrite (walk_at M s l v t) by (done || lia).
    assert (walk M s l t v = if PT_IS_TABLE M l e then walk M s (l - 1) (pte_addr M e) v
      else if PT_IS_LARGE M e then Some (pte_addr M e / page_size l * page_size l + v mod page_size l, PT_TO_VMM_FLAGS M e) else None) as ->.
    { unfold e. rewrite <- (same_page_index M l v w) by (done || lia). clear -Hl. destruct l as [|l']; [lia|].
      cbn [walk]. by replace (Datatypes.S l' - 1)%nat with l' by lia. }
    rewrite Hend, Hlarge. do 3 f_equal.
    pose proof (Z.div_mod (pte_addr M e) (page_size l)). lia.
  - intros v Hm. destruct (decide (same_page l v w)) as [Hs|Hn]; [|by apply H3].
    destruct (H6 v Hs) as (_ & Hno & _). by destruct Hno.
Qed.
End split_page.

(** One level down, over whatever is there. *)
Lemma get_next_ok mp s l sz w t :
  ((Datatypes.S sz < VMM_MAX_LEVEL M)%nat → maps_clear mp sz) →
  wf s → (sz < l ≤ top M)%nat → (sz < VMM_MAX_LEVEL M)%nat → table_at s l w = Some t → 0 ≤ w < 2 ^ 64 →
  res_post (get_next_level M mp s t w sz l (index l w)) (stepped M sz l w s) (misaligned s w).
Proof.
  intros Hmp Hwf Hl Hmax Ht Hw. unfold get_next_level. cbv zeta. destruct (law_top M HM) as [H4 _].
  destruct (PT_IS_TABLE M l (pt_read s t (index l w))) eqn:Hit; [cbn; by apply table_step; [|lia|..]|].
  destruct (PT_IS_LARGE M (pt_read s t (index l w))) eqn:Hg.
  2: { unfold new_level. destruct (pt_alloc s) as [[p s1]|] eqn:Ha; [|done]. cbn. by apply empty_grow; [|done|lia|..]. }
  destruct (wf_large _ _ Hwf l w t ltac:(lia) Ht Hit Hg) as [Hlm _].
  rewrite (proj2 (Nat.leb_gt _ _)) by done. rewrite (proj2 (Nat.eqb_neq _ 0)) by lia. cbn [orb].
  rewrite (proj2 (Nat.leb_gt _ _)) by done. rewrite land_page_mask, ldiff_page_mask by lia.
  destruct (Z.eqb_spec (pte_addr M (pt_read s t (index l w)) mod page_size l) 0) as [Hal|Hnal]; cbn [negb].
  2: { cbn. exists l, t. split; [lia|]. by split. }
  unfold new_level. destruct (pt_alloc s) as [[p s1]|] eqn:Ha; [|done]. cbn [mbind res_bind].
  destruct (page_size_le sz l) as (q & Hq & Hqp); [lia|]. pose proof (page_size_pos sz).
  assert (page_size l / page_size sz = q) as Hdiv by (rewrite Hq; apply Z.div_mul; lia).
  eapply (res_mono _ (stepped M sz l w s) _ False); [|done|done].
  apply (res_bind_ok _ _ (split_at s l sz w t p (page_size l))); [|intros s' Hs'; cbn; by apply (split_done s l sz w t)].
  replace (page_size l) with (0 + Z.of_nat (Z.to_nat (page_size l / page_size sz)) * page_size sz) at 2 by (rewrite Hdiv; lia).
  apply (res_each (split_at s l sz w t p)).
  - by apply (split_start s l sz w t).
  - intros k s' Hk Hs'. rewrite Z.add_0_l in *. replace (0 + (k + 1) * page_size sz) with (k * page_size sz + page_size sz) by lia.
    apply (split_step mp s l sz w t (Hmp ltac:(lia))); try done; [|by apply Z.mod_mul; lia]. rewrite Hdiv in Hk. nia.
Qed.

Lemma grow_inv sz s0 w s1 s2 : grow M sz s1 s2 →
  wf s1 ∧ (misaligned s1 w → misaligned s0 w) → wf s2 ∧ (misaligned s2 w → misaligned s0 w).
Proof. intros Hg [_ Hi]. split; [apply Hg|]. intros Hm. by apply Hi, (g_mis _ _ _ _ Hg). Qed.

Lemma next_step_ok mp s0 sz w s l t :
  ((Datatypes.S sz < VMM_MAX_LEVEL M)%nat → maps_clear mp sz) → (sz < VMM_MAX_LEVEL M)%nat → 0 ≤ w < 2 ^ 64 →
  wf s ∧ (misaligned s w → misaligned s0 w) → wf s → (sz < l ≤ top M)%nat → table_at s l w = Some t →
  res_post (get_next_level M mp s t w sz l (index l w)) (stepped M sz l w s) (misaligned s0 w).
Proof.
  intros Hmp Hmax Hw [_ Hi] Hwf Hl Ht. eapply res_mono; [by apply (get_next_ok mp)|done|exact Hi].
Qed.

(** [map_page] as the descent, given one that works without large pages in
    the way for the recursion. *)
Lemma map_walk_maps mp sz :
  (sz ≤ top M)%nat → (sz < VMM_MAX_LEVEL M)%nat → ((Datatypes.S sz < VMM_MAX_LEVEL M)%nat → maps_clear mp sz) →
  maps (map_walk M mp) sz.
Proof.
  intros Hsz Hmax Hmp s w phys f Hwf Hf Hal Hp _ Hw.
  eapply res_mono; [apply (map_walk_ok M HM (λ s', wf s' ∧ (misaligned s' w → misaligned s w)) (misaligned s w)); try done|..].
  - apply grow_inv.
  - intros s1 l t. by apply next_step_ok.
  - intros s' [[H1 H2 H3 _ _] _]. by split.
  - intros Hm. exists w. pose proof (page_size_pos sz). split; [lia|done].
Qed.

(** A page made of the smaller ones in it. *)
Lemma parts_maps mp l sz s s1 w phys f :
  (sz < l ≤ top M)%nat → maps mp sz → wf s → grow M l s s1 → ok_flags M f →
  phys mod page_size l = 0 → 0 ≤ phys < 2 ^ phys_bits M → phys + page_size l ≤ 2 ^ phys_bits M →
  w mod page_size l = 0 → 0 ≤ w < 2 ^ 64 →
  res_post (each (Z.to_nat (page_size l / page_size sz)) 0 (page_size sz)
      (λ i, mp (u64 (w + i)) (u64 (phys + i)) f sz) s1)
    (page_mapped l w phys (norm M f) s) (∃ v, w ≤ v < w + page_size l ∧ misaligned s v).
Proof.
  intros Hl Hmp Hwf Hg Hf Hal Hp Hpe Hwal Hw. destruct (law_top M HM) as [H4 _].
  destruct (page_size_le sz l) as (q & Hq & Hqp); [lia|]. pose proof (page_size_pos sz) as Hsp. pose proof (page_size_pos l) as Hlp.
  assert (page_size l / page_size sz = q) as Hdiv by (rewrite Hq; apply Z.div_mul; lia).
  destruct (page_end_64 l w ltac:(lia) Hw) as [_ Hb]. rewrite Hwal, Z.sub_0_r in Hb.
  destruct (law_phys M HM) as [Hp0 Hp1]. assert (2 ^ phys_bits M ≤ 2 ^ 64) by (apply Z.pow_le_mono_r; lia).
  set (done_at i v := same_page l v w ∧ v mod page_size l < i).
  assert (∀ i v, Decision (done_at i v)) as Hdec by (intros; unfold done_at; apply _).
  set (J i s' := wf s' ∧
    (∀ v, translate s' v = if decide (done_at i v) then Some (phys + v mod page_size l, norm M f) else translate s v) ∧
    (∀ v, ¬ done_at i v → misaligned s' v → misaligned s v)).
  eapply (res_mono _ (J (0 + Z.of_nat (Z.to_nat (page_size l / page_size sz)) * page_size sz))).
  2: { rewrite Hdiv, Z2Nat.id, <- Hq, Z.add_0_l by lia. intros s' (H1 & H2 & H3). split; [done|..].
       - intros v. rewrite H2. pose proof (Z.mod_pos_bound v (page_size l) Hlp).
         destruct (decide (done_at (page_size l) v)) as [[? ?]|Hn]; [by rewrite decide_True|].
         rewrite decide_False; [done|]. intros ?. apply Hn. split; [done|lia].
       - intros v Hn. apply H3. by intros [? _]. }
  - apply (res_each (bad := ∃ v, w ≤ v < w + page_size l ∧ misaligned s v)).
    + split; [apply Hg|]. split.
      * intros v. rewrite decide_False; [apply (g_tr _ _ _ _ Hg)|]. intros [_ ?]. pose proof (Z.mod_pos_bound v (page_size l) Hlp). lia.
      * intros v _. apply (g_mis _ _ _ _ Hg).
    + intros k s2 Hk (J1 & J2 & J3). rewrite Z.add_0_l in *. rewrite Hdiv, Z2Nat.id in Hk by lia.
      replace (0 + (k + 1) * page_size sz) with (k * page_size sz + page_size sz) by lia. set (i := k * page_size sz) in *.
      assert (0 ≤ i ∧ i + page_size sz ≤ page_size l) as Hi by (unfold i; nia).
      assert (i mod page_size sz = 0) as Him by (apply Z.mod_mul; lia).
      assert (∀ x, x mod page_size l = 0 → (x + i) mod page_size sz = 0) as Hxal.
      { intros x Hx. rewrite Z.add_mod, Him by lia. rewrite Hq in Hx.
        rewrite <- (mod_page_mod x (page_size sz) q), Hx by lia. by rewrite Z.mod_0_l by lia. }
      change (2 ^ 64) with 18446744073709551616 in *. rewrite !u64_id by lia.
      assert (∀ v, same_page sz v (w + i) ↔ same_page l v w ∧ i ≤ v mod page_size l < i + page_size sz) as Hoff.
      { intros v. assert (same_page l (w + i) w) as Hsame.
        { apply same_of_div; [done|lia|]. apply Z.div_exact in Hwal; [|lia]. rewrite Hwal at 1.
          rewrite Z.mul_comm, Z.div_add_l, (Z.div_small i) by lia. lia. }
        split.
        - intros Hs. assert (same_page l v w) as Hsl.
          { eapply same_page_trans; [|exact Hsame]. eapply same_page_le; [|exact Hs]. lia. }
          split; [done|]. apply (same_page_offset M HM l sz v w i); [lia|done|lia|done|]. by rewrite Hwal, Z.sub_0_r.
        - intros [Hsl Hr]. pose proof (same_page_offset M HM l sz v w i ltac:(lia) Hsl ltac:(lia) Him) as Ho.
          rewrite Hwal, Z.sub_0_r in Ho. by apply Ho. }
      eapply res_mono; [apply (Hmp s2 (w + i) (phys + i) f); try done; try lia; by apply Hxal|..].
      * intros s3 [P1 P2 P3]. split; [done|]. split.
        -- intros v. rewrite P2, J2. destruct (decide (same_page sz v (w + i))) as [Hin|Hout].
           ++ apply Hoff in Hin as [Hsl Hr]. rewrite decide_True by (split; [done|lia]). do 2 f_equal.
              rewrite <- (mod_page_mod v (page_size sz) q), <- Hq by lia. rewrite (Z.mod_eq (v mod page_size l)) by lia.
              replace (v mod page_size l / page_size sz) with k; [unfold i; lia|].
              apply (Z.div_unique_pos _ _ _ (v mod page_size l - i)); unfold i in *; lia.
           ++ destruct (decide (done_at i v)) as [[? ?]|Hn]; [rewrite decide_True; [done|split; [done|lia]]|].
              rewrite decide_False; [done|]. intros [Hsl Hlt]. apply Hout, Hoff. split; [done|].
              destruct (decide (v mod page_size l < i)); [exfalso; by apply Hn; split|lia].
        -- intros v Hn Hm. apply J3; [intros [? ?]; apply Hn; split; [done|lia]|]. apply P3; [|done].
           intros [Hsl Hr]%Hoff. apply Hn. split; [done|lia].
      * intros (v & Hv & Hm). exists v. split; [lia|]. apply J3; [|done]. intros [_ Hlt].
        apply Z.div_exact in Hwal; [|lia].
        assert (v mod page_size l = v - w); [|lia]. symmetry. apply (Z.mod_unique_pos _ _ (w / page_size l)); lia.
  - done.
Qed.

Lemma map_walk_maps_clear mp sz : (sz ≤ top M)%nat → (sz < VMM_MAX_LEVEL M)%nat → maps_clear (map_walk M mp) sz.
Proof. intros Hsz Hmax s w phys f Hwf Hc Hf Hal Hp _. by apply map_walk_clear. Qed.

(** ** Empty tables *)

(** Page tables of zeros map nothing. *)
Lemma empty_tables s :
  (∀ h, pt_owned s (root M h) ∧ ∀ i, 0 ≤ i < 512 → pt_read s (root M h) i = 0) →
  (∀ v w, root M (half M v) = root M (half M w) → half M v = half M w) →
  wf s ∧ (∀ v, translate s v = None) ∧ ∀ v, ¬ misaligned s v.
Proof.
  intros Hr Hinj. destruct (law_top M HM) as [_ H2]. destruct (law_zero M HM (top M)) as (Hz1 & Hz2 & _).
  assert (∀ v, pt_read s (root M (half M v)) (index (top M) v) = 0) as Hz.
  { intros v. apply Hr, (index_range M HM). }
  assert (∀ l v t, (l ≤ top M)%nat → table_at s l v = Some t → l = top M ∧ t = root M (half M v)) as Honly.
  { intros l v t Hl Ht. destruct (decide (l = top M)) as [->|].
    - rewrite (table_at_top M) in Ht. by injection Ht.
    - rewrite (table_at_stop M s (top M) l v (root M (half M v))) in Ht; [done|lia|apply table_at_top|]. by rewrite Hz. }
  split; [split|split].
  - intros l v t Hl Ht. destruct (Honly _ _ _ Hl Ht) as [-> ->]. apply Hr.
  - intros l k v w t Hl Hk Ht Hu. destruct (Honly _ _ _ Hl Ht) as [-> ->]. destruct (Honly _ _ _ Hk Hu) as [-> He].
    split; [done|]. apply same_page_spec. split; [by apply Hinj|]. intros j Hj. lia.
  - intros l v t Hl Ht. destruct (Honly l v t ltac:(lia) Ht) as [-> ->]. cbv zeta. rewrite Hz. congruence.
  - intros v. unfold VmmWalk.translate. destruct (top M) as [|l] eqn:Htop; [lia|]. cbn [walk]. cbv zeta.
    by rewrite Hz, Hz1, Hz2.
  - intros v (l & t & Hl & Ht & _ & Hg & _). destruct (Honly l v t ltac:(lia) Ht) as [-> ->]. rewrite Hz in Hg. congruence.
Qed.

(** The same for the two tables of two allocations, a half each. *)
Lemma two_empty_tables s p0 s1 p1 s2 :
  pt_alloc s = Some (p0, s1) → pt_alloc s1 = Some (p1, s2) →
  (∀ h : bool, root M h = if h then p1 else p0) →
  wf s2 ∧ (∀ v, translate s2 v = None) ∧ ∀ v, ¬ misaligned s2 v.
Proof.
  intros Ha Hb Hroot. destruct (pt_alloc_fresh _ _ _ Ha) as (_ & _ & _ & Ho0 & _ & Hz0 & _).
  destruct (pt_alloc_fresh _ _ _ Hb) as (Hn & _ & _ & Ho1 & Hkeep & Hz1 & Hsame).
  assert (p0 ≠ p1) by (by intros ->). apply empty_tables.
  - intros h. rewrite Hroot. destruct h; [done|]. split; [by apply Hkeep|]. intros i Hi. rewrite Hsame by done. by apply Hz0.
  - intros v w. rewrite !Hroot. by destruct (half M v), (half M w); intros; congruence.
Qed.

(** ** Ranges *)

(** A page number from the number of the largest page around it. *)
Lemma same_page_number sz v w : (sz ≤ top M)%nat → same_page sz v w →
  v / page_size (top M) = w / page_size (top M) → v / page_size sz = w / page_size sz.
Proof.
  intros Hsz Hs Heq. destruct (law_top M HM) as [H4 _].
  assert (same_page (top M) v w) as Ht by (eapply same_page_le; [exact Hsz|exact Hs]).
  apply (same_page_div M HM (top M) sz) in Hs; [|lia|done].
  destruct (page_size_le sz (top M)) as (q & Hq & Hqp); [lia|]. pose proof (page_size_pos sz).
  assert (∀ x, x / page_size sz = x / page_size (top M) * q + x mod page_size (top M) / page_size sz) as Hx.
  { intros x. rewrite <- Z.div_add_l by lia. f_equal. pose proof (Z.div_mod x (page_size (top M))). pose proof (page_size_pos (top M)). nia. }
  rewrite (Hx v), (Hx w). by rewrite Hs, Heq.
Qed.

(** Addresses that are given a meaning of their own; the processor looks at
    some bits of an address only. *)
Context (canonical : Z → Prop).
Hypothesis (Hcanonical : ∀ sz v w, (sz ≤ 2)%nat → canonical v → canonical w → same_page sz v w → v / page_size sz = w / page_size sz).

Lemma page_range sz v w : (sz ≤ 2)%nat → canonical v → canonical w → w mod page_size sz = 0 →
  same_page sz v w ↔ w ≤ v < w + page_size sz.
Proof.
  intros Hsz Hv Hw Hal. pose proof (page_size_pos sz). destruct (law_top M HM).
  pose proof (Z.div_mod v (page_size sz)). pose proof (Z.div_mod w (page_size sz)). pose proof (Z.mod_pos_bound v (page_size sz)).
  split.
  - intros Hs%Hcanonical; [|done..]. rewrite Hs in *. lia.
  - intros Hr. apply same_of_div; [done|lia|]. symmetry. apply (Z.div_unique_pos _ _ _ (v - w)); lia.
Qed.

Section range.
Context (mp : Z → Z → Z → nat → S → res S S) (virt phys f count : Z) (s : S).
Hypothesis (Hmp : ∀ sz, (sz ≤ 2)%nat → maps mp sz) (Hf : ok_flags M f)
  (Hva : virt mod 0x1000 = 0) (Hpa : phys mod 0x1000 = 0) (Hca : count mod 0x1000 = 0)
  (Hc : 0 ≤ count) (Hp : 0 ≤ phys) (Hpe : phys + count ≤ 2 ^ phys_bits M) (Hv : 0 ≤ virt) (Hve : virt + count ≤ 2 ^ 64)
  (Hcan : ∀ v, virt ≤ v < virt + count → canonical v).

Definition range_mapped (n : Z) (s' : S) : Prop :=
  wf s' ∧ ∀ v, canonical v →
    translate s' v = if decide (virt ≤ v < virt + n) then Some (phys + (v - virt), norm M f) else translate s v.

Definition range_bad : Prop := ∃ v, virt ≤ v < virt + count ∧ misaligned s v.

Lemma next_size_ok i :
  0 ≤ i < count → i mod 0x1000 = 0 →
  let sz := next_size (virt + i) (phys + i) (count - i) in
  (sz ≤ 2)%nat ∧ (virt + i) mod page_size sz = 0 ∧ (phys + i) mod page_size sz = 0 ∧ page_size sz ≤ count - i ∧
  page_size sz mod 0x1000 = 0.
Proof.
  intros Hi Him. unfold next_size.
  change (0x40000000 - 1) with (page_size 2 - 1). change (0x200000 - 1) with (page_size 1 - 1).
  change 0x40000000 with (page_size 2). change 0x200000 with (page_size 1). rewrite !land_page_mask by lia.
  destruct ((_ && _) && _) eqn:H2; [|clear H2; destruct ((_ && _) && _) eqn:H1].
  - rewrite !andb_true_iff, !Z.eqb_eq, Z.leb_le in H2. destruct H2 as [[Hpa' Hva'] Hle].
    change Size1GiB with 2%nat. split; [lia|]. repeat (split; [assumption|]). done.
  - rewrite !andb_true_iff, !Z.eqb_eq, Z.leb_le in H1. destruct H1 as [[Hpa' Hva'] Hle].
    change Size2MiB with 1%nat. split; [lia|]. repeat (split; [assumption|]). done.
  - change (page_size Size4KiB) with 4096. unfold Size4KiB. rewrite (Z.add_mod virt), (Z.add_mod phys), Hva, Hpa, Him by lia.
    split; [lia|]. split; [done|]. split; [done|]. split; [|done].
    pose proof (Z.div_mod count 4096). pose proof (Z.div_mod i 4096). lia.
Qed.

Lemma map_pages_loop_ok fuel i s' :
  0 ≤ i ≤ count → i mod 0x1000 = 0 → (Z.to_nat ((count - i) / 0x1000) < fuel)%nat →
  range_mapped i s' → (∀ v, virt + i ≤ v < virt + count → misaligned s' v → misaligned s v) →
  res_post (map_pages_loop mp fuel virt phys f count i s') (range_mapped count) range_bad.
Proof.
  revert i s'. induction fuel as [|fuel IH]; intros i s' Hi Him Hfuel [Hwf Htr] Hmis; [lia|]. cbn [map_pages_loop].
  destruct (Z.ltb_spec i count) as [Hlt|]; [|cbn; by replace count with i by lia].
  destruct (law_phys M HM) as [Hb0 Hb1]. assert (2 ^ phys_bits M ≤ 2 ^ 64) by (apply Z.pow_le_mono_r; lia).
  change (2 ^ 64) with 18446744073709551616 in *. cbv zeta. rewrite !u64_id by lia.
  destruct (next_size_ok i ltac:(lia) Him) as (Hsz & Hal1 & Hal2 & Hle & Hpm).
  set (sz := next_size (virt + i) (phys + i) (count - i)) in *. pose proof (page_size_pos sz).
  eapply res_bind_ok.
  - eapply res_mono; [apply (Hmp sz Hsz s' (virt + i) (phys + i) f); try done; lia|intros s2 H2; exact H2|].
    intros (v & Hvr & Hm). exists v. split; [lia|]. apply Hmis; [lia|done].
  - intros s2 Hmap. pose proof (pm_tr _ _ _ _ _ _ Hmap) as J2. pose proof (pm_mis _ _ _ _ _ _ Hmap) as J3.
    assert (∀ v, canonical v → same_page sz v (virt + i) ↔ virt + i ≤ v < virt + i + page_size sz) as Hrange.
    { intros v Hvc. apply page_range; [done|done|apply Hcan; lia|done]. }
    apply IH.
    + lia.
    + by rewrite Z.add_mod, Him, Hpm by lia.
    + pose proof (pages_left (count - i) (page_size sz) ltac:(lia) Hpm).
      replace (count - (i + page_size sz)) with (count - i - page_size sz) by lia. lia.
    + split; [apply Hmap|]. intros v Hvc. rewrite J2, (Htr v Hvc). pose proof (Hrange v Hvc) as Hr.
      destruct (decide (same_page sz v (virt + i))) as [Hin%Hr|Hout].
      * rewrite decide_True by lia. do 2 f_equal.
        rewrite (Z.mod_eq v) by lia. replace (v / page_size sz) with ((virt + i) / page_size sz).
        -- pose proof (Z.div_mod (virt + i) (page_size sz)). lia.
        -- pose proof (Z.div_mod (virt + i) (page_size sz)). apply (Z.div_unique_pos _ _ _ (v - (virt + i))); lia.
      * destruct (decide (virt ≤ v < virt + i)); [by rewrite decide_True by lia|].
        rewrite decide_False; [done|]. intros ?. apply Hout, Hr. lia.
    + intros v Hvr Hm. apply Hmis; [lia|]. apply J3; [|done]. intros Hs%Hrange; [lia|]. apply Hcan. lia.
Qed.

Lemma map_pages_ok : wf s → res_post (map_pages mp virt phys f count s) (range_mapped count) range_bad.
Proof.
  intros Hwf. unfold map_pages. rewrite Hva, Hpa, Hca. cbn [negb orb Z.eqb].
  apply map_pages_loop_ok; [lia|done|rewrite Z.sub_0_r; lia| |by rewrite Z.add_0_r].
  split; [done|]. intros v _. by rewrite decide_False by lia.
Qed.
End range.
End proofs.
