(* ===== verification/VmmBits.v ===== *)
(** Bits of page table entries: words made of an aligned address and flags. *)
From S2P Require Import Prelude Vmm VmmWalk VmmMap VmmSplit.

Lemma word_bits w x : 0 ≤ w → is_word w x ↔ 0 ≤ x ∧ ∀ n, w ≤ n → Z.testbit x n = false.
Proof.
  intros Hw. unfold is_word. split.
  - intros Hx. split; [lia|]. by apply Z.bounded_iff_bits_nonneg'; [|lia|].
  - intros [Hx Hb]. by apply Z.bounded_iff_bits_nonneg'.
Qed.

Lemma lor_word w a b : 0 ≤ w → is_word w a → is_word w b → is_word w (Z.lor a b).
Proof.
  intros Hw. rewrite !word_bits by done. intros [Ha Ha'] [Hb Hb']. split; [apply Z.lor_nonneg; lia|].
  intros n Hn. by rewrite Z.lor_spec, Ha', Hb' by done.
Qed.

Lemma land_word w a b : 0 ≤ w → is_word w b → is_word w (Z.land a b).
Proof.
  intros Hw. rewrite !word_bits by done. intros [Hb Hb']. split; [apply Z.land_nonneg; by right|].
  intros n Hn. by rewrite Z.land_spec, Hb', andb_false_r.
Qed.

Lemma land_word_l w a b : 0 ≤ w → is_word w a → is_word w (Z.land a b).
Proof. rewrite Z.land_comm. apply land_word. Qed.

Lemma ldiff_word w a b : 0 ≤ w → is_word w a → is_word w (Z.ldiff a b).
Proof.
  intros Hw. rewrite !word_bits by done. intros [Ha Ha']. split; [apply Z.ldiff_nonneg; by left|].
  intros n Hn. by rewrite Z.ldiff_spec, Ha'.
Qed.

Lemma shiftr_word w a k : 0 ≤ w → 0 ≤ k → is_word w a → is_word w (Z.shiftr a k).
Proof.
  intros Hw Hk. rewrite !word_bits by done. intros [Ha Ha']. split; [by apply Z.shiftr_nonneg|].
  intros n Hn. rewrite Z.shiftr_spec by lia. apply Ha'. lia.
Qed.

Lemma shiftl_word w a k : 0 ≤ k ≤ w → is_word (w - k) a → is_word w (Z.shiftl a k).
Proof.
  intros Hk [H0 H1]. unfold is_word. rewrite Z.shiftl_mul_pow2 by lia.
  replace w with (w - k + k) by lia. rewrite Z.pow_add_r by lia.
  assert (0 < 2 ^ k) by (apply Z.pow_pos_nonneg; lia). split; [lia|]. apply Z.mul_lt_mono_pos_r; [done|]. exact H1.
Qed.

Lemma word_le v w x : 0 ≤ v ≤ w → is_word v x → is_word w x.
Proof. intros Hv [? Hx]. split; [done|]. pose proof (Z.pow_le_mono_r 2 v w). lia. Qed.

(** Words are equal where their 64 bits are. *)
Lemma word_eq a b : is_word 64 a → is_word 64 b →
  Forall (λ k, Z.testbit a k = Z.testbit b k) (seqZ 0 64) → a = b.
Proof.
  rewrite !word_bits by done. intros [Ha Ha'] [Hb Hb'] Hall. apply Z.bits_inj'. intros n Hn.
  destruct (decide (64 ≤ n)); [by rewrite Ha', Hb'|]. rewrite Forall_forall in Hall. apply Hall.
  apply elem_of_seqZ. lia.
Qed.

Lemma aligned_bit p k n : 0 ≤ k → p mod 2 ^ k = 0 → n < k → Z.testbit p n = false.
Proof.
  intros Hk Hp Hn. destruct (decide (n < 0)); [by apply Z.testbit_neg_r; lia|].
  rewrite <- (Z.mod_pow2_bits_low p k n), Hp by done. apply Z.bits_0.
Qed.

Lemma small_bit p k n : 0 ≤ k → 0 ≤ p < 2 ^ k → k ≤ n → Z.testbit p n = false.
Proof. intros Hk Hp. by apply (word_bits k p). Qed.

Lemma subset_bit f m n : Z.land f m = f → Z.testbit m n = false → Z.testbit f n = false.
Proof. intros <- Hm. by rewrite Z.land_spec, Hm, andb_false_r. Qed.

Lemma subset_word w f m : 0 ≤ w → is_word w m → Z.land f m = f → is_word w f.
Proof. intros Hw Hm <-. by apply land_word. Qed.

(** A sum of flags is a subset of a set of flags. *)
Lemma subset_refl_land f m : Z.land (Z.land f m) m = Z.land f m.
Proof. by rewrite <- Z.land_assoc, Z.land_diag. Qed.

Lemma bits_aligned p k : 0 ≤ k → (∀ n, 0 ≤ n < k → Z.testbit p n = false) → p mod 2 ^ k = 0.
Proof.
  intros Hk Hb. apply Z.bits_inj'. intros n Hn. rewrite Z.bits_0, Z.testbit_mod_pow2 by done.
  destruct (Z.ltb_spec n k); [apply Hb; lia|done].
Qed.

(** A constant is a word. *)
Ltac const_word := solve [vm_compute; split; [discriminate|reflexivity]].

(** Proves that an expression of masks and bit operations is a word. *)
Ltac word_tac :=
  repeat first
    [ assumption
    | match goal with
      | |- is_word _ (Z.lor _ _) => apply lor_word; [lia|..]
      | |- is_word _ (Z.ldiff _ _) => apply ldiff_word; [lia|]
      | |- is_word _ (Z.land _ _) => first [apply land_word; [lia|]; first [assumption|const_word] | apply land_word_l; [lia|]]
      | |- is_word _ (Z.shiftr _ _) => apply shiftr_word; [lia|lia|]
      | |- is_word _ (Z.shiftl (Zpos _) _) => const_word
      | |- is_word _ (Z.shiftl _ _) => (apply shiftl_word; [lia|]; match goal with |- is_word (?a - ?b) _ => let c := eval vm_compute in (a - b) in change (a - b) with c end)
      | |- is_word _ (if _ then _ else _) => case_match
      end
    | const_word ].

(** Proves an equation of words bit by bit: [rules] rewrites the bits of the
    variables that are known. *)
Ltac bitwise rules :=
  apply word_eq; [word_tac|word_tac|];
  change (seqZ 0 64) with [0;1;2;3;4;5;6;7;8;9;10;11;12;13;14;15;16;17;18;19;20;21;22;23;24;25;26;27;28;29;30;31;
    32;33;34;35;36;37;38;39;40;41;42;43;44;45;46;47;48;49;50;51;52;53;54;55;56;57;58;59;60;61;62;63];
  repeat (apply Forall_cons; split); [..|apply Forall_nil_2];
  repeat first [rewrite Z.lor_spec | rewrite Z.land_spec | rewrite Z.ldiff_spec
    | match goal with
      | |- context [Z.testbit ?x (?a - ?b)] => rewrite (Z.testbit_neg_r x (a - b)) by lia
      | |- context [Z.testbit (Z.shiftr ?x ?n) ?k] => rewrite (Z.shiftr_spec x n k) by lia
      | |- context [Z.testbit (Z.shiftl ?x ?n) ?k] =>
          lazymatch x with Zpos _ => fail | _ => rewrite (Z.shiftl_spec x n k) by lia end
      end];
  repeat match goal with
    | |- context [Z.testbit ?x (?a + ?b)] => let c := eval vm_compute in (a + b) in change (Z.testbit x (a + b)) with (Z.testbit x c)
    | |- context [Z.testbit ?x (?a - ?b)] => let c := eval vm_compute in (a - b) in change (Z.testbit x (a - b)) with (Z.testbit x c)
    end;
  rules;
  repeat match goal with |- context [Z.testbit ?x ?k] => is_var x; destruct (Z.testbit x k) end;
  vm_compute; reflexivity.

(** ** Pages and flags *)

(** Three flags are eight numbers. *)
Lemma flags_cases f : Z.land f 7 = f → In f [0; 1; 2; 3; 4; 5; 6; 7].
Proof.
  intros Hf. assert (f = f mod 2 ^ 3) as Heq by (rewrite <- Z.land_ones by lia; by symmetry).
  pose proof (Z.mod_pos_bound f (2 ^ 3) ltac:(lia)). cbn. lia.
Qed.

Lemma page_aligned k l p : (k ≤ l ≤ 4)%nat → p mod page_size l = 0 → p mod page_size k = 0.
Proof.
  intros Hl Hp. destruct (page_size_le k l) as (q & Hq & Hqp); [lia|]. pose proof (page_size_pos k). rewrite Hq in Hp.
  rewrite <- (mod_page_mod p (page_size k) q), Hp by (done || lia). by apply Z.mod_0_l; lia.
Qed.

Lemma half_same l v w : (l ≤ 4)%nat → v / page_size l = w / page_size l → Z.testbit v 63 = Z.testbit w 63.
Proof.
  intros Hl Heq. rewrite page_size_pow in Heq by done. set (k := 12 + 9 * Z.of_nat l) in *.
  replace 63 with (63 - k + k) by lia. rewrite <- !Z.div_pow2_bits by lia. by rewrite Heq.
Qed.

Lemma addr_end b l a : (l ≤ 4)%nat → 48 ≤ b → 0 ≤ a < 2 ^ b → a mod page_size l = 0 → a + page_size l ≤ 2 ^ b.
Proof.
  intros Hl Hb Ha Hal. pose proof (page_size_pos l). apply Z.div_exact in Hal; [|lia].
  assert (2 ^ b = page_size l * 2 ^ (b - (12 + 9 * Z.of_nat l))) as Heq by (rewrite page_size_pow, <- Z.pow_add_r by lia; f_equal; lia).
  rewrite Heq in *. assert (a / page_size l < 2 ^ (b - (12 + 9 * Z.of_nat l))) by (apply Z.div_lt_upper_bound; lia). nia.
Qed.
