(* ===== verification/VmmX86.v ===== *)
(** Page tables on x86-64: [vmm.c] under [__x86_64__], and the theorem that
    what it maps is what the processor's walk finds. *)
From S2P Require Import Prelude Vmm VmmWalk VmmMap VmmSplit VmmProofs VmmBits.

Definition VMM_FLAG_WRITE : Z := Z.shiftl 1 1.
Definition VMM_FLAG_NOEXEC : Z := Z.shiftl 1 63.
Definition VMM_FLAG_FB : Z := Z.lor (Z.shiftl 1 3) (Z.shiftl 1 12).
Definition VMM_MAX_LEVEL : nat := 3.

Definition PT_FLAG_VALID : Z := Z.shiftl 1 0.
Definition PT_FLAG_WRITE : Z := Z.shiftl 1 1.
Definition PT_FLAG_USER : Z := Z.shiftl 1 2.
Definition PT_FLAG_LARGE : Z := Z.shiftl 1 7.
Definition PT_FLAG_NX : Z := Z.shiftl 1 63.
Definition PT_PADDR_MASK : Z := 0x0000FFFFFFFFF000.

Definition PT_TABLE_FLAGS : Z := Z.lor (Z.lor PT_FLAG_VALID PT_FLAG_WRITE) PT_FLAG_USER.
Definition PT_IS_TABLE (x : Z) : bool := Z.land x (Z.lor PT_FLAG_VALID PT_FLAG_LARGE) =? PT_FLAG_VALID.
Definition PT_IS_LARGE (x : Z) : bool :=
  Z.land x (Z.lor PT_FLAG_VALID PT_FLAG_LARGE) =? Z.lor PT_FLAG_VALID PT_FLAG_LARGE.
Definition PT_TO_VMM_FLAGS (x : Z) : Z := Z.land x (Z.lor (Z.lor PT_FLAG_WRITE PT_FLAG_NX) VMM_FLAG_FB).
Definition pte_new (addr flags : Z) : Z := Z.lor addr flags.
Definition pte_addr (pte : Z) : Z := Z.land pte PT_PADDR_MASK.

Definition x86 : arch :=
  Arch VMM_MAX_LEVEL PT_TABLE_FLAGS (λ _, PT_IS_TABLE) PT_IS_LARGE PT_TO_VMM_FLAGS pte_new pte_addr.

Definition PAGING_MODE_X86_64_4LVL : Z := 0.
Definition PAGING_MODE_X86_64_5LVL : Z := 1.

Definition paging_mode_va_bits (mode : Z) : Z := if negb (mode =? 0) then 57 else 48.
Definition paging_mode_higher_half (paging_mode : Z) : Z :=
  if paging_mode =? PAGING_MODE_X86_64_5LVL then 0xff00000000000000 else 0xffff800000000000.

Record pagemap_t := Pagemap { levels : Z; top_level : Z }.

Section code.
Context {S : Type} `{!pt_memory S}.
(** What [cpuid] says: pages of 1 GiB are there, the page attribute table is
    there. *)
Context (gib pat : bool).

Definition new_pagemap (paging_mode : Z) (s : S) : res S (pagemap_t * S) :=
  match pt_alloc s with
  | None => OutOfMemory s
  | Some (p, s) => Ok (Pagemap (if paging_mode =? PAGING_MODE_X86_64_5LVL then 5 else 4) p, s)
  end.

(** The [n]th entry number of [map_page]: [pml1_entry] is that of 12. *)
Definition pml_entry (shift virt_addr : Z) : Z := Z.shiftr (Z.land virt_addr (Z.shiftl 0x1ff shift)) shift.

(** The flags as [map_page] makes them before it stores them. *)
Definition map_flags (flags : Z) : Z :=
  let flags := Z.lor flags PT_FLAG_VALID in
  if negb (Z.land flags VMM_FLAG_FB =? 0) && negb pat then Z.ldiff flags VMM_FLAG_FB else flags.

(** "PML1 wants PAT bit at 7 instead of 12". *)
Definition pml1_flags (flags : Z) : Z :=
  if negb (Z.land flags (Z.shiftl 1 12) =? 0)
  then Z.lor (Z.ldiff flags (Z.shiftl 1 12)) (Z.shiftl 1 7) else flags.

Fixpoint map_page (fuel : nat) (pagemap : pagemap_t) (virt_addr phys_addr flags : Z) (pg_size : nat) (s : S)
    : res S S :=
  match fuel with
  | O => Panicked
  | Datatypes.S fuel =>
      let next := get_next_level x86 (map_page fuel pagemap) in
      let flags := map_flags flags in
      '(pml4, s) ←
        (if levels pagemap =? 5 then next s (top_level pagemap) virt_addr pg_size 4%nat (pml_entry 48 virt_addr)
         else if levels pagemap =? 4 then Ok (top_level pagemap, s)
         else Panicked);
      '(pml3, s) ← next s pml4 virt_addr pg_size 3%nat (pml_entry 39 virt_addr);
      if (pg_size =? Size1GiB)%nat then
        if gib then Ok (pt_write s pml3 (pml_entry 30 virt_addr) (Z.lor (Z.lor phys_addr flags) PT_FLAG_LARGE))
        else each 512 0 0x200000
          (λ i, map_page fuel pagemap (u64 (virt_addr + i)) (u64 (phys_addr + i)) flags Size2MiB) s
      else
        '(pml2, s) ← next s pml3 virt_addr pg_size 2%nat (pml_entry 30 virt_addr);
        if (pg_size =? Size2MiB)%nat then
          Ok (pt_write s pml2 (pml_entry 21 virt_addr) (Z.lor (Z.lor phys_addr flags) PT_FLAG_LARGE))
        else
          '(pml1, s) ← next s pml2 virt_addr pg_size 1%nat (pml_entry 21 virt_addr);
          Ok (pt_write s pml1 (pml_entry 12 virt_addr) (Z.lor phys_addr (pml1_flags flags)))
  end.

(** The recursion: a page of 1 GiB made of pages of 2 MiB, each of which may
    split a larger one, whose parts do not recurse. *)
Definition map_page_top := map_page 3.
End code.

(** ** The processor *)

(** Bits 12 and 7 of a large and a small page select the memory type. *)
Definition entry_flags (e : Z) : Z :=
  Z.lor (Z.land e (Z.lor (Z.lor PT_FLAG_WRITE PT_FLAG_NX) (Z.shiftl 1 3)))
        (if Z.testbit e 7 then Z.shiftl 1 12 else 0).

Definition leaf_entry (pat : bool) (l : nat) (phys flags : Z) : Z :=
  match l with
  | O => Z.lor phys (pml1_flags (map_flags pat flags))
  | _ => Z.lor (Z.lor phys (map_flags pat flags)) PT_FLAG_LARGE
  end.

Definition flag_bits : Z := Z.lor PT_FLAG_VALID (Z.lor (Z.lor VMM_FLAG_WRITE VMM_FLAG_NOEXEC) VMM_FLAG_FB).

Definition cpu (pat : bool) (pm : pagemap_t) : mmu := {|
  m_arch := x86;
  top := Z.to_nat (levels pm - 1);
  root _ := top_level pm;
  half _ := false;
  slots _ := 512;
  leaf := leaf_entry pat;
  present0 e := negb (Z.land e PT_FLAG_VALID =? 0);
  frame0 := pte_addr;
  flags0 := entry_flags;
  ok_flags f := Z.land f flag_bits = f;
  ok_large _ e := PT_TO_VMM_FLAGS (map_flags pat (PT_TO_VMM_FLAGS e)) = PT_TO_VMM_FLAGS e;
  norm f := PT_TO_VMM_FLAGS (map_flags pat f);
  phys_bits := 48;
|}.

Lemma map_flags_sub pat f : Z.land f flag_bits = f →
  Z.land (map_flags pat f) flag_bits = map_flags pat f ∧ Z.testbit (map_flags pat f) 0 = true.
Proof.
  intros Hf. assert (is_word 64 f) by (apply (subset_word 64 f flag_bits); [lia|by vm_compute|done]).
  unfold map_flags. case_match; (split; [bitwise ltac:(rewrite ?(subset_bit f flag_bits _ Hf) by reflexivity)|]).
  - by rewrite Z.ldiff_spec, Z.lor_spec, orb_true_r.
  - by rewrite Z.lor_spec, orb_true_r.
Qed.

(** The same without the test. *)
Lemma map_flags_eq pat f : is_word 64 f →
  map_flags pat f = Z.lor (if pat then f else Z.ldiff f VMM_FLAG_FB) PT_FLAG_VALID.
Proof.
  intros Hw. unfold map_flags. destruct pat; cbn [negb andb].
  { by rewrite andb_false_r. }
  rewrite andb_true_r. destruct (Z.eqb_spec (Z.land (Z.lor f PT_FLAG_VALID) VMM_FLAG_FB) 0) as [Hz|]; cbn [negb].
  - assert (∀ n, Z.testbit VMM_FLAG_FB n = true → Z.testbit f n = false) as Hb.
    { intros n Hn. assert (Z.testbit (Z.land (Z.lor f PT_FLAG_VALID) VMM_FLAG_FB) n = false) as Hbit by (rewrite Hz; apply Z.bits_0).
      rewrite Z.land_spec, Z.lor_spec, Hn, andb_true_r in Hbit. by apply orb_false_iff in Hbit as [? _]. }
    pose proof (Hb 3 eq_refl) as H3. pose proof (Hb 12 eq_refl) as H12. clear Hb Hz. bitwise ltac:(rewrite ?H3, ?H12).
  - bitwise ltac:(idtac).
Qed.

Lemma map_flags_idem pat f : Z.land f flag_bits = f →
  PT_TO_VMM_FLAGS (map_flags pat (PT_TO_VMM_FLAGS (map_flags pat f))) = PT_TO_VMM_FLAGS (map_flags pat f).
Proof.
  intros Hf. assert (is_word 64 f) by by apply (subset_word 64 f flag_bits).
  assert (is_word 64 (map_flags pat f)) by (rewrite map_flags_eq by done; word_tac).
  rewrite map_flags_eq by (unfold PT_TO_VMM_FLAGS; word_tac). rewrite !map_flags_eq by done.
  unfold PT_TO_VMM_FLAGS. destruct pat; bitwise ltac:(idtac).
Qed.

(** What is known of the bits of an address [p], a multiple of [2 ^ k] below
    [2 ^ 48], and of flags [f]. *)
Ltac known_addr Hlow Hhigh :=
  repeat match goal with
    | |- context [Z.testbit ?p ?k] => is_var p; first [rewrite (Hlow k) by lia | rewrite (Hhigh k) by lia]
    end.
Ltac known_bits f Hf Hlow Hhigh :=
  rewrite ?(subset_bit f flag_bits _ Hf) by reflexivity; known_addr Hlow Hhigh.

Lemma flags_word f : Z.land f flag_bits = f → is_word 64 f.
Proof. by apply subset_word. Qed.

Section leaf_laws.
Context (k p f : Z).
Hypothesis (Hk : 12 ≤ k ≤ 48) (Hal : p mod 2 ^ k = 0) (Hp : 0 ≤ p < 2 ^ 48) (Hf : Z.land f flag_bits = f)
  (Hvalid : Z.testbit f 0 = true).

Lemma p_word : is_word 64 p.
Proof. apply (word_le 48); [lia|done]. Qed.
Lemma p_low n : n < k → Z.testbit p n = false.
Proof. intros. apply (aligned_bit p k); [lia|done|done]. Qed.
Lemma p_high n : 48 ≤ n → Z.testbit p n = false.
Proof. by apply (small_bit p 48). Qed.

Lemma large_leaf_bits : 13 ≤ k →
  let e := Z.lor (Z.lor p f) PT_FLAG_LARGE in
  is_word 64 e ∧ Z.land e (Z.lor PT_FLAG_VALID PT_FLAG_LARGE) = Z.lor PT_FLAG_VALID PT_FLAG_LARGE ∧
  PT_TO_VMM_FLAGS e = PT_TO_VMM_FLAGS f ∧ pte_addr e = Z.lor p (Z.land f (Z.shiftl 1 12)).
Proof.
  intros Hk13 e. pose proof p_word. pose proof (flags_word _ Hf). pose proof p_low as Hlow. pose proof p_high as Hhigh.
  unfold e, PT_TO_VMM_FLAGS, pte_addr. split; [word_tac|]. split; [|split].
  - bitwise ltac:(rewrite ?Hvalid; known_bits f Hf Hlow Hhigh).
  - bitwise ltac:(known_bits f Hf Hlow Hhigh).
  - bitwise ltac:(known_bits f Hf Hlow Hhigh).
Qed.

Lemma small_leaf_bits :
  let e := Z.lor p (pml1_flags f) in
  is_word 64 e ∧ Z.land e PT_FLAG_VALID = PT_FLAG_VALID ∧ pte_addr e = p ∧ entry_flags e = PT_TO_VMM_FLAGS f.
Proof.
  intros e. pose proof p_word. pose proof (flags_word _ Hf). pose proof p_low as Hlow. pose proof p_high as Hhigh.
  assert (is_word 64 (pml1_flags f)) by (unfold pml1_flags; word_tac).
  assert (Z.land f (Z.shiftl 1 12) = if Z.testbit f 12 then 4096 else 0) as H12.
  { assert (is_word 64 (if Z.testbit f 12 then 4096 else 0)) by (by destruct (Z.testbit f 12)).
    destruct (Z.testbit f 12) eqn:Hb; bitwise ltac:(rewrite ?Hb). }
  unfold e, pml1_flags in *. rewrite H12 in *. split; [word_tac|].
  unfold PT_TO_VMM_FLAGS, pte_addr, entry_flags.
  destruct (Z.testbit f 12) eqn:Hb; cbn [negb Z.eqb] in *; split; [|split| |split];
    try bitwise ltac:(rewrite ?Hb, ?Hvalid; known_bits f Hf Hlow Hhigh).
Qed.
End leaf_laws.

Lemma aligned_split l p : (1 ≤ l ≤ 2)%nat → p mod page_size l = 0 → ∃ k, 13 ≤ k ≤ 48 ∧ p mod 2 ^ k = 0 ∧ page_size l = 2 ^ k.
Proof. intros Hl Hp. exists (12 + 9 * Z.of_nat l). rewrite <- page_size_pow by lia. split; [lia|done]. Qed.

Lemma fb_div l p : (1 ≤ l ≤ 2)%nat → p mod page_size l = 0 → 0 ≤ p < 2 ^ 48 → ∀ f,
  Z.lor p (Z.land f (Z.shiftl 1 12)) / page_size l * page_size l = p.
Proof.
  intros Hl Hp Hr f. destruct (aligned_split l p Hl Hp) as (k & Hk & Hal & ->).
  rewrite <- Z.shiftr_div_pow2, <- Z.shiftl_mul_pow2 by lia.
  apply Z.bits_inj'. intros n Hn. destruct (decide (n < k)).
  - rewrite Z.shiftl_spec_low by done. symmetry. by apply (aligned_bit p k); [lia|..].
  - rewrite Z.shiftl_spec_high, Z.shiftr_spec, Z.lor_spec, Z.land_spec by lia.
    replace (n - k + k) with n by lia. rewrite (small_bit (Z.shiftl 1 12) 13 n), andb_false_r, orb_false_r by (done || lia). done.
Qed.

(** The page tables the code makes are those of this processor. *)
Lemma x86_cpu_ok pat pm : levels pm = 4 ∨ levels pm = 5 → mmu_ok (cpu pat pm).
Proof.
  intros Hlv. split; cbn [m_arch top root half slots leaf present0 frame0 flags0 ok_flags norm phys_bits cpu x86
    Vmm.VMM_MAX_LEVEL Vmm.PT_TABLE_FLAGS Vmm.PT_IS_TABLE Vmm.PT_IS_LARGE Vmm.PT_TO_VMM_FLAGS Vmm.pte_new Vmm.pte_addr].
  - lia.
  - cbn; unfold VMM_MAX_LEVEL; lia.
  - intros l. done.
  - done.
  - done.
  - intros l p _ Hal Hp. unfold pte_new, PT_IS_TABLE, pte_addr, PT_TABLE_FLAGS.
    pose proof (p_word 12 p ltac:(lia)) as Hw. pose proof (p_low 12 p ltac:(lia) Hal) as Hlow. pose proof (p_high p ltac:(lia)) as Hhigh.
    split; [word_tac|]. split; [apply Z.eqb_eq|].
    + bitwise ltac:(known_addr Hlow Hhigh).
    + bitwise ltac:(known_addr Hlow Hhigh).
  - done.
  - intros l p f Hl Hf Hal Hp. destruct (map_flags_sub pat f Hf) as [Hf1 Hv]. unfold VMM_MAX_LEVEL in Hl.
    destruct l as [|l].
    + destruct (small_leaf_bits 12 p (map_flags pat f)) as (H1 & H2 & H3 & H4); [lia|done..|].
      cbn [leaf_entry]. split; [done|]. split; [lia|]. intros _. by rewrite H2.
    + destruct (aligned_split (Datatypes.S l) p ltac:(lia) Hal) as (k & Hk & Hal' & Heq).
      destruct (large_leaf_bits k p (map_flags pat f)) as (H1 & H2 & H3 & H4); [lia|done..|lia|].
      cbn [leaf_entry]. split; [done|]. split; [|done]. intros _. unfold PT_IS_TABLE, PT_IS_LARGE. rewrite H2, H3, H4.
      split; [done|]. split; [done|]. split; [cbn [ok_large cpu]; rewrite H3; by apply map_flags_idem|]. split; [done|]. apply fb_div; [lia|done..].
  - intros l e Hl He Hg Hok Hal. unfold VMM_MAX_LEVEL in Hl. assert (1 ≤ l ≤ 2)%nat as Hl' by lia. set (f := PT_TO_VMM_FLAGS e).
    assert (Z.land f (Z.lor (Z.lor PT_FLAG_WRITE PT_FLAG_NX) VMM_FLAG_FB) = f) as Hsub by apply subset_refl_land.
    assert (is_word 64 f) as Hfw by (unfold f, PT_TO_VMM_FLAGS; word_tac).
    assert (Z.land f flag_bits = f) as Hf by (bitwise ltac:(rewrite ?(subset_bit f _ _ Hsub) by reflexivity)).
    assert (Z.testbit f 12 = false) as H12.
    { destruct (aligned_split l _ Hl' Hal) as (k & Hk & Hal' & _). unfold f, PT_TO_VMM_FLAGS.
      pose proof (aligned_bit _ k 12 ltac:(lia) Hal' ltac:(lia)) as Hb. unfold pte_addr in Hb.
      rewrite Z.land_spec in *. by destruct (Z.testbit e 12). }
    split; [done|]. split; [done|]. destruct (aligned_split l _ Hl' Hal) as (k & Hk & Hal' & Heq).
    assert (0 ≤ pte_addr e < 2 ^ 48) as Hr.
    { unfold pte_addr. split; [apply Z.land_nonneg; by right|]. apply (land_word 48); [lia|]. by vm_compute. }
    split; [lia|]. split.
    { rewrite Heq. apply Z.div_exact in Hal'; [|lia]. replace (2 ^ 48) with (2 ^ k * 2 ^ (48 - k)) in * by (rewrite <- Z.pow_add_r by lia; f_equal; lia).
      assert (0 < 2 ^ k) by lia. assert (pte_addr e / 2 ^ k < 2 ^ (48 - k)) by (apply Z.div_lt_upper_bound; lia). nia. }
    intros j p Hj Hpa Hpr. destruct (map_flags_sub pat f Hf) as [Hf1 Hv].
    destruct (aligned_split j p ltac:(lia) Hpa) as (k' & Hk' & Hal'' & Heq').
    destruct (large_leaf_bits k' p (map_flags pat f)) as (_ & _ & _ & H4); [lia|done..|lia|].
    assert (leaf_entry pat j p f = Z.lor (Z.lor p (map_flags pat f)) PT_FLAG_LARGE) as -> by (destruct j; [lia|done]).
    rewrite H4. replace (Z.land (map_flags pat f) (Z.shiftl 1 12)) with 0; [by rewrite Z.lor_0_r|].
    assert (is_word 64 (map_flags pat f)) by by apply flags_word.
    assert (Z.testbit (map_flags pat f) 12 = false) as Hm12.
    { unfold map_flags. case_match; rewrite ?Z.ldiff_spec, Z.lor_spec, H12; done. }
    revert Hm12. generalize dependent (map_flags pat f). intros g ???? Hm12. symmetry. bitwise ltac:(rewrite ?Hm12).
Qed.

(** ** [map_page] is the descent *)

Lemma x86_pml_entry_div k w : 0 ≤ k → pml_entry k w = (w / 2 ^ k) mod 512.
Proof.
  intros Hk. unfold pml_entry. rewrite Z.shiftr_land, Z.shiftr_shiftl_l, Z.sub_diag, Z.shiftl_0_r, Z.shiftr_div_pow2 by lia.
  change 511 with (Z.ones 9). by rewrite Z.land_ones by lia.
Qed.

Section map_page.
Context {S : Type} `{!pt_memory S} (gib pat : bool) (pm : pagemap_t).
Hypothesis (Hlv : levels pm = 4 ∨ levels pm = 5).
Notation M := (cpu pat pm).
Notation map_page := (map_page gib pat).

Lemma x86_pml_index l k w : (l ≤ 4)%nat → k = 12 + 9 * Z.of_nat l → pml_entry k w = index M l w.
Proof. intros Hl ->. unfold index. rewrite x86_pml_entry_div, page_size_pow by lia. done. Qed.

Lemma x86_map_page_walk fuel w p f sz s :
  (sz ≤ 2)%nat → (sz = 2%nat → gib = true) →
  map_page (Datatypes.S fuel) pm w p f sz s = map_walk M (map_page fuel pm) w p f sz s.
Proof.
  intros Hsz Hg. unfold map_walk. cbn [VmmX86.map_page].
  rewrite (x86_pml_index 4 48 w), (x86_pml_index 3 39 w), (x86_pml_index 2 30 w), (x86_pml_index 1 21 w), (x86_pml_index 0 12 w) by (lia || done).
  assert (∃ n, (top M = 3%nat ∧ levels pm = 4 ∧ n = 1%nat) ∨ (top M = 4%nat ∧ levels pm = 5 ∧ n = 2%nat)) as [n Hn].
  { cbn. destruct Hlv as [-> | ->]; [exists 1%nat|exists 2%nat]; auto. }
  assert (root M (half M w) = top_level pm) as -> by done.
  destruct sz as [|[|[|sz]]]; [| | |lia]; cbn [Nat.eqb Size1GiB Size2MiB];
    (destruct Hn as [(-> & -> & _)|(-> & -> & _)]; cbn [Nat.sub descend Nat.add Z.eqb Pos.eqb]);
    try rewrite (Hg eq_refl).
  all: change (m_arch M) with x86; cbn [mbind res_bind].
  all: repeat match goal with
    | |- context [get_next_level ?a ?b ?c ?d ?e ?f ?g ?h] =>
        destruct (get_next_level a b c d e f g h) as [[? ?]|?|]; [|reflexivity..]; cbn [mbind res_bind]
    end; reflexivity.
Qed.

Lemma map_page_maps_clear fuel sz : (sz ≤ 2)%nat → (sz = 2%nat → gib = true) → maps_clear M (map_page (Datatypes.S fuel) pm) sz.
Proof.
  intros Hsz Hg s w p f ??????. rewrite x86_map_page_walk by done.
  apply (map_walk_maps_clear M (x86_cpu_ok pat pm Hlv)); try done; cbn; unfold VMM_MAX_LEVEL; lia.
Qed.

Lemma map_page_maps_direct fuel sz : (sz ≤ 2)%nat → (sz = 2%nat → gib = true) →
  maps M (map_page (Datatypes.S (Datatypes.S fuel)) pm) sz.
Proof.
  intros Hsz Hg s w p f ??????. rewrite x86_map_page_walk by done.
  apply (map_walk_maps M (x86_cpu_ok pat pm Hlv)); try done; try (cbn; unfold VMM_MAX_LEVEL; lia).
  intros _. by apply map_page_maps_clear.
Qed.

Lemma norm_map_flags f : Z.land f flag_bits = f → norm M (map_flags pat f) = norm M f.
Proof.
  intros Hf. assert (is_word 64 f) by by apply flags_word. cbn [norm cpu].
  assert (is_word 64 (map_flags pat f)) by (rewrite map_flags_eq by done; word_tac).
  rewrite (map_flags_eq pat (map_flags pat f)) by done. rewrite !map_flags_eq by done.
  unfold PT_TO_VMM_FLAGS. destruct pat; bitwise ltac:(idtac).
Qed.

(** A page of 1 GiB on a processor that has none. *)
Lemma map_page_emulated fuel w p f s : gib = false →
  map_page (Datatypes.S fuel) pm w p f 2 s =
  ('(_, s) ← descend M (top M - 2) (map_page fuel pm) s (root M (half M w)) w 2;
   each 512 0 0x200000 (λ i, map_page fuel pm (u64 (w + i)) (u64 (p + i)) (map_flags pat f) 1) s).
Proof.
  intros Hg. cbn [VmmX86.map_page].
  rewrite (x86_pml_index 4 48 w), (x86_pml_index 3 39 w) by (lia || done).
  assert ((top M = 3%nat ∧ levels pm = 4) ∨ (top M = 4%nat ∧ levels pm = 5)) as Hn.
  { cbn. destruct Hlv as [-> | ->]; [left|right]; auto. }
  assert (root M (half M w) = top_level pm) as -> by done. rewrite Hg. cbn [Nat.eqb Size1GiB].
  destruct Hn as [(-> & ->)|(-> & ->)]; cbn [Nat.sub descend Nat.add Z.eqb Pos.eqb].
  all: change (m_arch M) with x86; cbn [mbind res_bind].
  all: repeat match goal with
    | |- context [get_next_level ?a ?b ?c ?d ?e ?f ?g ?h] =>
        destruct (get_next_level a b c d e f g h) as [[? ?]|?|]; [|reflexivity..]; cbn [mbind res_bind]
    end; reflexivity.
Qed.

Lemma map_page_maps_emulated fuel : gib = false → maps M (map_page (Datatypes.S (Datatypes.S (Datatypes.S fuel))) pm) 2.
Proof.
  intros Hg s w p f Hwf Hf Hal Hp Hwal Hw. rewrite map_page_emulated by done. pose proof (x86_cpu_ok pat pm Hlv) as HM.
  destruct (law_top M HM) as [Ht4 _]. assert (3 ≤ top M)%nat by (cbn; lia).
  eapply res_bind_ok.
  - eapply res_mono; [apply (descend_ok M (λ s', wf M s' ∧ (misaligned M s' w → misaligned M s w)) (misaligned M s w))|..].
    + intros s1 s2 Hgr. by apply (grow_inv M 2).
    + intros s1 l t. apply (next_step_ok M HM); change (Vmm.VMM_MAX_LEVEL M) with 3%nat; [intros; exfalso; lia|lia|done].
    + lia.
    + by split.
    + done.
    + replace (2 + (top M - 2))%nat with (top M) by lia. apply table_at_top.
    + intros r Hr. exact Hr.
    + intros Hm. exists w. pose proof (page_size_pos 2). split; [lia|done].
  - intros [t s1] [Hgr _]. cbn [fst snd] in *. destruct (map_flags_sub pat f Hf) as [Hf1 _].
    rewrite <- (norm_map_flags f Hf). cbn [phys_bits cpu] in Hp.
    assert (p + page_size 2 ≤ 2 ^ 48).
    { apply Z.div_exact in Hal; [|done]. change (2 ^ 48) with (page_size 2 * 262144) in *.
      change (page_size 2) with 1073741824 in *. lia. }
    apply (parts_maps M HM (map_page (Datatypes.S (Datatypes.S fuel)) pm) 2 1 s s1 w p (map_flags pat f)); try done; [lia|].
    apply map_page_maps_direct; lia.
Qed.

Lemma x86_map_page_maps fuel sz : (sz ≤ 2)%nat → maps M (map_page (Datatypes.S (Datatypes.S (Datatypes.S fuel))) pm) sz.
Proof.
  intros Hsz. destruct (decide (sz = 2%nat)) as [->|]; [|apply map_page_maps_direct; lia].
  destruct (decide (gib = true)) as [Hg|Hg]; [apply map_page_maps_direct; [lia|by intros]|].
  apply map_page_maps_emulated. by apply not_true_is_false.
Qed.

(** Addresses the processor takes: the bits above the highest index repeat
    its highest bit. *)
Definition canonical (v : Z) : Prop :=
  0 ≤ v < 256 * page_size (top M) ∨ 2 ^ 64 - 256 * page_size (top M) ≤ v < 2 ^ 64.

Lemma x86_canonical_number sz v w : (sz ≤ 2)%nat → canonical v → canonical w → same_page M sz v w →
  v / page_size sz = w / page_size sz.
Proof.
  intros Hsz Hv Hw Hs. pose proof (x86_cpu_ok pat pm Hlv) as HM. apply (same_page_number M HM); [cbn; lia|done|].
  apply (same_page_le M sz (top M)) in Hs; [|cbn; lia]. apply same_page_index in Hs; [|done].
  apply (sign_extended_number (top M) v w); [cbn; lia|done..].
Qed.
End map_page.
