(* ===== verification/VmmPmm.v ===== *)
(** The page tables in the memory of the physical memory manager: it keeps
    what [pt_memory] promises, so the theorems on page tables hold of tables
    made of its pages. *)
From S2P Require Import Prelude Pmm PmmSanitise PmmAlloc Vmm VmmWalk VmmMap VmmSplit VmmProofs VmmBits VmmX86.

(** The states of the manager that make page tables: a valid map with room for
    another reservation, the first page withheld, bytes in memory. *)
Definition good (s : pmm_state) : Prop :=
  pmm_ok s ∧ has_room s ∧ allocations_disallowed s = false ∧ keep_first s = false ∧ ∀ a, is_word 8 (mem s a).
Definition paging : Type := { s : pmm_state | good s }.

Lemma alloc_page s p s' : good s → ext_mem_alloc s PT_SIZE = Some (p, s') →
  allocated s PT_SIZE MEMMAP_BOOTLOADER_RECLAIMABLE 4096 LIMIT_4G p s'.
Proof.
  intros (Hok & Hroom & Hda & _) Ha.
  pose proof (ext_mem_alloc_ok s PT_SIZE MEMMAP_BOOTLOADER_RECLAIMABLE 4096 false Hok Hroom Hda) as Hall. cbv zeta in Hall.
  unfold ext_mem_alloc, ext_mem_alloc_type, ext_mem_alloc_type_aligned in Ha. rewrite Ha in Hall.
  change (block_size PT_SIZE 4096) with PT_SIZE in Hall. unfold PT_SIZE in *.
  destruct Hall as [Hall|[? _]]; [done|lia|lia|lia|exact Hall|done].
Qed.

Lemma alloc_good s p s' : good s → ext_mem_alloc s PT_SIZE = Some (p, s') → has_room s' → good s'.
Proof.
  intros Hg Ha Hr. destruct (alloc_page _ _ _ Hg Ha) as (l & _ & _ & _ & _ & _ & _ & _ & Hm & Hda & _ & Hk & Hok).
  destruct Hg as (_ & _ & Hda0 & Hk0 & Hb). split; [done|]. split; [done|]. split; [congruence|]. split; [congruence|].
  intros a. rewrite Hm. case_decide; [done|apply Hb].
Qed.

(** A page, as long as the map of entries has room for another. *)
Definition alloc (s : paging) : option (Z * paging) :=
  match ext_mem_alloc (`s) PT_SIZE as r return ext_mem_alloc (`s) PT_SIZE = r → option (Z * paging) with
  | Some (p, s') => λ Ha,
      match decide (has_room s') with
      | left Hr => Some (p, s' ↾ alloc_good _ p s' (proj2_sig s) Ha Hr)
      | right _ => None
      end
  | None => λ _, None
  end eq_refl.

(** An entry is eight bytes, the lowest first. *)
Definition entry_bytes (s : pmm_state) (a : Z) : list Z := map (λ k, mem s (a + k)) (seqZ 0 8).
Definition read_entry (s : pmm_state) (t i : Z) : Z := le_val (entry_bytes s (t + 8 * i)).
Definition write_entry (s : pmm_state) (t i e : Z) : pmm_state :=
  let a := t + 8 * i in
  set_mem s (λ x, if (a <=? x) && (x <? a + 8) then peek (le_bytes 8 e) (x - a) else mem s x).

Lemma write_good s t i e : good s → good (write_entry s t i e).
Proof.
  intros (H1 & H2 & H3 & H4 & H5). split; [done|]. split; [done|]. split; [done|]. split; [done|].
  intros x. cbn [write_entry set_mem mem]. destruct ((_ <=? x) && _) eqn:Hc; [|apply H5]. apply andb_true_iff in Hc as [Ha%Z.leb_le Hb%Z.ltb_lt].
  pose proof (is_bytes_get (le_bytes 8 e) (x - (t + 8 * i))) as Hg. apply Hg; [apply is_bytes_le|].
  apply get_peek. change (len (le_bytes 8 e)) with 8. lia.
Qed.

Definition write (s : paging) (t i e : Z) : paging := write_entry (`s) t i e ↾ write_good _ t i e (proj2_sig s).

(** A whole page of memory that the map does not give away. *)
Definition owned (s : pmm_state) (t : Z) : Prop :=
  t mod PT_SIZE = 0 ∧ ∀ a, t ≤ a < t + PT_SIZE → type_at (memmap s) a ≠ Some MEMMAP_USABLE.

Lemma read_write s t i e t' j : good s → t mod PT_SIZE = 0 → t' mod PT_SIZE = 0 →
  0 ≤ i < 512 → 0 ≤ j < 512 → is_word 64 e →
  read_entry (write_entry s t i e) t' j = if decide (t' = t ∧ j = i) then e else read_entry s t' j.
Proof.
  intros Hg Ht Ht' Hi Hj He. unfold PT_SIZE in *. unfold read_entry. case_decide as Hd.
  - destruct Hd as [-> ->]. replace (entry_bytes _ _) with (le_bytes 8 e).
    + rewrite le_val_bytes by apply He. by apply Z.mod_small.
    + change (le_bytes 8 e) with (map (peek (le_bytes 8 e)) (seqZ 0 8)). unfold entry_bytes. apply map_ext_in.
      intros k Hk%list_elem_of_In%elem_of_seqZ. cbn [write_entry set_mem mem].
      rewrite (proj2 (Z.leb_le _ _)), (proj2 (Z.ltb_lt _ _)) by lia. cbn [andb]. f_equal. lia.
  - f_equal. apply map_ext_in. intros k Hk%list_elem_of_In%elem_of_seqZ. cbn [write_entry set_mem mem].
    apply Z.div_exact in Ht, Ht'; [|lia..].
    destruct (Z.leb_spec (t + 8 * i) (t' + 8 * j + k)), (Z.ltb_spec (t' + 8 * j + k) (t + 8 * i + 8)); cbn [andb]; try done.
    exfalso. apply Hd. lia.
Qed.

Lemma entry_bytes_ok s a : good s → is_bytes (entry_bytes s a).
Proof.
  intros (_ & _ & _ & _ & Hb). unfold is_bytes, entry_bytes. apply Forall_forall.
  intros x (k & <- & _)%list_elem_of_In%in_map_iff. apply Hb.
Qed.

#[export] Program Instance pmm_memory : pt_memory paging := {
  pt_alloc := alloc;
  pt_read s := read_entry (`s);
  pt_write := write;
  pt_owned s := owned (`s);
}.
Next Obligation.
  intros s t i e t' j [Ht _] [Ht' _] Hi Hj He. cbn. apply read_write; try done. apply (proj2_sig s).
Qed.
Next Obligation. done. Qed.
Next Obligation.
  intros s t i _ _. cbn. pose proof (le_val_range _ (entry_bytes_ok _ (t + 8 * i) (proj2_sig s))) as Hr.
  change (len (entry_bytes (`s) (t + 8 * i))) with 8 in Hr. exact Hr.
Qed.
Next Obligation.
  intros s p s' Ha. unfold alloc in Ha. revert Ha.
  assert (∀ r (Hr : ext_mem_alloc (`s) PT_SIZE = r),
    match r as r0 return ext_mem_alloc (`s) PT_SIZE = r0 → option (Z * paging) with
    | Some (p, s') => λ Ha, match decide (has_room s') with
        | left Hr => Some (p, s' ↾ alloc_good _ p s' (proj2_sig s) Ha Hr) | right _ => None end
    | None => λ _, None end Hr = Some (p, s') → r = Some (p, `s')) as Hr.
  { intros [[p1 s1]|] Hr; [|done]. destruct (decide (has_room s1)); [|done]. by intros [= <- <-]. }
  intros Ha%Hr. pose proof (proj2_sig s) as Hg. destruct (alloc_page _ _ _ Hg Ha) as (l & Hl & Hp & Hlim & _ & Hmod & Hus & Hty & Hm & _).
  destruct Hg as (Hok & _ & _ & Hk & _). unfold PT_SIZE, LIMIT_4G in *.
  assert (0 < p).
  { pose proof (Hus p ltac:(lia)) as Hu. pose proof (valid_page _ _ Hok p) as Hpg. rewrite Hk in Hpg.
    unfold page_view in Hpg. rewrite Hu in Hpg. cbn [mbind option_bind] in Hpg.
    destruct (page_kept false MEMMAP_USABLE p) eqn:Hkept; [|done]. unfold page_kept in Hkept. cbn in Hkept. lia. }
  assert (∀ q i, ¬ (q = p) → q mod 4096 = 0 → 0 ≤ i < 512 → read_entry (`s') q i = read_entry (`s) q i) as Hread.
  { intros q i Hq Hqm Hi. unfold read_entry. f_equal. apply map_ext_in. intros k Hkk%list_elem_of_In%elem_of_seqZ.
    rewrite Hm. rewrite decide_False; [done|]. apply Z.div_exact in Hqm, Hmod; [|lia..]. lia. }
  split_and!; try done; try lia.
  - intros [_ Hno]. apply (Hno p); [unfold PT_SIZE; lia|]. apply Hus. lia.
  - split; [done|]. intros a Ha'. rewrite Hty. unfold retype, PT_SIZE in *. rewrite decide_True by lia. done.
  - intros q [Hqm Hq]. split; [done|]. intros a Ha'. rewrite Hty. unfold retype. case_decide; [done|by apply Hq].
  - intros i Hi. cbn. unfold read_entry. assert (entry_bytes (`s') (p + 8 * i) = replicate 8 0) as ->; [|done].
    change (replicate 8 0) with (map (λ _, 0) (seqZ 0 8)). apply map_ext_in. intros k Hkk%list_elem_of_In%elem_of_seqZ.
    rewrite Hm, decide_True by lia. done.
  - intros q i [Hqm Hq] Hi. apply Hread; [|done|done]. intros ->. apply (Hq p); [unfold PT_SIZE; lia|]. apply Hus. lia.
Qed.

(** ** The theorems *)

Lemma x86_new_pagemap_ok {S} `{!pt_memory S} pat mode (s : S) :
  match new_pagemap mode s with
  | Ok (pm, s') => (levels pm = 4 ∨ levels pm = 5) ∧ wf (cpu pat pm) s' ∧ ∀ v, translate (cpu pat pm) s' v = None
  | OutOfMemory s1 => pt_alloc s1 = None
  | Panicked => False
  end.
Proof.
  unfold new_pagemap. destruct (pt_alloc s) as [[p s']|] eqn:Ha; [|done].
  destruct (pt_alloc_fresh _ _ _ Ha) as (_ & _ & _ & Ho & _ & Hz & _). set (pm := Pagemap _ p).
  assert (levels pm = 4 ∨ levels pm = 5) as Hlv by (unfold pm; cbn; case_match; auto).
  split; [done|]. destruct (empty_tables (cpu pat pm) (x86_cpu_ok pat pm Hlv) s') as (Hwf & Ht & _); try done.
Qed.


(** C9: [map_pages] on x86-64, with any mixture of page sizes and whatever the
    tables held before, large pages to be split and processors without 1 GiB
    pages included: afterwards the processor's walk takes each address of the
    range to its physical address with the flags asked for (as far as the
    processor has them) and every other address where it went before; the
    tables are well-formed.  It stops short only when there is no memory for a
    table, or over a large page whose entry's address bits are not a multiple
    of its size. *)
Theorem x86_map_pages_correct {S} `{!pt_memory S} gib pat pm virt phys flags count (s : S) :
  levels pm = 4 ∨ levels pm = 5 → wf (cpu pat pm) s → Z.land flags flag_bits = flags →
  virt mod 0x1000 = 0 → phys mod 0x1000 = 0 → count mod 0x1000 = 0 →
  0 ≤ count → 0 ≤ phys → phys + count ≤ 2 ^ 48 → 0 ≤ virt → virt + count ≤ 2 ^ 64 →
  (∀ v, virt ≤ v < virt + count → canonical pat pm v) →
  match map_pages (map_page_top gib pat pm) virt phys flags count s with
  | Ok s' => wf (cpu pat pm) s' ∧ ∀ v, canonical pat pm v →
      translate (cpu pat pm) s' v =
        if decide (virt ≤ v < virt + count) then Some (phys + (v - virt), norm (cpu pat pm) flags)
        else translate (cpu pat pm) s v
  | OutOfMemory s1 => pt_alloc s1 = None
  | Panicked => ∃ v, virt ≤ v < virt + count ∧ misaligned (cpu pat pm) s v
  end.
Proof.
  intros Hlv Hwf Hf ???????? Hcan. pose proof (x86_cpu_ok pat pm Hlv) as HM.
  pose proof (map_pages_ok (cpu pat pm) HM (canonical pat pm) (x86_canonical_number pat pm Hlv)
    (map_page_top gib pat pm) virt phys flags count s) as Hmap.
  apply Hmap; try done. intros sz Hsz. by apply x86_map_page_maps.
Qed.

(** ** On a concrete machine *)

Definition boot_map : list memmap_entry := [ME 0x100000 0x200000 1].
Definition boot_state : pmm_state := PMM boot_map false 0 false (λ _, 0xAA).

Lemma boot_good : good boot_state.
Proof.
  split.
  - split; [repeat constructor; cbn; lia|split|].
    + repeat constructor; cbn; lia.
    + intros a. change (cnt any_type boot_map a ≤ 1). unfold boot_map. cbn [cnt any_type andb]. unfold covb. cbn [e_base e_len].
      repeat match goal with |- context [(?x <=? ?y) && (?z <? ?t)] =>
        destruct (Z.leb_spec x y), (Z.ltb_spec z t); cbn [andb b2z]; try lia end.
    + intros a. change (page_view false (type_at boot_map) a = type_at boot_map a).
      unfold page_view. destruct (type_at boot_map a) as [t|] eqn:Ht; cbn [mbind option_bind]; [|done].
      unfold boot_map in Ht. cbn [type_at] in Ht. unfold covb in Ht. cbn [e_base e_len e_type] in Ht.
      unfold page_kept. destruct (Z.leb_spec 0x100000 a); [|done].
      by rewrite (proj2 (Z.leb_le 0x1000 a)), orb_true_r by lia.
  - split; [by vm_compute|]. by split_and!.
Qed.

Definition boot : paging := boot_state ↾ boot_good.

(** The first page table of the machine, in the last page of its memory. *)
Definition boot_pm : pagemap_t := Pagemap 4 0x2ff000.
Definition boot_tables : paging := match new_pagemap 0 boot with Ok (_, s) => s | _ => boot end.

Lemma boot_tables_wf : wf (cpu true boot_pm) boot_tables.
Proof.
  assert (match new_pagemap 0 boot with Ok (pm, _) => Some pm | _ => None end = Some boot_pm) as Hpm by (vm_compute; done).
  unfold boot_tables. pose proof (x86_new_pagemap_ok true 0 boot) as H.
  destruct (new_pagemap 0 boot) as [[pm s]|?|]; [|done..]. injection Hpm as ->. by destruct H as (_ & ? & _).
Qed.

Definition after {A} (r : res paging paging) (f : paging → option A) : option A :=
  match r with Ok s => f s | _ => None end.

(** What is at an address after three pages were mapped below it. *)
Lemma x86_map_pages_correct_witness :
  after (map_pages (map_page_top true true boot_pm) 0xffff800000000000 0x5000 VMM_FLAG_WRITE 0x3000 boot_tables)
    (λ s, translate (cpu true boot_pm) s 0xffff800000002abc) = Some (0x7abc, VMM_FLAG_WRITE) ∧
  match map_pages (map_page_top true true boot_pm) 0xffff800000000000 0x5000 VMM_FLAG_WRITE 0x3000 boot_tables with
  | Ok s' => wf (cpu true boot_pm) s' ∧ ∀ v, canonical true boot_pm v →
      translate (cpu true boot_pm) s' v =
        if decide (0xffff800000000000 ≤ v < 0xffff800000000000 + 0x3000)
        then Some (0x5000 + (v - 0xffff800000000000), norm (cpu true boot_pm) VMM_FLAG_WRITE)
        else translate (cpu true boot_pm) boot_tables v
  | OutOfMemory s1 => pt_alloc s1 = None
  | Panicked => ∃ v, 0xffff800000000000 ≤ v < 0xffff800000000000 + 0x3000 ∧ misaligned (cpu true boot_pm) boot_tables v
  end.
Proof.
  split; [vm_compute; reflexivity|].
  refine (x86_map_pages_correct true true boot_pm 0xffff800000000000 0x5000 VMM_FLAG_WRITE 0x3000 boot_tables
    (or_introl eq_refl) boot_tables_wf eq_refl eq_refl eq_refl eq_refl _ _ _ _ _ _); try lia.
  intros v Hv. right. change (page_size (top (cpu true boot_pm))) with 549755813888. lia.
Defined.

(** A large page with the flags of a framebuffer has bit 12 set, where
    [pte_addr] looks for the address: mapping a small page in it panics. *)
Example fb_page_not_split :
  match map_pages (map_page_top true true boot_pm) 0x200000 0x80000000 VMM_FLAG_FB 0x200000 boot_tables with
  | Ok s =>
      match map_pages (map_page_top true true boot_pm) 0x200000 0x5000 VMM_FLAG_WRITE 0x1000 s with
      | Panicked => True | _ => False end ∧
      match map_pages (map_page_top true true boot_pm) 0x200000 0x5000 VMM_FLAG_WRITE 0x1000 boot_tables with
      | Ok _ => True | _ => False end
  | _ => False
  end.
Proof. vm_compute. done. Qed.
