(* ===== verification/VmmRiscV.v ===== *)
(** Page tables on RISC-V: [vmm.c] under [__riscv], Sv39, Sv48 and Sv57. *)
From S2P Require Import Prelude Vmm VmmWalk VmmMap VmmSplit VmmProofs VmmBits VmmPmm.

Definition VMM_FLAG_WRITE : Z := Z.shiftl 1 0.
Definition VMM_FLAG_NOEXEC : Z := Z.shiftl 1 1.
Definition VMM_FLAG_FB : Z := Z.shiftl 1 2.
Definition VMM_MAX_LEVEL : nat := 5.

Definition PT_FLAG_VALID : Z := Z.shiftl 1 0.
Definition PT_FLAG_READ : Z := Z.shiftl 1 1.
Definition PT_FLAG_WRITE : Z := Z.shiftl 1 2.
Definition PT_FLAG_EXEC : Z := Z.shiftl 1 3.
Definition PT_FLAG_ACCESSED : Z := Z.shiftl 1 6.
Definition PT_FLAG_DIRTY : Z := Z.shiftl 1 7.
Definition PT_FLAG_PBMT_NC : Z := Z.shiftl 1 61.
Definition PT_PADDR_MASK : Z := 0x003ffffffffffc00.

Definition PT_FLAG_RWX : Z := Z.lor (Z.lor PT_FLAG_READ PT_FLAG_WRITE) PT_FLAG_EXEC.
Definition PT_TABLE_FLAGS : Z := PT_FLAG_VALID.
Definition PT_IS_TABLE (x : Z) : bool := Z.land x (Z.lor PT_FLAG_VALID PT_FLAG_RWX) =? PT_FLAG_VALID.
Definition PT_IS_LARGE (x : Z) : bool := PT_FLAG_VALID <? Z.land x (Z.lor PT_FLAG_VALID PT_FLAG_RWX).

Definition pte_new (addr flags : Z) : Z := Z.lor (Z.land (Z.shiftr addr 2) PT_PADDR_MASK) flags.
Definition pte_addr (pte : Z) : Z := Z.shiftl (Z.land pte PT_PADDR_MASK) 2.

Definition pt_to_vmm_flags_internal (entry : Z) : Z :=
  Z.lor (Z.lor (if negb (Z.land entry PT_FLAG_WRITE =? 0) then VMM_FLAG_WRITE else 0)
               (if Z.land entry PT_FLAG_EXEC =? 0 then VMM_FLAG_NOEXEC else 0))
        (if negb (Z.land entry PT_FLAG_PBMT_NC =? 0) then VMM_FLAG_FB else 0).

Definition riscv : arch :=
  Arch VMM_MAX_LEVEL PT_TABLE_FLAGS (λ _, PT_IS_TABLE) PT_IS_LARGE pt_to_vmm_flags_internal pte_new pte_addr.

Definition PAGING_MODE_RISCV_SV39 : Z := 8.
Definition PAGING_MODE_RISCV_SV48 : Z := 9.
Definition PAGING_MODE_RISCV_SV57 : Z := 10.

Definition RISCV_HART_HAS_MMU : Z := Z.shiftl 1 1.

(** The boot hart's flags and [mmu_type], if it is known; [None] is a panic. *)
Definition vmm_max_paging_mode (bsp_hart : option (Z * Z)) : option Z :=
  match bsp_hart with
  | None => None
  | Some (flags, mmu_type) =>
      if Z.land flags RISCV_HART_HAS_MMU =? 0 then None else Some (PAGING_MODE_RISCV_SV39 + mmu_type)
  end.

(** [None] is a panic. *)
Definition paging_mode_higher_half (paging_mode : Z) : option Z :=
  if paging_mode =? PAGING_MODE_RISCV_SV39 then Some 0xffffffc000000000
  else if paging_mode =? PAGING_MODE_RISCV_SV48 then Some 0xffff800000000000
  else if paging_mode =? PAGING_MODE_RISCV_SV57 then Some 0xff00000000000000
  else None.

Definition paging_mode_va_bits (paging_mode : Z) : option Z :=
  if paging_mode =? PAGING_MODE_RISCV_SV39 then Some 39
  else if paging_mode =? PAGING_MODE_RISCV_SV48 then Some 48
  else if paging_mode =? PAGING_MODE_RISCV_SV57 then Some 57
  else None.

Record pagemap_t := Pagemap { max_page_size : nat; paging_mode : Z; top_level : Z }.

Section code.
Context {S : Type} `{!pt_memory S}.
(** The static [pbmt_nc], set by [new_pagemap] where the processor has Svpbmt. *)
Context (pbmt_nc : Z).

Definition new_pagemap (mode : Z) (s : S) : res S (pagemap_t * S) :=
  match pt_alloc s with
  | None => OutOfMemory s
  | Some (p, s) => Ok (Pagemap (Z.to_nat (mode - 6)) mode p, s)
  end.

Definition map_flags (flags : Z) : Z :=
  Z.lor (Z.lor (Z.lor (Z.lor (Z.lor (Z.lor PT_FLAG_VALID PT_FLAG_READ) PT_FLAG_ACCESSED) PT_FLAG_DIRTY)
    (if negb (Z.land flags VMM_FLAG_WRITE =? 0) then PT_FLAG_WRITE else 0))
    (if Z.land flags VMM_FLAG_NOEXEC =? 0 then PT_FLAG_EXEC else 0))
    (if negb (Z.land flags VMM_FLAG_FB =? 0) then pbmt_nc else 0).

(** [for (;;)], from [level] down. *)
Fixpoint map_levels (mp : Z → Z → Z → nat → S → res S S) (virt_addr phys_addr ptflags : Z) (page_size : nat)
    (level : nat) (table : Z) (s : S) : res S S :=
  let index := Z.land (Z.shiftr virt_addr (12 + 9 * Z.of_nat level)) 0x1ff in
  if (level =? page_size)%nat then Ok (pt_write s table index (pte_new phys_addr ptflags))
  else
    '(table, s) ← get_next_level riscv mp s table virt_addr page_size level index;
    match level with
    | O => Panicked
    | Datatypes.S level => map_levels mp virt_addr phys_addr ptflags page_size level table s
    end.

Fixpoint map_page (fuel : nat) (pagemap : pagemap_t) (virt_addr phys_addr flags : Z) (page_size : nat) (s : S)
    : res S S :=
  match fuel with
  | O => Panicked
  | Datatypes.S fuel =>
      let page_size := if (max_page_size pagemap <? page_size)%nat then max_page_size pagemap else page_size in
      map_levels (map_page fuel pagemap) virt_addr phys_addr (map_flags flags) page_size
        (max_page_size pagemap) (top_level pagemap) s
  end.
End code.

(** ** The processor *)

Definition flag_bits : Z := 7.

Definition cpu (pbmt_nc : Z) (pm : pagemap_t) : mmu := {|
  m_arch := riscv;
  top := max_page_size pm;
  root _ := top_level pm;
  half _ := false;
  slots _ := 512;
  leaf _ phys flags := pte_new phys (map_flags pbmt_nc flags);
  present0 := PT_IS_LARGE;
  frame0 := pte_addr;
  flags0 := pt_to_vmm_flags_internal;
  ok_flags f := Z.land f flag_bits = f;
  ok_large l e := (pbmt_nc = 0 → Z.land e PT_FLAG_PBMT_NC = 0) ∧ pte_addr e mod page_size l = 0;
  norm f := if pbmt_nc =? 0 then Z.ldiff f VMM_FLAG_FB else f;
  phys_bits := 56;
|}.

Lemma rv_pte_flags p fl c : Z.land PT_PADDR_MASK c = 0 → Z.land (pte_new p fl) c = Z.land fl c.
Proof.
  intros Hc. unfold pte_new. rewrite Z.land_lor_distr_l, <- Z.land_assoc, Hc, Z.land_0_r. apply Z.lor_0_l.
Qed.

Lemma rv_pte_addr_new p fl : p mod 2 ^ 12 = 0 → 0 ≤ p < 2 ^ 56 → Z.land fl PT_PADDR_MASK = 0 → pte_addr (pte_new p fl) = p.
Proof.
  intros Hal Hp Hfl. unfold pte_addr, pte_new. rewrite Z.land_lor_distr_l, Hfl, Z.lor_0_r, subset_refl_land.
  pose proof (aligned_bit p 12) as Hlow. pose proof (small_bit p 56) as Hhigh.
  assert (is_word 64 p) by (apply (word_le 56); [lia|done]).
  bitwise ltac:(repeat match goal with
    | |- context [Z.testbit p ?k] => first [rewrite (Hlow k) by (done || lia) | rewrite (Hhigh k) by (done || lia)] end).
Qed.

Lemma rv_map_flags_word nc f : nc = 0 ∨ nc = PT_FLAG_PBMT_NC → Z.land f flag_bits = f →
  is_word 64 (map_flags nc f) ∧ Z.land (map_flags nc f) PT_PADDR_MASK = 0 ∧
  PT_FLAG_VALID < Z.land (map_flags nc f) (Z.lor PT_FLAG_VALID PT_FLAG_RWX) ∧
  pt_to_vmm_flags_internal (map_flags nc f) = (if nc =? 0 then Z.ldiff f VMM_FLAG_FB else f) ∧
  (nc = 0 → Z.land (map_flags nc f) PT_FLAG_PBMT_NC = 0).
Proof.
  intros Hnc Hf%flags_cases. cbn [In] in Hf.
  destruct Hnc as [-> | ->]; repeat destruct Hf as [<-|Hf]; try done; by vm_compute.
Qed.

Lemma rv_leaf_word p fl : is_word 64 fl → is_word 64 (pte_new p fl).
Proof. intros. unfold pte_new. word_tac. Qed.

Lemma rv_to_vmm_flags_pte p fl : Z.land fl PT_PADDR_MASK = 0 → pt_to_vmm_flags_internal (pte_new p fl) = pt_to_vmm_flags_internal fl.
Proof. intros Hfl. unfold pt_to_vmm_flags_internal. by rewrite !rv_pte_flags by done. Qed.

(** The page tables the code makes are those of this processor. *)
Lemma rv_cpu_ok nc pm : nc = 0 ∨ nc = PT_FLAG_PBMT_NC → (2 ≤ max_page_size pm ≤ 4)%nat → mmu_ok (cpu nc pm).
Proof.
  intros Hnc Hlv. split; cbn [m_arch top root half slots leaf present0 frame0 flags0 ok_flags ok_large norm phys_bits cpu riscv
    Vmm.VMM_MAX_LEVEL Vmm.PT_TABLE_FLAGS Vmm.PT_IS_TABLE Vmm.PT_IS_LARGE Vmm.PT_TO_VMM_FLAGS Vmm.pte_new Vmm.pte_addr].
  - lia.
  - done.
  - done.
  - done.
  - done.
  - intros l p _ Hal Hp. cbv zeta. split; [by apply rv_leaf_word|]. split.
    + unfold PT_IS_TABLE. by rewrite rv_pte_flags by done.
    + apply rv_pte_addr_new; [done|split; [lia|]|done]. assert (2 ^ 48 < 2 ^ 56) by done. lia.
  - done.
  - intros l p f Hl Hf Hal Hp. cbv zeta. unfold VMM_MAX_LEVEL in Hl.
    destruct (rv_map_flags_word nc f Hnc Hf) as (Hw & Hm & Hv & Hto & Hok).
    assert (pte_addr (pte_new p (map_flags nc f)) = p) as Haddr by (apply rv_pte_addr_new; [by apply (page_aligned 0 l); [lia|]|done..]).
    assert (PT_IS_LARGE (pte_new p (map_flags nc f)) = true) as Hg.
    { unfold PT_IS_LARGE. rewrite rv_pte_flags by done. by apply Z.ltb_lt. }
    split; [by apply rv_leaf_word|]. rewrite rv_to_vmm_flags_pte, Haddr by done. split.
    + intros _. split.
      { unfold PT_IS_TABLE. rewrite rv_pte_flags by done. apply Z.eqb_neq. lia. }
      split; [done|]. split; [split; [intros Hz; rewrite rv_pte_flags by done; by apply Hok|done]|]. split; [done|].
      apply Z.div_exact in Hal; [|pose proof (page_size_pos l); lia]. lia.
    + intros _. by split.
  - intros l e Hl He Hg [Hok _] Hal. unfold VMM_MAX_LEVEL in Hl. set (f := pt_to_vmm_flags_internal e).
    assert (Z.land f flag_bits = f) as Hf by (unfold f, pt_to_vmm_flags_internal; by repeat case_match).
    split; [done|]. split.
    { destruct (Z.eqb_spec nc 0) as [Hz|]; [|done]. unfold f, pt_to_vmm_flags_internal. rewrite (Hok Hz). by repeat case_match. }
    assert (0 ≤ pte_addr e < 2 ^ 56) as Hr.
    { unfold pte_addr. apply (shiftl_word 56); [lia|]. by apply land_word; [lia|]. }
    split; [lia|]. split.
    { by apply addr_end; [lia|..]. }
    intros k p Hk Hpa Hpr. destruct (rv_map_flags_word nc f Hnc Hf) as (_ & Hm & _).
    rewrite rv_pte_addr_new; [done|by apply (page_aligned 0 k); [lia|]|done..].
Qed.

Lemma index_land nc pm l w : (l ≤ 4)%nat → Z.land (Z.shiftr w (12 + 9 * Z.of_nat l)) 0x1ff = index (cpu nc pm) l w.
Proof.
  intros Hl. unfold index. change 0x1ff with (Z.ones 9). rewrite Z.land_ones, Z.shiftr_div_pow2, page_size_pow by lia. done.
Qed.

Section map_page.
Context {S : Type} `{!pt_memory S} (nc : Z) (pm : pagemap_t).
Hypothesis (Hnc : nc = 0 ∨ nc = PT_FLAG_PBMT_NC) (Hlv : (2 ≤ max_page_size pm ≤ 4)%nat).
Notation M := (cpu nc pm).

Lemma map_levels_walk mp w p f sz n t (s : S) : (sz + n ≤ 4)%nat →
  map_levels mp w p (map_flags nc f) sz (sz + n) t s =
  ('(t, s) ← descend M n mp s t w sz; Ok (pt_write s t (index M sz w) (leaf M sz p f))).
Proof.
  revert t s. induction n as [|n IH]; intros t s Hn.
  - rewrite Nat.add_0_r. cbn [descend mbind res_bind]. destruct sz; cbn [map_levels]; rewrite (index_land nc pm) by lia; by rewrite Nat.eqb_refl.
  - rewrite Nat.add_succ_r. cbn [map_levels descend]. rewrite <- Nat.add_succ_r, (index_land nc pm) by lia.
    rewrite (proj2 (Nat.eqb_neq _ _)) by lia. change (m_arch M) with riscv.
    destruct (get_next_level _ _ _ _ _ _ _ _) as [[t1 s1]|?|]; cbn [mbind res_bind]; [|done..]. apply IH. lia.
Qed.

Lemma rv_map_page_walk fuel w p f sz (s : S) : (sz ≤ 2)%nat →
  map_page nc (Datatypes.S fuel) pm w p f sz s = map_walk M (map_page nc fuel pm) w p f sz s.
Proof.
  intros Hsz. cbn [map_page]. cbv zeta. rewrite (proj2 (Nat.ltb_ge _ _)) by lia.
  unfold map_walk. cbn [top root half cpu]. rewrite <- map_levels_walk by lia. by replace (sz + (max_page_size pm - sz))%nat with (max_page_size pm) by lia.
Qed.

Lemma rv_map_page_maps fuel sz : (sz ≤ 2)%nat → maps M (map_page nc (Datatypes.S (Datatypes.S fuel)) pm) sz.
Proof.
  intros Hsz s w p f ??????. rewrite rv_map_page_walk by done. pose proof (rv_cpu_ok nc pm Hnc Hlv) as HM.
  apply (map_walk_maps M HM); try done; try (cbn; unfold VMM_MAX_LEVEL; lia).
  intros _ s1 w1 p1 f1 ??????. rewrite rv_map_page_walk by done.
  apply (map_walk_maps_clear M HM); try done; cbn; unfold VMM_MAX_LEVEL; lia.
Qed.


(** Addresses the processor takes: the bits above the highest index repeat
    its highest bit. *)
Definition canonical (v : Z) : Prop :=
  0 ≤ v < 256 * page_size (top M) ∨ 2 ^ 64 - 256 * page_size (top M) ≤ v < 2 ^ 64.

Lemma rv_canonical_number sz v w : (sz ≤ 2)%nat → canonical v → canonical w → same_page M sz v w →
  v / page_size sz = w / page_size sz.
Proof.
  intros Hsz Hv Hw Hs. pose proof (rv_cpu_ok nc pm Hnc Hlv) as HM. apply (same_page_number M HM); [cbn; lia|done|].
  apply (same_page_le M sz (top M)) in Hs; [|cbn; lia]. apply same_page_index in Hs; [|done].
  apply (sign_extended_number (top M) v w); [cbn; lia|done..].
Qed.
End map_page.

Lemma rv_new_pagemap_ok {S} `{!pt_memory S} nc mode (s : S) : nc = 0 ∨ nc = PT_FLAG_PBMT_NC → 8 ≤ mode ≤ 10 →
  match new_pagemap mode s with
  | Ok (pm, s') => (2 ≤ max_page_size pm ≤ 4)%nat ∧ wf (cpu nc pm) s' ∧ ∀ v, translate (cpu nc pm) s' v = None
  | OutOfMemory s1 => pt_alloc s1 = None
  | Panicked => False
  end.
Proof.
  intros Hnc Hmode. unfold new_pagemap. destruct (pt_alloc s) as [[p s']|] eqn:Ha; [|done].
  destruct (pt_alloc_fresh _ _ _ Ha) as (_ & _ & _ & Ho & _ & Hz & _). set (pm := Pagemap _ _ p).
  assert (2 ≤ max_page_size pm ≤ 4)%nat as Hlv by (cbn; lia).
  split; [done|]. destruct (empty_tables (cpu nc pm) (rv_cpu_ok nc pm Hnc Hlv) s') as (Hwf & Ht & _); try done.
Qed.

(** C23: [map_pages] on RISC-V, for Sv39, Sv48 and Sv57 and whatever the tables
    held before, large pages to be split included: afterwards the processor's
    walk takes each address of the range to its physical address with the flags
    asked for (the framebuffer flag only where the processor has Svpbmt) and
    every other address where it went before; the tables are well-formed.  It
    stops short only when there is no memory for a table. *)
Theorem riscv_map_pages_correct {S} `{!pt_memory S} nc pm virt phys flags count (s : S) :
  nc = 0 ∨ nc = PT_FLAG_PBMT_NC → (2 ≤ max_page_size pm ≤ 4)%nat → wf (cpu nc pm) s → Z.land flags flag_bits = flags →
  virt mod 0x1000 = 0 → phys mod 0x1000 = 0 → count mod 0x1000 = 0 →
  0 ≤ count → 0 ≤ phys → phys + count ≤ 2 ^ 56 → 0 ≤ virt → virt + count ≤ 2 ^ 64 →
  (∀ v, virt ≤ v < virt + count → canonical nc pm v) →
  match map_pages (map_page nc 2 pm) virt phys flags count s with
  | Ok s' => wf (cpu nc pm) s' ∧ ∀ v, canonical nc pm v →
      translate (cpu nc pm) s' v =
        if decide (virt ≤ v < virt + count) then Some (phys + (v - virt), norm (cpu nc pm) flags)
        else translate (cpu nc pm) s v
  | OutOfMemory s1 => pt_alloc s1 = None
  | Panicked => False
  end.
Proof.
  intros Hnc Hlv Hwf Hf ???????? Hcan. pose proof (rv_cpu_ok nc pm Hnc Hlv) as HM.
  eapply res_mono; [apply (map_pages_ok (cpu nc pm) HM (canonical nc pm) (rv_canonical_number nc pm Hnc Hlv)
    (map_page nc 2 pm) virt phys flags count s); try done|done|].
  - intros sz Hsz. by apply rv_map_page_maps.
  - intros (v & _ & Hm). by apply (wf_aligned (cpu nc pm)) in Hm; [|intros l e []|].
Qed.

(** Sv39 without Svpbmt, in the last page of the memory. *)
Definition sv39_pm : pagemap_t := Pagemap 2 PAGING_MODE_RISCV_SV39 0x2ff000.
Definition sv39_tables : paging := match new_pagemap PAGING_MODE_RISCV_SV39 boot with Ok (_, s) => s | _ => boot end.

Lemma sv39_tables_wf : wf (cpu 0 sv39_pm) sv39_tables.
Proof.
  assert (match new_pagemap PAGING_MODE_RISCV_SV39 boot with Ok (pm, _) => Some pm | _ => None end = Some sv39_pm) as Hpm by (vm_compute; done).
  unfold sv39_tables. pose proof (rv_new_pagemap_ok 0 PAGING_MODE_RISCV_SV39 boot (or_introl eq_refl)) as H.
  destruct (new_pagemap _ boot) as [[pm s]|?|]; [|done..]. injection Hpm as ->. destruct H as (_ & ? & _); [|done].
  by unfold PAGING_MODE_RISCV_SV39.
Qed.

Lemma riscv_map_pages_correct_witness :
  after (map_pages (map_page 0 2 sv39_pm) 0xffffffc000000000 0x5000 VMM_FLAG_WRITE 0x3000 sv39_tables)
    (λ s, translate (cpu 0 sv39_pm) s (0xffffffc000000000 + 0x2abc)) = Some (0x7abc, VMM_FLAG_WRITE) ∧
  match map_pages (map_page 0 2 sv39_pm) 0xffffffc000000000 0x5000 VMM_FLAG_WRITE 0x3000 sv39_tables with
  | Ok s' => wf (cpu 0 sv39_pm) s' ∧ ∀ v, canonical 0 sv39_pm v →
      translate (cpu 0 sv39_pm) s' v =
        if decide (0xffffffc000000000 ≤ v < 0xffffffc000000000 + 0x3000)
        then Some (0x5000 + (v - 0xffffffc000000000), norm (cpu 0 sv39_pm) VMM_FLAG_WRITE)
        else translate (cpu 0 sv39_pm) sv39_tables v
  | OutOfMemory s1 => pt_alloc s1 = None
  | Panicked => False
  end.
Proof.
  split; [vm_compute; reflexivity|].
  refine (riscv_map_pages_correct (S := paging) 0 sv39_pm 0xffffffc000000000 0x5000 VMM_FLAG_WRITE 0x3000 sv39_tables
    (or_introl eq_refl) _ sv39_tables_wf eq_refl eq_refl eq_refl eq_refl _ _ _ _ _ _). 1: cbn; lia. all: try lia.
  intros v Hv. right. change (page_size (top (cpu 0 sv39_pm))) with 0x40000000. lia.
Defined.
