(* ===== verification/VmmAArch64.v ===== *)
(** Page tables on AArch64: [vmm.c] under [__aarch64__], with 48 and 52 bits
    of address. *)
From S2P Require Import Prelude Vmm VmmWalk VmmMap VmmSplit VmmProofs VmmBits VmmPmm.

Definition VMM_FLAG_WRITE : Z := Z.shiftl 1 0.
Definition VMM_FLAG_NOEXEC : Z := Z.shiftl 1 1.
Definition VMM_FLAG_FB : Z := Z.shiftl 1 2.
Definition VMM_MAX_LEVEL : nat := 3.

Definition PT_FLAG_VALID : Z := Z.shiftl 1 0.
Definition PT_FLAG_TABLE : Z := Z.shiftl 1 1.
Definition PT_FLAG_4K_PAGE : Z := Z.shiftl 1 1.
Definition PT_FLAG_BLOCK : Z := 0.
Definition PT_FLAG_READONLY : Z := Z.shiftl 1 7.
Definition PT_FLAG_INNER_SH : Z := Z.shiftl 3 8.
Definition PT_FLAG_ACCESS : Z := Z.shiftl 1 10.
Definition PT_FLAG_XN : Z := Z.shiftl 1 54.
Definition PT_FLAG_WB : Z := 0.
Definition PT_FLAG_FB : Z := Z.shiftl 1 2.
Definition PT_PADDR_MASK : Z := 0x0000FFFFFFFFF000.
Definition PT_PADDR_MASK_DS : Z := 0x0003FFFFFFFFF000.
Definition PT_OA_HIGH_MASK : Z := Z.shiftl 3 8.
Definition PT_OA_HIGH_SHIFT : Z := 42.

Definition PT_TABLE_FLAGS : Z := Z.lor PT_FLAG_VALID PT_FLAG_TABLE.
Definition PT_IS_TABLE (x : Z) : bool :=
  Z.land x (Z.lor PT_FLAG_VALID PT_FLAG_TABLE) =? Z.lor PT_FLAG_VALID PT_FLAG_TABLE.
Definition PT_IS_LARGE (x : Z) : bool := Z.land x (Z.lor PT_FLAG_VALID PT_FLAG_TABLE) =? PT_FLAG_VALID.

(** [ds_encoding] is static; [new_pagemap] sets it. *)
Definition pte_new_internal (ds_encoding : bool) (addr flags : Z) : Z :=
  if ds_encoding then
    Z.lor (Z.lor (Z.land addr PT_PADDR_MASK_DS) (Z.land (Z.shiftr addr PT_OA_HIGH_SHIFT) PT_OA_HIGH_MASK)) flags
  else Z.lor (Z.land addr PT_PADDR_MASK) flags.

Definition pte_addr_internal (ds_encoding : bool) (pte : Z) : Z :=
  if ds_encoding then
    Z.lor (Z.land pte PT_PADDR_MASK_DS) (Z.shiftl (Z.land pte PT_OA_HIGH_MASK) PT_OA_HIGH_SHIFT)
  else Z.land pte PT_PADDR_MASK.

Definition pt_to_vmm_flags_internal (entry : Z) : Z :=
  Z.lor (Z.lor (if Z.land entry PT_FLAG_READONLY =? 0 then VMM_FLAG_WRITE else 0)
               (if negb (Z.land entry PT_FLAG_XN =? 0) then VMM_FLAG_NOEXEC else 0))
        (if negb (Z.land entry PT_FLAG_FB =? 0) then VMM_FLAG_FB else 0).

Definition aarch64 (ds : bool) : arch :=
  Arch VMM_MAX_LEVEL PT_TABLE_FLAGS (λ _, PT_IS_TABLE) PT_IS_LARGE pt_to_vmm_flags_internal
    (pte_new_internal ds) (pte_addr_internal ds).

Definition PAGING_MODE_AARCH64_4LVL : Z := 0.
Definition PAGING_MODE_AARCH64_5LVL : Z := 1.

Definition paging_mode_va_bits (mode : Z) : Z := if negb (mode =? 0) then 53 else 49.
Definition paging_mode_higher_half (paging_mode : Z) : Z :=
  if paging_mode =? PAGING_MODE_AARCH64_5LVL then 0xfff0000000000000 else 0xffff000000000000.

(** The feature register [id_aa64mmfr0_el1] is given; [None] is a panic. *)
Definition vmm_assert_4k_pages (aa64mmfr0 : Z) : option unit :=
  if Z.land (Z.shiftr aa64mmfr0 28) 15 =? 15 then None else Some tt.
Definition vmm_max_paging_mode (aa64mmfr0 : Z) : Z :=
  if Z.land (Z.shiftr aa64mmfr0 28) 15 =? 1 then PAGING_MODE_AARCH64_5LVL else PAGING_MODE_AARCH64_4LVL.

Record pagemap_t := Pagemap { levels : Z; top_level0 : Z; top_level1 : Z }.

Definition top_level (pm : pagemap_t) (is_higher_half : bool) : Z :=
  if is_higher_half then top_level1 pm else top_level0 pm.

Definition make_ttbr (pagemap : pagemap_t) (half : bool) : Z :=
  let addr := top_level pagemap half in
  if levels pagemap =? 5 then
    Z.lor (Z.land addr 0x0000ffffffffffff) (Z.shiftl (Z.land (Z.shiftr addr 48) 15) 2)
  else addr.

Section code.
Context {S : Type} `{!pt_memory S}.

(** The pagemap and the new [ds_encoding]. *)
Definition new_pagemap (paging_mode : Z) (s : S) : res S (pagemap_t * bool * S) :=
  let ds := paging_mode =? PAGING_MODE_AARCH64_5LVL in
  match pt_alloc s with
  | None => OutOfMemory s
  | Some (p0, s) =>
      match pt_alloc s with
      | None => OutOfMemory s
      | Some (p1, s) => Ok (Pagemap (if ds then 5 else 4) p0 p1, ds, s)
      end
  end.

Context (ds_encoding : bool).

Definition pml_entry (mask shift virt_addr : Z) : Z := Z.shiftr (Z.land virt_addr (Z.shiftl mask shift)) shift.

Definition map_flags (flags : Z) : Z :=
  Z.lor (Z.lor (Z.lor (Z.lor (Z.lor (Z.lor PT_FLAG_VALID PT_FLAG_ACCESS) PT_FLAG_WB)
    (if negb ds_encoding then PT_FLAG_INNER_SH else 0))
    (if Z.land flags VMM_FLAG_WRITE =? 0 then PT_FLAG_READONLY else 0))
    (if negb (Z.land flags VMM_FLAG_NOEXEC =? 0) then PT_FLAG_XN else 0))
    (if negb (Z.land flags VMM_FLAG_FB =? 0) then PT_FLAG_FB else 0).

Fixpoint map_page (fuel : nat) (pagemap : pagemap_t) (virt_addr phys_addr flags : Z) (pg_size : nat) (s : S)
    : res S S :=
  match fuel with
  | O => Panicked
  | Datatypes.S fuel =>
      let next := get_next_level (aarch64 ds_encoding) (map_page fuel pagemap) in
      let is_higher_half := Z.testbit virt_addr 63 in
      let real_flags := map_flags flags in
      '(pml4, s) ←
        (if levels pagemap =? 5 then
           next s (top_level pagemap is_higher_half) virt_addr pg_size 4%nat (pml_entry 0xf 48 virt_addr)
         else if levels pagemap =? 4 then Ok (top_level pagemap is_higher_half, s)
         else Panicked);
      '(pml3, s) ← next s pml4 virt_addr pg_size 3%nat (pml_entry 0x1ff 39 virt_addr);
      if (pg_size =? Size1GiB)%nat then
        Ok (pt_write s pml3 (pml_entry 0x1ff 30 virt_addr)
              (pte_new_internal ds_encoding phys_addr (Z.lor real_flags PT_FLAG_BLOCK)))
      else
        '(pml2, s) ← next s pml3 virt_addr pg_size 2%nat (pml_entry 0x1ff 30 virt_addr);
        if (pg_size =? Size2MiB)%nat then
          Ok (pt_write s pml2 (pml_entry 0x1ff 21 virt_addr)
                (pte_new_internal ds_encoding phys_addr (Z.lor real_flags PT_FLAG_BLOCK)))
        else
          '(pml1, s) ← next s pml2 virt_addr pg_size 1%nat (pml_entry 0x1ff 21 virt_addr);
          Ok (pt_write s pml1 (pml_entry 0x1ff 12 virt_addr)
                (pte_new_internal ds_encoding phys_addr (Z.lor real_flags PT_FLAG_4K_PAGE)))
  end.
End code.

(** ** The processor *)

Definition flag_bits : Z := 7.

Definition leaf_entry (ds : bool) (l : nat) (phys flags : Z) : Z :=
  pte_new_internal ds phys (Z.lor (map_flags ds flags) (match l with O => PT_FLAG_4K_PAGE | _ => PT_FLAG_BLOCK end)).

Definition cpu (ds : bool) (pm : pagemap_t) : mmu := {|
  m_arch := aarch64 ds;
  top := Z.to_nat (levels pm - 1);
  root := top_level pm;
  half v := Z.testbit v 63;
  slots l := if (l =? 4)%nat then 16 else 512;
  leaf := leaf_entry ds;
  present0 := PT_IS_TABLE;
  frame0 := pte_addr_internal ds;
  flags0 := pt_to_vmm_flags_internal;
  ok_flags f := Z.land f flag_bits = f;
  ok_large l e := pte_addr_internal ds e mod page_size l = 0;
  norm f := f;
  phys_bits := if ds then 52 else 48;
|}.

(** The bits of an entry that hold the address. *)
Definition addr_mask (ds : bool) : Z := if ds then Z.lor PT_PADDR_MASK_DS PT_OA_HIGH_MASK else PT_PADDR_MASK.

Lemma land_outside x m c : Z.land m c = 0 → Z.land (Z.land x m) c = 0.
Proof. intros Hc. by rewrite <- Z.land_assoc, Hc, Z.land_0_r. Qed.

Lemma a64_pte_flags ds p fl c : Z.land (addr_mask ds) c = 0 → Z.land (pte_new_internal ds p fl) c = Z.land fl c.
Proof.
  intros Hc. unfold pte_new_internal, addr_mask in *. destruct ds.
  - rewrite Z.land_lor_distr_l in Hc. apply Z.lor_eq_0_iff in Hc as [H1 H2].
    by rewrite !Z.land_lor_distr_l, !land_outside, Z.lor_0_l by done.
  - by rewrite Z.land_lor_distr_l, land_outside by done.
Qed.

Lemma a64_pte_addr_new (ds : bool) p fl : p mod 2 ^ 12 = 0 → 0 ≤ p < 2 ^ (if ds then 52 else 48) →
  is_word 64 fl → Z.land fl (addr_mask ds) = 0 → pte_addr_internal ds (pte_new_internal ds p fl) = p.
Proof.
  intros Hal Hp Hw Hfl. pose proof (aligned_bit p 12) as Hlow. unfold pte_addr_internal, pte_new_internal, addr_mask in *.
  destruct ds.
  - pose proof (small_bit p 52) as Hhigh. assert (is_word 64 p) by (apply (word_le 52); [lia|done]).
    rewrite Z.land_lor_distr_r in Hfl. apply Z.lor_eq_0_iff in Hfl as [H1 H2].
    rewrite !Z.land_lor_distr_l, H1, H2, !Z.lor_0_r, !subset_refl_land, !land_outside, Z.lor_0_r, Z.lor_0_l by done.
    change PT_OA_HIGH_SHIFT with 42. change PT_OA_HIGH_MASK with (Z.shiftl 3 8).
    bitwise ltac:(repeat match goal with
      | |- context [Z.testbit p ?k] => first [rewrite (Hlow k) by (done || lia) | rewrite (Hhigh k) by (done || lia)] end).
  - pose proof (small_bit p 48) as Hhigh. assert (is_word 64 p) by (apply (word_le 48); [lia|done]).
    rewrite Z.land_lor_distr_l, Hfl, Z.lor_0_r, subset_refl_land.
    bitwise ltac:(repeat match goal with
      | |- context [Z.testbit p ?k] => first [rewrite (Hlow k) by (done || lia) | rewrite (Hhigh k) by (done || lia)] end).
Qed.

Lemma a64_map_flags_word ds f b : b = PT_FLAG_4K_PAGE ∨ b = PT_FLAG_BLOCK → Z.land f flag_bits = f →
  let fl := Z.lor (map_flags ds f) b in
  is_word 64 fl ∧ Z.land fl (addr_mask ds) = 0 ∧ Z.land fl 3 = Z.lor 1 b ∧ pt_to_vmm_flags_internal fl = f.
Proof.
  intros Hb Hf%flags_cases. cbn [In] in Hf.
  destruct ds, Hb as [-> | ->]; repeat destruct Hf as [<-|Hf]; try done; by vm_compute.
Qed.

Lemma a64_leaf_word ds p fl : is_word 64 p → is_word 64 fl → is_word 64 (pte_new_internal ds p fl).
Proof. intros. unfold pte_new_internal. destruct ds; word_tac. Qed.

Lemma a64_to_vmm_flags_pte ds p fl : pt_to_vmm_flags_internal (pte_new_internal ds p fl) = pt_to_vmm_flags_internal fl.
Proof. unfold pt_to_vmm_flags_internal. by rewrite !a64_pte_flags by (by destruct ds). Qed.

Lemma pte_addr_range (ds : bool) e : is_word 64 e → 0 ≤ pte_addr_internal ds e < 2 ^ (if ds then 52 else 48).
Proof.
  intros He. unfold pte_addr_internal. destruct ds; [|by apply (land_word 48); [lia|]].
  apply (lor_word 52); [lia|by apply land_word; [lia|]|].
  change PT_OA_HIGH_SHIFT with 42. apply shiftl_word; [lia|]. by apply land_word; [lia|].
Qed.

(** The page tables the code makes are those of this processor. *)
Lemma a64_cpu_ok ds pm : levels pm = 4 ∨ levels pm = 5 → mmu_ok (cpu ds pm).
Proof.
  intros Hlv. split; cbn [m_arch top root half slots leaf present0 frame0 flags0 ok_flags ok_large norm phys_bits cpu aarch64
    Vmm.VMM_MAX_LEVEL Vmm.PT_TABLE_FLAGS Vmm.PT_IS_TABLE Vmm.PT_IS_LARGE Vmm.PT_TO_VMM_FLAGS Vmm.pte_new Vmm.pte_addr].
  - lia.
  - unfold VMM_MAX_LEVEL. lia.
  - intros l. destruct (Nat.eqb_spec l 4); [split; [lia|]; intros; lia|]. done.
  - intros l v w Hl. apply half_same. lia.
  - by destruct ds.
  - intros l p _ Hal Hp. cbv zeta. assert (is_word 64 p) by (apply (word_le 48); [lia|unfold is_word; lia]).
    split; [by apply a64_leaf_word|]. split.
    + unfold PT_IS_TABLE. by rewrite a64_pte_flags by (by destruct ds).
    + apply a64_pte_addr_new; [done| |done|by destruct ds]. destruct ds; [|lia]. assert (2 ^ 48 < 2 ^ 52) by done. lia.
  - done.
  - intros l p f Hl Hf Hal Hp. cbv zeta. unfold VMM_MAX_LEVEL in Hl. unfold leaf_entry.
    set (b := match l with O => PT_FLAG_4K_PAGE | _ => PT_FLAG_BLOCK end).
    destruct (a64_map_flags_word ds f b) as (Hw & Hm & Hv & Hto); [unfold b; destruct l; auto|done|].
    assert (is_word 64 p) by (destruct ds; [apply (word_le 52)|apply (word_le 48)]; (lia || done)).
    set (fl := Z.lor (map_flags ds f) b) in *.
    assert (pte_addr_internal ds (pte_new_internal ds p fl) = p) as Haddr by (apply a64_pte_addr_new; [by apply (page_aligned 0 l); [lia|]|done..]).
    assert (Z.land (pte_new_internal ds p fl) (Z.lor PT_FLAG_VALID PT_FLAG_TABLE) = Z.lor 1 b) as Hlow.
    { rewrite a64_pte_flags by (by destruct ds). exact Hv. }
    split; [by apply a64_leaf_word|]. rewrite a64_to_vmm_flags_pte, Haddr. unfold PT_IS_TABLE, PT_IS_LARGE. rewrite Hlow. split.
    + intros Hl1. assert (b = PT_FLAG_BLOCK) as -> by (unfold b; destruct l; [lia|done]).
      split; [done|]. split; [done|]. split; [done|]. split; [done|].
      apply Z.div_exact in Hal; [|pose proof (page_size_pos l); lia]. lia.
    + intros ->. by split.
  - intros l e Hl He Hg _ Hal. unfold VMM_MAX_LEVEL in Hl. set (f := pt_to_vmm_flags_internal e).
    assert (Z.land f flag_bits = f) as Hf by (unfold f, pt_to_vmm_flags_internal; by repeat case_match).
    pose proof (pte_addr_range ds e He) as Hr. split; [done|]. split; [done|]. split; [lia|]. split.
    { apply addr_end; [lia|by destruct ds|done|done]. }
    intros k p Hk Hpa Hpr. destruct (a64_map_flags_word ds f PT_FLAG_BLOCK (or_intror eq_refl) Hf) as (Hw & Hm & _).
    assert (leaf_entry ds k p f = pte_new_internal ds p (Z.lor (map_flags ds f) PT_FLAG_BLOCK)) as -> by (destruct k; [lia|done]).
    rewrite a64_pte_addr_new; [done|by apply (page_aligned 0 k); [lia|]|done..].
Qed.

Lemma a64_pml_entry_div n k w : 0 ≤ n → 0 ≤ k → pml_entry (Z.ones n) k w = (w / 2 ^ k) mod 2 ^ n.
Proof.
  intros Hn Hk. unfold pml_entry. rewrite Z.shiftr_land, Z.shiftr_shiftl_l, Z.sub_diag, Z.shiftl_0_r, Z.shiftr_div_pow2 by lia.
  by rewrite Z.land_ones by lia.
Qed.

Section map_page.
Context {S : Type} `{!pt_memory S} (ds : bool) (pm : pagemap_t).
Hypothesis (Hlv : levels pm = 4 ∨ levels pm = 5).
Notation M := (cpu ds pm).

Lemma a64_pml_index l k w : (l ≤ 3)%nat → k = 12 + 9 * Z.of_nat l → pml_entry 0x1ff k w = index M l w.
Proof.
  intros Hl ->. unfold index. change 0x1ff with (Z.ones 9). rewrite a64_pml_entry_div, page_size_pow by lia.
  cbn [slots cpu]. by rewrite (proj2 (Nat.eqb_neq _ _)) by lia.
Qed.

Lemma pml5_index w : pml_entry 0xf 48 w = index M 4 w.
Proof. unfold index. change 0xf with (Z.ones 4). by rewrite a64_pml_entry_div by lia. Qed.

Lemma a64_map_page_walk fuel w p f sz (s : S) : (sz ≤ 2)%nat →
  map_page ds (Datatypes.S fuel) pm w p f sz s = map_walk M (map_page ds fuel pm) w p f sz s.
Proof.
  intros Hsz. unfold map_walk. cbn [map_page].
  rewrite pml5_index, (a64_pml_index 3 39 w), (a64_pml_index 2 30 w), (a64_pml_index 1 21 w), (a64_pml_index 0 12 w) by (lia || done).
  assert ((top M = 3%nat ∧ levels pm = 4) ∨ (top M = 4%nat ∧ levels pm = 5)) as Hn.
  { cbn. destruct Hlv as [-> | ->]; [left|right]; auto. }
  assert (root M (half M w) = top_level pm (Z.testbit w 63)) as -> by done.
  destruct sz as [|[|[|sz]]]; [| | |lia]; cbn [Nat.eqb Size1GiB Size2MiB];
    (destruct Hn as [(-> & ->)|(-> & ->)]; cbn [Nat.sub descend Nat.add Z.eqb Pos.eqb]).
  all: change (m_arch M) with (aarch64 ds); cbn [mbind res_bind].
  all: repeat match goal with
    | |- context [get_next_level ?a ?b ?c ?d ?e ?f ?g ?h] =>
        destruct (get_next_level a b c d e f g h) as [[? ?]|?|]; [|reflexivity..]; cbn [mbind res_bind]
    end; reflexivity.
Qed.

Lemma a64_map_page_maps fuel sz : (sz ≤ 2)%nat → maps M (map_page ds (Datatypes.S (Datatypes.S fuel)) pm) sz.
Proof.
  intros Hsz s w p f ??????. rewrite a64_map_page_walk by done. pose proof (a64_cpu_ok ds pm Hlv) as HM.
  assert ((sz ≤ top M)%nat ∧ (sz < Vmm.VMM_MAX_LEVEL M)%nat) as [? ?] by (cbn; unfold VMM_MAX_LEVEL; lia).
  apply (map_walk_maps M HM); try done.
  intros _ s1 w1 p1 f1 ??????. rewrite a64_map_page_walk by done.
  by apply (map_walk_maps_clear M HM).
Qed.

(** The lower half is that of the first table, the upper half of the second. *)
Definition canonical (v : Z) : Prop :=
  let n := slots M (top M) * page_size (top M) in 0 ≤ v < n ∨ 2 ^ 64 - n ≤ v < 2 ^ 64.

Lemma a64_canonical_number sz v w : (sz ≤ 2)%nat → canonical v → canonical w → same_page M sz v w →
  v / page_size sz = w / page_size sz.
Proof.
  intros Hsz Hv Hw Hs. pose proof (a64_cpu_ok ds pm Hlv) as HM. apply (same_page_number M HM); [cbn; lia|done|].
  apply (same_page_le M sz (top M)) in Hs; [|cbn; lia]. pose proof Hs as [Hh _].
  apply same_page_index in Hs; [|done]. unfold index in Hs.
  apply (two_halves_number (page_size (top M)) (slots M (top M))); [|done..].
  cbn [top slots cpu]. destruct Hlv as [-> | ->]; cbn [Z.sub Z.to_nat Nat.eqb Z.add Z.opp Z.pos_sub Pos.pred_double Pos.to_nat Pos.iter_op Nat.add];
    [exists 32768|exists 2048]; done.
Qed.
End map_page.

Lemma a64_new_pagemap_ok {S} `{!pt_memory S} mode (s : S) :
  match new_pagemap mode s with
  | Ok (pm, ds, s') => levels pm = (if ds then 5 else 4) ∧ wf (cpu ds pm) s' ∧ ∀ v, translate (cpu ds pm) s' v = None
  | OutOfMemory s1 => pt_alloc s1 = None
  | Panicked => False
  end.
Proof.
  unfold new_pagemap. set (ds := mode =? _). destruct (pt_alloc s) as [[p0 s1]|] eqn:Ha; [|done].
  destruct (pt_alloc s1) as [[p1 s2]|] eqn:Hb; [|done]. set (pm := Pagemap _ p0 p1). split; [done|].
  assert (levels pm = 4 ∨ levels pm = 5) as Hlv by (unfold pm; cbn; case_match; auto).
  destruct (two_empty_tables (cpu ds pm) (a64_cpu_ok ds pm Hlv) s p0 s1 p1 s2) as (Hwf & Ht & _); done.
Qed.

(** C24: [map_pages] on AArch64, with 48 bits of address or 52 and whatever the
    tables held before, blocks to be split included: afterwards the processor's
    walk takes each address of the range to its physical address with the flags
    asked for and every other address where it went before; the tables are
    well-formed.  It stops short only when there is no memory for a table. *)
Theorem aarch64_map_pages_correct {S} `{!pt_memory S} ds pm virt phys flags count (s : S) :
  levels pm = 4 ∨ levels pm = 5 → wf (cpu ds pm) s → Z.land flags flag_bits = flags →
  virt mod 0x1000 = 0 → phys mod 0x1000 = 0 → count mod 0x1000 = 0 →
  0 ≤ count → 0 ≤ phys → phys + count ≤ 2 ^ (if ds : bool then 52 else 48) → 0 ≤ virt → virt + count ≤ 2 ^ 64 →
  (∀ v, virt ≤ v < virt + count → canonical ds pm v) →
  match map_pages (map_page ds 2 pm) virt phys flags count s with
  | Ok s' => wf (cpu ds pm) s' ∧ ∀ v, canonical ds pm v →
      translate (cpu ds pm) s' v =
        if decide (virt ≤ v < virt + count) then Some (phys + (v - virt), norm (cpu ds pm) flags)
        else translate (cpu ds pm) s v
  | OutOfMemory s1 => pt_alloc s1 = None
  | Panicked => False
  end.
Proof.
  intros Hlv Hwf Hf ???????? Hcan. pose proof (a64_cpu_ok ds pm Hlv) as HM.
  eapply res_mono; [apply (map_pages_ok (cpu ds pm) HM (canonical ds pm) (a64_canonical_number ds pm Hlv)
    (map_page ds 2 pm) virt phys flags count s); try done|done|].
  - intros sz Hsz. by apply a64_map_page_maps.
  - intros (v & _ & Hm). by apply (wf_aligned (cpu ds pm)) in Hm.
Qed.

(** Five levels, in the last pages of the memory. *)
Definition lpa2_pm : pagemap_t := Pagemap 5 0x2ff000 0x2fe000.
Definition lpa2_tables : paging :=
  match new_pagemap PAGING_MODE_AARCH64_5LVL boot with Ok (_, s) => s | _ => boot end.

Lemma lpa2_tables_wf : wf (cpu true lpa2_pm) lpa2_tables.
Proof.
  assert (match new_pagemap PAGING_MODE_AARCH64_5LVL boot with Ok (pm, ds, _) => Some (pm, ds) | _ => None end = Some (lpa2_pm, true)) as Hpm by (vm_compute; done).
  unfold lpa2_tables. pose proof (a64_new_pagemap_ok PAGING_MODE_AARCH64_5LVL boot) as H.
  destruct (new_pagemap _ boot) as [[[pm ds] s]|?|]; [|done..]. injection Hpm as -> ->. by destruct H as (_ & ? & _).
Qed.

Lemma aarch64_map_pages_correct_witness :
  after (map_pages (map_page true 2 lpa2_pm) 0xfff0000000000000 0x5000 VMM_FLAG_WRITE 0x3000 lpa2_tables)
    (λ s, translate (cpu true lpa2_pm) s (0xfff0000000000000 + 0x2abc)) = Some (0x7abc, VMM_FLAG_WRITE) ∧
  match map_pages (map_page true 2 lpa2_pm) 0xfff0000000000000 0x5000 VMM_FLAG_WRITE 0x3000 lpa2_tables with
  | Ok s' => wf (cpu true lpa2_pm) s' ∧ ∀ v, canonical true lpa2_pm v →
      translate (cpu true lpa2_pm) s' v =
        if decide (0xfff0000000000000 ≤ v < 0xfff0000000000000 + 0x3000)
        then Some (0x5000 + (v - 0xfff0000000000000), norm (cpu true lpa2_pm) VMM_FLAG_WRITE)
        else translate (cpu true lpa2_pm) lpa2_tables v
  | OutOfMemory s1 => pt_alloc s1 = None
  | Panicked => False
  end.
Proof.
  split; [vm_compute; reflexivity|].
  refine (aarch64_map_pages_correct true lpa2_pm 0xfff0000000000000 0x5000 VMM_FLAG_WRITE 0x3000 lpa2_tables
    (or_intror eq_refl) lpa2_tables_wf eq_refl eq_refl eq_refl eq_refl _ _ _ _ _ _); try lia.
  intros v Hv. right. change (slots _ _ * page_size _) with 0x10000000000000. lia.
Defined.
