(* ===== verification/VmmLoongArch.v ===== *)
(** Page tables on LoongArch: [vmm.c] under [__loongarch64]. *)
From S2P Require Import Prelude Vmm VmmWalk VmmMap VmmSplit VmmProofs VmmBits VmmPmm.

Definition VMM_FLAG_WRITE : Z := Z.shiftl 1 0.
Definition VMM_FLAG_NOEXEC : Z := Z.shiftl 1 1.
Definition VMM_FLAG_FB : Z := Z.shiftl 1 2.
Definition VMM_MAX_LEVEL : nat := 3.

Definition INVALID_PAGE : Z := 0.
Definition PT_FLAG_VALID : Z := Z.shiftl 1 0.
Definition PT_FLAG_DIRTY : Z := Z.shiftl 1 1.
Definition PT_FLAG_MAT_CC : Z := Z.shiftl 1 4.
Definition PT_FLAG_MAT_WUC : Z := Z.shiftl 1 5.
Definition PT_FLAG_GLOBAL : Z := Z.shiftl 1 6.
Definition PT_FLAG_HUGE : Z := Z.shiftl 1 6.
Definition PT_FLAG_WRITE : Z := Z.shiftl 1 8.
Definition PT_FLAG_HGLOBAL : Z := Z.shiftl 1 12.
Definition PT_FLAG_NX : Z := Z.shiftl 1 62.
Definition PT_PADDR_MASK : Z := 0x0000FFFFFFFFF000.
Definition PT_PADDR_HMASK : Z := 0x0000FFFFFFE00000.

Definition PT_TABLE_FLAGS : Z := 0.
Definition PT_IS_TABLE (level_idx : nat) (x : Z) : bool :=
  (0 <? level_idx)%nat && (Z.land x PT_FLAG_VALID =? 0) && negb (x =? INVALID_PAGE).
Definition PT_IS_LARGE (x : Z) : bool :=
  Z.land x (Z.lor PT_FLAG_HGLOBAL PT_FLAG_HUGE) =? Z.lor PT_FLAG_HGLOBAL PT_FLAG_HUGE.

Definition pte_new (addr flags : Z) : Z := Z.lor addr flags.
Definition pte_addr (pte : Z) : Z :=
  if PT_IS_LARGE pte then Z.land pte PT_PADDR_HMASK else Z.land pte PT_PADDR_MASK.

Definition pt_to_vmm_flags_internal (entry : Z) : Z :=
  Z.lor (Z.lor (if negb (Z.land entry PT_FLAG_WRITE =? 0) then VMM_FLAG_WRITE else 0)
               (if negb (Z.land entry PT_FLAG_NX =? 0) then VMM_FLAG_NOEXEC else 0))
        (if negb (Z.land entry PT_FLAG_MAT_WUC =? 0) then VMM_FLAG_FB else 0).

Definition loongarch : arch :=
  Arch VMM_MAX_LEVEL PT_TABLE_FLAGS PT_IS_TABLE PT_IS_LARGE pt_to_vmm_flags_internal pte_new pte_addr.

(** The configuration word [cpucfg] number 1 is given. *)
Definition paging_mode_va_bits (cpucfg1 : Z) : Z := Z.land (Z.shiftr cpucfg1 12) 0xff + 1.
Definition paging_mode_higher_half (cpucfg1 : Z) : Z := u64 (0 - u64 (Z.shiftl 1 (paging_mode_va_bits cpucfg1 - 1))).

Record pagemap_t := Pagemap { pgd0 : Z; pgd1 : Z }.
Definition pgd (pm : pagemap_t) (is_higher_half : bool) : Z := if is_higher_half then pgd1 pm else pgd0 pm.

Section code.
Context {S : Type} `{!pt_memory S}.

Definition new_pagemap (cpucfg1 : Z) (s : S) : res S (pagemap_t * S) :=
  let valen := Z.land (Z.shiftr cpucfg1 12) 0xff + 1 in
  if valen <? 48 then Panicked else
  match pt_alloc s with
  | None => OutOfMemory s
  | Some (p0, s) =>
      match pt_alloc s with
      | None => OutOfMemory s
      | Some (p1, s) => Ok (Pagemap p0 p1, s)
      end
  end.

Definition pml_entry (shift virt_addr : Z) : Z := Z.shiftr (Z.land virt_addr (Z.shiftl 0x1ff shift)) shift.

Definition map_flags (flags : Z) : Z :=
  Z.lor (Z.lor (Z.lor (Z.lor PT_FLAG_VALID PT_FLAG_GLOBAL)
    (if negb (Z.land flags VMM_FLAG_WRITE =? 0) then Z.lor PT_FLAG_DIRTY PT_FLAG_WRITE else 0))
    (if negb (Z.land flags VMM_FLAG_NOEXEC =? 0) then PT_FLAG_NX else 0))
    (if negb (Z.land flags VMM_FLAG_FB =? 0) then PT_FLAG_MAT_WUC else PT_FLAG_MAT_CC).

Fixpoint map_page (fuel : nat) (pagemap : pagemap_t) (virt_addr phys_addr flags : Z) (pg_size : nat) (s : S)
    : res S S :=
  match fuel with
  | O => Panicked
  | Datatypes.S fuel =>
      let next := get_next_level loongarch (map_page fuel pagemap) in
      let is_higher_half := Z.testbit virt_addr 63 in
      let real_flags := map_flags flags in
      let pml4 := pgd pagemap is_higher_half in
      '(pml3, s) ← next s pml4 virt_addr pg_size 3%nat (pml_entry 39 virt_addr);
      if (pg_size =? Size1GiB)%nat then
        Ok (pt_write s pml3 (pml_entry 30 virt_addr)
              (pte_new phys_addr (Z.lor (Z.lor real_flags PT_FLAG_HGLOBAL) PT_FLAG_HUGE)))
      else
        '(pml2, s) ← next s pml3 virt_addr pg_size 2%nat (pml_entry 30 virt_addr);
        if (pg_size =? Size2MiB)%nat then
          Ok (pt_write s pml2 (pml_entry 21 virt_addr)
                (pte_new phys_addr (Z.lor (Z.lor real_flags PT_FLAG_HGLOBAL) PT_FLAG_HUGE)))
        else
          '(pml1, s) ← next s pml2 virt_addr pg_size 1%nat (pml_entry 21 virt_addr);
          Ok (pt_write s pml1 (pml_entry 12 virt_addr) (pte_new phys_addr real_flags))
  end.
End code.

(** ** The processor *)

Definition flag_bits : Z := 7.

Definition leaf_flags (l : nat) (flags : Z) : Z :=
  match l with O => map_flags flags | _ => Z.lor (Z.lor (map_flags flags) PT_FLAG_HGLOBAL) PT_FLAG_HUGE end.

Definition cpu (pm : pagemap_t) : mmu := {|
  m_arch := loongarch;
  top := 3;
  root := pgd pm;
  half v := Z.testbit v 63;
  slots _ := 512;
  leaf l phys flags := pte_new phys (leaf_flags l flags);
  present0 e := negb (Z.land e PT_FLAG_VALID =? 0);
  frame0 e := Z.land e PT_PADDR_MASK;
  flags0 := pt_to_vmm_flags_internal;
  ok_flags f := Z.land f flag_bits = f;
  ok_large l e := pte_addr e mod page_size l = 0;
  norm f := f;
  phys_bits := 48;
|}.

(** Bits that are not of an address. *)
Lemma aligned_land p k c : 0 ≤ k → p mod 2 ^ k = 0 → 0 ≤ c < 2 ^ k → Z.land p c = 0.
Proof.
  intros Hk Hp Hc. apply Z.bits_inj'. intros n Hn. rewrite Z.land_spec, Z.bits_0.
  destruct (Z.ltb_spec n k); [by rewrite (aligned_bit p k) by done|]. by rewrite (small_bit c k), andb_false_r by done.
Qed.

Lemma la_pte_flags k p fl c : 0 ≤ k → p mod 2 ^ k = 0 → 0 ≤ c < 2 ^ k → Z.land (pte_new p fl) c = Z.land fl c.
Proof. intros. unfold pte_new. by rewrite Z.land_lor_distr_l, (aligned_land p k) by done. Qed.

Lemma pte_nx p fl : 0 ≤ p < 2 ^ 48 → Z.land (pte_new p fl) PT_FLAG_NX = Z.land fl PT_FLAG_NX.
Proof.
  intros Hp. unfold pte_new. rewrite Z.land_lor_distr_l, (Z.land_comm p), (aligned_land PT_FLAG_NX 48) by done. apply Z.lor_0_l.
Qed.

Lemma land_self p m : is_word 64 p → is_word 64 m →
  (∀ n, 0 ≤ n < 64 → Z.testbit p n = true → Z.testbit m n = true) → Z.land p m = p.
Proof.
  intros Hp Hm Hb. apply Z.bits_inj'. intros n Hn. rewrite Z.land_spec.
  destruct (Z.testbit p n) eqn:He; [|done]. destruct (Z.ltb_spec n 64) as [Hlt|Hge]; [by apply Hb|].
  by rewrite (small_bit p 64) in He by done.
Qed.

Lemma addr_mask k p m : 0 ≤ k → p mod 2 ^ k = 0 → 0 ≤ p < 2 ^ 48 → m = Z.ldiff (Z.ones 48) (Z.ones k) → Z.land p m = p.
Proof.
  intros Hk Hal Hp ->. apply Z.bits_inj'. intros n Hn. rewrite Z.land_spec, Z.ldiff_spec.
  destruct (Z.ltb_spec n k); [by rewrite (aligned_bit p k) by done|].
  destruct (Z.ltb_spec n 48); [|by rewrite (small_bit p 48) by done].
  by rewrite Z.ones_spec_low, Z.ones_spec_high, andb_true_r by lia.
Qed.

Lemma leaf_flags_ok l f : Z.land f flag_bits = f →
  let fl := leaf_flags l f in
  is_word 64 fl ∧ Z.land fl PT_PADDR_HMASK = 0 ∧ (l = 0%nat → Z.land fl PT_PADDR_MASK = 0) ∧ Z.land fl PT_FLAG_VALID = 1 ∧
  ((1 ≤ l)%nat → PT_IS_LARGE fl = true) ∧ pt_to_vmm_flags_internal fl = f.
Proof.
  intros Hf%flags_cases. cbn [In] in Hf.
  destruct l; repeat destruct Hf as [<-|Hf]; try done; vm_compute; split_and!; try done; intros; lia.
Qed.

Lemma la_to_vmm_flags_pte p fl : p mod 2 ^ 12 = 0 → 0 ≤ p < 2 ^ 48 →
  pt_to_vmm_flags_internal (pte_new p fl) = pt_to_vmm_flags_internal fl.
Proof. intros. unfold pt_to_vmm_flags_internal. by rewrite (la_pte_flags 12 p fl PT_FLAG_WRITE), (la_pte_flags 12 p fl PT_FLAG_MAT_WUC), pte_nx by done. Qed.

Lemma large_pte p fl : p mod 2 ^ 21 = 0 → PT_IS_LARGE (pte_new p fl) = PT_IS_LARGE fl.
Proof. intros. unfold PT_IS_LARGE. by rewrite (la_pte_flags 21) by done. Qed.

Lemma pte_addr_large p fl : p mod 2 ^ 21 = 0 → 0 ≤ p < 2 ^ 48 → PT_IS_LARGE fl = true → Z.land fl PT_PADDR_HMASK = 0 →
  pte_addr (pte_new p fl) = p.
Proof.
  intros Hal Hp Hl Hm. unfold pte_addr. rewrite large_pte, Hl by done. unfold pte_new.
  rewrite Z.land_lor_distr_l, Hm, Z.lor_0_r. by apply (addr_mask 21).
Qed.

(** The page tables the code makes are those of this processor. *)
Lemma la_cpu_ok pm : mmu_ok (cpu pm).
Proof.
  split; cbn [m_arch top root half slots leaf present0 frame0 flags0 ok_flags ok_large norm phys_bits cpu loongarch
    Vmm.VMM_MAX_LEVEL Vmm.PT_TABLE_FLAGS Vmm.PT_IS_TABLE Vmm.PT_IS_LARGE Vmm.PT_TO_VMM_FLAGS Vmm.pte_new Vmm.pte_addr].
  - lia.
  - unfold VMM_MAX_LEVEL. lia.
  - done.
  - intros l v w Hl. apply half_same. lia.
  - done.
  - intros l p Hl Hal Hp. cbv zeta. unfold pte_new, PT_TABLE_FLAGS. rewrite Z.lor_0_r. change 0x1000 with (2 ^ 12) in Hal.
    split; [apply (word_le 48); [lia|unfold is_word; lia]|]. split.
    + unfold PT_IS_TABLE. rewrite (aligned_land p 12), (proj2 (Nat.ltb_lt 0 l)), (proj2 (Z.eqb_neq p INVALID_PAGE)) by first [lia|unfold INVALID_PAGE; lia|done]. done.
    + unfold pte_addr, PT_IS_LARGE. rewrite (Z.land_lor_distr_r p), (aligned_land p 12 PT_FLAG_HUGE), Z.lor_0_r by done.
      destruct (Z.eqb_spec (Z.land p PT_FLAG_HGLOBAL) (Z.lor PT_FLAG_HGLOBAL PT_FLAG_HUGE)) as [He|_].
      * exfalso. apply (f_equal (λ x, Z.testbit x 6)) in He. rewrite Z.land_spec, andb_false_r in He. discriminate He.
      * apply (addr_mask 12); [done|done|lia|done].
  - intros l. split; [|done]. unfold PT_IS_TABLE. apply andb_false_r.
  - intros l p f Hl Hf Hal Hp. cbv zeta. unfold VMM_MAX_LEVEL in Hl.
    destruct (leaf_flags_ok l f Hf) as (Hw & Hhm & Hpm & Hv & Hlg & Hto). set (fl := leaf_flags l f) in *.
    assert (is_word 64 p) by (apply (word_le 48); [lia|done]).
    assert (p mod 2 ^ 12 = 0) by (apply (page_aligned 0 l); [lia|done]).
    split; [unfold pte_new; by apply lor_word|]. rewrite la_to_vmm_flags_pte by done. split.
    + intros Hl1. assert (p mod 2 ^ 21 = 0) by (apply (page_aligned 1 l); [lia|done]).
      specialize (Hlg Hl1). rewrite large_pte, pte_addr_large by done. split.
      { unfold PT_IS_TABLE. rewrite (la_pte_flags 12), Hv by done. by rewrite andb_false_r. }
      split_and!; try done. apply Z.div_exact in Hal; [|pose proof (page_size_pos l); lia]. lia.
    + intros ->. rewrite (la_pte_flags 12), Hv by done. split; [done|]. split; [|done].
      unfold pte_new. rewrite Z.land_lor_distr_l, Hpm, Z.lor_0_r by done. by apply (addr_mask 12).
  - intros l e Hl He Hg _ Hal. unfold VMM_MAX_LEVEL in Hl. set (f := pt_to_vmm_flags_internal e).
    assert (Z.land f flag_bits = f) as Hf by (unfold f, pt_to_vmm_flags_internal; by repeat case_match).
    assert (0 ≤ pte_addr e < 2 ^ 48) as Hr by (unfold pte_addr; rewrite Hg; by apply land_word; [lia|]).
    split; [done|]. split; [done|]. split; [lia|]. split.
    { apply addr_end; [lia|done|done|done]. }
    intros k p Hk Hpa Hpr. destruct (leaf_flags_ok k f Hf) as (Hw & Hm & _ & _ & Hlg & _). specialize (Hlg (proj1 Hk)).
    rewrite pte_addr_large; [done|apply (page_aligned 1 k); [lia|done]|done..].
Qed.

Lemma la_pml_index pm l k w : (l ≤ 3)%nat → k = 12 + 9 * Z.of_nat l → pml_entry k w = index (cpu pm) l w.
Proof.
  intros Hl ->. unfold index, pml_entry. change 0x1ff with (Z.ones 9).
  rewrite Z.shiftr_land, Z.shiftr_shiftl_l, Z.sub_diag, Z.shiftl_0_r, Z.shiftr_div_pow2 by lia.
  by rewrite Z.land_ones, page_size_pow by lia.
Qed.

Section map_page.
Context {S : Type} `{!pt_memory S} (pm : pagemap_t).
Notation M := (cpu pm).

Lemma la_map_page_walk fuel w p f sz (s : S) : (sz ≤ 2)%nat →
  map_page (Datatypes.S fuel) pm w p f sz s = map_walk M (map_page fuel pm) w p f sz s.
Proof.
  intros Hsz. unfold map_walk. cbn [map_page].
  rewrite (la_pml_index pm 3 39 w), (la_pml_index pm 2 30 w), (la_pml_index pm 1 21 w), (la_pml_index pm 0 12 w) by (lia || done).
  assert (root M (half M w) = pgd pm (Z.testbit w 63)) as -> by done. change (top M) with 3%nat.
  destruct sz as [|[|[|sz]]]; [| | |lia]; cbn [Nat.eqb Size1GiB Size2MiB Nat.sub descend Nat.add].
  all: change (m_arch M) with loongarch; cbn [mbind res_bind].
  all: repeat match goal with
    | |- context [get_next_level ?a ?b ?c ?d ?e ?f ?g ?h] =>
        destruct (get_next_level a b c d e f g h) as [[? ?]|?|]; [|reflexivity..]; cbn [mbind res_bind]
    end; reflexivity.
Qed.

Lemma la_map_page_maps fuel sz : (sz ≤ 2)%nat → maps M (map_page (Datatypes.S (Datatypes.S fuel)) pm) sz.
Proof.
  intros Hsz s w p f ??????. rewrite la_map_page_walk by done. pose proof (la_cpu_ok pm) as HM.
  assert ((sz ≤ top M)%nat ∧ (sz < Vmm.VMM_MAX_LEVEL M)%nat) as [? ?] by (cbn; unfold VMM_MAX_LEVEL; lia).
  apply (map_walk_maps M HM); try done.
  intros _ s1 w1 p1 f1 ??????. rewrite la_map_page_walk by done.
  by apply (map_walk_maps_clear M HM).
Qed.

(** The lower half is that of the first table, the upper half of the second. *)
Definition canonical (v : Z) : Prop := 0 ≤ v < 2 ^ 48 ∨ 2 ^ 64 - 2 ^ 48 ≤ v < 2 ^ 64.

Lemma la_canonical_number sz v w : (sz ≤ 2)%nat → canonical v → canonical w → same_page M sz v w →
  v / page_size sz = w / page_size sz.
Proof.
  intros Hsz Hv Hw Hs. pose proof (la_cpu_ok pm) as HM. apply (same_page_number M HM); [cbn; lia|done|].
  apply (same_page_le M sz (top M)) in Hs; [|cbn; lia]. pose proof Hs as [Hh _].
  apply same_page_index in Hs; [|done]. unfold index in Hs.
  apply (two_halves_number (page_size 3) 512); [|done..]. by exists 32768.
Qed.
End map_page.

Lemma la_new_pagemap_ok {S} `{!pt_memory S} cpucfg1 (s : S) :
  match new_pagemap cpucfg1 s with
  | Ok (pm, s') => 48 ≤ paging_mode_va_bits cpucfg1 ∧ wf (cpu pm) s' ∧ ∀ v, translate (cpu pm) s' v = None
  | OutOfMemory s1 => pt_alloc s1 = None
  | Panicked => paging_mode_va_bits cpucfg1 < 48
  end.
Proof.
  unfold new_pagemap. change (Z.land (Z.shiftr cpucfg1 12) 0xff + 1) with (paging_mode_va_bits cpucfg1).
  cbv zeta. destruct (Z.ltb_spec (paging_mode_va_bits cpucfg1) 48); [done|].
  destruct (pt_alloc s) as [[p0 s1]|] eqn:Ha; [|done].
  destruct (pt_alloc s1) as [[p1 s2]|] eqn:Hb; [|done]. split; [done|].
  by destruct (two_empty_tables (cpu (Pagemap p0 p1)) (la_cpu_ok (Pagemap p0 p1)) s p0 s1 p1 s2) as (Hwf & Ht & _).
Qed.

(** [map_pages] on LoongArch, whatever the tables held before, huge pages to
    be split included: afterwards the processor's walk takes each address of
    the range to its physical address with the flags asked for and every other
    address where it went before; the tables are well-formed.  It stops short
    only when there is no memory for a table. *)
Theorem loongarch_map_pages_correct {S} `{!pt_memory S} pm virt phys flags count (s : S) :
  wf (cpu pm) s → Z.land flags flag_bits = flags →
  virt mod 0x1000 = 0 → phys mod 0x1000 = 0 → count mod 0x1000 = 0 →
  0 ≤ count → 0 ≤ phys → phys + count ≤ 2 ^ 48 → 0 ≤ virt → virt + count ≤ 2 ^ 64 →
  (∀ v, virt ≤ v < virt + count → canonical v) →
  match map_pages (map_page 2 pm) virt phys flags count s with
  | Ok s' => wf (cpu pm) s' ∧ ∀ v, canonical v →
      translate (cpu pm) s' v =
        if decide (virt ≤ v < virt + count) then Some (phys + (v - virt), norm (cpu pm) flags)
        else translate (cpu pm) s v
  | OutOfMemory s1 => pt_alloc s1 = None
  | Panicked => False
  end.
Proof.
  intros Hwf Hf ???????? Hcan. pose proof (la_cpu_ok pm) as HM.
  eapply res_mono; [apply (map_pages_ok (cpu pm) HM canonical (la_canonical_number pm)
    (map_page 2 pm) virt phys flags count s); try done|done|].
  - intros sz Hsz. by apply la_map_page_maps.
  - intros (v & _ & Hm). by apply (wf_aligned (cpu pm)) in Hm.
Qed.

(** A processor of 48 bits of address. *)
Definition la_pm : pagemap_t := Pagemap 0x2ff000 0x2fe000.
Definition la_tables : paging := match new_pagemap 0x2f000 boot with Ok (_, s) => s | _ => boot end.

Lemma la_tables_wf : wf (cpu la_pm) la_tables.
Proof.
  assert (match new_pagemap 0x2f000 boot with Ok (pm, _) => Some pm | _ => None end = Some la_pm) as Hpm by (vm_compute; done).
  unfold la_tables. pose proof (la_new_pagemap_ok 0x2f000 boot) as H.
  destruct (new_pagemap _ boot) as [[pm s]|?|]; [|done..]. injection Hpm as ->. by destruct H as (_ & ? & _).
Qed.

Lemma loongarch_map_pages_correct_witness :
  after (map_pages (map_page 2 la_pm) 0xffff000000000000 0x5000 VMM_FLAG_WRITE 0x3000 la_tables)
    (λ s, translate (cpu la_pm) s (0xffff000000000000 + 0x2abc)) = Some (0x7abc, VMM_FLAG_WRITE) ∧
  match map_pages (map_page 2 la_pm) 0xffff000000000000 0x5000 VMM_FLAG_WRITE 0x3000 la_tables with
  | Ok s' => wf (cpu la_pm) s' ∧ ∀ v, canonical v →
      translate (cpu la_pm) s' v =
        if decide (0xffff000000000000 ≤ v < 0xffff000000000000 + 0x3000)
        then Some (0x5000 + (v - 0xffff000000000000), norm (cpu la_pm) VMM_FLAG_WRITE)
        else translate (cpu la_pm) la_tables v
  | OutOfMemory s1 => pt_alloc s1 = None
  | Panicked => False
  end.
Proof.
  split; [vm_compute; reflexivity|].
  refine (loongarch_map_pages_correct la_pm 0xffff000000000000 0x5000 VMM_FLAG_WRITE 0x3000 la_tables
     la_tables_wf eq_refl eq_refl eq_refl eq_refl _ _ _ _ _ _); try lia.
  intros v Hv. right. unfold canonical. lia.
Defined.
