(* ===== verification/Blake2b.v ===== *)
(** BLAKE2b, [limine/common/crypt/blake2b.c]: the hash of the configuration
    and of files, as one call and as a filter under a file that is read
    sequentially; against the definition of RFC 7693. *)
From S2P Require Import Prelude.

Definition BLAKE2B_BLOCK_BYTES : Z := 128.
Definition BLAKE2B_OUT_BYTES : Z := 64.

Definition blake2b_iv : list Z :=
  [0x6a09e667f3bcc908; 0xbb67ae8584caa73b; 0x3c6ef372fe94f82b; 0xa54ff53a5f1d36f1;
   0x510e527fade682d1; 0x9b05688c2b3e6c1f; 0x1f83d9abfb41bd6b; 0x5be0cd19137e2179].

Definition blake2b_sigma : list (list nat) :=
  [[ 0;  1;  2;  3;  4;  5;  6;  7;  8;  9; 10; 11; 12; 13; 14; 15];
   [14; 10;  4;  8;  9; 15; 13;  6;  1; 12;  0;  2; 11;  7;  5;  3];
   [11;  8; 12;  0;  5;  2; 15; 13; 10; 14;  3;  6;  7;  1;  9;  4];
   [ 7;  9;  3;  1; 13; 12; 11; 14;  2;  6;  5; 10;  4;  0; 15;  8];
   [ 9;  0;  5;  7;  2;  4; 10; 15; 14;  1; 11; 12;  6;  8;  3; 13];
   [ 2; 12;  6; 10;  0; 11;  8;  3;  4; 13;  7;  5; 15; 14;  1;  9];
   [12;  5;  1; 15; 14; 13;  4; 10;  0;  7;  6;  3;  9;  2;  8; 11];
   [13; 11;  7; 14; 12;  1;  3;  9;  5;  0; 15;  4;  8;  6;  2; 10];
   [ 6; 15; 14;  9; 11;  3;  0;  8; 12;  2; 13;  7;  1;  4; 10;  5];
   [10;  2;  8;  4;  7;  6;  1;  5; 15; 11;  9; 14;  3; 12; 13;  0];
   [ 0;  1;  2;  3;  4;  5;  6;  7;  8;  9; 10; 11; 12; 13; 14; 15];
   [14; 10;  4;  8;  9; 15; 13;  6;  1; 12;  0;  2; 11;  7;  5;  3]]%nat.

(** [last_node] is never read. *)
Record blake2b_state := B2S {
  h : list Z;
  t0 : Z;
  t1 : Z;
  f0 : Z;
  f1 : Z;
  buf : list Z;
  buf_len : Z;
}.

Definition load64_le (src : list Z) : Z := le_val (take 8 src).
Definition store64_le (val : Z) : list Z := le_bytes 8 val.

Definition blake2b_increment_counter (s : blake2b_state) (inc : Z) : blake2b_state :=
  let t0' := u64 (t0 s + inc) in
  B2S (h s) t0' (u64 (t1 s + b2z (t0' <? inc))) (f0 s) (f1 s) (buf s) (buf_len s).

Definition rotr64 (w c : Z) : Z := Z.lor (Z.shiftr w c) (u64 (Z.shiftl w (64 - c))).

(** [G(r, i, v[a], v[b], v[c], v[d])] on the array [v]. *)
Definition G (m : list Z) (r i a b c d : nat) (v : list Z) : list Z :=
  let s := blake2b_sigma !!! r in
  let v := <[a := u64 (v !!! a + v !!! b + m !!! (s !!! (2 * i + 0)%nat))]> v in
  let v := <[d := rotr64 (Z.lxor (v !!! d) (v !!! a)) 32]> v in
  let v := <[c := u64 (v !!! c + v !!! d)]> v in
  let v := <[b := rotr64 (Z.lxor (v !!! b) (v !!! c)) 24]> v in
  let v := <[a := u64 (v !!! a + v !!! b + m !!! (s !!! (2 * i + 1)%nat))]> v in
  let v := <[d := rotr64 (Z.lxor (v !!! d) (v !!! a)) 16]> v in
  let v := <[c := u64 (v !!! c + v !!! d)]> v in
  <[b := rotr64 (Z.lxor (v !!! b) (v !!! c)) 63]> v.

Definition ROUND (m : list Z) (r : nat) (v : list Z) : list Z :=
  let v := G m r 0 0 4 8 12 v in
  let v := G m r 1 1 5 9 13 v in
  let v := G m r 2 2 6 10 14 v in
  let v := G m r 3 3 7 11 15 v in
  let v := G m r 4 0 5 10 15 v in
  let v := G m r 5 1 6 11 12 v in
  let v := G m r 6 2 7 8 13 v in
  G m r 7 3 4 9 14 v.

Definition blake2b_compress (s : blake2b_state) (block : list Z) : blake2b_state :=
  let m := map (λ i, load64_le (drop (8 * i) block)) (seq 0 16) in
  let v := map (λ i, h s !!! i) (seq 0 8) ++
    [blake2b_iv !!! 0%nat; blake2b_iv !!! 1%nat; blake2b_iv !!! 2%nat; blake2b_iv !!! 3%nat;
     Z.lxor (blake2b_iv !!! 4%nat) (t0 s); Z.lxor (blake2b_iv !!! 5%nat) (t1 s);
     Z.lxor (blake2b_iv !!! 6%nat) (f0 s); Z.lxor (blake2b_iv !!! 7%nat) (f1 s)] in
  let v := ROUND m 0 v in
  let v := ROUND m 1 v in
  let v := ROUND m 2 v in
  let v := ROUND m 3 v in
  let v := ROUND m 4 v in
  let v := ROUND m 5 v in
  let v := ROUND m 6 v in
  let v := ROUND m 7 v in
  let v := ROUND m 8 v in
  let v := ROUND m 9 v in
  let v := ROUND m 10 v in
  let v := ROUND m 11 v in
  B2S (map (λ i, Z.lxor (Z.lxor (h s !!! i) (v !!! i)) (v !!! (i + 8)%nat)) (seq 0 8))
    (t0 s) (t1 s) (f0 s) (f1 s) (buf s) (buf_len s).

(** The bytes of [struct blake2b_param] as [blake2b_init] fills it: digest
    length, key length, fan-out, depth, and zeros to the end of its 64 bytes. *)
Definition blake2b_param : list Z := [BLAKE2B_OUT_BYTES; 0; 1; 1] ++ replicate 60 0.

Definition blake2b_init : blake2b_state :=
  B2S (map (λ i, Z.lxor (blake2b_iv !!! i) (load64_le (drop (8 * i) blake2b_param))) (seq 0 8))
    0 0 0 0 (replicate 128 0) 0.

(** [memcpy(buf + off, src, len src)]; [None] is a write outside [buf]. *)
Definition store (b : list Z) (off : Z) (src : list Z) : option (list Z) :=
  if decide (0 ≤ off ∧ off + len src ≤ len b)
  then Some (take (Z.to_nat off) b ++ src ++ drop (Z.to_nat (off + len src)) b) else None.

Definition set_buf (s : blake2b_state) (b : list Z) (n : Z) : blake2b_state :=
  B2S (h s) (t0 s) (t1 s) (f0 s) (f1 s) b n.

Fixpoint update_blocks (fuel : nat) (s : blake2b_state) (src : list Z) : option (blake2b_state * list Z) :=
  match fuel with
  | O => None
  | S fuel =>
      if BLAKE2B_BLOCK_BYTES <? len src then
        let s := blake2b_increment_counter s BLAKE2B_BLOCK_BYTES in
        let s := blake2b_compress s (take 128 src) in
        update_blocks fuel s (drop 128 src)
      else Some (s, src)
  end.

(** The tail of [blake2b_update]: what is left goes to the buffer. *)
Definition update_rest (s : blake2b_state) (src : list Z) : option blake2b_state :=
  b ← store (buf s) (buf_len s) src; Some (set_buf s b (buf_len s + len src)).

Definition blake2b_update (s : blake2b_state) (src : list Z) : option blake2b_state :=
  if len src =? 0 then Some s else
  let left := buf_len s in
  let fill := BLAKE2B_BLOCK_BYTES - left in
  if fill <? len src then
    b ← store (buf s) left (take (Z.to_nat fill) src);
    let s := set_buf s b 0 in
    let s := blake2b_increment_counter s BLAKE2B_BLOCK_BYTES in
    let s := blake2b_compress s (buf s) in
    let src := drop (Z.to_nat fill) src in
    '(s, src) ← update_blocks (S (length src)) s src;
    update_rest s src
  else update_rest s src.

Definition blake2b_final (s : blake2b_state) : option (blake2b_state * list Z) :=
  let s := blake2b_increment_counter s (buf_len s) in
  let s := B2S (h s) (t0 s) (t1 s) (2 ^ 64 - 1) (f1 s) (buf s) (buf_len s) in
  b ← store (buf s) (buf_len s) (replicate (Z.to_nat (BLAKE2B_BLOCK_BYTES - buf_len s)) 0);
  let s := blake2b_compress (set_buf s b (buf_len s)) b in
  Some (s, concat (map (λ i, store64_le (h s !!! i)) (seq 0 8))).

Definition blake2b (src : list Z) : option (list Z) :=
  s ← blake2b_update blake2b_init src;
  '(_, out) ← blake2b_final s;
  Some out.

(** ** The filter

    [fread] is the source's, of its position and the bytes wanted. *)
Record file_handle := FH {
  size : Z;
  vol : Z;
  path : option (list Z);
  pxe : bool;
  pxe_ip : list Z;
  pxe_port : Z;
}.

Record blake2b_handle := B2H {
  state : blake2b_state;
  pos : Z;
  finalized : bool;
  digest : list Z;
}.

Section filter.
Context (fread : Z → Z → list Z).

(** [None] is the panic of a read that is not sequential. *)
Definition blake2b_read (hd : blake2b_handle) (loc count : Z) : option (list Z * blake2b_handle) :=
  if negb (loc =? pos hd) then None else
  let got := fread loc count in
  st ← blake2b_update (state hd) got;
  Some (got, B2H st (u64 (pos hd + len got)) (finalized hd) (digest hd)).
End filter.

Definition blake2b_open (source : file_handle) : blake2b_handle * file_handle :=
  (B2H blake2b_init 0 false (replicate 64 0),
   FH (size source) (vol source)
     (match path source with Some p => if 0 <? len p then Some p else None | None => None end)
     (pxe source) (pxe_ip source) (pxe_port source)).

Definition blake2b_check_hash (hd : blake2b_handle) (reference_hash : list Z) : option (bool * blake2b_handle) :=
  hd ← (if finalized hd then Some hd else
          '(st, out) ← blake2b_final (state hd); Some (B2H st (pos hd) true out));
  Some (bool_decide (digest hd = reference_hash), hd).

(** ** RFC 7693

    The sixteen words are four columns of four; a round mixes the columns and
    then the diagonals.  The message is cut to blocks of 128 bytes, the last
    of which, if it is not full, is filled up with zeros; the counter given with a
    block is the number of message bytes up to its end. *)
Module Rfc.
Definition col : Type := Z * Z * Z * Z.

Definition mix (x y : Z) (q : col) : col :=
  let '(a, b, c, d) := q in
  let a := u64 (a + b + x) in
  let d := rotr64 (Z.lxor d a) 32 in
  let c := u64 (c + d) in
  let b := rotr64 (Z.lxor b c) 24 in
  let a := u64 (a + b + y) in
  let d := rotr64 (Z.lxor d a) 16 in
  let c := u64 (c + d) in
  let b := rotr64 (Z.lxor b c) 63 in
  (a, b, c, d).

Definition SIGMA (r : nat) : list nat := blake2b_sigma !!! (r mod 10)%nat.

Definition columns (m : list Z) (s : list nat) (k : nat) (v : col * col * col * col) : col * col * col * col :=
  let w i := m !!! (s !!! (k + i)%nat) in
  let '(p, q, r, t) := v in
  (mix (w 0%nat) (w 1%nat) p, mix (w 2%nat) (w 3%nat) q, mix (w 4%nat) (w 5%nat) r, mix (w 6%nat) (w 7%nat) t).

Definition diagonal (v : col * col * col * col) : col * col * col * col :=
  let '((a0, b0, c0, d0), (a1, b1, c1, d1), (a2, b2, c2, d2), (a3, b3, c3, d3)) := v in
  ((a0, b1, c2, d3), (a1, b2, c3, d0), (a2, b3, c0, d1), (a3, b0, c1, d2)).

Definition undiagonal (v : col * col * col * col) : col * col * col * col :=
  let '((a0, b1, c2, d3), (a1, b2, c3, d0), (a2, b3, c0, d1), (a3, b0, c1, d2)) := v in
  ((a0, b0, c0, d0), (a1, b1, c1, d1), (a2, b2, c2, d2), (a3, b3, c3, d3)).

Definition round (m : list Z) (v : col * col * col * col) (r : nat) : col * col * col * col :=
  let s := SIGMA r in
  undiagonal (columns m s 8 (diagonal (columns m s 0 v))).

Definition load (v : list Z) : col * col * col * col :=
  let c i := (v !!! i, v !!! (4 + i)%nat, v !!! (8 + i)%nat, v !!! (12 + i)%nat) in
  (c 0%nat, c 1%nat, c 2%nat, c 3%nat).

Definition unload (v : col * col * col * col) : list Z :=
  let '((a0, b0, c0, d0), (a1, b1, c1, d1), (a2, b2, c2, d2), (a3, b3, c3, d3)) := v in
  [a0; a1; a2; a3; b0; b1; b2; b3; c0; c1; c2; c3; d0; d1; d2; d3].

(** The compression function: [t] counts the bytes, [last] is the last block. *)
Definition F (h : list Z) (block : list Z) (t : Z) (last : bool) : list Z :=
  let m := map (λ i, le_val (take 8 (drop (8 * i) block))) (seq 0 16) in
  let v := h ++ take 4 blake2b_iv ++
    [Z.lxor (blake2b_iv !!! 4%nat) (t mod 2 ^ 64); Z.lxor (blake2b_iv !!! 5%nat) (t / 2 ^ 64 mod 2 ^ 64);
     Z.lxor (blake2b_iv !!! 6%nat) (if last then 2 ^ 64 - 1 else 0); blake2b_iv !!! 7%nat] in
  let v := unload (foldl (round m) (load v) (seq 0 12)) in
  zip_with Z.lxor (zip_with Z.lxor h (take 8 v)) (drop 8 v).

Definition h0 : list Z := <[0%nat := Z.lxor 0x6a09e667f3bcc908 0x01010040]> blake2b_iv.

(** How many blocks come before the last. *)
Definition blocks (msg : list Z) : nat := Z.to_nat ((len msg - 1) / 128).

Definition absorb (msg : list Z) (h : list Z) (i : nat) : list Z :=
  F h (take 128 (drop (128 * i) msg)) (128 * (Z.of_nat i + 1)) false.

Definition hash (msg : list Z) : list Z :=
  let n := blocks msg in
  let h := foldl (absorb msg) h0 (seq 0 n) in
  let rest := drop (128 * n) msg in
  concat (map (le_bytes 8) (F h (rest ++ replicate (128 - length rest) 0) (len msg) true)).
End Rfc.

(** "abc", from the RFC. *)
Example blake2b_abc :
  option_map (take 8) (blake2b [97; 98; 99]) = Some [0xba; 0x80; 0xa5; 0x3f; 0x98; 0x1c; 0x4d; 0x0d] ∧
  blake2b [97; 98; 99] = Some (Rfc.hash [97; 98; 99]).
Proof. by vm_compute. Qed.

(** ** The compression function *)

(** The code's array of sixteen words. *)
Lemma sixteen (v : list Z) : length v = 16%nat → v = Rfc.unload (Rfc.load v).
Proof. intros Hv. do 16 (destruct v as [|? v]; [done|]). destruct v; [|done]. reflexivity. Qed.

Lemma G_mix m r i a b c d v : length v = 16%nat →
  In (a, b, c, d) [(0, 4, 8, 12); (1, 5, 9, 13); (2, 6, 10, 14); (3, 7, 11, 15);
                   (0, 5, 10, 15); (1, 6, 11, 12); (2, 7, 8, 13); (3, 4, 9, 14)]%nat →
  let s := blake2b_sigma !!! r in
  G m r i a b c d v =
  let '(a', b', c', d') := Rfc.mix (m !!! (s !!! (2 * i + 0)%nat)) (m !!! (s !!! (2 * i + 1)%nat))
                             (v !!! a, v !!! b, v !!! c, v !!! d) in
  <[b := b']> (<[c := c']> (<[d := d']> (<[a := a']> v))).
Proof.
  intros Hv Hin. do 16 (destruct v as [|? v]; [done|]). destruct v; [|done].
  cbn [In] in Hin. repeat destruct Hin as [[= <- <- <- <-]|Hin]; try done; reflexivity.
Qed.

(** One [G], its mixing left as it is. *)
Ltac mix_step :=
  lazymatch goal with |- context [G ?m ?r ?i ?a ?b ?c ?d (?x :: ?l)] =>
    rewrite (G_mix m r i a b c d (x :: l) eq_refl) by (cbn [In]; repeat (first [left; reflexivity | right]))
  end;
  cbn [lookup_total list_lookup_total Nat.mul Nat.add];
  match goal with |- context [Rfc.mix ?x ?y ?q] => destruct (Rfc.mix x y q) as [[[? ?] ?] ?] end;
  cbn [insert list_insert].

Lemma ROUND_round m r v : (r < 12)%nat → ROUND m r (Rfc.unload v) = Rfc.unload (Rfc.round m v r).
Proof.
  intros Hr. unfold Rfc.round.
  assert (Rfc.SIGMA r = blake2b_sigma !!! r) as -> by (do 12 (destruct r as [|r]; [done|]); lia).
  destruct v as [[[[[[a0 b0] c0] d0] [[[a1 b1] c1] d1]] [[[a2 b2] c2] d2]] [[[a3 b3] c3] d3]].
  unfold ROUND, Rfc.columns. cbn [Nat.add]. unfold Rfc.unload at 1.
  match goal with |- _ = ?R => remember R as rhs eqn:Hrhs end.
  do 4 mix_step. cbn [Rfc.diagonal] in Hrhs. do 4 mix_step. exact (eq_sym Hrhs).
Qed.

Lemma compress_F s block t last :
  length (h s) = 8%nat → f1 s = 0 → f0 s = (if last : bool then 2 ^ 64 - 1 else 0) →
  t0 s = t mod 2 ^ 64 → t1 s = t / 2 ^ 64 mod 2 ^ 64 →
  blake2b_compress s block = B2S (Rfc.F (h s) block t last) (t0 s) (t1 s) (f0 s) (f1 s) (buf s) (buf_len s).
Proof.
  intros Hh Hf1 Hf0 Ht0 Ht1. unfold blake2b_compress. f_equal.
  change (map (λ i, load64_le (drop (8 * i) block)) (seq 0 16))
    with (map (λ i, le_val (take 8 (drop (8 * i) block))) (seq 0 16)).
  unfold Rfc.F. set (m := map _ (seq 0 16)). rewrite Hf1, Hf0, Ht0, Ht1, Z.lxor_0_r.
  assert (map (λ i, h s !!! i) (seq 0 8) = h s) as ->.
  { destruct (h s) as [|? l]; [done|]. do 7 (destruct l as [|? l]; [done|]). by destruct l. }
  change (take 4 blake2b_iv) with [blake2b_iv !!! 0%nat; blake2b_iv !!! 1%nat; blake2b_iv !!! 2%nat; blake2b_iv !!! 3%nat].
  cbn [app]. set (v := h s ++ _). assert (length v = 16%nat) as Hv by (unfold v; rewrite length_app, Hh; done).
  clearbody v. pose proof (sixteen v Hv) as Hw. set (w := Rfc.load v) in *. clearbody w. subst v.
  change (seq 0 12) with [0; 1; 2; 3; 4; 5; 6; 7; 8; 9; 10; 11]%nat. cbn [foldl].
  do 12 rewrite ROUND_round by lia. set (z := Rfc.round m _ 11). clearbody z.
  destruct z as [[[[[[a0 b0] c0] d0] [[[a1 b1] c1] d1]] [[[a2 b2] c2] d2]] [[[a3 b3] c3] d3]].
  destruct (h s) as [|? l]; [done|]. do 7 (destruct l as [|? l]; [done|]). destruct l; [|done]. reflexivity.
Qed.

Lemma F_length h block t last : length h = 8%nat → length (Rfc.F h block t last) = 8%nat.
Proof.
  intros Hh. unfold Rfc.F. set (z := foldl _ _ _). clearbody z.
  destruct z as [[[[[[a0 b0] c0] d0] [[[a1 b1] c1] d1]] [[[a2 b2] c2] d2]] [[[a3 b3] c3] d3]].
  rewrite !length_zip_with, Hh. done.
Qed.

(** ** The counter *)

Definition counter (s : blake2b_state) (t : Z) : Prop := t0 s = t mod 2 ^ 64 ∧ t1 s = t / 2 ^ 64 mod 2 ^ 64.

Lemma increment_counter s t inc : counter s t → 0 ≤ inc < 2 ^ 64 →
  counter (blake2b_increment_counter s inc) (t + inc).
Proof.
  intros [H0 H1] Hi. unfold counter, blake2b_increment_counter, wrap. cbn [t0 t1]. rewrite H0, H1.
  pose proof (Z.mod_pos_bound t (2 ^ 64) ltac:(lia)) as Hm. pose proof (Z.div_mod t (2 ^ 64) ltac:(lia)) as Hd.
  set (q := t / 2 ^ 64) in *. set (r := t mod 2 ^ 64) in *.
  destruct (Z.ltb_spec (r + inc) (2 ^ 64)) as [Hlt|Hge].
  - rewrite (Z.mod_small (r + inc)) by lia. replace (r + inc <? inc) with false by (symmetry; apply Z.ltb_ge; lia).
    cbn [b2z]. rewrite Z.add_0_r, Z.mod_mod by lia.
    split; [apply (Z.mod_unique_pos _ _ q); lia|]. f_equal. apply (Z.div_unique_pos _ _ _ (r + inc)); lia.
  - assert ((r + inc) mod 2 ^ 64 = r + inc - 2 ^ 64) as -> by (symmetry; apply (Z.mod_unique_pos _ _ 1); lia).
    replace (r + inc - 2 ^ 64 <? inc) with true by (symmetry; apply Z.ltb_lt; lia). cbn [b2z].
    rewrite Zplus_mod_idemp_l. split; [apply (Z.mod_unique_pos _ _ (q + 1)); lia|].
    f_equal. apply (Z.div_unique_pos _ _ _ (r + inc - 2 ^ 64)); lia.
Qed.

(** ** Updates

    [chained s msg k]: the first [k] blocks of [msg] went through the
    compression function.  [absorbed s msg]: those are all but the last, which
    is in the buffer. *)
Record chained (s : blake2b_state) (msg : list Z) (k : nat) : Prop := {
  ch_h : h s = foldl (Rfc.absorb msg) Rfc.h0 (seq 0 k);
  ch_t : counter s (128 * Z.of_nat k);
  ch_f0 : f0 s = 0;
  ch_f1 : f1 s = 0;
}.

Record absorbed (s : blake2b_state) (msg : list Z) : Prop := {
  ab_chained : chained s msg (Rfc.blocks msg);
  ab_buf : length (buf s) = 128%nat;
  ab_len : buf_len s = len msg - 128 * Z.of_nat (Rfc.blocks msg);
  ab_rest : take (Z.to_nat (buf_len s)) (buf s) = drop (128 * Rfc.blocks msg) msg;
}.

Lemma h0_length : length Rfc.h0 = 8%nat.
Proof. done. Qed.

Lemma absorb_length msg h l : length h = 8%nat → length (foldl (Rfc.absorb msg) h l) = 8%nat.
Proof. revert h. induction l as [|i l IH]; intros h Hh; [done|]. cbn. apply IH. by apply F_length. Qed.

(** Blocks that are there stay the same when the message grows. *)
Lemma absorb_prefix msg rest k h : (128 * k ≤ length msg)%nat →
  foldl (Rfc.absorb (msg ++ rest)) h (seq 0 k) = foldl (Rfc.absorb msg) h (seq 0 k).
Proof.
  intros Hk. assert (∀ i, In i (seq 0 k) → ∀ h, Rfc.absorb (msg ++ rest) h i = Rfc.absorb msg h i) as Hi.
  { intros i Hi%in_seq h'. unfold Rfc.absorb. pose proof (length_drop msg (128 * i)) as Hl.
    rewrite drop_app_le by lia. by rewrite take_app_le by lia. }
  clear Hk. revert h Hi. induction (seq 0 k) as [|i l IH]; intros h' Hi; cbn [foldl]; [reflexivity|].
  rewrite Hi by (by left). apply IH. intros j Hj. apply Hi. by right.
Qed.

Lemma init_absorbed : absorbed blake2b_init [].
Proof. split; [split|..]; try split; vm_compute; reflexivity. Qed.

Lemma store_ok b off src : 0 ≤ off → off + len src ≤ len b →
  store b off src = Some (take (Z.to_nat off) b ++ src ++ drop (Z.to_nat (off + len src)) b).
Proof. intros. unfold store. by rewrite decide_True by lia. Qed.

Lemma chained_prefix s msg rest k : (128 * k ≤ length msg)%nat → chained s msg k → chained s (msg ++ rest) k.
Proof. intros Hk [Hh ? ? ?]. split; [|assumption..]. by rewrite absorb_prefix. Qed.

Lemma block_ok s msg k block : chained s msg k → block = take 128 (drop (128 * k) msg) →
  let s' := blake2b_compress (blake2b_increment_counter s BLAKE2B_BLOCK_BYTES) block in
  chained s' msg (S k) ∧ buf s' = buf s ∧ buf_len s' = buf_len s.
Proof.
  intros [Hh Ht Hf0 Hf1] ->. apply (increment_counter s _ 128) in Ht; [|lia].
  cbv zeta. rewrite (compress_F _ _ (128 * (Z.of_nat k + 1)) false).
  - split; [|by split]. split; cbn [h f0 f1]; [|unfold counter in *; cbn [t0 t1]; by replace (128 * Z.of_nat (S k)) with (128 * Z.of_nat k + 128) by lia|assumption..].
    rewrite seq_S, foldl_app. cbn [foldl Nat.add]. cbn [blake2b_increment_counter h]. rewrite Hh. reflexivity.
  - cbn [blake2b_increment_counter h]. rewrite Hh. apply absorb_length, h0_length.
  - exact Hf1.
  - exact Hf0.
  - replace (128 * (Z.of_nat k + 1)) with (128 * Z.of_nat k + 128) by lia. apply Ht.
  - replace (128 * (Z.of_nat k + 1)) with (128 * Z.of_nat k + 128) by lia. apply Ht.
Qed.

Lemma update_blocks_S n s src : update_blocks (S n) s src =
  if BLAKE2B_BLOCK_BYTES <? len src
  then update_blocks n (blake2b_compress (blake2b_increment_counter s BLAKE2B_BLOCK_BYTES) (take 128 src)) (drop 128 src)
  else Some (s, src).
Proof. reflexivity. Qed.

(** Blocks taken from the input itself. *)
Lemma update_blocks_ok n s msg k : (length msg - 128 * k ≤ n)%nat → chained s msg k → (128 * k < length msg)%nat →
  ∃ s', update_blocks (S n) s (drop (128 * k) msg) = Some (s', drop (128 * Rfc.blocks msg) msg) ∧
    chained s' msg (Rfc.blocks msg) ∧ buf s' = buf s ∧ buf_len s' = buf_len s.
Proof.
  revert s k. induction n as [|n IH]; intros s k Hn Hc Hk; [lia|]. pose proof (length_drop msg (128 * k)) as Hl.
  rewrite update_blocks_S. unfold BLAKE2B_BLOCK_BYTES at 1. unfold len.
  destruct (Z.ltb_spec 128 (Z.of_nat (length (drop (128 * k) msg)))) as [Hlt|Hge].
  - destruct (block_ok s msg k _ Hc eq_refl) as (Hc' & Hb & Hbl). cbv zeta in *. rewrite drop_drop.
    replace (128 * k + 128)%nat with (128 * S k)%nat by lia. set (s1 := blake2b_compress _ _) in *.
    destruct (IH s1 (S k)) as (s' & -> & ? & ? & ?); [lia|assumption|lia|].
    exists s'. split; [reflexivity|]. split; [assumption|]. split; congruence.
  - assert (Rfc.blocks msg = k) as ->.
    { unfold Rfc.blocks, len. assert ((Z.of_nat (length msg) - 1) / 128 = Z.of_nat k) as ->; [|lia].
      symmetry. apply (Z.div_unique_pos _ _ _ (Z.of_nat (length msg) - 1 - 128 * Z.of_nat k)); lia. }
    exists s. split; [reflexivity|]. by split.
Qed.

(** What is left after the last full block goes to the buffer. *)
Lemma update_rest_ok s msg off rest : chained s msg (Rfc.blocks msg) → length (buf s) = 128%nat →
  buf_len s = Z.of_nat off → (off ≤ 128)%nat →
  take off (buf s) ++ rest = drop (128 * Rfc.blocks msg) msg →
  ∃ s', update_rest s rest = Some s' ∧ absorbed s' msg.
Proof.
  intros Hc Hb Hl Hoff Hr. pose proof (f_equal length Hr) as Hlen.
  rewrite length_app, length_take, length_drop in Hlen.
  assert (length msg - 128 * Rfc.blocks msg ≤ 128 ∧ 128 * Rfc.blocks msg ≤ length msg)%nat as [Hk1 Hk2].
  { unfold Rfc.blocks, len. pose proof (Z.div_mod (Z.of_nat (length msg) - 1) 128 ltac:(lia)).
    pose proof (Z.mod_pos_bound (Z.of_nat (length msg) - 1) 128 ltac:(lia)). lia. }
  unfold update_rest. rewrite Hl. rewrite store_ok by (unfold len; lia).
  eexists. split; [reflexivity|]. destruct Hc. split; cbn [set_buf h t0 t1 f0 f1 buf buf_len].
  - by split.
  - rewrite !length_app, length_take, length_drop. unfold len. lia.
  - unfold len. lia.
  - rewrite Nat2Z.id, app_assoc, take_app_le.
    + rewrite take_ge; [assumption|]. rewrite length_app, length_take. unfold len. lia.
    + rewrite length_app, length_take. unfold len. lia.
Qed.

Lemma blocks_bound msg : (128 * Rfc.blocks msg ≤ length msg ≤ 128 * Rfc.blocks msg + 128)%nat ∧
  (0 < length msg → 128 * Rfc.blocks msg < length msg)%nat.
Proof.
  unfold Rfc.blocks, len. pose proof (Z.div_mod (Z.of_nat (length msg) - 1) 128 ltac:(lia)).
  pose proof (Z.mod_pos_bound (Z.of_nat (length msg) - 1) 128 ltac:(lia)). lia.
Qed.

Lemma blocks_unique msg k : (128 * k < length msg ≤ 128 * k + 128)%nat → Rfc.blocks msg = k.
Proof. intros Hk. pose proof (blocks_bound msg). lia. Qed.

Lemma update_ok s msg src : absorbed s msg → ∃ s', blake2b_update s src = Some s' ∧ absorbed s' (msg ++ src).
Proof.
  intros [Hc Hb Hl Hr]. unfold blake2b_update. destruct (Z.eqb_spec (len src) 0) as [Hz|Hz].
  { destruct src; [|unfold len in Hz; cbn in Hz; lia]. exists s. rewrite app_nil_r. split; [reflexivity|]. by split. }
  pose proof (blocks_bound msg) as [Hk _]. set (k := Rfc.blocks msg) in *.
  assert (chained s (msg ++ src) k) as Hc' by (apply chained_prefix; [lia|assumption]).
  set (full := msg ++ src) in *. assert (length full = length msg + length src)%nat as Hfl by apply length_app.
  assert (drop (128 * k) full = drop (128 * k) msg ++ src) as Hd by (unfold full; apply drop_app_le; lia).
  set (left := Z.to_nat (buf_len s)) in *.
  assert (buf_len s = Z.of_nat left ∧ Z.of_nat left = Z.of_nat (length msg) - 128 * Z.of_nat k) as [Hleft Hleft'] by (unfold left, len in *; lia).
  unfold BLAKE2B_BLOCK_BYTES. unfold len. unfold len in Hz.
  destruct (Z.ltb_spec (128 - buf_len s) (Z.of_nat (length src))) as [Hlt|Hge].
  - set (fill := Z.to_nat (128 - buf_len s)). assert (length (take fill src) = fill) as Hf by (rewrite length_take; unfold fill; lia).
    rewrite store_ok by (unfold len; lia). cbn [mbind option_bind set_buf buf].
    rewrite (drop_ge (buf s)) by (unfold len; lia). rewrite app_nil_r. rewrite Hleft, Nat2Z.id, Hr.
    set (b := drop (128 * k) msg ++ take fill src). set (s1 := set_buf s b 0).
    assert (b = take 128 (drop (128 * k) full)) as Hblock.
    { rewrite Hd, take_app, length_drop. rewrite (take_ge (drop _ _)) by (rewrite length_drop; lia).
      unfold b. f_equal. f_equal. unfold fill. lia. }
    assert (chained s1 full k) as Hc1 by (destruct Hc'; by split).
    destruct (block_ok s1 full k b Hc1 Hblock) as (Hc2 & Hb2 & Hl2). set (s2 := blake2b_compress _ _) in *.
    change (B2S (h s) (t0 s) (t1 s) (f0 s) (f1 s) b 0) with s1 in *. change (blake2b_compress _ b) with s2.
    assert (drop fill src = drop (128 * S k) full) as ->.
    { replace (128 * S k)%nat with (128 * k + 128)%nat by lia. rewrite <- drop_drop, Hd, drop_app, length_drop.
      rewrite (drop_ge (drop _ _)) by (rewrite length_drop; lia). cbn [app]. f_equal. unfold fill. lia. }
    destruct (update_blocks_ok (length (drop (128 * S k) full)) s2 full (S k)) as (s3 & -> & Hc3 & Hb3 & Hl3);
      [rewrite length_drop; lia|assumption|lia|]. cbn [mbind option_bind].
    apply (update_rest_ok s3 full 0).
    + assumption.
    + rewrite Hb3, Hb2. change (buf s1) with b. unfold b. rewrite length_app, Hf, length_drop. unfold fill. lia.
    + rewrite Hl3, Hl2. reflexivity.
    + lia.
    + reflexivity.
  - assert (Rfc.blocks full = k) as Hfk by (apply blocks_unique; lia).
    apply (update_rest_ok s full left); rewrite ?Hfk; [assumption|assumption|assumption|lia|]. by rewrite Hr, Hd.
Qed.

Lemma final_ok s msg : absorbed s msg → ∃ s', blake2b_final s = Some (s', Rfc.hash msg).
Proof.
  intros [[Hh Ht Hf0 Hf1] Hb Hl Hr]. pose proof (blocks_bound msg) as [Hk _]. set (k := Rfc.blocks msg) in *.
  assert (0 ≤ buf_len s ≤ 128) as Hbl by (unfold len in Hl; lia).
  apply (increment_counter s _ (buf_len s)) in Ht; [|lia].
  replace (128 * Z.of_nat k + buf_len s) with (len msg) in Ht by lia.
  unfold blake2b_final. cbn [blake2b_increment_counter buf buf_len]. unfold BLAKE2B_BLOCK_BYTES.
  rewrite store_ok by (rewrite ?len_replicate; unfold len; lia).
  cbn [mbind option_bind]. rewrite Hr, (drop_ge (buf s)) by (rewrite len_replicate; lia). rewrite app_nil_r.
  eexists. f_equal. f_equal. rewrite (compress_F _ _ (len msg) true).
  - cbn [set_buf h]. unfold Rfc.hash. fold k. rewrite <- Hh.
    assert (length (h s) = 8%nat) as Hlen by (rewrite Hh; apply absorb_length, h0_length).
    replace (Z.to_nat (128 - buf_len s)) with (128 - length (drop (128 * k) msg))%nat
      by (pose proof (length_drop msg (128 * k)); unfold len in Hl; lia).
    pose proof (F_length (h s) (drop (128 * k) msg ++ replicate (128 - length (drop (128 * k) msg)) 0) (len msg) true Hlen) as HF.
    set (l := Rfc.F _ _ _ _) in *. clearbody l. unfold store64_le.
    destruct l as [|? l]; [discriminate HF|]. do 7 (destruct l as [|? l]; [discriminate HF|]). destruct l; [|discriminate HF]. reflexivity.
  - cbn [set_buf blake2b_increment_counter h]. rewrite Hh. apply absorb_length, h0_length.
  - exact Hf1.
  - reflexivity.
  - apply Ht.
  - apply Ht.
Qed.

Lemma blake2b_ok src : blake2b src = Some (Rfc.hash src).
Proof.
  unfold blake2b. destruct (update_ok _ _ src init_absorbed) as (s & -> & Hs). cbn [mbind option_bind].
  by destruct (final_ok s src Hs) as (s' & ->).
Qed.

(** Reads through the filter, each where the last one ended. *)
Fixpoint read_all (fread : Z → Z → list Z) (counts : list Z) (hd : blake2b_handle) : option (list Z * blake2b_handle) :=
  match counts with
  | [] => Some ([], hd)
  | n :: counts =>
      '(got, hd) ← blake2b_read fread hd (pos hd) n;
      '(rest, hd) ← read_all fread counts hd;
      Some (got ++ rest, hd)
  end.

Lemma read_all_ok fread counts hd msg : absorbed (state hd) msg → finalized hd = false →
  ∃ bytes hd', read_all fread counts hd = Some (bytes, hd') ∧ absorbed (state hd') (msg ++ bytes) ∧ finalized hd' = false.
Proof.
  revert hd msg. induction counts as [|n counts IH]; intros hd msg Hs Hf; cbn [read_all].
  - exists [], hd. by rewrite app_nil_r.
  - unfold blake2b_read. rewrite Z.eqb_refl. cbn [negb].
    destruct (update_ok _ _ (fread (pos hd) n) Hs) as (s' & -> & Hs'). cbn [mbind option_bind].
    destruct (IH (B2H s' (u64 (pos hd + len (fread (pos hd) n))) (finalized hd) (digest hd)) _ Hs' Hf) as (bytes & hd' & -> & ? & ?).
    cbn [mbind option_bind]. exists (fread (pos hd) n ++ bytes), hd'. by rewrite app_assoc.
Qed.

(** C16: the hash of the one call is that of RFC 7693, whatever the length, with
    no access outside the block buffer.  Under the filter a file may be read
    in any pieces: the check answers whether the RFC's hash of the bytes that
    were read is the reference, as often as it is asked; a read that does not go on
    where the last one ended panics. *)
Theorem blake2b_correct :
  (∀ src, blake2b src = Some (Rfc.hash src)) ∧
  (∀ fread hd loc n, loc ≠ pos hd → blake2b_read fread hd loc n = None) ∧
  ∀ fread source counts reference, ∃ bytes hd hd',
    read_all fread counts (blake2b_open source).1 = Some (bytes, hd) ∧
    blake2b_check_hash hd reference = Some (bool_decide (Rfc.hash bytes = reference), hd') ∧
    ∀ again, blake2b_check_hash hd' again = Some (bool_decide (Rfc.hash bytes = again), hd').
Proof.
  split; [exact blake2b_ok|]. split.
  { intros fread hd loc n Hn. unfold blake2b_read. by rewrite (proj2 (Z.eqb_neq _ _) Hn). }
  intros fread source counts reference.
  destruct (read_all_ok fread counts (blake2b_open source).1 [] init_absorbed eq_refl) as (bytes & hd & Hr & Hs & Hf).
  destruct (final_ok _ _ Hs) as (s' & Hfin). exists bytes, hd, (B2H s' (pos hd) true (Rfc.hash bytes)).
  split; [exact Hr|]. unfold blake2b_check_hash. rewrite Hf, Hfin. split; reflexivity.
Qed.
