(* ===== verification/Libc.v ===== *)
(** The C library of the boot loader: [limine/common/lib/libc.s2.c], [libc.c],
    [memory.s2.c] and the numbers of [misc.s2.c] and [misc.c].

    A pointer into a buffer is the list of the bytes from there on; reading past
    the end of the list fails. *)
From S2P Require Import Prelude.
From stdpp Require Import strings.
Open Scope list_scope.
Open Scope Z_scope.

(** The bytes of a string constant. *)
Definition lit (s : string) : list Z := map (λ a, Z.of_N (Ascii.N_of_ascii a)) (String.list_ascii_of_string s).

(** ** [memory.s2.c]

    Buffers of one memory [m], by their offsets; [None] is an access outside. *)
Definition memcpy (m : list Z) (dest src n : Z) : option (list Z) :=
  for_range 0 n (λ i m, x ← m.[src + i]; m.[dest + i <- x]) m.

Definition memset (m : list Z) (s c n : Z) : option (list Z) :=
  for_range 0 n (λ i m, m.[s + i <- u8 c]) m.

Definition memmove (m : list Z) (dest src n : Z) : option (list Z) :=
  if dest <? src then for_range 0 n (λ i m, x ← m.[src + i]; m.[dest + i <- x]) m
  else if src <? dest then for_down (Z.to_nat n) (λ i m, x ← m.[src + i]; m.[dest + i <- x]) m
  else Some m.

Fixpoint memcmp (s1 s2 : list Z) (n : nat) : option Z :=
  match n with
  | O => Some 0
  | S n =>
      match s1, s2 with
      | c1 :: s1, c2 :: s2 => if negb (c1 =? c2) then Some (if c1 <? c2 then -1 else 1) else memcmp s1 s2 n
      | _, _ => None
      end
  end.

(** ** [libc.s2.c] *)
Definition isprint (c : Z) : bool := (32 <=? c) && (c <=? 126).
Definition isspace (c : Z) : bool := ((9 <=? c) && (c <=? 0xD)) || (c =? 32).
Definition isalpha (c : Z) : bool := ((97 <=? c) && (c <=? 122)) || ((65 <=? c) && (c <=? 90)).
Definition isdigit (c : Z) : bool := (48 <=? c) && (c <=? 57).
Definition toupper (c : Z) : Z := if (97 <=? c) && (c <=? 122) then c - 0x20 else c.
Definition tolower (c : Z) : Z := if (65 <=? c) && (c <=? 90) then c + 0x20 else c.

(** [None] is the overflow of [abs(INT_MIN)]. *)
Definition abs (i : Z) : option Z := if i <? 0 then (if i =? -2147483648 then None else Some (- i)) else Some i.

Fixpoint strcpy_loop (dest src : list Z) (i : Z) : option (list Z) :=
  match src with
  | [] => None
  | c :: src => dest ← dest.[i <- c]; if c =? 0 then Some dest else strcpy_loop dest src (i + 1)
  end.
Definition strcpy (dest src : list Z) : option (list Z) := strcpy_loop dest src 0.

Fixpoint strncpy_loop (n : nat) (dest src : list Z) (i : Z) : option (list Z) :=
  match n with
  | O => Some dest
  | S n =>
      match src with
      | [] => None
      | c :: src =>
          if c =? 0 then for_up (S n) i (λ i d, d.[i <- 0]) dest
          else dest ← dest.[i <- c]; strncpy_loop n dest src (i + 1)
      end
  end.
Definition strncpy (dest src : list Z) (n : Z) : option (list Z) := strncpy_loop (Z.to_nat n) dest src 0.

Fixpoint strcmp (s1 s2 : list Z) : option Z :=
  match s1, s2 with
  | c1 :: s1, c2 :: s2 =>
      if negb (c1 =? c2) then Some (if c1 <? c2 then -1 else 1)
      else if c1 =? 0 then Some 0 else strcmp s1 s2
  | _, _ => None
  end.

Fixpoint strcasecmp (s1 s2 : list Z) : option Z :=
  match s1, s2 with
  | c1 :: s1, c2 :: s2 =>
      if negb (tolower c1 =? tolower c2) then Some (if tolower c1 <? tolower c2 then -1 else 1)
      else if c1 =? 0 then Some 0 else strcasecmp s1 s2
  | _, _ => None
  end.

Fixpoint strncmp (s1 s2 : list Z) (n : nat) : option Z :=
  match n with
  | O => Some 0
  | S n =>
      match s1, s2 with
      | c1 :: s1, c2 :: s2 =>
          if negb (c1 =? c2) then Some (if c1 <? c2 then -1 else 1)
          else if c1 =? 0 then Some 0 else strncmp s1 s2 n
      | _, _ => None
      end
  end.

Fixpoint strncasecmp (s1 s2 : list Z) (n : nat) : option Z :=
  match n with
  | O => Some 0
  | S n =>
      match s1, s2 with
      | c1 :: s1, c2 :: s2 =>
          if negb (tolower c1 =? tolower c2) then Some (if tolower c1 <? tolower c2 then -1 else 1)
          else if c1 =? 0 then Some 0 else strncasecmp s1 s2 n
      | _, _ => None
      end
  end.

Fixpoint strlen (str : list Z) : option Z :=
  match str with
  | [] => None
  | c :: str => if c =? 0 then Some 0 else n ← strlen str; Some (1 + n)
  end.

(** ** [misc.s2.c] *)
Definition bcd_to_int (val : Z) : Z := u8 (Z.land val 0x0f + Z.shiftr (Z.land val 0xf0) 4 * 10).
Definition int_to_bcd (val : Z) : Z := u8 (Z.lor (val mod 10) (Z.shiftl (val / 10) 4)).

Definition digit_to_int (c : Z) : Z :=
  if (97 <=? c) && (c <=? 102) then c - 97 + 10
  else if (65 <=? c) && (c <=? 70) then c - 65 + 10
  else if (48 <=? c) && (c <=? 57) then c - 48
  else -1.

(** The number and where it ends. *)
Fixpoint strtoui_loop (s : list Z) (base n i : Z) : option (Z * Z) :=
  match s with
  | [] => None
  | c :: s =>
      let d := digit_to_int c in
      if (d =? -1) || (base <=? d) then Some (n, i) else
      match mul64 n base with
      | None => Some (2 ^ 64 - 1, i)
      | Some mul_result =>
          match add64 mul_result d with
          | None => Some (2 ^ 64 - 1, i)
          | Some n => strtoui_loop s base n (i + 1)
          end
      end
  end.
Definition strtoui (s : list Z) (base : Z) : option (Z * Z) := strtoui_loop s base 0 0.

(** The four octets; -1 is [None] inside. *)
Fixpoint inet_pton_loop (n : nat) (current : list Z) (array : list Z) : option (option (list Z)) :=
  match n with
  | O => Some (Some array)
  | S n =>
      '(value, off) ← strtoui current 10;
      if off =? 0 then Some None else
      let current := drop (Z.to_nat off) current in
      match current with
      | [] => None
      | c :: next =>
          if (0 <? n)%nat then
            if negb (c =? 46) then Some None
            else if 255 <? value then Some None else inet_pton_loop n next (array ++ [value])
          else
            if negb (c =? 0) then Some None
            else if 255 <? value then Some None else inet_pton_loop n current (array ++ [value])
      end
  end.
Definition inet_pton (src : list Z) : option (option (list Z)) := inet_pton_loop 4 src [].

(** ** [libc.c] *)
Definition ULONG_MAX : Z := 2 ^ 64 - 1.

(** [do c = *s++; while (isspace(c))]: the character, what follows it and how
    far that is. *)
Fixpoint skip_spaces (s : list Z) (i : Z) : option (Z * list Z * Z) :=
  match s with
  | [] => None
  | c :: s => if isspace c then skip_spaces s (i + 1) else Some (c, s, i + 1)
  end.

Definition next_char (s : list Z) (i : Z) : option (Z * list Z * Z) :=
  match s with [] => None | c :: s => Some (c, s, i + 1) end.

(** The digit of the loop of [strtoul]. *)
Definition digit36 (c : Z) : option Z :=
  if (48 <=? c) && (c <=? 57) then Some (c - 48)
  else if (65 <=? c) && (c <=? 90) then Some (c - (65 - 10))
  else if (97 <=? c) && (c <=? 122) then Some (c - (97 - 10))
  else None.

Fixpoint strtoul_loop (c : Z) (s : list Z) (i base acc any : Z) : option (Z * Z * Z) :=
  match digit36 c with
  | None => Some (acc, any, i)
  | Some d =>
      if base <=? d then Some (acc, any, i) else
      let cutoff := ULONG_MAX / base in
      let cutlim := ULONG_MAX mod base in
      let '(acc, any) :=
        if (any <? 0) || (cutoff <? acc) || ((acc =? cutoff) && (cutlim <? d)) then (acc, -1)
        else (u64 (u64 (acc * base) + d), 1) in
      match s with
      | [] => None
      | c :: s => strtoul_loop c s (i + 1) base acc any
      end
  end.

(** A character that starts the digits of a hexadecimal number. *)
Definition is_hex (c : Z) : bool :=
  ((48 <=? c) && (c <=? 57)) || ((65 <=? c) && (c <=? 70)) || ((97 <=? c) && (c <=? 102)).

(** After a "0": the two characters of a prefix. *)
Definition hex_prefix (s : list Z) (i : Z) : option (option (Z * list Z * Z)) :=
  match s with
  | [] => None
  | x :: s1 =>
      if (x =? 120) || (x =? 88) then
        match s1 with
        | [] => None
        | c :: s2 => Some (if is_hex c then Some (c, s2, i + 2) else None)
        end
      else Some None
  end.

(** From the first character after the sign on. *)
Definition strtoul_number (neg : bool) (c : Z) (s : list Z) (i base : Z) : option (Z * Z) :=
  '(c, s, i, base) ←
    (if ((base =? 0) || (base =? 16)) && (c =? 48) then
       p ← hex_prefix s i;
       Some (match p with Some (c, s, i) => (c, s, i, 16) | None => (c, s, i, base) end)
     else Some (c, s, i, base));
  let base := if base =? 0 then (if c =? 48 then 8 else 10) else base in
  if (base <? 2) || (36 <? base) then Some (0, 0) else
  '(acc, any, i) ← strtoul_loop c s i base 0 0;
  let acc := if any <? 0 then ULONG_MAX else if any =? 0 then acc else if neg then u64 (- acc) else acc in
  Some (acc, if any =? 0 then 0 else i - 1).

(** The number and the offset of [*endptr]. *)
Definition strtoul (nptr : list Z) (base : Z) : option (Z * Z) :=
  '(c, s, i) ← skip_spaces nptr 0;
  if c =? 45 then '(c, s, i) ← next_char s i; strtoul_number true c s i base
  else if c =? 43 then '(c, s, i) ← next_char s i; strtoul_number false c s i base
  else strtoul_number false c s i base.

Fixpoint strnlen (str : list Z) (maxlen : nat) : option Z :=
  match maxlen with
  | O => Some 0
  | S maxlen =>
      match str with
      | [] => None
      | c :: str => if c =? 0 then Some 0 else n ← strnlen str maxlen; Some (1 + n)
      end
  end.

(** Offsets; NULL is [None] inside. *)
Fixpoint memchr_loop (p : list Z) (ch : Z) (n : nat) (i : Z) : option (option Z) :=
  match n with
  | O => Some None
  | S n =>
      match p with
      | [] => None
      | c :: p => if c =? ch then Some (Some i) else memchr_loop p ch n (i + 1)
      end
  end.
Definition memchr (p : list Z) (ch n : Z) : option (option Z) := memchr_loop p ch (Z.to_nat n) 0.

Fixpoint strchr_loop (str : list Z) (ch i : Z) : option (option Z) :=
  match str with
  | [] => None
  | c :: str => if c =? u8 ch then Some (Some i) else if c =? 0 then Some None else strchr_loop str ch (i + 1)
  end.
Definition strchr (str : list Z) (ch : Z) : option (option Z) := strchr_loop str ch 0.

Fixpoint strrchr_loop (str : list Z) (ch i : Z) (p : option Z) : option (option Z) :=
  match str with
  | [] => None
  | c :: str =>
      let p := if c =? u8 ch then Some i else p in
      if c =? 0 then Some p else strrchr_loop str ch (i + 1) p
  end.
Definition strrchr (str : list Z) (ch : Z) : option (option Z) := strrchr_loop str ch 0 None.

(** The bytes of the new string. *)
Definition strdup (s : list Z) : option (list Z) := n ← strlen s; slice s 0 (n + 1).

(** ** [misc.c] *)
Fixpoint parse_resolution_loop (n : nat) (first : list Z) (res : list Z) : option (list Z) :=
  match n with
  | O => Some res
  | S n =>
      '(x, last) ← strtoui first 10;
      if last =? 0 then Some res else
      let res := res ++ [x] in
      match drop (Z.to_nat last) first with
      | [] => None
      | c :: next => if c =? 0 then Some res else parse_resolution_loop n next res
      end
  end.

(** Width, height and depth; false is [None] inside. *)
Definition parse_resolution (buf : list Z) : option (option (Z * Z * Z)) :=
  res ← parse_resolution_loop 3 buf [];
  let r i := default 0 (res !! i) in
  Some (if (r 0%nat =? 0) || (r 1%nat =? 0) then None
        else Some (r 0%nat, r 1%nat, if r 2%nat =? 0 then 32 else r 2%nat)).

(** [one] is a power of four: the loops halve its exponent. *)
Fixpoint sqrt_start (fuel : nat) (one op : Z) : Z :=
  match fuel with O => one | S fuel => if op <? one then sqrt_start fuel (Z.shiftr one 2) op else one end.

Fixpoint sqrt_loop (fuel : nat) (op res one : Z) : option Z :=
  match fuel with
  | O => None
  | S fuel =>
      if one =? 0 then Some res else
      let '(op, res) := if u64 (res + one) <=? op then (op - u64 (res + one), u64 (res + u64 (2 * one))) else (op, res) in
      sqrt_loop fuel op (Z.shiftr res 1) (Z.shiftr one 2)
  end.

Definition sqrt (a_nInput : Z) : option Z :=
  sqrt_loop 33 a_nInput 0 (sqrt_start 32 (Z.shiftl 1 62) a_nInput).

Fixpoint get_trailing_zeros_loop (n : nat) (i val : Z) : Z :=
  match n with
  | O => 64
  | S n => if negb (Z.land val 1 =? 0) then i else get_trailing_zeros_loop n (i + 1) (Z.shiftr val 1)
  end.
Definition get_trailing_zeros (val : Z) : Z := get_trailing_zeros_loop 64 0 val.
