(* ===== verification/LibcProofs.v ===== *)
(** The C library does what its functions are for: moving memory, comparing
    strings, reading numbers and addresses, square roots. *)
From S2P Require Import Prelude Libc.
From stdpp Require Import strings.
Open Scope list_scope.
Open Scope Z_scope.

(** ** Memory *)

(** [m'] is [m] with [n] bytes from [src] at [dest]. *)
Definition moved (m m' : list Z) (dest src n : Z) : Prop :=
  len m' = len m ∧ ∀ i, m'.[i] = if decide (dest ≤ i < dest + n) then m.[src + (i - dest)] else m.[i].

Lemma copy_up_ok m dest src n : 0 ≤ n → 0 ≤ dest → 0 ≤ src → dest + n ≤ len m → src + n ≤ len m →
  dest ≤ src ∨ src + n ≤ dest →
  returns (for_range 0 n (λ i m, x ← m.[src + i]; m.[dest + i <- x]) m) (λ m', moved m m' dest src n).
Proof.
  intros Hn Hd Hs Hdl Hsl Hov. apply (for_range_inv (λ i m', moved m m' dest src i)); [done| |].
  - split; [done|]. intros i. by rewrite decide_False by lia.
  - intros i m1 Hi [Hl Hm]. apply returns_bind_get; [lia|]. intros x Hx. apply returns_set; [lia|].
    intros m2 Hm2 Hl2. split; [lia|]. intros j. rewrite (arr_get_set _ _ _ _ _ Hm2), Hm. rewrite Hm in Hx.
    rewrite decide_False in Hx by lia. repeat case_decide; try lia; try done. subst j. rewrite <- Hx. f_equal. lia.
Qed.

Lemma memmove_ok m dest src n : 0 ≤ n → 0 ≤ dest → 0 ≤ src → dest + n ≤ len m → src + n ≤ len m →
  returns (memmove m dest src n) (λ m', moved m m' dest src n).
Proof.
  intros Hn Hd Hs Hdl Hsl. unfold memmove. destruct (Z.ltb_spec dest src); [by apply copy_up_ok; auto; lia|].
  destruct (Z.ltb_spec src dest).
  - pose proof (for_down_inv (λ i m', len m' = len m ∧ ∀ j, m'.[j] = if decide (dest + i ≤ j < dest + n) then m.[src + (j - dest)] else m.[j])
      (Z.to_nat n) (λ i m, x ← m.[src + i]; m.[dest + i <- x]) m) as Hinv.
    eapply returns_weaken; [apply Hinv|].
    + split; [done|]. intros j. by rewrite decide_False by lia.
    + intros i m1 Hi [Hl Hm]. apply returns_bind_get; [lia|]. intros x Hx. apply returns_set; [lia|].
      intros m2 Hm2 Hl2. split; [lia|]. intros j. rewrite (arr_get_set _ _ _ _ _ Hm2), Hm. rewrite Hm in Hx.
      rewrite decide_False in Hx by lia. repeat case_decide; try lia; try done. subst j. rewrite <- Hx. f_equal. lia.
    + cbv beta. intros m' [Hl Hm]. split; [done|]. intros j. rewrite Hm. by rewrite Z.add_0_r.
  - apply returns_ret. assert (src = dest) as -> by lia. split; [done|]. intros j. case_decide; f_equal; lia.
Qed.

Lemma memset_ok m s c n : 0 ≤ n → 0 ≤ s → s + n ≤ len m →
  returns (memset m s c n) (λ m', len m' = len m ∧ ∀ i, m'.[i] = if decide (s ≤ i < s + n) then Some (u8 c) else m.[i]).
Proof.
  intros Hn Hs Hl. apply (for_range_inv (λ i m', len m' = len m ∧ ∀ j, m'.[j] = if decide (s ≤ j < s + i) then Some (u8 c) else m.[j]) 0 n); [done| |].
  - split; [done|]. intros i. by rewrite decide_False by lia.
  - intros i m1 Hi [Hl1 Hm]. apply returns_set; [lia|]. intros m2 Hm2 Hl2. split; [lia|].
    intros j. rewrite (arr_get_set _ _ _ _ _ Hm2), Hm. repeat case_decide; try lia; try done.
Qed.

(** [memmove] moves a range within a memory however the two overlap,
    [memcpy] if the target does not start inside the source, [memset] fills; all
    leave every other byte alone and stay in bounds. *)
Theorem libc_memory_correct m dest src c n :
  0 ≤ n → 0 ≤ dest → 0 ≤ src → dest + n ≤ len m → src + n ≤ len m →
  returns (memmove m dest src n) (λ m', moved m m' dest src n) ∧
  (dest ≤ src ∨ src + n ≤ dest → returns (memcpy m dest src n) (λ m', moved m m' dest src n)) ∧
  returns (memset m dest c n) (λ m', len m' = len m ∧ ∀ i, m'.[i] = if decide (dest ≤ i < dest + n) then Some (u8 c) else m.[i]).
Proof.
  intros. split; [by apply memmove_ok|]. split; [|by apply memset_ok]. intros. by apply copy_up_ok.
Qed.

Lemma libc_memory_correct_witness :
  memmove [1; 2; 3; 4; 5] 1 0 4 = Some [1; 1; 2; 3; 4] ∧
  returns (memset [1; 2; 3; 4; 5] 1 7 4)
    (λ m', len m' = len [1; 2; 3; 4; 5] ∧ ∀ i, m'.[i] = if decide (1 ≤ i < 1 + 4) then Some (u8 7) else [1; 2; 3; 4; 5].[i]).
Proof.
  split; [vm_compute; reflexivity|].
  refine (proj2 (proj2 (libc_memory_correct [1; 2; 3; 4; 5] 1 0 7 4 _ _ _ _ _))); by vm_compute.
Defined.

(** ** Strings *)

(** The characters of a string, without its terminator. *)
Definition chars (t : list Z) : Prop := Forall (λ c, 0 < c < 256) t.

(** The order of strings. *)
Fixpoint order (a b : list Z) : Z :=
  match a, b with
  | [], [] => 0
  | [], _ :: _ => -1
  | _ :: _, [] => 1
  | x :: a, y :: b => if x =? y then order a b else if x <? y then -1 else 1
  end.

Lemma order_eq a b : order a b = 0 ↔ a = b.
Proof.
  revert b. induction a as [|x a IH]; intros [|y b]; cbn [order]; try (split; done).
  destruct (Z.eqb_spec x y) as [->|]; [rewrite IH; split; congruence|].
  destruct (x <? y); split; congruence.
Qed.

Lemma tolower_pos c : 0 < c → 0 < tolower c.
Proof. unfold tolower. destruct (_ && _); lia. Qed.

Lemma strncmp_order a b r1 r2 n : chars a → chars b →
  strncmp (a ++ 0 :: r1) (b ++ 0 :: r2) n = Some (order (take n a) (take n b)).
Proof.
  intros Ha. revert b n. induction Ha as [|x a Hx Ha IH]; intros b [|n] Hb; cbn [strncmp]; try done;
    destruct Hb as [|y b Hy Hb]; cbn [app strncmp take order negb]; try done.
  - rewrite (proj2 (Z.eqb_neq 0 y)), (proj2 (Z.ltb_lt 0 y)) by lia. done.
  - rewrite (proj2 (Z.eqb_neq x 0)), (proj2 (Z.ltb_ge x 0)) by lia. done.
  - destruct (Z.eqb_spec x y) as [->|]; [|by destruct (x <? y)]. cbn [negb].
    rewrite (proj2 (Z.eqb_neq y 0)) by lia. by apply IH.
Qed.

Lemma strncasecmp_order a b r1 r2 n : chars a → chars b →
  strncasecmp (a ++ 0 :: r1) (b ++ 0 :: r2) n = Some (order (take n (map tolower a)) (take n (map tolower b))).
Proof.
  intros Ha. revert b n. induction Ha as [|x a Hx Ha IH]; intros b [|n] Hb; cbn [strncasecmp]; try done;
    destruct Hb as [|y b Hy Hb]; cbn [app strncasecmp take map order negb]; try done.
  - change (tolower 0) with 0. pose proof (tolower_pos y). rewrite (proj2 (Z.eqb_neq 0 _)), (proj2 (Z.ltb_lt 0 _)) by lia. done.
  - change (tolower 0) with 0. pose proof (tolower_pos x). rewrite (proj2 (Z.eqb_neq _ 0)), (proj2 (Z.ltb_ge _ 0)) by lia. done.
  - destruct (Z.eqb_spec (tolower x) (tolower y)) as [->|]; [|by destruct (_ <? _)]. cbn [negb].
    rewrite (proj2 (Z.eqb_neq x 0)) by lia. by apply IH.
Qed.

Lemma strcmp_order a b r1 r2 : chars a → chars b → strcmp (a ++ 0 :: r1) (b ++ 0 :: r2) = Some (order a b).
Proof.
  intros Ha. revert b. induction Ha as [|x a Hx Ha IH]; intros b Hb;
    destruct Hb as [|y b Hy Hb]; cbn [app strcmp order negb]; try done.
  - rewrite (proj2 (Z.eqb_neq 0 y)), (proj2 (Z.ltb_lt 0 y)) by lia. done.
  - rewrite (proj2 (Z.eqb_neq x 0)), (proj2 (Z.ltb_ge x 0)) by lia. done.
  - destruct (Z.eqb_spec x y) as [->|]; [|by destruct (x <? y)]. cbn [negb].
    rewrite (proj2 (Z.eqb_neq y 0)) by lia. by apply IH.
Qed.

Lemma strcasecmp_order a b r1 r2 : chars a → chars b →
  strcasecmp (a ++ 0 :: r1) (b ++ 0 :: r2) = Some (order (map tolower a) (map tolower b)).
Proof.
  intros Ha. revert b. induction Ha as [|x a Hx Ha IH]; intros b Hb;
    destruct Hb as [|y b Hy Hb]; cbn [app strcasecmp map order negb]; try done.
  - change (tolower 0) with 0. pose proof (tolower_pos y). rewrite (proj2 (Z.eqb_neq 0 _)), (proj2 (Z.ltb_lt 0 _)) by lia. done.
  - change (tolower 0) with 0. pose proof (tolower_pos x). rewrite (proj2 (Z.eqb_neq _ 0)), (proj2 (Z.ltb_ge _ 0)) by lia. done.
  - destruct (Z.eqb_spec (tolower x) (tolower y)) as [->|]; [|by destruct (_ <? _)]. cbn [negb].
    rewrite (proj2 (Z.eqb_neq x 0)) by lia. by apply IH.
Qed.

Lemma strlen_ok a r : chars a → strlen (a ++ 0 :: r) = Some (len a).
Proof.
  intros Ha. induction Ha as [|x a Hx Ha IH]; cbn [app strlen]; [done|].
  rewrite (proj2 (Z.eqb_neq x 0)), IH by lia. cbn [mbind option_bind]. by rewrite len_cons.
Qed.

Lemma strnlen_ok a r n : chars a → strnlen (a ++ 0 :: r) n = Some (Z.min (len a) (Z.of_nat n)).
Proof.
  intros Ha. revert n. induction Ha as [|x a Hx Ha IH]; intros n; destruct n as [|n]; cbn [app strnlen].
  - done.
  - done.
  - rewrite len_cons. pose proof (len_nonneg a). f_equal. lia.
  - rewrite (proj2 (Z.eqb_neq x 0)), IH by lia. cbn [mbind option_bind]. rewrite len_cons. f_equal. lia.
Qed.

Lemma memcmp_order a b n : length a = n → length b = n → memcmp a b n = Some (order a b).
Proof.
  revert a b. induction n as [|n IH]; intros [|x a] [|y b] Ha Hb; try done. cbn [memcmp order].
  destruct (Z.eqb_spec x y); [|by destruct (x <? y)]. cbn [negb]. apply IH; by injection Ha; injection Hb.
Qed.

(** the comparisons are the comparison of the strings, of their beginnings
    and up to the case of letters, and zero exactly for equal ones; the
    lengths are the lengths; nothing is read behind a terminator. *)
Theorem libc_strings_correct a b r1 r2 n : chars a → chars b →
  let s1 := a ++ 0 :: r1 in let s2 := b ++ 0 :: r2 in
  strcmp s1 s2 = Some (order a b) ∧
  strncmp s1 s2 n = Some (order (take n a) (take n b)) ∧
  strcasecmp s1 s2 = Some (order (map tolower a) (map tolower b)) ∧
  strncasecmp s1 s2 n = Some (order (take n (map tolower a)) (take n (map tolower b))) ∧
  (order a b = 0 ↔ a = b) ∧
  strlen s1 = Some (len a) ∧ strnlen s1 n = Some (Z.min (len a) (Z.of_nat n)).
Proof.
  intros Ha Hb. cbv zeta. rewrite strcmp_order, strncmp_order, strcasecmp_order, strncasecmp_order, strlen_ok, strnlen_ok by done.
  split_and!; try done. all: apply order_eq.
Qed.

Lemma libc_strings_correct_witness :
  strncasecmp (lit "Timeout: 5" ++ [0]) (lit "TIMEOUT" ++ [0]) 7 = Some 0 ∧
  strcmp (lit "boot" ++ 0 :: []) (lit "book" ++ 0 :: []) = Some (order (lit "boot") (lit "book")).
Proof.
  split; [vm_compute; reflexivity|].
  refine (proj1 (libc_strings_correct (lit "boot") (lit "book") [] [] 2 _ _)); vm_compute; repeat constructor.
Defined.

(** ** Numbers *)

(** The digits of a base, by [dig], and the number they are. *)
Section digits.
Context (dig : Z → Z) (base : Z).
Definition digits (cs : list Z) : Prop := Forall (λ c, 0 ≤ dig c < base) cs.
Definition value (n : Z) (cs : list Z) : Z := foldl (λ n c, n * base + dig c) n cs.

Lemma value_ge n cs : 1 ≤ base → 0 ≤ n → digits cs → n ≤ value n cs.
Proof.
  intros Hb. revert n. induction cs as [|c cs IH]; intros n Hn Hd; [cbn; lia|].
  apply Forall_cons in Hd as [Hc Hd]. cbn. fold (value (n * base + dig c) cs).
  assert (n ≤ n * base) by nia. specialize (IH (n * base + dig c) ltac:(lia) Hd). lia.
Qed.
End digits.

Lemma strtoui_loop_ok base cs c r n i : 1 ≤ base → digits digit_to_int base cs →
  digit_to_int c = -1 ∨ base ≤ digit_to_int c → 0 ≤ n < 2 ^ 64 →
  let v := value digit_to_int base n cs in
  ∃ e, strtoui_loop (cs ++ c :: r) base n i = Some (Z.min v (2 ^ 64 - 1), e) ∧ i ≤ e ≤ i + len cs ∧
       (v < 2 ^ 64 → e = i + len cs).
Proof.
  intros Hb Hd Hc Hn. cbv zeta. revert n i Hn. induction Hd as [|x cs Hx Hd IH]; intros n i Hn.
  - exists i. cbn [app strtoui_loop value foldl]. rewrite len_nil.
    assert ((digit_to_int c =? -1) || (base <=? digit_to_int c) = true) as ->.
    { destruct Hc as [->|]; [done|]. rewrite (proj2 (Z.leb_le base _)) by done. apply orb_true_r. }
    split; [f_equal; f_equal; lia|]. lia.
  - cbn [app strtoui_loop value foldl]. fold (value digit_to_int base (n * base + digit_to_int x) cs).
    rewrite (proj2 (Z.eqb_neq _ (-1))), (proj2 (Z.leb_gt base _)) by lia. cbn [orb]. rewrite len_cons.
    pose proof (value_ge digit_to_int base (n * base + digit_to_int x) cs Hb ltac:(nia) Hd) as Hge. pose proof (len_nonneg cs).
    unfold mul64. destruct (Z.ltb_spec (n * base) (2 ^ 64)).
    + unfold add64. destruct (Z.ltb_spec (n * base + digit_to_int x) (2 ^ 64)).
      * destruct (IH (n * base + digit_to_int x) (i + 1)) as (e & -> & He & Hv); [nia|]. exists e. split; [done|].
        split; [lia|]. intros Hlt. rewrite (Hv Hlt). lia.
      * exists i. split; [f_equal; f_equal; lia|]. lia.
    + exists i. split; [f_equal; f_equal; lia|]. lia.
Qed.

(** The digit of a character of [strtoul], -1 for none. *)
Definition dig36 (c : Z) : Z := default (-1) (digit36 c).

Lemma dig36_Some c : 0 ≤ dig36 c → digit36 c = Some (dig36 c).
Proof. unfold dig36. destruct (digit36 c); cbn; [done|lia]. Qed.

Lemma dig36_None c base : 0 < base → dig36 c = -1 ∨ base ≤ dig36 c →
  digit36 c = None ∨ ∃ d, digit36 c = Some d ∧ base ≤ d.
Proof.
  unfold dig36, digit36. intros Hb. repeat (case_match; cbn); intros [?|?]; try lia; try (by left); right; eexists; split; try done; try lia.
Qed.

(** The test of [strtoul] for overflow. *)
Lemma cutoff_spec acc base d : 0 < base → 0 ≤ acc → 0 ≤ d < base →
  (ULONG_MAX / base <? acc) || ((acc =? ULONG_MAX / base) && (ULONG_MAX mod base <? d)) = (ULONG_MAX <? acc * base + d).
Proof.
  intros Hb Ha Hd. pose proof (Z.div_mod ULONG_MAX base ltac:(lia)) as Hq. pose proof (Z.mod_pos_bound ULONG_MAX base Hb) as Hm.
  set (q := ULONG_MAX / base) in *. set (m := ULONG_MAX mod base) in *. clearbody q m.
  destruct (Z.ltb_spec q acc) as [Hlt|Hge]; cbn [orb].
  { symmetry. apply Z.ltb_lt. nia. }
  destruct (Z.eqb_spec acc q) as [->|Hne]; cbn [andb].
  - destruct (Z.ltb_spec m d); symmetry; [apply Z.ltb_lt|apply Z.ltb_ge]; lia.
  - symmetry. apply Z.ltb_ge. nia.
Qed.

Lemma strtoul_loop_ok base cs c r x s i acc any : 2 ≤ base → digits dig36 base cs →
  dig36 c = -1 ∨ base ≤ dig36 c → x :: s = cs ++ c :: r → 0 ≤ acc ≤ ULONG_MAX →
  let v := value dig36 base acc cs in
  let over := (any <? 0) || (ULONG_MAX <? v) in
  ∃ acc', strtoul_loop x s i base acc any =
    Some (acc', if bool_decide (cs = []) then any else if over then -1 else 1, i + len cs) ∧ (over = false → acc' = v).
Proof.
  intros Hb Hd Hc. cbv zeta. revert x s i acc any. induction Hd as [|y cs Hy Hd IH]; intros x s i acc any Hl Ha.
  - injection Hl as -> ->. exists acc. rewrite bool_decide_true by done. rewrite len_nil, Z.add_0_r.
    split; [|done]. destruct r as [|? ?]; cbn [strtoul_loop];
    (destruct (dig36_None c base ltac:(lia) Hc) as [->|(d & -> & Hd)]; [done|]; by rewrite (proj2 (Z.leb_le base d)) by done).
  - injection Hl as -> ->. rewrite bool_decide_false by done.
    assert (∃ z t, cs ++ c :: r = z :: t) as (z & t & Hzt) by (destruct cs; eauto).
    rewrite Hzt. cbn [strtoul_loop]. rewrite (dig36_Some y) by lia. rewrite (proj2 (Z.leb_gt base _)) by lia.
    rewrite <- orb_assoc, (cutoff_spec acc base (dig36 y)) by lia. cbn [value foldl].
    fold (value dig36 base (acc * base + dig36 y) cs). rewrite len_cons.
    assert (0 ≤ acc * base + dig36 y) as Hn by nia.
    pose proof (value_ge dig36 base (acc * base + dig36 y) cs ltac:(lia) Hn Hd) as Hge.
    destruct ((any <? 0) || (ULONG_MAX <? acc * base + dig36 y)) eqn:Hover.
    + destruct (IH z t (i + 1) acc (-1) (eq_sym Hzt) Ha) as (acc' & -> & _). exists acc'.
      assert ((any <? 0) || (ULONG_MAX <? value dig36 base (acc * base + dig36 y) cs) = true) as ->.
      { apply orb_true_iff in Hover as [->|Hlt]; [done|]. rewrite (proj2 (Z.ltb_lt ULONG_MAX _)); [apply orb_true_r|].
        apply Z.ltb_lt in Hlt. lia. }
      split; [|done]. cbn [Z.ltb Z.compare orb]. f_equal. f_equal; [|lia]. by case_bool_decide.
    + apply orb_false_iff in Hover as [Hany Hlt]. apply Z.ltb_ge in Hlt. unfold ULONG_MAX in Hlt.
      assert (acc * base < 2 ^ 64) by nia. change (2 ^ 64) with 18446744073709551616 in *.
      rewrite (u64_id (acc * base)), u64_id by nia.
      destruct (IH z t (i + 1) (acc * base + dig36 y) 1 (eq_sym Hzt)) as (acc' & -> & Hacc); [unfold ULONG_MAX; lia|].
      exists acc'. rewrite Hany. cbn [Z.ltb Z.compare orb] in *. split; [|done]. f_equal. f_equal; [|lia]. f_equal.
      case_bool_decide as Hcs; [|done]. subst cs. cbn [value foldl].
      by rewrite (proj2 (Z.ltb_ge ULONG_MAX _)) by (unfold ULONG_MAX; lia).
Qed.

Lemma skip_spaces_ok sp c s i : Forall (λ c, isspace c = true) sp → isspace c = false →
  skip_spaces (sp ++ c :: s) i = Some (c, s, i + len sp + 1).
Proof.
  intros Hsp Hc. revert i. induction Hsp as [|x sp Hx Hsp IH]; intros i; cbn [app skip_spaces].
  - rewrite Hc, len_nil. f_equal. f_equal. lia.
  - rewrite Hx, IH, len_cons. f_equal. f_equal. lia.
Qed.

(** A digit is no space and no sign. *)
Lemma digit_plain c : 0 ≤ dig36 c → isspace c = false ∧ c ≠ 45 ∧ c ≠ 43.
Proof.
  unfold dig36, digit36, isspace. intros Hd. repeat (case_match; cbn in Hd); try lia;
    repeat match goal with H : _ && _ = true |- _ => apply andb_true_iff in H as [? ?] end; lia.
Qed.

(** The same number, and positions that are equal by arithmetic. *)
Ltac pos_eq :=
  match goal with |- Some (?a, ?x) = Some (?a, ?y) => replace x with y by len_lia; reflexivity end.

Lemma strtoul_number_ok neg x cs c r i base : 2 ≤ base ≤ 36 → digits dig36 base (x :: cs) →
  dig36 c = -1 ∨ base ≤ dig36 c → (base = 16 → c ≠ 120 ∧ c ≠ 88) →
  let v := value dig36 base 0 (x :: cs) in
  strtoul_number neg x (cs ++ c :: r) i base =
    Some (if ULONG_MAX <? v then ULONG_MAX else if neg then u64 (- v) else v, i + len cs).
Proof.
  intros Hb Hd Hc H16. cbv zeta. unfold strtoul_number.
  rewrite (proj2 (Z.eqb_neq base 0)) by lia. cbn [orb].
  assert ((if (base =? 16) && (x =? 48) then
       p ← hex_prefix (cs ++ c :: r) i;
       Some (match p with Some (c, s, i) => (c, s, i, 16) | None => (x, cs ++ c :: r, i, base) end)
     else Some (x, cs ++ c :: r, i, base)) = Some (x, cs ++ c :: r, i, base)) as ->.
  { destruct (Z.eqb_spec base 16) as [->|]; [|done]. destruct (x =? 48); [|done]. cbn [andb].
    assert (∃ y t, cs ++ c :: r = y :: t ∧ y ≠ 120 ∧ y ≠ 88) as (y & t & -> & Hy1 & Hy2).
    { destruct cs as [|y cs]; [exists c, r; by destruct (H16 eq_refl)|]. exists y, (cs ++ c :: r). split; [done|].
      apply Forall_cons in Hd as [_ [Hy _]%Forall_cons]. cbv beta in Hy.
      split; intros ->; [change (dig36 120) with 33 in Hy|change (dig36 88) with 33 in Hy]; lia. }
    cbn [hex_prefix]. by rewrite (proj2 (Z.eqb_neq y 120)), (proj2 (Z.eqb_neq y 88)) by done. }
  cbn [mbind option_bind]. rewrite (proj2 (Z.eqb_neq base 0)), (proj2 (Z.ltb_ge base 2)), (proj2 (Z.ltb_ge 36 base)) by lia. cbn [orb].
  destruct (strtoul_loop_ok base (x :: cs) c r x (cs ++ c :: r) i 0 0 ltac:(lia) Hd Hc eq_refl) as (acc & -> & Hacc); [by unfold ULONG_MAX|].
  cbn [mbind option_bind]. rewrite bool_decide_false by done. cbn [Z.ltb Z.compare orb] in *. rewrite len_cons.
  destruct (ULONG_MAX <? value dig36 base 0 (x :: cs)) eqn:Hv; cbn [Z.ltb Z.compare Z.eqb].
  - pos_eq.
  - rewrite (Hacc eq_refl). pos_eq.
Qed.

(** The optional sign, and whether it is a minus. *)
Definition sign_of (sg : list Z) (neg : bool) : Prop :=
  (sg = [] ∧ neg = false) ∨ (sg = [43] ∧ neg = false) ∨ (sg = [45] ∧ neg = true).

Lemma strtoul_ok base sp sg neg cs c r : 2 ≤ base ≤ 36 → Forall (λ c, isspace c = true) sp → sign_of sg neg →
  cs ≠ [] → digits dig36 base cs → dig36 c = -1 ∨ base ≤ dig36 c → (base = 16 → c ≠ 120 ∧ c ≠ 88) →
  let v := value dig36 base 0 cs in
  strtoul (sp ++ sg ++ cs ++ c :: r) base =
    Some (if ULONG_MAX <? v then ULONG_MAX else if neg then u64 (- v) else v, len sp + len sg + len cs).
Proof.
  intros Hb Hsp Hsg Hcs Hd Hc H16. cbv zeta. unfold strtoul.
  destruct cs as [|x cs]; [done|]. assert (0 ≤ dig36 x < base) as Hx by (by apply Forall_cons in Hd as [? _]).
  destruct (digit_plain x) as (Hxs & Hx1 & Hx2); [lia|].
  destruct Hsg as [(-> & ->)|[(-> & ->)|(-> & ->)]]; cbn [app]; rewrite skip_spaces_ok by done;
    cbn [mbind option_bind next_char Z.eqb Pos.eqb].
  - rewrite (proj2 (Z.eqb_neq x 45)), (proj2 (Z.eqb_neq x 43)) by done.
    rewrite strtoul_number_ok by done. pos_eq.
  - rewrite strtoul_number_ok by done. pos_eq.
  - rewrite strtoul_number_ok by done. pos_eq.
Qed.



(** ** Addresses *)

(** The text of [n] decimal octets with dots between them. *)
Inductive octets : nat → list Z → list Z → Prop :=
  | oct_last cs : cs ≠ [] → digits digit_to_int 10 cs → value digit_to_int 10 0 cs ≤ 255 →
      octets 1 cs [value digit_to_int 10 0 cs]
  | oct_more n cs t vs : cs ≠ [] → digits digit_to_int 10 cs → value digit_to_int 10 0 cs ≤ 255 →
      octets n t vs → octets (S n) (cs ++ 46 :: t) (value digit_to_int 10 0 cs :: vs).

(** Every string starts with its longest run of digits. *)
Lemma digits_span t r : ∃ cs c s, t ++ 0 :: r = cs ++ c :: s ∧ digits digit_to_int 10 cs ∧
  (digit_to_int c = -1 ∨ 10 ≤ digit_to_int c) ∧ len cs ≤ len t ∧ (c = 0 ∧ t = cs ∧ s = r ∨ ∃ t', t = cs ++ c :: t').
Proof.
  induction t as [|x t IH].
  - exists [], 0, r. split_and!; [done|constructor|by left|done|by left].
  - destruct (decide (0 ≤ digit_to_int x < 10)) as [Hx|Hx].
    + destruct IH as (cs & c & s & Heq & Hd & Hc & Hl & Hcase). exists (x :: cs), c, s. cbn [app].
      split; [by rewrite Heq|]. split; [by constructor|]. split; [done|]. rewrite !len_cons. split; [lia|].
      destruct Hcase as [(-> & -> & ->)|(t' & ->)]; [by left|right; by exists t'].
    + exists [], x, (t ++ 0 :: r). split; [done|]. split; [constructor|]. split.
      { unfold digit_to_int in *. repeat case_match; lia. }
      split; [rewrite len_nil; apply len_nonneg|]. right. by exists t.
Qed.

Lemma strtoui_10 cs c s : digits digit_to_int 10 cs → digit_to_int c = -1 ∨ 10 ≤ digit_to_int c →
  ∃ e, strtoui (cs ++ c :: s) 10 = Some (Z.min (value digit_to_int 10 0 cs) (2 ^ 64 - 1), e) ∧ 0 ≤ e ≤ len cs ∧
    (value digit_to_int 10 0 cs ≤ 255 → e = len cs) ∧ (cs = [] → e = 0).
Proof.
  intros Hd Hc. destruct (strtoui_loop_ok 10 cs c s 0 0 ltac:(lia) Hd Hc ltac:(lia)) as (e & H & He & Hv).
  exists e. split; [exact H|]. split; [lia|]. split; [intros; apply Hv; lia|]. intros Hn. assert (len cs = 0) by (by rewrite Hn). lia.
Qed.

Lemma dot_stops : digit_to_int 46 = -1 ∨ 10 ≤ digit_to_int 46.
Proof. by left. Qed.
Lemma nul_stops : digit_to_int 0 = -1 ∨ 10 ≤ digit_to_int 0.
Proof. by left. Qed.

Lemma octet_step n cs c s array : cs ≠ [] → digits digit_to_int 10 cs → value digit_to_int 10 0 cs ≤ 255 →
  digit_to_int c = -1 ∨ 10 ≤ digit_to_int c →
  inet_pton_loop (S n) (cs ++ c :: s) array =
    if (0 <? n)%nat then if negb (c =? 46) then Some None else inet_pton_loop n s (array ++ [value digit_to_int 10 0 cs])
    else if negb (c =? 0) then Some None else inet_pton_loop n (c :: s) (array ++ [value digit_to_int 10 0 cs]).
Proof.
  intros Hne Hd Hv Hc. cbn [inet_pton_loop]. destruct (strtoui_10 cs c s Hd Hc) as (e & -> & _ & He & _).
  rewrite (He Hv). cbn [mbind option_bind]. rewrite (proj2 (Z.eqb_neq (len cs) 0)) by (destruct cs; [done|rewrite len_cons; pose proof (len_nonneg cs); lia]).
  unfold len. rewrite Nat2Z.id, drop_app_length.
  assert (0 ≤ value digit_to_int 10 0 cs) by (apply value_ge; [lia|lia|done]).
  rewrite (proj2 (Z.ltb_ge 255 _)) by lia. by replace (Z.min (value digit_to_int 10 0 cs) (2 ^ 64 - 1)) with (value digit_to_int 10 0 cs) by lia.
Qed.

Lemma inet_complete n t vs r array : octets n t vs → inet_pton_loop n (t ++ 0 :: r) array = Some (Some (array ++ vs)).
Proof.
  intros Ho. revert array. induction Ho as [cs ? ? ?|n cs t vs ? ? ? Ho IH]; intros array.
  - rewrite octet_step by (done || apply nul_stops). done.
  - rewrite <- app_assoc. cbn [app]. rewrite octet_step by (done || apply dot_stops).
    assert (0 < n)%nat as Hn by (inversion Ho; lia). rewrite (proj2 (Nat.ltb_lt 0 n) Hn). cbn [Z.eqb Pos.eqb negb].
    rewrite IH, <- app_assoc. done.
Qed.

(** Without a run of digits, or with one that is too large, the text is
    refused. *)
Lemma octet_refused n cs c s array : digits digit_to_int 10 cs → digit_to_int c = -1 ∨ 10 ≤ digit_to_int c →
  cs = [] ∨ 255 < value digit_to_int 10 0 cs → inet_pton_loop (S n) (cs ++ c :: s) array = Some None.
Proof.
  intros Hd Hc Hbad. cbn [inet_pton_loop]. destruct (strtoui_10 cs c s Hd Hc) as (e & -> & Hr & _ & He).
  cbn [mbind option_bind]. destruct (Z.eqb_spec e 0); [done|].
  destruct Hbad as [->|Hv]; [by specialize (He eq_refl)|].
  destruct (drop (Z.to_nat e) (cs ++ c :: s)) as [|y l] eqn:Hdrop.
  { apply (f_equal length) in Hdrop. rewrite length_drop, length_app in Hdrop. unfold len in Hr. cbn in Hdrop. lia. }
  rewrite (proj2 (Z.ltb_lt 255 _)) by lia. by repeat case_match.
Qed.

Lemma inet_sound n t r array : (0 < n)%nat → chars t →
  (∃ vs, octets n t vs ∧ inet_pton_loop n (t ++ 0 :: r) array = Some (Some (array ++ vs))) ∨
  inet_pton_loop n (t ++ 0 :: r) array = Some None.
Proof.
  revert t array. induction n as [|n IH]; intros t array Hn Ht; [lia|].
  destruct (digits_span t r) as (cs & c & s & Heq & Hd & Hc & _ & Hcase).
  destruct (decide (cs = [] ∨ 255 < value digit_to_int 10 0 cs)) as [Hbad|Hok].
  { right. rewrite Heq. by apply octet_refused. }
  assert (cs ≠ [] ∧ value digit_to_int 10 0 cs ≤ 255) as [Hne Hv] by (split; [naive_solver|]; apply Z.nlt_ge; naive_solver).
  destruct Hcase as [(-> & -> & ->)|(t' & ->)].
  - rewrite octet_step by done. destruct n as [|n]; cbn [Nat.ltb Nat.leb Z.eqb negb]; [|by right].
    left. exists [value digit_to_int 10 0 cs]. split; [by constructor|done].
  - apply Forall_app in Ht as [_ [Hc0 Ht']%Forall_cons]. cbv beta in Hc0.
    rewrite <- app_assoc in *. cbn [app] in *. rewrite octet_step by done.
    destruct n as [|n]; cbn [Nat.ltb Nat.leb]; [rewrite (proj2 (Z.eqb_neq c 0)) by lia; by right|].
    destruct (Z.eqb_spec c 46) as [->|]; [|by right]. cbn [negb].
    destruct (IH t' (array ++ [value digit_to_int 10 0 cs])) as [(vs & Ho & ->)| ->]; [lia|done| |by right].
    left. exists (value digit_to_int 10 0 cs :: vs). rewrite <- app_assoc. split; [by constructor|done].
Qed.

(** C30: [inet_pton] takes exactly the texts of four decimal numbers up to 255
    with dots between them and gives the numbers. *)
Theorem inet_pton_correct t r : chars t →
  (∀ a, inet_pton (t ++ 0 :: r) = Some (Some a) ↔ octets 4 t a) ∧ inet_pton (t ++ 0 :: r) ≠ None.
Proof.
  intros Ht. unfold inet_pton. split.
  - intros a. split; [|apply (inet_complete 4 t a r [])].
    destruct (inet_sound 4 t r [] ltac:(lia) Ht) as [(vs & Ho & ->)| ->]; [by intros [= <-]|done].
  - destruct (inet_sound 4 t r [] ltac:(lia) Ht) as [(vs & Ho & ->)| ->]; done.
Qed.

Lemma inet_pton_correct_witness :
  inet_pton (lit "10.0.2.15" ++ [0]) = Some (Some [10; 0; 2; 15]) ∧ inet_pton (lit "10.0.2" ++ 0 :: []) ≠ None.
Proof.
  split; [vm_compute; reflexivity|].
  refine (proj2 (inet_pton_correct (lit "10.0.2") [] _)). vm_compute. repeat constructor.
Defined.

(** ** Square roots *)

Lemma sqrt_loop_ok k Q a fuel : (k ≤ 31)%nat → (k + 2 ≤ fuel)%nat → 0 ≤ Q → Q + 2 ^ Z.of_nat (S k) ≤ 2 ^ 32 →
  Q * Q ≤ a < (Q + 2 ^ Z.of_nat (S k)) * (Q + 2 ^ Z.of_nat (S k)) →
  ∃ r, sqrt_loop fuel (a - Q * Q) (2 * Q * 2 ^ Z.of_nat k) (4 ^ Z.of_nat k) = Some r ∧ r * r ≤ a < (r + 1) * (r + 1).
Proof.
  revert Q fuel. induction k as [|k IH]; intros Q fuel Hk Hf HQ HQb Ha.
  - destruct fuel as [|[|fuel]]; [lia|lia|]. cbn [sqrt_loop]. change (4 ^ Z.of_nat 0) with 1. change (2 ^ Z.of_nat 0) with 1.
    change (2 ^ Z.of_nat 1) with 2 in *. change (2 ^ 32) with 4294967296 in HQb.
    cbn [Z.eqb]. rewrite (u64_id (2 * 1)) by lia. rewrite (u64_id (2 * Q * 1 + 1)) by lia. rewrite (u64_id (2 * Q * 1 + 2 * 1)) by lia.
    change (Z.shiftr 1 2) with 0.
    destruct (Z.leb_spec (2 * Q * 1 + 1) (a - Q * Q)); cbn [Z.eqb].
    + exists (Q + 1). split; [|lia]. f_equal. rewrite Z.shiftr_div_pow2 by lia. symmetry. apply (Z.div_unique_pos _ _ _ 0); lia.
    + exists Q. split; [|lia]. f_equal. rewrite Z.shiftr_div_pow2 by lia. symmetry. apply (Z.div_unique_pos _ _ _ 0); lia.
  - destruct fuel as [|fuel]; [lia|]. cbn [sqrt_loop].
    set (p := 2 ^ Z.of_nat k). assert (0 < p) as Hp by (apply Z.pow_pos_nonneg; lia).
    assert (2 ^ Z.of_nat (S k) = 2 * p) as Hp1 by (unfold p; rewrite Nat2Z.inj_succ, Z.pow_succ_r by lia; done).
    assert (2 ^ Z.of_nat (S (S k)) = 4 * p) as Hp2 by (rewrite Nat2Z.inj_succ, Z.pow_succ_r, Hp1 by lia; ring).
    assert (4 ^ Z.of_nat k = p * p) as Hq by (unfold p; rewrite <- Z.pow_mul_l; done).
    assert (4 ^ Z.of_nat (S k) = 4 * (p * p)) as Hq1 by (rewrite Nat2Z.inj_succ, Z.pow_succ_r, Hq by lia; done).
    rewrite Hp2 in *. rewrite Hp1, Hq1. change (2 ^ 32) with 4294967296 in *.
    assert (Q ≤ 4294967296 - 4 * p) by lia.
    assert (4 * (p * p) <> 0) by nia. rewrite (proj2 (Z.eqb_neq _ 0)) by done.
    assert (0 ≤ Q * p ≤ (4294967296 - 4 * p) * p) by nia.
    assert (p ≤ 1073741824) by lia. pose proof (Z.square_nonneg (2 * p - 1073741824)).
    assert ((4294967296 - 4 * p) * p ≤ 1073741824 * 1073741824) by lia.
    assert (p * p ≤ 1073741824 * 1073741824) by (apply Z.mul_le_mono_nonneg; lia).
    assert (0 < p * p) by (by apply Z.mul_pos_pos).
    rewrite (u64_id (2 * (4 * (p * p)))) by lia. rewrite (u64_id (2 * Q * (2 * p) + 4 * (p * p))) by lia.
    rewrite (u64_id (2 * Q * (2 * p) + 2 * (4 * (p * p)))) by lia.
    assert (Z.shiftr (4 * (p * p)) 2 = 4 ^ Z.of_nat k) as ->.
    { rewrite Hq, Z.shiftr_div_pow2 by lia. symmetry. apply (Z.div_unique_pos _ _ _ 0); lia. }
    destruct (Z.leb_spec (2 * Q * (2 * p) + 4 * (p * p)) (a - Q * Q)).
    + replace (Z.shiftr (2 * Q * (2 * p) + 2 * (4 * (p * p))) 1) with (2 * (Q + 2 * p) * 2 ^ Z.of_nat k)
        by (fold p; rewrite Z.shiftr_div_pow2 by lia; apply (Z.div_unique_pos _ _ _ 0); lia).
      replace (a - Q * Q - (2 * Q * (2 * p) + 4 * (p * p))) with (a - (Q + 2 * p) * (Q + 2 * p)) by ring.
      apply IH; rewrite ?Hp1; nia.
    + replace (Z.shiftr (2 * Q * (2 * p)) 1) with (2 * Q * 2 ^ Z.of_nat k)
        by (fold p; rewrite Z.shiftr_div_pow2 by lia; apply (Z.div_unique_pos _ _ _ 0); lia).
      apply IH; rewrite ?Hp1; nia.
Qed.

(** The highest power of four that is not above the argument. *)
Lemma sqrt_start_ok n op : 0 ≤ op < 4 ^ Z.of_nat n →
  (op = 0 ∧ sqrt_start n (4 ^ (Z.of_nat n) / 4) op = 0) ∨
  ∃ k, (k < n)%nat ∧ sqrt_start n (4 ^ (Z.of_nat n) / 4) op = 4 ^ Z.of_nat k ∧ 4 ^ Z.of_nat k ≤ op < 4 ^ Z.of_nat (S k).
Proof.
  intros Ho. induction n as [|n IH].
  - left. cbn in *. split; [lia|done].
  - assert (4 ^ Z.of_nat (S n) / 4 = 4 ^ Z.of_nat n) as Hd.
    { rewrite Nat2Z.inj_succ, Z.pow_succ_r by lia. rewrite Z.mul_comm. by apply Z.div_mul. }
    cbn [sqrt_start]. rewrite Hd. destruct (Z.ltb_spec op (4 ^ Z.of_nat n)).
    + rewrite Z.shiftr_div_pow2 by lia. change (2 ^ 2) with 4. destruct IH as [?|(k & ? & ? & ?)]; [lia|by left|].
      right. exists k. split; [lia|]. done.
    + right. exists n. split; [lia|]. split; [done|]. lia.
Qed.

(** C31: the square root of every 64-bit number is found, rounded down. *)
Theorem sqrt_correct a : is_word 64 a → ∃ r, sqrt a = Some r ∧ r * r ≤ a < (r + 1) * (r + 1).
Proof.
  intros Ha. unfold sqrt. destruct (sqrt_start_ok 32 a) as [(-> & Hs)|(k & Hk & Hs & Hr)].
  - unfold is_word in Ha. change (4 ^ Z.of_nat 32) with (2 ^ 64). lia.
  - exists 0. split; [|lia]. by vm_compute.
  - change (4 ^ Z.of_nat 32 / 4) with (Z.shiftl 1 62) in Hs. rewrite Hs.
    assert (2 ^ Z.of_nat (S k) ≤ 2 ^ 32) by (apply Z.pow_le_mono_r; lia).
    assert (4 ^ Z.of_nat (S k) = 2 ^ Z.of_nat (S k) * 2 ^ Z.of_nat (S k)) by (rewrite <- Z.pow_mul_l; done).
    pose proof (sqrt_loop_ok k 0 a 33) as Hok. rewrite Z.sub_0_r in Hok. apply Hok; lia.
Qed.

Lemma sqrt_correct_witness : sqrt 1000003 = Some 1000 ∧ ∃ r, sqrt (2 ^ 64 - 1) = Some r ∧ r * r ≤ 2 ^ 64 - 1 < (r + 1) * (r + 1).
Proof. split; [vm_compute; reflexivity|]. refine (sqrt_correct (2 ^ 64 - 1) _). by vm_compute. Defined.
