(* ===== verification/Outcome.v ===== *)
(** Code that may panic with a message or leave a buffer: the outcome of a
    computation, its monad, accesses to buffers and what it is to stay in
    bounds. *)
From S2P Require Import Prelude.
From stdpp Require Import strings.
Open Scope list_scope.
Open Scope Z_scope.

(** A value, a panic with its message, or an access outside a buffer. *)
Inductive out (A : Type) :=
  | Ret (a : A)
  | Panic (msg : string)
  | Wild.
Arguments Ret {A} a.
Arguments Panic {A} msg.
Arguments Wild {A}.

#[export] Instance out_ret : MRet out := λ A a, Ret a.
#[export] Instance out_bind : MBind out := λ A B k m,
  match m with Ret a => k a | Panic msg => Panic msg | Wild => Wild end.

Definition get (b : list Z) (i : Z) : out Z := match b.[i] with Some x => Ret x | None => Wild end.
Definition set (b : list Z) (i x : Z) : out (list Z) := match b.[i <- x] with Some b => Ret b | None => Wild end.
Definition lift {A} (m : option A) : out A := match m with Some a => Ret a | None => Wild end.

(** A character more in an array of [max], of which [l] is written. *)
Definition put (max : Z) (l : list Z) (c : Z) : out (list Z) := if len l <? max then Ret (l ++ [c]) else Wild.

(** ** Computations that stay in bounds

    [safe m Q]: [m] panics or gives a value that meets [Q]. *)
Definition safe {A} (m : out A) (Q : A → Prop) : Prop :=
  match m with Ret a => Q a | Panic _ => True | Wild => False end.

Lemma safe_bind {A B} (m : out A) (k : A → out B) (P : A → Prop) (Q : B → Prop) :
  safe m P → (∀ a, P a → safe (k a) Q) → safe (m ≫= k) Q.
Proof. destruct m; cbn; auto. Qed.

Lemma safe_weaken {A} (m : out A) (P Q : A → Prop) : safe m P → (∀ a, P a → Q a) → safe m Q.
Proof. destruct m; cbn; auto. Qed.

Lemma safe_get b i (Q : Z → Prop) : 0 ≤ i < len b → (∀ x, b.[i] = Some x → Q x) → safe (get b i) Q.
Proof. intros [x Hx]%arr_get_lt HQ. unfold get. rewrite Hx. by apply HQ. Qed.

Lemma get_eq b i x : b.[i] = Some x → get b i = Ret x.
Proof. intros H. unfold get. by rewrite H. Qed.

(** A read that is followed by more. *)
Lemma safe_bind_get {B} b i (k : Z → out B) (Q : B → Prop) :
  0 ≤ i < len b → (∀ x, b.[i] = Some x → safe (k x) Q) → safe (get b i ≫= k) Q.
Proof. intros Hi Hk. eapply safe_bind; [by apply (safe_get b i (λ x, b.[i] = Some x))|exact Hk]. Qed.

Lemma safe_Ret {A} (a : A) (Q : A → Prop) : Q a → safe (Ret a) Q.
Proof. done. Qed.

(** A computation that neither panics nor leaves a buffer. *)
Definition gives {A} (m : out A) (Q : A → Prop) : Prop := ∃ a, m = Ret a ∧ Q a.

Lemma gives_ret {A} (a : A) (Q : A → Prop) : Q a → gives (Ret a) Q.
Proof. by exists a. Qed.

Lemma gives_bind {A B} (m : out A) (k : A → out B) (P : A → Prop) (Q : B → Prop) :
  gives m P → (∀ a, P a → gives (k a) Q) → gives (m ≫= k) Q.
Proof. intros (a & -> & HP) Hk. by apply Hk. Qed.

Lemma gives_safe {A} (m : out A) (Q : A → Prop) : gives m Q → safe m Q.
Proof. by intros (a & -> & ?). Qed.

Lemma safe_gives_bind {A B} (m : out A) (k : A → out B) (P : A → Prop) (Q : B → Prop) :
  gives m P → (∀ a, P a → safe (k a) Q) → safe (m ≫= k) Q.
Proof. intros (a & -> & HP) Hk. by apply Hk. Qed.
