(* ===== verification/Config.v ===== *)
(** The configuration file, [limine/common/lib/config.c]: the text is cleaned
    and its macros expanded, its entries become the tree of the menu, and its
    values are looked up by key.

    [config_addr] is the buffer [b]; memory allocated on the way is always
    there ([ext_mem_alloc] panics when it is not). *)
From S2P Require Import Prelude Libc Outcome Blake2b.
From stdpp Require Import strings.
Open Scope list_scope.
Open Scope Z_scope.

Definition NL : Z := 10.
Definition is_blank (c : Z) : bool := (c =? 32) || (c =? 9).

(** ** Cleaning, [init_config] *)

(** How many characters from [i] on are blanks. *)
Fixpoint blanks (fuel : nat) (b : list Z) (size i : Z) : out Z :=
  match fuel with
  | O => Wild
  | S fuel =>
      if i <? size then
        c ← get b i; if is_blank c then n ← blanks fuel b size (i + 1); Ret (1 + n) else Ret 0
      else Ret 0
  end.

(** How many are carriage returns or, at the start of a line, blanks. *)
Fixpoint skipped (fuel : nat) (start : bool) (b : list Z) (size i : Z) : out Z :=
  match fuel with
  | O => Wild
  | S fuel =>
      if i <? size then
        c ← get b i;
        if (c =? 13) || (start && is_blank c) then n ← skipped fuel start b size (i + 1); Ret (1 + n) else Ret 0
      else Ret 0
  end.

(** [skip] at position [i]. *)
Definition clean_skip (b : list Z) (size i : Z) : out Z :=
  let fuel := S (length b) in
  c ← get b i;
  skip ← (if is_blank c then
            n ← blanks fuel b size i;
            if i + n <? size then c ← get b (i + n); Ret (if c =? NL then n else 0) else Ret 0
          else Ret 0);
  if negb (skip =? 0) then Ret skip else
  start ← (if i =? 0 then Ret true else c ← get b (i - 1); Ret (c =? NL));
  skipped fuel start b size i.

(** [for (j = i; j < size - skip; j++) b[j] = b[j + skip]]. *)
Definition move_down (b : list Z) (size i skip : Z) : out (list Z) :=
  lift (for_range i (size - skip) (λ j b, x ← b.[j + skip]; b.[j <- x]) b).

(** [i--] with [i++] looks at the same position again. *)
Fixpoint clean_loop (fuel : nat) (b : list Z) (size i : Z) : out (list Z * Z) :=
  match fuel with
  | O => Wild
  | S fuel =>
      if i <? size then
        skip ← clean_skip b size i;
        if negb (skip =? 0) then b ← move_down b size i skip; clean_loop fuel b (size - skip) i
        else clean_loop fuel b size (i + 1)
      else Ret (b, size)
  end.
Definition clean (b : list Z) (size : Z) : out (list Z * Z) := clean_loop (S (length b)) b size 0.

(** ** Macros *)
Record macro := Macro { m_name : list Z; m_value : list Z }.

Definition MACRO_NAME : Z := 1024.
Definition MACRO_VALUE : Z := 2048.

(** [memcmp(b + i, s, n) == 0]. *)
Definition looking_at (b : list Z) (i : Z) (s : list Z) : out bool :=
  r ← lift (memcmp (drop (Z.to_nat i) b) s (length s)); Ret (r =? 0).

(** A macro definition starts at [i]. *)
Definition at_definition (b : list Z) (size i : Z) : out bool :=
  a ← (if 3 <=? size - i then looking_at b i [NL; 36; 123] else Ret false);
  if a : bool then Ret true
  else if (2 <=? size - i) && (i =? 0) then looking_at b 0 [36; 123] else Ret false.

(** The characters up to one that [stop]s, into an array of [max]. *)
Fixpoint read_until (fuel : nat) (stop : Z → bool) (msg : string) (max : Z) (b : list Z) (i : Z) (acc : list Z)
    : out (list Z * Z) :=
  match fuel with
  | O => Wild
  | S fuel =>
      c ← get b i;
      if stop c then Ret (acc, i)
      else if max - 1 <=? len acc then Panic msg
      else acc ← put max acc c; read_until fuel stop msg max b (i + 1) acc
  end.

Definition name_end (c : Z) : bool := (c =? 125) || (c =? NL) || (c =? 0).
Definition line_end (c : Z) : bool := (c =? NL) || (c =? 0).

Fixpoint load_loop (fuel : nat) (b : list Z) (size i : Z) (macros : list macro) : out (list macro) :=
  match fuel with
  | O => Wild
  | S fuel =>
      if i <? size then
        d ← at_definition b size i;
        if d : bool then
          '(name, i) ← read_until (S (length b)) name_end "config: Macro name too long" MACRO_NAME b (i + (if i =? 0 then 2 else 3)) [];
          c ← get b i;
          bad ← (if (c =? NL) || (c =? 0) then Ret true else c ← get b (i + 1); Ret (negb (c =? 61)));
          if bad : bool then load_loop fuel b size i macros
          else
            _ ← put MACRO_NAME name 0;
            '(value, i) ← read_until (S (length b)) line_end "config: Macro value too long" MACRO_VALUE b (i + 2) [];
            _ ← put MACRO_VALUE value 0;
            load_loop fuel b size i (Macro name value :: macros)
        else load_loop fuel b size (i + 1) macros
      else Ret macros
  end.

Definition load_macros (b : list Z) (size : Z) (arch fw : list Z) : out (list macro) :=
  load_loop (S (length b)) b size 0 [Macro (lit "FW_TYPE") fw; Macro (lit "ARCH") arch].

(** The first macro of the name; the empty text if there is none. *)
Fixpoint macro_value (macros : list macro) (name : list Z) : list Z :=
  match macros with
  | [] => []
  | m :: macros => if bool_decide (m_name m = name) then m_value m else macro_value macros name
  end.

(** [while (i < size && b[i] != '}') i++]. *)
Fixpoint find_brace (fuel : nat) (b : list Z) (size i : Z) : out Z :=
  match fuel with
  | O => Wild
  | S fuel =>
      if i <? size then c ← get b i; if c =? 125 then Ret i else find_brace fuel b size (i + 1)
      else Ret i
  end.

(** To the end of the line a definition is on. *)
Fixpoint skip_line (fuel : nat) (b : list Z) (size i : Z) : out Z :=
  match fuel with
  | O => Wild
  | S fuel =>
      c ← get b i;
      if line_end c then Ret i
      else if size <=? i + 1 then Panic "config: Malformed macro usage"
      else skip_line fuel b size (i + 1)
  end.

(** The name of a macro used at [i]: at most 1023 characters. *)
Fixpoint use_name (fuel : nat) (b : list Z) (i : Z) (acc : list Z) : out (list Z * Z) :=
  match fuel with
  | O => Wild
  | S fuel =>
      if 1023 <=? len acc then Ret (acc, i) else
      c ← get b i;
      if name_end c then Ret (acc, i) else acc ← put 1024 acc c; use_name fuel b (i + 1) acc
  end.

(** A definition at [i] is skipped: the position behind it, or none if it is
    no definition after all. *)
Definition skip_definition (b : list Z) (size i : Z) : out (option Z) :=
  j ← find_brace (S (length b)) b size (i + (if i =? 0 then 2 else 3));
  if size <=? j then Panic "config: Malformed macro usage" else
  let j := j + 1 in
  ok ← (if size <=? j then Ret false else c ← get b j; Ret (c =? 61));
  if ok : bool then j ← skip_line (S (length b)) b size (j + 1); Ret (Some j) else Ret None.

(** [new] is what is written of [new_config], [cap] bytes large. *)
Fixpoint append (new : list Z) (cap : Z) (s : list Z) : out (list Z) :=
  match s with
  | [] => Ret new
  | c :: s => if cap <=? len new then Panic "config: Macro-induced buffer overflow" else new ← put cap new c; append new cap s
  end.

(** [next]: one character or the use of a macro. *)
Definition expand_next (macros : list macro) (cap : Z) (b : list Z) (size i : Z) (new : list Z) : out (Z * list Z) :=
  use ← (if 2 <=? size - i then looking_at b i [36; 123] else Ret false);
  if use : bool then
    '(name, i) ← use_name (S (length b)) b (i + 2) [];
    c ← get b i;
    if negb (c =? 125) then Panic "config: Malformed macro usage" else
    _ ← put 1024 name 0;
    new ← append new cap (macro_value macros name);
    Ret (i + 1, new)
  else
    c ← get b i;
    new ← append new cap [c];
    Ret (i + 1, new).

Fixpoint expand_loop (fuel : nat) (macros : list macro) (cap : Z) (b : list Z) (size i : Z) (new : list Z)
    : out (list Z) :=
  match fuel with
  | O => Wild
  | S fuel =>
      if i <? size then
        d ← at_definition b size i;
        skip ← (if d : bool then skip_definition b size i else Ret None);
        match skip with
        | Some i => expand_loop fuel macros cap b size i new
        | None =>
            '(i, new) ← expand_next macros cap b size i new;
            expand_loop fuel macros cap b size i new
        end
      else Ret new
  end.

(** The new buffer and how much of it is used; the rest is zeros. *)
Definition expand (macros : list macro) (b : list Z) (size : Z) : out (list Z * Z) :=
  if SIZE_MAX / 4 <? size then Panic "config: Config file too large for macro expansion" else
  let cap := size * 4 in
  new ← expand_loop (S (length b)) macros cap b size 0 [];
  Ret (new ++ replicate (Z.to_nat (cap - len new)) 0, len new).

(** ** Entries

    [config_ready] is set; an entry is a line that starts with a slash. *)

(** The position behind the slash of entry [index]; [i] were passed. *)
Fixpoint seek (fuel : nat) (b : list Z) (p i index : Z) : out (option Z) :=
  match fuel with
  | O => Wild
  | S fuel =>
      if index <? i then Ret (Some p) else
      c ← get b p;
      if negb (c =? 47) then (if c =? 0 then Ret None else seek fuel b (p + 1) i index)
      else
        let p := p + 1 in
        again ← (if negb (p - 1 =? 0) then c ← get b (p - 2); Ret (negb (c =? NL)) else Ret false);
        seek fuel b p (if again : bool then i else i + 1) index
  end.

Fixpoint span_until (fuel : nat) (stop : Z → bool) (b : list Z) (p : Z) : out Z :=
  match fuel with
  | O => Wild
  | S fuel => c ← get b p; if stop c then Ret p else span_until fuel stop b (p + 1)
  end.

Definition config_get_entry_name (b : list Z) (index : Z) : out (option (list Z)) :=
  p ← seek (S (length b)) b 0 0 index;
  match p with
  | None => Ret None
  | Some p =>
      let p := p - 1 in
      e ← span_until (S (length b)) line_end b p;
      ret ← lift (slice b p (e - p));
      Ret (Some ret)
  end.

(** From [cont] on: to the next entry or the end. *)
Fixpoint entry_end (fuel : nat) (b : list Z) (p : Z) : out Z :=
  match fuel with
  | O => Wild
  | S fuel =>
      c ← get b p;
      if negb (c =? 47) && negb (c =? 0) then entry_end fuel b (p + 1)
      else if negb (c =? 0) then
        c ← get b (p - 1);
        if negb (c =? NL) then entry_end fuel b (p + 1) else Ret p
      else Ret p
  end.

(** Where the body of an entry starts and its size. *)
Definition config_get_entry (b : list Z) (index : Z) : out (option (Z * Z)) :=
  p ← seek (S (length b)) b 0 0 index;
  match p with
  | None => Ret None
  | Some p =>
      ret ← span_until (S (length b)) line_end b (p + 1);
      e ← entry_end (S (length b)) b ret;
      Ret (Some (ret, e - ret))
  end.

(** ** Values *)
Definition CONFIG_VALUE_BUF_SIZE : Z := 4096.

(** The value of the [index]th key and [lastkey], from the text at [config]:
    positions count from there. *)
Fixpoint get_value_loop (fuel : nat) (config : list Z) (i index : Z) (key : list Z) (key_len : Z)
    : out (option (list Z * Z)) :=
  match fuel with
  | O => Wild
  | S fuel =>
      c ← get config i;
      if c =? 0 then Ret None else
      r ← lift (strncasecmp (drop (Z.to_nat i) config) key (Z.to_nat key_len));
      m ← (if r =? 0 then c ← get config (i + key_len); Ret (c =? 58) else Ret false);
      if negb m then get_value_loop fuel config (i + 1) index key key_len else
      inside ← (if negb (i =? 0) then c ← get config (i - 1); Ret (negb (c =? NL)) else Ret false);
      if inside : bool then get_value_loop fuel config (i + 1) index key key_len
      else if negb (index =? 0) then get_value_loop fuel config (i + 1) (u64 (index - 1)) key key_len
      else
        i ← span_until (S (length config)) (λ c, negb (is_blank c)) config (i + key_len + 1);
        e ← span_until (S (length config)) line_end config i;
        let value_len := if CONFIG_VALUE_BUF_SIZE <=? e - i then CONFIG_VALUE_BUF_SIZE - 1 else e - i in
        v ← lift (slice config i value_len);
        _ ← put CONFIG_VALUE_BUF_SIZE v 0;
        Ret (Some (v, i))
  end.

Definition config_get_value (config : list Z) (index : Z) (key : list Z) : out (option (list Z * Z)) :=
  key_len ← lift (strlen key);
  get_value_loop (S (length config)) config 0 index key key_len.

Definition CONF_TUPLE_BUF_SIZE : Z := 4096.

(** A value in a buffer of its own. *)
Definition tuple_copy (v : list Z) : out (list Z) :=
  let v := take (Z.to_nat (if CONF_TUPLE_BUF_SIZE <=? len v then CONF_TUPLE_BUF_SIZE - 1 else len v)) v in
  _ ← put CONF_TUPLE_BUF_SIZE v 0; Ret v.

(** The two values; [lastkey] is a position in [config]. *)
Definition config_get_tuple (config : list Z) (index : Z) (key1 key2 : list Z)
    : out (option (list Z * option (list Z))) :=
  v1 ← config_get_value config index key1;
  match v1 with
  | None => Ret None
  | Some (tmp, lk1) =>
      value1 ← tuple_copy tmp;
      v2 ← config_get_value (drop (Z.to_nat lk1) config) 0 key2;
      '(value2, lk2) ← match v2 with Some (tmp, k) => v ← tuple_copy tmp; Ret (Some v, lk1 + k) | None => Ret (None, lk1) end;
      next ← config_get_value config (u64 (index + 1)) key1;
      let lk3 := match next with Some (_, k) => k | None => lk2 end in
      Ret (Some (value1,
        match value2, next with
        | Some v, Some _ => if lk3 <? lk2 then None else Some v
        | _, _ => value2
        end))
  end.

(** ** The menu *)
Definition NOT_CHILD : Z := -1.
Definition DIRECT_CHILD : Z := 0.
Definition INDIRECT_CHILD : Z := 1.

(** The list [next] links is the list of entries of a directory. *)
Unset Elimination Schemes.
Inductive menu_entry := Entry {
  e_name : list Z;
  e_comment : option (list Z);
  e_body : list Z;
  e_expanded : bool;
  e_sub : list menu_entry;
}.
Set Elimination Schemes.

Definition is_child (b : list Z) (current_depth : nat) (index : Z) : out Z :=
  name ← config_get_entry_name b index;
  match name with
  | None => Ret NOT_CHILD
  | Some buf =>
      if len buf <? Z.of_nat current_depth + 1 then Ret NOT_CHILD
      else if negb (forallb (λ c, c =? 47) (take current_depth buf)) then Ret NOT_CHILD
      else c ← get buf (Z.of_nat current_depth); Ret (if c =? 47 then INDIRECT_CHILD else DIRECT_CHILD)
  end.

Definition is_directory (b : list Z) (current_depth : nat) (index : Z) : out bool :=
  k ← is_child b (S current_depth) (index + 1);
  if k =? INDIRECT_CHILD then Panic "config: Malformed config file. Parentless child."
  else Ret (k =? DIRECT_CHILD).

Definition MAX_MENU_NESTING : nat := 64.

Fixpoint drop_spaces (n : list Z) : list Z :=
  match n with c :: n' => if c =? 32 then drop_spaces n' else n | [] => [] end.

(** The name, whether it is expanded, and the body of a direct child. *)
Definition read_entry (b : list Z) (current_depth : nat) (i : Z) : out (list Z * bool * list Z) :=
  name ← config_get_entry_name b i;
  match name with
  | None => Wild
  | Some name =>
      c ← get (name ++ [0]) (Z.of_nat current_depth);
      let default_expanded := c =? 43 in
      let n := drop_spaces (drop (current_depth + (if default_expanded then 1 else 0)) name) in
      ent ← config_get_entry b i;
      match ent with
      | None => Wild
      | Some (p, size) => body ← lift (slice b p size); Ret (n, default_expanded, body)
      end
  end.

Definition COMMENT : list Z := lit "COMMENT" ++ [0].

Section menu.
Context (b : list Z).
(** The tree of the next depth. *)
Context (create_sub : Z → out (list menu_entry)).

Fixpoint menu_loop (fuel : nat) (current_depth : nat) (i : Z) : out (list menu_entry) :=
  match fuel with
  | O => Wild
  | S fuel =>
      k ← is_child b current_depth i;
      if k =? NOT_CHILD then Ret []
      else if k =? INDIRECT_CHILD then menu_loop fuel current_depth (i + 1)
      else
        '(name, default_expanded, body) ← read_entry b current_depth i;
        dir ← is_directory b current_depth i;
        sub ← (if dir : bool then create_sub (i + 1) else Ret []);
        comment ← config_get_value (body ++ [0]) 0 COMMENT;
        rest ← menu_loop fuel current_depth (i + 1);
        Ret (Entry name (fst <$> comment) body ((dir : bool) && default_expanded) sub :: rest)
  end.
End menu.

(** [fuel] is for the recursion, which stops at [MAX_MENU_NESTING]. *)
Fixpoint create_menu_tree (fuel : nat) (b : list Z) (current_depth : nat) (index : Z) : out (list menu_entry) :=
  match fuel with
  | O => Wild
  | S fuel =>
      if (MAX_MENU_NESTING <? current_depth)%nat then Panic "config: Menu nesting too deep" else
      menu_loop b (create_menu_tree fuel b (S current_depth)) (S (length b)) current_depth index
  end.

Definition menu_tree (b : list Z) : out (list menu_entry) := create_menu_tree 65 b 1 0.

(** ** [init_config] *)

(** [while (c > 0 && b[c] != '/') c--], on positions. *)
Fixpoint back_to_slash (fuel : nat) (b : list Z) (c : Z) : out Z :=
  match fuel with
  | O => Wild
  | S fuel =>
      x ← get b c;
      if negb (x =? 47) && (0 <? c) then back_to_slash fuel b (c - 1) else Ret c
  end.

(** The global values end where the first entry starts. *)
Definition end_globals (b : list Z) : out (list Z) :=
  ent ← config_get_entry b 0;
  match ent with
  | None => Ret b
  | Some (c, _) =>
      c ← back_to_slash (S (length b)) b c;
      x ← get b c;
      if (x =? 47) && (0 <? c) then set b (c - 1) 0 else Ret b
  end.

(** The bytes two hexadecimal digits each stand for. *)
Fixpoint parse_hash (n : nat) (digits : list Z) : out (list Z) :=
  match n with
  | O => Ret []
  | S n =>
      match digits with
      | c1 :: c2 :: digits =>
          let hi := digit_to_int c1 in
          let lo := digit_to_int c2 in
          if (hi =? -1) || (lo =? -1) then Panic "!!! INVALID CHARACTER IN CONFIG CHECKSUM !!!" else
          rest ← parse_hash n digits; Ret (Z.lor (Z.shiftl hi 4) lo :: rest)
      | _ => Wild
      end
  end.

Definition CONFIG_B2SUM_EMPTY : list Z := replicate 128 48.

(** [config_b2sum] holds 128 digits, zeros if no checksum was enrolled.  The
    answer is whether one was: then [editor_enabled] is cleared, else
    [secure_boot_active]. *)
Definition check_b2sum (config_b2sum b : list Z) (config_size : Z) : out bool :=
  if bool_decide (take 128 config_b2sum = CONFIG_B2SUM_EMPTY) then Ret false else
  text ← lift (slice b 0 (config_size - 2));
  out_buf ← lift (blake2b text);
  hash_buf ← parse_hash 64 config_b2sum;
  if bool_decide (hash_buf = out_buf) then Ret true else Panic "!!! CHECKSUM MISMATCH FOR CONFIG FILE !!!".

Record config := Conf {
  enrolled : bool;
  config_addr : list Z;
  tree : list menu_entry;
}.

Definition init_config (config_b2sum arch fw b : list Z) (config_size : Z) : out config :=
  enrolled ← check_b2sum config_b2sum b config_size;
  b ← set b (config_size - 2) NL;
  '(b, size) ← clean b config_size;
  macros ← load_macros b size arch fw;
  '(b, _) ← expand macros b size;
  tree ← menu_tree b;
  b ← end_globals b;
  Ret (Conf enrolled b tree).

(** ** Where the text comes from

    [fopen] opens a file of the volume, whatever the case of its name, and
    gives its bytes; none is the answer -1. *)
Fixpoint first_file (fopen : string → option (list Z)) (paths : list string) : option (list Z) :=
  match paths with
  | [] => None
  | p :: paths => match fopen p with Some f => Some f | None => first_file fopen paths end
  end.

Definition init_config_disk (config_b2sum arch fw : list Z) (fopen : string → option (list Z)) : out (option config) :=
  match first_file fopen ["/boot/limine/limine.conf"; "/boot/limine.conf"; "/limine/limine.conf"; "/limine.conf"]%string with
  | None => Ret None
  | Some f =>
      if SIZE_MAX - 2 <? len f then Panic "Config file too large" else
      let config_size := len f + 2 in
      c ← init_config config_b2sum arch fw (f ++ [0; 0]) config_size; Ret (Some c)
  end.

(** The strings of the structure at [s]: where its second zero in a row is. *)
Fixpoint string_area (fuel : nat) (string_data : list Z) (string_area_max i : Z) : out Z :=
  match fuel with
  | O => Wild
  | S fuel =>
      if i <? string_area_max then
        x ← get string_data (i - 1);
        more ← (if negb (x =? 0) then Ret true else y ← get string_data i; Ret (negb (y =? 0)));
        if more : bool then string_area fuel string_data string_area_max (i + 1) else Ret i
      else Ret i
  end.

(** [hdr] is what is at the structure; 0 says that it is invalid. *)
Definition smbios_struct_size (hdr : list Z) (remaining : Z) : out Z :=
  if remaining <? 4 then Ret 0 else
  length ← get hdr 1;
  if length <? 4 then Ret 0 else
  if remaining <? length then Ret 0 else
  let string_area_max := remaining - length in
  i ← string_area (S (Z.to_nat string_area_max)) (drop (Z.to_nat length) hdr) string_area_max 1;
  if string_area_max <=? i then Ret 0 else Ret (length + i + 1).

Definition smbios_prefix : list Z := lit "limine:config:".

(** The text in the strings of an OEM structure, as [init_config] gets it. *)
Definition smbios_config (hdr : list Z) (struct_size : Z) : out (option (list Z)) :=
  length ← get hdr 1;
  let string_data := drop (Z.to_nat length) hdr in
  let string_area_size := struct_size - length in
  let prefix_len := len smbios_prefix in
  found ← (if prefix_len <? string_area_size
           then r ← lift (strncmp string_data (smbios_prefix ++ [0]) (Z.to_nat prefix_len)); Ret (r =? 0)
           else Ret false);
  if negb found then Ret None else
  total_len ← lift (strnlen string_data (Z.to_nat string_area_size));
  if total_len <=? prefix_len then Ret None else
  let config_size := total_len - prefix_len + 2 in
  text ← lift (slice string_data prefix_len (config_size - 1));
  Ret (Some (text ++ [0])).

(** [processed] is how far [hdr] is in the table; no [struct_count] is 0. *)
Fixpoint smbios_loop (fuel : nat) (table : list Z) (table_length struct_count struct_num processed : Z)
    : out (option (list Z)) :=
  match fuel with
  | O => Wild
  | S fuel =>
      if negb (struct_count =? 0) && (struct_count <=? struct_num) then Ret None else
      let hdr := drop (Z.to_nat processed) table in
      let remaining := table_length - processed in
      if remaining <? 4 then Ret None else
      type ← get hdr 0;
      if type =? 127 then Ret None else
      struct_size ← smbios_struct_size hdr remaining;
      if struct_size =? 0 then Ret None else
      length ← get hdr 1;
      found ← (if (type =? 11) && (4 <=? length) then smbios_config hdr struct_size else Ret None);
      match found with
      | Some text => Ret (Some text)
      | None =>
          let processed := processed + struct_size in
          if table_length <=? processed then Ret None
          else smbios_loop fuel table table_length struct_count (struct_num + 1) processed
      end
  end.

(** The table and its length of the 64-bit entry point if there is one, else
    the table and the number of structures of the 32-bit one; false is none. *)
Definition init_config_smbios (config_b2sum arch fw table : list Z) (table_length struct_count : Z) : out (option config) :=
  if table_length =? 0 then Ret None else
  text ← smbios_loop (S (Z.to_nat table_length)) table table_length struct_count 0 0;
  match text with
  | None => Ret None
  | Some text => c ← init_config config_b2sum arch fw text (len text); Ret (Some c)
  end.
