(* ===== verification/ConfigClean.v ===== *)
(** The configuration's text is cleaned as it should be: the code's moves within
    the buffer against one pass over the lines. *)
From S2P Require Import Prelude Libc Outcome Config.
From stdpp Require Import strings.
Open Scope list_scope.
Open Scope Z_scope.

(** ** Positions in a buffer *)

Lemma get_split (D R : list Z) i : i = len D → (D ++ R).[i] = R.[0].
Proof. intros ->. rewrite arr_get_app_r by done. by rewrite Z.sub_diag. Qed.

Lemma get_after D c R T : get (D ++ (c :: R) ++ T) (len D) = Ret c.
Proof. apply get_eq. by rewrite (get_split D). Qed.

Lemma get_here D c T : get (D ++ c :: T) (len D) = Ret c.
Proof. apply (get_after D c [] T). Qed.

Lemma get_cons_0 x (l : list Z) : (x :: l).[0] = Some x.
Proof. done. Qed.

Lemma drop_len {A} (D R : list A) : drop (Z.to_nat (len D)) (D ++ R) = R.
Proof. unfold len. rewrite Nat2Z.id. apply drop_app_length. Qed.

Lemma take_len {A} (D R : list A) : take (Z.to_nat (len D)) (D ++ R) = D.
Proof. unfold len. rewrite Nat2Z.id. apply take_app_length. Qed.

(** ** What cleaning is

    [cleaned start l]: [start] is at the start of a line.  A carriage return
    goes, a blank goes at the start of a line or in front of a line's end. *)
Fixpoint blank_end (l : list Z) : bool :=
  match l with [] => false | c :: l => if is_blank c then blank_end l else c =? NL end.

Definition dropped (start : bool) (l : list Z) : bool :=
  match l with [] => false | c :: _ => (is_blank c && blank_end l) || (c =? 13) || (start && is_blank c) end.

Fixpoint cleaned (start : bool) (l : list Z) : list Z :=
  match l with
  | [] => []
  | c :: r => if dropped start l then cleaned start r else c :: cleaned (c =? NL) r
  end.

(** At the start of a line: nothing, or a line's end, comes before. *)
Definition line_start (D : list Z) : bool := match last D with None => true | Some c => c =? NL end.

Lemma line_start_snoc D c : line_start (D ++ [c]) = (c =? NL).
Proof. unfold line_start. by rewrite last_snoc. Qed.

Lemma line_start_get D R : (if len D =? 0 then Ret true else c ← get (D ++ R) (len D - 1); Ret (c =? NL)) = Ret (line_start D).
Proof.
  destruct D as [|d D _] using rev_ind; [done|]. rewrite line_start_snoc.
  rewrite len_app. change (len [d]) with 1. pose proof (len_nonneg D). rewrite (proj2 (Z.eqb_neq _ 0)) by lia.
  rewrite <- app_assoc. rewrite (get_eq _ _ d); [done|]. rewrite (get_split D) by lia. done.
Qed.

(** The blanks at the front, and what the loops count. *)
Fixpoint run (p : Z → bool) (l : list Z) : nat :=
  match l with [] => 0 | c :: l => if p c then S (run p l) else 0 end.

Lemma run_le p l : (run p l ≤ length l)%nat.
Proof. induction l as [|c l IH]; cbn; [lia|]. destruct (p c); lia. Qed.

Lemma blanks_run fuel D R T : (length R < fuel)%nat →
  blanks fuel (D ++ R ++ T) (len D + len R) (len D) = Ret (Z.of_nat (run is_blank R)).
Proof.
  revert fuel D. induction R as [|c R IH]; intros [|fuel] D Hf; cbn [length] in Hf; try lia; cbn [blanks run].
  - rewrite len_nil, Z.add_0_r. by rewrite (proj2 (Z.ltb_ge _ _)) by lia.
  - rewrite len_cons. pose proof (len_nonneg R). rewrite (proj2 (Z.ltb_lt _ _)) by lia.
    rewrite get_after. cbn [mbind out_bind].
    destruct (is_blank c); [|done].
    specialize (IH fuel (D ++ [c])). rewrite <- app_assoc in IH. cbn [app] in IH.
    rewrite len_app in IH. change (len [c]) with 1 in IH.
    cbn [app]. replace (len D + (1 + len R)) with (len D + 1 + len R) by lia. rewrite IH by lia. cbn [mbind out_bind]. f_equal. lia.
Qed.

Lemma skipped_run fuel start D R T : (length R < fuel)%nat →
  skipped fuel start (D ++ R ++ T) (len D + len R) (len D) =
  Ret (Z.of_nat (run (λ c, (c =? 13) || (start && is_blank c)) R)).
Proof.
  revert fuel D. induction R as [|c R IH]; intros [|fuel] D Hf; cbn [length] in Hf; try lia; cbn [skipped run].
  - rewrite len_nil, Z.add_0_r. by rewrite (proj2 (Z.ltb_ge _ _)) by lia.
  - rewrite len_cons. pose proof (len_nonneg R). rewrite (proj2 (Z.ltb_lt _ _)) by lia.
    rewrite get_after. cbn [mbind out_bind].
    destruct ((c =? 13) || (start && is_blank c)); [|done].
    specialize (IH fuel (D ++ [c])). rewrite <- app_assoc in IH. cbn [app] in IH.
    rewrite len_app in IH. change (len [c]) with 1 in IH.
    cbn [app]. replace (len D + (1 + len R)) with (len D + 1 + len R) by lia. rewrite IH by lia. cbn [mbind out_bind]. f_equal. lia.
Qed.

(** Dropping the characters the code counted at once, or one after the other. *)
Definition skip_of (start : bool) (R : list Z) : nat :=
  match R with
  | [] => 0
  | c :: _ => if is_blank c && blank_end R then run is_blank R else run (λ c, (c =? 13) || (start && is_blank c)) R
  end.

Lemma blank_end_run R : blank_end R = match drop (run is_blank R) R with c :: _ => c =? NL | [] => false end.
Proof. induction R as [|c R IH]; cbn; [done|]. by destruct (is_blank c). Qed.

Lemma clean_skip_ok D R T : R ≠ [] →
  clean_skip (D ++ R ++ T) (len D + len R) (len D) = Ret (Z.of_nat (skip_of (line_start D) R)).
Proof.
  intros Hne. destruct R as [|c R]; [done|]. unfold clean_skip.
  assert (length (c :: R) < S (length (D ++ (c :: R) ++ T)))%nat as Hf by (rewrite !length_app; lia).
  rewrite get_after. cbn [mbind out_bind].
  rewrite line_start_get. cbn [mbind out_bind]. rewrite skipped_run, blanks_run by done. cbn [mbind out_bind].
  assert (Hskip : (if is_blank c then
      if len D + Z.of_nat (run is_blank (c :: R)) <? len D + len (c :: R)
      then c0 ← get (D ++ (c :: R) ++ T) (len D + Z.of_nat (run is_blank (c :: R)));
           Ret (if c0 =? NL then Z.of_nat (run is_blank (c :: R)) else 0)
      else Ret 0
    else Ret 0) = Ret (if is_blank c && blank_end (c :: R) then Z.of_nat (run is_blank (c :: R)) else 0)).
  { destruct (is_blank c); [|done]. cbn [andb]. rewrite blank_end_run.
    pose proof (run_le is_blank (c :: R)) as Hle. set (n := run is_blank (c :: R)) in *. clearbody n.
    pose proof (take_drop n (c :: R)) as Htd.
    destruct (drop n (c :: R)) as [|x l] eqn:Hdrop; apply (f_equal length) in Hdrop; rewrite length_drop in Hdrop; cbn [length] in *.
    - rewrite (proj2 (Z.ltb_ge _ _)); [done|]. unfold len. cbn [length]. lia.
    - rewrite (proj2 (Z.ltb_lt _ _)) by (unfold len; cbn [length]; lia).
      rewrite (get_eq _ _ x); [done|]. rewrite <- Htd. rewrite <- app_assoc, app_assoc.
      rewrite (get_split (D ++ take n (c :: R))); [done|].
      rewrite len_app. unfold len. rewrite length_take. cbn [length]. lia. }
  rewrite Hskip. cbn [mbind out_bind]. unfold skip_of.
  destruct (is_blank c && blank_end (c :: R)) eqn:Hb; [|done].
  apply andb_true_iff in Hb as [Hb _]. cbn [run]. rewrite Hb. by rewrite (proj2 (Z.eqb_neq _ 0)) by lia.
Qed.

Lemma cleaned_skipped start R : cleaned start R = cleaned start (drop (run (λ c, (c =? 13) || (start && is_blank c)) R) R).
Proof.
  induction R as [|c R IH]; cbn [run]; [done|].
  destruct ((c =? 13) || (start && is_blank c)) eqn:Hc; [|done]. cbn [drop cleaned dropped].
  by rewrite <- orb_assoc, Hc, orb_true_r.
Qed.

Lemma cleaned_blanks start R : blank_end R = true → cleaned start R = cleaned start (drop (run is_blank R) R).
Proof.
  induction R as [|c R IH]; intros Hb; cbn [run]; [done|]. cbn [blank_end] in Hb.
  destruct (is_blank c) eqn:Hc; [|done]. cbn [drop cleaned dropped blank_end]. rewrite Hc, Hb. by apply IH.
Qed.

Lemma cleaned_drop start R : cleaned start R = cleaned start (drop (skip_of start R) R).
Proof.
  destruct R as [|c R]; [done|]. unfold skip_of. destruct (is_blank c && blank_end (c :: R)) eqn:Hb.
  - apply andb_true_iff in Hb as [_ Hb]. by apply cleaned_blanks.
  - apply cleaned_skipped.
Qed.

(** What is not skipped is kept. *)
Lemma dropped_skip start c R : skip_of start (c :: R) = 0%nat → dropped start (c :: R) = false.
Proof.
  unfold skip_of, dropped. destruct (is_blank c && blank_end (c :: R)) eqn:Hb.
  - apply andb_true_iff in Hb as [Hb _]. cbn [run]. by rewrite Hb.
  - cbn [run]. rewrite <- orb_assoc. cbn [orb]. by destruct ((c =? 13) || (start && is_blank c)).
Qed.

(** ** The moves within the buffer *)

Lemma move_down_ok D X R T : (0 < length X)%nat →
  ∃ T', move_down (D ++ (X ++ R) ++ T) (len D + len (X ++ R)) (len D) (len X) = Ret (D ++ R ++ T') ∧
    length T' = (length X + length T)%nat.
Proof.
  intros Hx. unfold move_down. set (b := D ++ (X ++ R) ++ T).
  replace (len D + len (X ++ R) - len X) with (len D + len R) by (rewrite len_app; lia).
  assert (len b = len D + len X + len R + len T) as Hlb by (unfold b; rewrite !len_app; lia).
  pose proof (len_nonneg D). pose proof (len_nonneg R). pose proof (len_nonneg T). pose proof (len_nonneg X).
  destruct (for_range_inv (λ i b', len b' = len b ∧ ∀ j, b'.[j] = if decide (len D ≤ j < i) then b.[j + len X] else b.[j])
    (len D) (len D + len R) (λ j b, x ← b.[j + len X]; b.[j <- x]) b) as (b' & Hb' & Hlen & Hget).
  - lia.
  - split; [done|]. intros j. by rewrite decide_False by lia.
  - intros i b1 Hi [Hl1 Hg1]. apply returns_bind_get; [lia|]. intros x Hxx. rewrite Hg1, decide_False in Hxx by lia.
    apply returns_set; [lia|]. intros b2 Hb2 Hl2. split; [lia|]. intros j. rewrite (arr_get_set _ _ _ _ _ Hb2), Hg1.
    repeat case_decide; try lia; try done. by subst j.
  - rewrite Hb'. exists (drop (length D + length R) b'). split.
    + cbn [lift]. f_equal. rewrite <- (take_drop (length D + length R) b') at 1. rewrite app_assoc. f_equal.
      apply arr_ext.
      * unfold len in *. rewrite length_take, length_app. lia.
      * intros i Hi. assert (i < len D + len R) by (unfold len in *; rewrite length_take in Hi; lia).
        rewrite <- (arr_get_app_l _ (drop (length D + length R) b')) by lia. rewrite take_drop, Hget.
        case_decide.
        -- rewrite (arr_get_app_r D R) by lia. unfold b. rewrite app_assoc. rewrite (arr_get_app_l (D ++ X ++ R)) by (rewrite !len_app; lia).
           rewrite app_assoc, arr_get_app_r by (rewrite len_app; lia). f_equal. rewrite len_app. lia.
        -- unfold b. rewrite !arr_get_app_l by lia. done.
    + rewrite length_drop. unfold len in *. lia.
Qed.

Lemma clean_loop_ok fuel D R T : (length R < fuel)%nat →
  ∃ T', clean_loop fuel (D ++ R ++ T) (len D + len R) (len D) =
          Ret (D ++ cleaned (line_start D) R ++ T', len D + len (cleaned (line_start D) R)) ∧
    (length (cleaned (line_start D) R) + length T' = length R + length T)%nat.
Proof.
  revert D R T. induction fuel as [|fuel IH]; intros D R T Hf; [lia|]. cbn [clean_loop].
  destruct R as [|c R].
  { rewrite len_nil. rewrite (proj2 (Z.ltb_ge _ _)) by lia. exists T. cbn [cleaned]. rewrite ?len_nil. done. }
  pose proof (len_nonneg R). assert (len (c :: R) = 1 + len R) by apply len_cons. rewrite (proj2 (Z.ltb_lt _ _)) by lia.
  rewrite clean_skip_ok by done. cbn [mbind out_bind].
  destruct (skip_of (line_start D) (c :: R)) as [|k] eqn:Hk.
  - cbn [Z.of_nat Z.eqb negb]. specialize (IH (D ++ [c]) R T). rewrite <- app_assoc in IH. cbn [app] in IH.
    rewrite len_app in IH. change (len [c]) with 1 in IH. rewrite line_start_snoc in IH.
    destruct IH as (T' & Heq & Hlen); [cbn [length] in Hf; lia|]. exists T'.
    cbn [cleaned]. rewrite (dropped_skip _ _ _ Hk). cbn [app]. rewrite !len_cons.
    replace (len D + (1 + len R)) with (len D + 1 + len R) by lia. rewrite Heq.
    split; [|cbn [length]; lia]. rewrite <- app_assoc. cbn [app]. f_equal. f_equal. lia.
  - rewrite (proj2 (Z.eqb_neq _ 0)) by lia. cbn [negb]. rewrite <- Hk.
    set (n := skip_of (line_start D) (c :: R)) in *.
    assert (n ≤ length (c :: R))%nat as Hn.
    { unfold n, skip_of. destruct (is_blank c && blank_end (c :: R)); apply run_le. }
    set (X := take n (c :: R)). set (R' := drop n (c :: R)).
    assert (c :: R = X ++ R') as HR by (symmetry; apply take_drop).
    assert (length X = n) as HX by (unfold X; rewrite length_take; lia).
    assert (Z.of_nat n = len X) as -> by (unfold len; lia).
    rewrite HR. destruct (move_down_ok D X R' T) as (T1 & -> & HT1); [lia|]. cbn [mbind out_bind].
    replace (len D + len (X ++ R') - len X) with (len D + len R') by (rewrite len_app; lia).
    assert (length (c :: R) = length X + length R')%nat as Hlen by (rewrite HR; apply length_app).
    destruct (IH D R' T1) as (T' & -> & HT'); [lia|]. exists T'.
    rewrite <- HR, (cleaned_drop (line_start D) (c :: R)). fold n R'. split; [done|]. lia.
Qed.

(** The whole text of a buffer. *)
Lemma clean_ok R T : ∃ T', clean (R ++ T) (len R) = Ret (cleaned true R ++ T', len (cleaned true R)) ∧
  (length (cleaned true R) + length T' = length R + length T)%nat.
Proof.
  destruct (clean_loop_ok (S (length (R ++ T))) [] R T) as (T' & Heq & Hlen); [rewrite length_app; lia|].
  exists T'. by split.
Qed.

(** ** By lines *)

Definition line (l : list Z) : Prop := Forall (λ c, c ≠ NL) l.

(** Without the blanks and carriage returns in front, without the blanks at
    the end, without carriage returns. *)
Definition strip_start (l : list Z) : list Z := drop (run (λ c, (c =? 13) || is_blank c) l) l.
Fixpoint strip_end (l : list Z) : list Z :=
  match l with [] => [] | c :: r => if forallb is_blank l then [] else c :: strip_end r end.
Definition no_cr (l : list Z) : list Z := filter (λ c, c ≠ 13) l.

Definition clean_line (l : list Z) : list Z := no_cr (strip_end (strip_start l)).

Lemma blank_end_line l rest : line l → blank_end (l ++ NL :: rest) = forallb is_blank l.
Proof.
  intros Hl. induction Hl as [|c l Hc Hl IH]; cbn [app blank_end forallb]; [done|].
  destruct (is_blank c); [done|]. by apply Z.eqb_neq.
Qed.

Lemma strip_end_blank l : forallb is_blank l = true → strip_end l = [].
Proof. destruct l; [done|]. intros H. cbn [strip_end]. by rewrite H. Qed.

Lemma cleaned_inside l rest : line l → cleaned false (l ++ NL :: rest) = no_cr (strip_end l) ++ NL :: cleaned true rest.
Proof.
  intros Hl. induction Hl as [|c l Hc Hl IH]; [done|].
  cbn [app cleaned dropped strip_end]. rewrite orb_false_r.
  change (c :: l ++ NL :: rest) with ((c :: l) ++ NL :: rest). rewrite blank_end_line by (by constructor).
  destruct (forallb is_blank (c :: l)) eqn:Hb.
  - cbn [forallb] in Hb. apply andb_true_iff in Hb as [Hb1 Hb]. rewrite Hb1. cbn [andb orb].
    by rewrite IH, strip_end_blank.
  - rewrite andb_false_r. cbn [orb]. unfold no_cr. destruct (Z.eqb_spec c 13) as [->|].
    + by rewrite IH, filter_cons_False by naive_solver.
    + rewrite filter_cons_True by done. rewrite (proj2 (Z.eqb_neq c NL)) by done. by rewrite IH.
Qed.

Lemma cleaned_line l rest : line l → cleaned true (l ++ NL :: rest) = clean_line l ++ NL :: cleaned true rest.
Proof.
  intros Hl. unfold clean_line, strip_start. induction Hl as [|c l Hc Hl IH]; [done|].
  cbn [app cleaned dropped run]. cbn [andb]. destruct ((c =? 13) || is_blank c) eqn:Hd.
  - rewrite <- orb_assoc, Hd, orb_true_r. cbn [drop]. exact IH.
  - rewrite <- orb_assoc, Hd. apply orb_false_iff in Hd as [Hcr Hb]. rewrite Hb. cbn [andb orb drop strip_end forallb].
    rewrite Hb. cbn [andb]. rewrite (proj2 (Z.eqb_neq c NL)) by done. rewrite cleaned_inside by done.
    unfold no_cr. rewrite filter_cons_True by (by apply Z.eqb_neq). done.
Qed.

(** What comes after the last line's end. *)
Lemma blank_end_last l : line l → blank_end l = false.
Proof.
  intros Hl. induction Hl as [|c l Hc Hl IH]; cbn [blank_end]; [done|]. destruct (is_blank c); [done|]. by apply Z.eqb_neq.
Qed.

Lemma cleaned_last start l : line l → cleaned start l = no_cr (if start then strip_start l else l).
Proof.
  intros Hl. revert start. induction Hl as [|c l Hc Hl IH]; intros start; [by destruct start|].
  cbn [cleaned]. unfold dropped. rewrite blank_end_last, andb_false_r by (by constructor). cbn [orb].
  rewrite (proj2 (Z.eqb_neq c NL)) by done. unfold strip_start in *. cbn [run].
  destruct start; cbn [andb]; rewrite ?orb_false_r.
  - destruct ((c =? 13) || is_blank c) eqn:Hd; cbn [drop].
    + by rewrite IH.
    + apply orb_false_iff in Hd as [Hcr _]. rewrite IH. unfold no_cr. by rewrite filter_cons_True by (by apply Z.eqb_neq).
  - destruct (Z.eqb_spec c 13) as [->|]; rewrite IH; unfold no_cr.
    + by rewrite filter_cons_False by naive_solver.
    + by rewrite filter_cons_True.
Qed.

Definition with_ends (ls : list (list Z)) : list Z := concat (map (λ l, l ++ [NL]) ls).

Lemma cleaned_lines ls rest : Forall line ls →
  cleaned true (with_ends ls ++ rest) = with_ends (map clean_line ls) ++ cleaned true rest.
Proof.
  intros Hl. unfold with_ends. induction Hl as [|l ls Hl Hls IH]; [done|].
  cbn [map concat]. rewrite <- !app_assoc. cbn [app]. rewrite cleaned_line by done. by rewrite IH.
Qed.



(** A blank in front of a carriage return at the end of a line stays. *)
Example blank_before_cr_stays : clean_line (lit "path: x " ++ [13]) = lit "path: x ".
Proof. vm_compute. done. Qed.

(** The text the code looks at ends with the end of a line and a zero. *)
Lemma cleaned_end start l : ∃ l', cleaned start (l ++ [NL; 0]) = l' ++ [NL; 0].
Proof.
  revert start. induction l as [|c l IH]; intros start.
  - exists []. cbn. by rewrite !andb_false_r.
  - cbn [app cleaned]. case_match; [apply IH|]. destruct (IH (c =? NL)) as (l' & ->). by exists (c :: l').
Qed.
