(* ===== verification/ConfigSafe.v ===== *)
(** Loading a configuration stays inside its buffers and ends, whatever the
    file holds. *)
From S2P Require Import Prelude Libc Outcome Blake2b Config ConfigClean.
From stdpp Require Import strings.
Open Scope list_scope.
Open Scope Z_scope.

(** A buffer whose text ends at [n] with a zero, the end of a line before it. *)
Record text_buf (b : list Z) (n : Z) : Prop := {
  tb_range : 1 ≤ n < len b;
  tb_zero : b.[n] = Some 0;
  tb_nl : b.[n - 1] = Some NL;
}.

Lemma text_buf_app Y T : text_buf ((Y ++ [NL; 0]) ++ T) (len Y + 1).
Proof.
  pose proof (len_nonneg Y). pose proof (len_nonneg T). split.
  - rewrite !len_app. change (len [NL; 0]) with 2. lia.
  - rewrite <- app_assoc, arr_get_app_r by lia. by replace (len Y + 1 - len Y) with 1 by lia.
  - rewrite <- app_assoc, arr_get_app_r by lia. by replace (len Y + 1 - 1 - len Y) with 0 by lia.
Qed.

(** ** Scanning up to a character that is there *)

(** [e] is a position the scan stops at. *)
Definition stops (b : list Z) (stop : Z → bool) (e : Z) : Prop := ∃ c, b.[e] = Some c ∧ stop c = true.

Lemma stops_lt b stop e : stops b stop e → 0 ≤ e < len b.
Proof. intros (c & Hc & _). by eapply arr_get_Some_lt. Qed.

Lemma span_until_safe fuel stop b p e : stops b stop e → 0 ≤ p ≤ e → e - p < Z.of_nat fuel →
  safe (span_until fuel stop b p) (λ j, p ≤ j ≤ e ∧ stops b stop j).
Proof.
  intros He. revert p. induction fuel as [|fuel IH]; intros p Hp Hf; [lia|]. cbn [span_until].
  pose proof (stops_lt _ _ _ He). apply safe_bind_get; [lia|]. intros c Hc.
  destruct (stop c) eqn:Hs; [split; [lia|by exists c]|].
  destruct (decide (p = e)) as [->|]; [destruct He as (c' & Hc' & Hs'); congruence|].
  eapply safe_weaken; [apply IH; lia|]. cbv beta. intros j [? ?]. split; [lia|done].
Qed.

Lemma put_lt max l c : len l < max → put max l c = Ret (l ++ [c]).
Proof. intros Hl. unfold put. by rewrite (proj2 (Z.ltb_lt _ _)). Qed.

Lemma read_until_safe fuel stop msg max b i acc e : stops b stop e → 0 ≤ i ≤ e → e - i < Z.of_nat fuel → len acc < max →
  safe (read_until fuel stop msg max b i acc) (λ '(s, j), i ≤ j ≤ e ∧ stops b stop j ∧ len s < max).
Proof.
  intros He. revert i acc. induction fuel as [|fuel IH]; intros i acc Hi Hf Ha; [lia|]. cbn [read_until].
  pose proof (stops_lt _ _ _ He). apply safe_bind_get; [lia|]. intros c Hc.
  destruct (stop c) eqn:Hs; [split; [lia|split; [by exists c|done]]|]. destruct (Z.leb_spec (max - 1) (len acc)); [done|].
  rewrite put_lt by lia. cbn [mbind out_bind]. assert (len (acc ++ [c]) < max) by (rewrite len_app; change (len [c]) with 1; lia).
  destruct (decide (i = e)) as [->|]; [destruct He as (c' & Hc' & Hs'); congruence|].
  eapply safe_weaken; [apply IH; lia|]. cbv beta. intros [s j] [? ?]. split; [lia|done].
Qed.

Lemma use_name_safe fuel b i acc e : stops b name_end e → 0 ≤ i ≤ e → e - i < Z.of_nat fuel → len acc < 1024 →
  safe (use_name fuel b i acc) (λ '(s, j), i ≤ j ≤ e ∧ len s < 1024).
Proof.
  intros He. revert i acc. induction fuel as [|fuel IH]; intros i acc Hi Hf Ha; [lia|]. cbn [use_name].
  destruct (Z.leb_spec 1023 (len acc)); [cbn [safe]; lia|]. pose proof (stops_lt _ _ _ He). apply safe_bind_get; [lia|]. intros c Hc.
  destruct (name_end c) eqn:Hs; [cbn [safe]; lia|].
  rewrite put_lt by lia. cbn [mbind out_bind]. assert (len (acc ++ [c]) < 1024) by (rewrite len_app; change (len [c]) with 1; lia).
  destruct (decide (i = e)) as [->|]; [destruct He as (c' & Hc' & Hs'); congruence|].
  eapply safe_weaken; [apply IH; lia|]. cbv beta. intros [s j] ?. lia.
Qed.

Lemma find_brace_safe fuel b size i : size ≤ len b → 0 ≤ i ≤ size → size - i < Z.of_nat fuel →
  safe (find_brace fuel b size i) (λ j, i ≤ j ∧ (j < size → b.[j] = Some 125)).
Proof.
  intros Hs. revert i. induction fuel as [|fuel IH]; intros i Hi Hf; cbn [find_brace].
  - lia.
  - destruct (Z.ltb_spec i size); [|cbn; lia]. apply safe_bind_get; [lia|]. intros c Hc.
    destruct (Z.eqb_spec c 125) as [->|]; [cbn; split; [lia|done]|].
    eapply safe_weaken; [apply IH; lia|]. cbv beta. intros j [? ?]. split; [lia|done].
Qed.

Lemma skip_line_safe fuel b size i e : stops b line_end e → 0 ≤ i ≤ e → e - i < Z.of_nat fuel →
  safe (skip_line fuel b size i) (λ j, i ≤ j ≤ e).
Proof.
  intros He. revert i. induction fuel as [|fuel IH]; intros i Hi Hf; [lia|]. cbn [skip_line].
  pose proof (stops_lt _ _ _ He). apply safe_bind_get; [lia|]. intros c Hc.
  destruct (line_end c) eqn:Hs; [cbn; lia|]. destruct (size <=? i + 1); [done|].
  destruct (decide (i = e)) as [->|]; [destruct He as (c' & Hc' & Hs'); congruence|].
  eapply safe_weaken; [apply IH; lia|]. cbv beta. intros j ?. lia.
Qed.

(** ** Comparing with a constant *)

Lemma memcmp_prefix l s r : memcmp l s (length s) = Some r → r = 0 → ∃ l', l = s ++ l'.
Proof.
  revert l. induction s as [|x s IH]; intros l Hm ->; [by exists l|].
  destruct l as [|y l]; [done|]. cbn [length memcmp] in Hm.
  destruct (Z.eqb_spec y x) as [->|]; cbn [negb] in Hm; [|by destruct (y <? x)].
  destruct (IH l Hm eq_refl) as (l' & ->). by exists l'.
Qed.

Lemma memcmp_total l s : (length s ≤ length l)%nat → ∃ r, memcmp l s (length s) = Some r.
Proof.
  revert l. induction s as [|x s IH]; intros l Hl; [exists 0; by destruct l|]. destruct l as [|y l]; [cbn in Hl; lia|].
  cbn [length memcmp]. destruct (negb (y =? x)); [by eexists|]. apply IH. cbn in Hl. lia.
Qed.

Lemma drop_get (b : list Z) i s l : 0 ≤ i → drop (Z.to_nat i) b = s ++ l → ∀ k, 0 ≤ k < len s → b.[i + k] = s.[k].
Proof.
  intros Hi Hd k Hk. unfold arr_get. rewrite !decide_True by lia. rewrite Z2Nat.inj_add by lia.
  rewrite <- lookup_drop, Hd. apply lookup_app_l. unfold len in Hk. lia.
Qed.

Lemma looking_at_safe b i s : 0 ≤ i → i + len s ≤ len b →
  safe (looking_at b i s) (λ r, r = true → ∀ k, 0 ≤ k < len s → b.[i + k] = s.[k]).
Proof.
  intros Hi Hl. unfold looking_at.
  destruct (memcmp_total (drop (Z.to_nat i) b) s) as (r & Hr); [rewrite length_drop; unfold len in Hl; lia|].
  rewrite Hr. cbn. intros Hz%Z.eqb_eq. destruct (memcmp_prefix _ _ _ Hr Hz) as (l & Hd). by apply (drop_get b i s l).
Qed.

(** ** The macros *)

Section macros.
Context (b : list Z) (n : Z) (Hb : text_buf b n).
Notation size := (n + 1).

Lemma line_end_n : stops b line_end n.
Proof. exists 0. split; [apply Hb|done]. Qed.
Lemma line_end_n1 : stops b line_end (n - 1).
Proof. exists NL. split; [apply Hb|done]. Qed.
Lemma name_end_n1 : stops b name_end (n - 1).
Proof. exists NL. split; [apply Hb|done]. Qed.

(** Behind a character that is no line's end there is more. *)
Lemma not_end i c : 0 ≤ i ≤ n → b.[i] = Some c → c ≠ 0 → c ≠ NL → i ≤ n - 2.
Proof.
  intros Hi Hc H0 Hnl. destruct Hb as [_ Hz Hn].
  destruct (decide (i = n)) as [->|]; [congruence|]. destruct (decide (i = n - 1)) as [->|]; [congruence|]. lia.
Qed.

(** The position behind "${" with or without the line's end in front. *)
Definition behind (i : Z) : Z := i + (if i =? 0 then 2 else 3).

Lemma at_definition_safe i : 0 ≤ i ≤ n →
  safe (at_definition b size i) (λ r, r = true → i + 2 ≤ behind i ≤ n - 1).
Proof.
  intros Hi. destruct (tb_range _ _ Hb) as [Hn Hlen]. unfold at_definition.
  apply (safe_bind _ _ (λ r, r = true → i + 3 ≤ n - 1)).
  - destruct (Z.leb_spec 3 (size - i)); [|done].
    eapply safe_weaken; [apply looking_at_safe; [lia|unfold len in *; cbn [length]; lia]|]. cbv beta. intros r Hr Ht.
    pose proof (not_end (i + 2) 123 ltac:(lia) (Hr Ht 2 ltac:(by vm_compute)) ltac:(done) ltac:(done)). lia.
  - intros [|] Ha; [cbn; intros _; specialize (Ha eq_refl); unfold behind; destruct (i =? 0); lia|].
    destruct (Z.leb_spec 2 (size - i)); [|done]. destruct (Z.eqb_spec i 0) as [->|]; [|done]. cbn [andb].
    eapply safe_weaken; [apply looking_at_safe; [lia|unfold len in *; cbn [length]; lia]|]. cbv beta. intros r Hr Ht.
    pose proof (not_end (0 + 1) 123 ltac:(lia) (Hr Ht 1 ltac:(by vm_compute)) ltac:(done) ltac:(done)). unfold behind. cbn. lia.
Qed.

Lemma len_fuel : n < len b. 
Proof. apply Hb. Qed.

Lemma load_loop_safe fuel i macros : 0 ≤ i ≤ size → size - i < Z.of_nat fuel →
  safe (load_loop fuel b size i macros) (λ _, True).
Proof.
  pose proof (tb_range _ _ Hb) as Hr. unfold len in Hr.
  revert i macros. induction fuel as [|fuel IH]; intros i macros Hi Hf; [lia|]. cbn [load_loop].
  destruct (Z.ltb_spec i size); [|done]. eapply safe_bind; [apply at_definition_safe; lia|].
  intros [|] Hd; [|apply IH; lia]. specialize (Hd eq_refl). fold (behind i).
  eapply safe_bind; [apply (read_until_safe _ _ _ _ _ _ _ (n - 1) name_end_n1); [lia..|by vm_compute]|].
  intros [name j] (Hj & (c & Hc & Hstop) & Hname). rewrite (get_eq _ _ _ Hc). cbn [mbind out_bind].
  destruct ((c =? NL) || (c =? 0)) eqn:Hend; cbn [mbind out_bind]; [apply IH; lia|].
  apply orb_false_iff in Hend as [H1 H2]. apply Z.eqb_neq in H1, H2.
  pose proof (not_end j c ltac:(lia) Hc H2 H1). eapply safe_bind.
  { apply (safe_bind_get b (j + 1) _ (λ r, r = false → b.[j + 1] = Some 61)); [unfold len; lia|]. intros x Hx. cbn.
    intros Hx61%negb_false_iff%Z.eqb_eq. by subst x. }
  intros [|] Heq; [apply IH; lia|]. specialize (Heq eq_refl).
  pose proof (not_end (j + 1) 61 ltac:(lia) Heq ltac:(done) ltac:(done)).
  rewrite put_lt by done. cbn [mbind out_bind].
  eapply safe_bind; [apply (read_until_safe _ _ _ _ _ _ _ n line_end_n); [lia..|by vm_compute]|].
  intros [value k] (Hk & _ & Hvalue). rewrite put_lt by done. apply IH; lia.
Qed.

Lemma skip_definition_safe i : 0 ≤ i → i + 2 ≤ behind i ≤ n - 1 →
  safe (skip_definition b size i) (λ r, match r with Some j => i < j ≤ n - 1 | None => True end).
Proof.
  intros H0 Hi. destruct (tb_range _ _ Hb) as [Hn Hlen]. unfold skip_definition. fold (behind i).
  eapply safe_bind; [apply find_brace_safe; [lia|lia|unfold len in *; lia]|]. intros j [Hj Hbrace].
  destruct (Z.leb_spec size j); [done|].
  pose proof (not_end j 125 ltac:(lia) (Hbrace ltac:(lia)) ltac:(done) ltac:(done)). cbv zeta.
  rewrite (proj2 (Z.leb_gt _ _)) by lia.
  eapply safe_bind.
  { apply (safe_bind_get b (j + 1) _ (λ r, r = true → b.[j + 1] = Some 61)); [lia|]. intros x Hx. cbn.
    intros Hx61%Z.eqb_eq. by subst x. }
  intros [|] Heq; [|done]. specialize (Heq eq_refl).
  pose proof (not_end (j + 1) 61 ltac:(lia) Heq ltac:(done) ltac:(done)).
  eapply safe_bind; [apply (skip_line_safe _ _ _ _ (n - 1) line_end_n1); [lia|unfold len in *; lia]|].
  intros k Hk. cbv beta in Hk. cbn [safe]. lia.
Qed.

(** What has been written when position [i] is reached. *)
Definition written (i : Z) (new : list Z) : Prop :=
  i ≤ n - 1 ∨ (i = n ∧ ∃ Y, new = Y ++ [NL]) ∨ (i = size ∧ ∃ Y, new = Y ++ [NL; 0]).

Lemma append_safe new cap s : len new ≤ cap → safe (append new cap s) (λ new', new' = new ++ s ∧ len new' ≤ cap).
Proof.
  revert new. induction s as [|c s IH]; intros new Hn; cbn [append]; [by rewrite app_nil_r|].
  destruct (Z.leb_spec cap (len new)); [done|]. rewrite put_lt by done. cbn [mbind out_bind].
  eapply safe_weaken; [apply IH; rewrite len_app; change (len [c]) with 1; lia|]. cbv beta. intros new' [-> Hl].
  rewrite <- app_assoc in *. done.
Qed.

Lemma expand_next_safe macros cap i new : 0 ≤ i ≤ n → written i new → len new ≤ cap →
  safe (expand_next macros cap b size i new) (λ '(j, new'), i < j ≤ size ∧ written j new' ∧ len new' ≤ Z.max (len new) cap).
Proof.
  intros Hi Hw Hcap. destruct (tb_range _ _ Hb) as [Hn Hlen]. unfold expand_next.
  assert (∀ s, safe (append new cap s) (λ new', new' = new ++ s ∧ len new' ≤ cap)) as Happ.
  { intros s. by apply append_safe. }
  apply (safe_bind _ _ (λ r, r = true → i + 2 ≤ n - 1)).
  { destruct (Z.leb_spec 2 (size - i)); [|done].
    eapply safe_weaken; [apply looking_at_safe; [lia|unfold len in *; cbn [length]; lia]|]. cbv beta. intros r Hr Ht.
    pose proof (not_end (i + 1) 123 ltac:(lia) (Hr Ht 1 ltac:(by vm_compute)) ltac:(done) ltac:(done)). lia. }
  intros [|] Huse.
  - specialize (Huse eq_refl). eapply safe_bind; [apply (use_name_safe _ _ _ _ (n - 1) name_end_n1); [unfold len in *; lia..|by vm_compute]|].
    intros [name j] [Hj Hname]. apply safe_bind_get; [lia|]. intros c Hc.
    destruct (Z.eqb_spec c 125) as [->|]; [|done]. cbn [negb].
    pose proof (not_end j 125 ltac:(lia) Hc ltac:(done) ltac:(done)).
    rewrite put_lt by done. cbn [mbind out_bind].
    eapply safe_bind; [apply Happ|]. intros new' [-> Hl]. cbn [safe]. split; [lia|]. split; [left; lia|lia].
  - apply safe_bind_get; [lia|]. intros c Hc. eapply safe_bind; [apply Happ|]. intros new' [-> Hl]. cbn.
    split; [lia|]. split; [|lia]. destruct Hw as [Hw|[(-> & Y & ->)|(-> & _)]]; [| |lia].
    + destruct (decide (i = n - 1)) as [->|]; [|left; lia]. right. left. split; [lia|]. exists new.
      rewrite (tb_nl _ _ Hb) in Hc. by injection Hc as <-.
    + right. right. split; [lia|]. exists Y. rewrite (tb_zero _ _ Hb) in Hc. injection Hc as <-. by rewrite <- app_assoc.
Qed.

Lemma expand_loop_safe fuel macros cap i new : 0 ≤ i ≤ size → size - i < Z.of_nat fuel → written i new → len new ≤ cap →
  safe (expand_loop fuel macros cap b size i new) (λ new', (∃ Y, new' = Y ++ [NL; 0]) ∧ len new' ≤ cap).
Proof.
  pose proof (tb_range _ _ Hb) as Hr.
  revert i new. induction fuel as [|fuel IH]; intros i new Hi Hf Hw Hc; [lia|]. cbn [expand_loop].
  destruct (Z.ltb_spec i size).
  - eapply safe_bind; [apply at_definition_safe; lia|]. intros d Hd.
    apply (safe_bind _ _ (λ r, match r with Some j => i < j ≤ n - 1 | None => True end)).
    { destruct d; [|done]. apply skip_definition_safe; [lia|by apply Hd]. }
    intros [j|] Hj.
    + apply IH; [lia|lia|left; lia|done].
    + eapply safe_bind; [by apply expand_next_safe; [lia|..]|]. intros [j new'] (Hj' & Hw' & Hl'). apply IH; [lia|lia|done|lia].
  - cbn. split; [|done]. destruct Hw as [Hw|[(-> & _)|(_ & Y & ->)]]; [lia|lia|by exists Y].
Qed.

Lemma expand_safe macros : safe (expand macros b size) (λ '(b', s), text_buf b' (s - 1) ∧ s ≤ 4 * size ∧ s ≤ len b').
Proof.
  pose proof (tb_range _ _ Hb) as Hr. unfold expand. destruct (SIZE_MAX / 4 <? size); [done|].
  eapply safe_bind; [apply expand_loop_safe; [lia|unfold len in *; lia|left; lia|change (len []) with 0; lia]|].
  intros new [(Y & ->) Hl]. cbn. rewrite (len_app (Y ++ [NL; 0])).
  split; [|split; [lia|pose proof (len_nonneg (replicate (Z.to_nat (size * 4 - len (Y ++ [NL; 0]))) 0)); lia]].
  replace (len (Y ++ [NL; 0]) - 1) with (len Y + 1) by (rewrite len_app; change (len [NL; 0]) with 2; lia). apply text_buf_app.
Qed.
End macros.
