(* ===== verification/ConfigValue.v ===== *)
(** Looking up the values of the configuration: the scan over the characters
    finds what the lines of the text say. *)
From S2P Require Import Prelude Libc LibcProofs Outcome Config ConfigClean ConfigSafe.
From stdpp Require Import strings.
Open Scope list_scope.
Open Scope Z_scope.

(** Characters of a C string. *)
Definition nz (t : list Z) : Prop := Forall (λ c, c ≠ 0) t.

Lemma tolower_0 c : tolower c = 0 → c = 0.
Proof. unfold tolower. destruct ((65 <=? c) && (c <=? 90)) eqn:Hc; [|done]. apply andb_true_iff in Hc as [H1 H2]. lia. Qed.

(** What follows the key and its colon, if the text starts with them. *)
Fixpoint key_of (k l : list Z) : option (list Z) :=
  match k, l with
  | [], c :: l => if c =? 58 then Some l else None
  | x :: k, c :: l => if tolower c =? tolower x then key_of k l else None
  | _, [] => None
  end.

Lemma strncasecmp_nil s1 s2 : strncasecmp s1 s2 0 = Some 0.
Proof. by destruct s1. Qed.

(** The comparison and the test for the colon of the code. *)
Lemma key_match k l r1 r2 : nz k → nz l →
  (r ← lift (strncasecmp (l ++ 0 :: r1) (k ++ 0 :: r2) (length k));
   if r =? 0 then c ← get (l ++ 0 :: r1) (len k); Ret (c =? 58) else Ret false) =
  Ret (match key_of k l with Some _ => true | None => false end).
Proof.
  intros Hk. revert l. induction Hk as [|x k Hx Hk IH]; intros l Hl.
  - cbn [length]. rewrite strncasecmp_nil. cbn [lift mbind out_bind Z.eqb]. change (len []) with 0.
    destruct Hl as [|c l Hc Hl]; cbn [app key_of]; [done|]. rewrite (get_eq _ _ c) by done. cbn. by destruct (c =? 58).
  - destruct Hl as [|c l Hc Hl]; cbn [app length strncasecmp key_of].
    + change (tolower 0) with 0. destruct (Z.eqb_spec 0 (tolower x)) as [Heq|_]; [by symmetry in Heq; apply tolower_0 in Heq|].
      cbn [negb lift mbind out_bind]. by destruct (0 <? tolower x).
    + destruct (Z.eqb_spec (tolower c) (tolower x)); cbn [negb]; [|by destruct (tolower c <? tolower x)].
      rewrite (proj2 (Z.eqb_neq c 0)) by done. rewrite <- IH by done.
      destruct (strncasecmp (l ++ 0 :: r1) (k ++ 0 :: r2) (length k)) as [r|]; [|done]. cbn [lift mbind out_bind].
      destruct (r =? 0); [|done]. rewrite len_cons. pose proof (len_nonneg k). f_equal. unfold get.
      change (c :: l ++ 0 :: r1) with ([c] ++ (l ++ 0 :: r1)). rewrite arr_get_app_r by (change (len [c]) with 1; lia).
      change (len [c]) with 1. by replace (1 + len k - 1) with (len k) by lia.
Qed.

Lemma key_of_app k l v rest : key_of k l = Some v → key_of k (l ++ rest) = Some (v ++ rest).
Proof.
  revert l. induction k as [|x k IH]; intros [|c l]; cbn [key_of app]; try done.
  - destruct (c =? 58); [|done]. by intros [= ->].
  - destruct (tolower c =? tolower x); [|done]. apply IH.
Qed.

Lemma key_of_suffix k l v : key_of k l = Some v → ∃ p, l = p ++ v ∧ len p = len k + 1.
Proof.
  revert l. induction k as [|x k IH]; intros [|c l]; cbn [key_of]; try done.
  - destruct (c =? 58); [|done]. intros [= ->]. by exists [c].
  - destruct (tolower c =? tolower x); [|done]. intros (p & -> & Hp)%IH. exists (c :: p). split; [done|]. rewrite !len_cons. lia.
Qed.

(** A key does not go over the end of a line. *)
Lemma key_of_line k l rest : line k → key_of k l = None → key_of k (l ++ NL :: rest) = None.
Proof.
  intros Hk. revert l. induction Hk as [|x k Hx Hk IH]; intros [|c l]; cbn [key_of app]; try done.
  - by destruct (c =? 58).
  - intros _. change (tolower NL) with NL. destruct (Z.eqb_spec NL (tolower x)) as [He|]; [|done]. exfalso. apply Hx.
    unfold tolower in He. destruct ((65 <=? x) && (x <=? 90)) eqn:Hr; [|done]. apply andb_true_iff in Hr as [? ?]. unfold NL in He. lia.
  - destruct (tolower c =? tolower x); [|done]. apply IH.
Qed.

(** The scan: the text behind the [index]th key at the start of a line. *)
Fixpoint vfind (k : list Z) (start : bool) (R : list Z) (index : Z) : option (list Z) :=
  match R with
  | [] => None
  | c :: R' =>
      match key_of k R with
      | Some v => if start then if index =? 0 then Some v else vfind k (c =? NL) R' (index - 1) else vfind k (c =? NL) R' index
      | None => vfind k (c =? NL) R' index
      end
  end.

(** What the code makes of the text behind the colon. *)
Definition skip_blanks (v : list Z) : list Z := drop (run is_blank v) v.
Definition until_end (v : list Z) : list Z := take (run (λ c, negb (line_end c)) v) v.
Definition buffered (v : list Z) : list Z := take 4095 v.

Lemma span_until_run fuel stop D R T c : (length R < fuel)%nat → Forall (λ c, stop c = false) R → stop c = true →
  span_until fuel stop (D ++ R ++ c :: T) (len D) = Ret (len D + len R).
Proof.
  intros Hf HR Hc. revert fuel D Hf. induction HR as [|x R Hx HR IH]; intros [|fuel] D Hf; cbn [length] in Hf; try lia; cbn [span_until].
  - cbn [app]. rewrite get_here. cbn [mbind out_bind]. rewrite Hc. change (len []) with 0. f_equal. lia.
  - rewrite get_after. cbn [mbind out_bind]. rewrite Hx.
    specialize (IH fuel (D ++ [x])). rewrite <- app_assoc, len_app in IH. cbn [app] in IH. change (len [x]) with 1 in IH.
    cbn [app]. rewrite IH by lia. rewrite len_cons. f_equal. lia.
Qed.

(** The run at the front of a list and what stops it. *)
Lemma run_split p v : v = take (run p v) v ++ drop (run p v) v ∧ Forall (λ c, p c = true) (take (run p v) v) ∧
  match drop (run p v) v with [] => True | c :: _ => p c = false end.
Proof.
  split; [by rewrite take_drop|]. induction v as [|c v IH]; cbn [run]; [done|].
  destruct (p c) eqn:Hc; cbn [take drop]; [|done]. destruct IH. split; [by constructor|done].
Qed.

Lemma slice_mid (D R T : list Z) : slice (D ++ R ++ T) (len D) (len R) = Some R.
Proof.
  pose proof (len_nonneg D). pose proof (len_nonneg R). pose proof (len_nonneg T).
  rewrite slice_lt by (rewrite ?len_app; lia). by rewrite drop_len, take_len.
Qed.

Lemma value_ok D v r : nz v →
  (i ← span_until (S (length (D ++ v ++ 0 :: r))) (λ c, negb (is_blank c)) (D ++ v ++ 0 :: r) (len D);
   e ← span_until (S (length (D ++ v ++ 0 :: r))) line_end (D ++ v ++ 0 :: r) i;
   let value_len := if CONFIG_VALUE_BUF_SIZE <=? e - i then CONFIG_VALUE_BUF_SIZE - 1 else e - i in
   s ← lift (slice (D ++ v ++ 0 :: r) i value_len);
   _ ← put CONFIG_VALUE_BUF_SIZE s 0;
   Ret (Some (s, i))) =
  Ret (Some (buffered (until_end (skip_blanks v)), len D + (len v - len (skip_blanks v)))).
Proof.
  intros Hv. set (b := D ++ v ++ 0 :: r).
  destruct (run_split is_blank v) as (Hsp & Hbl & Hst). fold (skip_blanks v) in *.
  set (B := take (run is_blank v) v) in *. set (w := skip_blanks v) in *. clearbody B w.
  assert (nz w) as Hw by (rewrite Hsp in Hv; apply Forall_app in Hv; apply Hv).
  destruct (run_split (λ c, negb (line_end c)) w) as (Hsp2 & Hin & Hst2). fold (until_end w) in *.
  set (u := until_end w) in *. set (x := drop _ w) in *. clearbody u x.
  assert (len D + (len v - len w) = len (D ++ B)) as Hpos by (rewrite len_app, Hsp, len_app; lia).
  assert (span_until (S (length b)) (λ c, negb (is_blank c)) b (len D) = Ret (len (D ++ B))) as ->.
  { assert (∃ c T, w ++ 0 :: r = c :: T ∧ negb (is_blank c) = true) as (c & T & HcT & Hc).
    { destruct w as [|c w]; [by exists 0, r|]. exists c, (w ++ 0 :: r). split; [done|]. by rewrite Hst. }
    assert (b = D ++ B ++ c :: T) as -> by (unfold b; rewrite Hsp, <- app_assoc, HcT; done).
    rewrite span_until_run; [by rewrite len_app|rewrite !length_app; lia| |done].
    eapply Forall_impl; [exact Hbl|]. cbv beta. by intros y ->. }
  cbn [mbind out_bind].
  assert (span_until (S (length b)) line_end b (len (D ++ B)) = Ret (len (D ++ B) + len u)) as ->.
  { assert (∃ c T, x ++ 0 :: r = c :: T ∧ line_end c = true) as (c & T & HcT & Hc).
    { destruct x as [|c x]; [by exists 0, r|]. exists c, (x ++ 0 :: r). split; [done|]. by apply negb_false_iff. }
    assert (b = (D ++ B) ++ u ++ c :: T) as ->.
    { unfold b. rewrite Hsp, Hsp2, <- !app_assoc. do 3 f_equal. done. }
    rewrite span_until_run; [done|rewrite !length_app; lia| |done].
    eapply Forall_impl; [exact Hin|]. cbv beta. by intros y ->%negb_true_iff. }
  cbn [mbind out_bind]. replace (len (D ++ B) + len u - len (D ++ B)) with (len u) by lia. cbv zeta.
  assert (b = (D ++ B) ++ u ++ x ++ 0 :: r) as Hb by (unfold b; rewrite Hsp, Hsp2, <- !app_assoc; done).
  assert ((if CONFIG_VALUE_BUF_SIZE <=? len u then CONFIG_VALUE_BUF_SIZE - 1 else len u) = len (buffered u)) as ->.
  { unfold buffered, CONFIG_VALUE_BUF_SIZE, len. rewrite length_take. destruct (Z.leb_spec 4096 (Z.of_nat (length u))); lia. }
  assert (b = (D ++ B) ++ buffered u ++ (drop 4095 u ++ x ++ 0 :: r)) as ->.
  { rewrite Hb. unfold buffered. by rewrite (app_assoc (take 4095 u)), take_drop. }
  rewrite slice_mid. cbn [lift mbind out_bind]. unfold put. rewrite (proj2 (Z.ltb_lt _ _)); [by rewrite Hpos|].
  unfold buffered, CONFIG_VALUE_BUF_SIZE, len. rewrite length_take. lia.
Qed.

(** The scan of the code from [len D] on. *)
Lemma get_value_loop_ok fuel D R r k r2 index : (length R < fuel)%nat → nz R → nz k → 0 ≤ index < 2 ^ 64 →
  get_value_loop fuel (D ++ R ++ 0 :: r) (len D) index (k ++ 0 :: r2) (len k) =
  Ret (match vfind k (line_start D) R index with
       | Some v => Some (buffered (until_end (skip_blanks v)), len D + len R - len (skip_blanks v))
       | None => None
       end).
Proof.
  intros Hf HR Hk. revert fuel D index Hf. induction HR as [|c R Hc HR IH]; intros [|fuel] D index Hf Hi; cbn [length] in Hf; try lia;
    cbn [get_value_loop].
  { cbn [app]. rewrite get_here. done. }
  rewrite get_after. cbn [mbind out_bind]. rewrite (proj2 (Z.eqb_neq c 0)) by done.
  rewrite drop_len. replace (Z.to_nat (len k)) with (length k) by (unfold len; lia).
  pose proof (key_match k (c :: R) r r2 Hk) as Hm. cbn [app] in Hm |- *.
  assert (∀ x, get (D ++ c :: R ++ 0 :: r) (len D + len k) = x → get (c :: R ++ 0 :: r) (len k) = x) as Hget.
  { intros x <-. unfold get. rewrite arr_get_app_r by (pose proof (len_nonneg k); lia). by replace (len D + len k - len D) with (len k) by lia. }
  rewrite <- (Hget _ eq_refl). specialize (Hm ltac:(by constructor)). clear Hget.
  destruct (lift (strncasecmp (c :: R ++ 0 :: r) (k ++ 0 :: r2) (length k))) as [e|msg|]; [|done..].
  cbn [mbind out_bind] in Hm |- *. rewrite Hm. cbn [mbind out_bind]. clear Hm e.
  specialize (IH fuel (D ++ [c])). rewrite <- app_assoc, len_app in IH. cbn [app] in IH. change (len [c]) with 1 in IH.
  rewrite line_start_snoc in IH. cbn [vfind]. rewrite len_cons.
  replace (len D + (1 + len R)) with (len D + 1 + len R) by lia.
  destruct (key_of k (c :: R)) as [v|] eqn:Hkey; cbn [negb]; [|apply IH; lia].
  assert ((if negb (len D =? 0) then c0 ← get (D ++ c :: R ++ 0 :: r) (len D - 1); Ret (negb (c0 =? NL)) else Ret false) =
          Ret (negb (line_start D))) as ->.
  { pose proof (line_start_get D (c :: R ++ 0 :: r)) as Hs. destruct (len D =? 0); cbn [negb]; [by injection Hs as <-|].
    destruct (get (D ++ c :: R ++ 0 :: r) (len D - 1)); [|done..]. cbn [mbind out_bind] in *. by injection Hs as <-. }
  cbn [mbind out_bind]. destruct (line_start D); cbn [negb]; [|apply IH; lia].
  destruct (Z.eqb_spec index 0) as [->|]; cbn [negb].
  - destruct (key_of_suffix _ _ _ Hkey) as (p & Hp & Hlp).
    assert (nz v) as Hv by (assert (nz (c :: R)) as Hcr by (by constructor); rewrite Hp in Hcr; apply Forall_app in Hcr; apply Hcr).
    change (D ++ c :: R ++ 0 :: r) with (D ++ (c :: R) ++ 0 :: r). rewrite Hp.
    assert (D ++ (p ++ v) ++ 0 :: r = (D ++ p) ++ v ++ 0 :: r) as -> by (by rewrite <- !app_assoc).
    replace (len D + len k + 1) with (len (D ++ p)) by (rewrite len_app; lia). rewrite value_ok by done.
    do 3 f_equal. rewrite len_app. assert (1 + len R = len p + len v) by (rewrite <- len_app, <- Hp, len_cons; lia). lia.
  - change (2 ^ 64) with 18446744073709551616 in *. rewrite u64_id by lia. apply IH; lia.
Qed.

(** ** By lines *)

(** The value a line has for a key, as it is given back. *)
Definition line_value (k l : list Z) : option (list Z) :=
  v ← key_of k l; Some (buffered (skip_blanks v)).

Lemma until_end_line v rest : line v → nz v → until_end (skip_blanks (v ++ NL :: rest)) = skip_blanks v ∧ until_end (skip_blanks v) = skip_blanks v.
Proof.
  intros Hl Hv. unfold skip_blanks.
  assert (∀ w, line w → nz w → until_end w = w ∧ until_end (w ++ NL :: rest) = w) as Hw.
  { intros w Hwl Hwn. unfold until_end. induction Hwl as [|c w Hc Hwl IH]; [done|].
    apply Forall_cons in Hwn as [H0 Hwn]. cbn [app run]. unfold line_end at 1 3.
    rewrite (proj2 (Z.eqb_neq c NL)), (proj2 (Z.eqb_neq c 0)) by done. cbn [orb negb take]. destruct (IH Hwn) as [-> ->]. done. }
  assert (drop (run is_blank (v ++ NL :: rest)) (v ++ NL :: rest) = drop (run is_blank v) v ++ NL :: rest) as ->.
  { clear. induction v as [|c v IH]; [done|]. cbn [app run]. destruct (is_blank c); [apply IH|done]. }
  assert (line (drop (run is_blank v) v) ∧ nz (drop (run is_blank v) v)) as [? ?] by (split; by apply Forall_drop).
  split; by apply Hw.
Qed.

(** Inside a line nothing is found. *)
Lemma vfind_inside k l rest index : line l → vfind k false (l ++ NL :: rest) index = vfind k true rest index.
Proof.
  intros Hl. induction Hl as [|c l Hc Hl IH]; cbn [app vfind].
  - change (NL =? NL) with true. by destruct (key_of k (NL :: rest)).
  - rewrite (proj2 (Z.eqb_neq c NL)) by done. rewrite IH. by destruct (key_of k (c :: l ++ NL :: rest)).
Qed.

Lemma vfind_line k l rest index : line l → line k →
  vfind k true (l ++ NL :: rest) index =
  match key_of k l with
  | Some v => if index =? 0 then Some (v ++ NL :: rest) else vfind k true rest (index - 1)
  | None => vfind k true rest index
  end.
Proof.
  intros Hl Hk. destruct l as [|c l].
  - cbn [app vfind]. change (NL =? NL) with true.
    assert (key_of k (NL :: rest) = None) as -> by (by apply (key_of_line k []); [|destruct k]).
    by destruct k.
  - cbn [app vfind]. apply Forall_cons in Hl as [Hc Hl]. rewrite (proj2 (Z.eqb_neq c NL)) by done. rewrite !vfind_inside by done.
    destruct (key_of k (c :: l)) as [v|] eqn:Hkey.
    + apply (key_of_app _ _ _ (NL :: rest)) in Hkey. cbn [app] in Hkey. by rewrite Hkey.
    + apply (key_of_line _ _ rest Hk) in Hkey. cbn [app] in Hkey. by rewrite Hkey.
Qed.

(** The last line has no end. *)
Lemma vfind_last k l index : line l → vfind k true l index = v ← key_of k l; if index =? 0 then Some v else None.
Proof.
  intros Hl. assert (∀ l index, line l → vfind k false l index = None) as Hin.
  { clear. intros l index Hl. induction Hl as [|c l Hc Hl IH]; [done|]. cbn [vfind]. rewrite (proj2 (Z.eqb_neq c NL)), IH by done.
    by destruct (key_of k (c :: l)). }
  destruct l as [|c l]; [by destruct k|]. cbn [vfind]. apply Forall_cons in Hl as [Hc Hl].
  rewrite (proj2 (Z.eqb_neq c NL)), !Hin by done. by destruct (key_of k (c :: l)).
Qed.

Lemma vfind_lines k ls l index : Forall (λ l, line l ∧ nz l) ls → line l → nz l → line k → 0 ≤ index →
  (λ v, buffered (until_end (skip_blanks v))) <$> vfind k true (with_ends ls ++ l) index =
  omap (line_value k) (ls ++ [l]) !! Z.to_nat index.
Proof.
  intros Hls Hl Hnz Hk. revert index. induction Hls as [|x ls [Hx Hxn] Hls IH]; intros index Hi.
  - unfold with_ends. cbn [map concat app]. rewrite vfind_last by done. cbn [omap list_omap].
    unfold line_value. destruct (key_of k l) as [v|] eqn:Hkey; cbn [mbind option_bind]; [|done].
    destruct (key_of_suffix _ _ _ Hkey) as (p & -> & _). apply Forall_app in Hl as [_ Hl]. apply Forall_app in Hnz as [_ Hnz].
    destruct (Z.eqb_spec index 0) as [->|].
    + cbn. by rewrite (proj2 (until_end_line v [] Hl Hnz)).
    + cbn. destruct (Z.to_nat index) eqn:Hz; [lia|done].
  - unfold with_ends in *. cbn [map concat app]. rewrite <- !app_assoc. cbn [app]. rewrite vfind_line by done.
    cbn [omap list_omap]. unfold line_value at 1. destruct (key_of k x) as [v|] eqn:Hkey; cbn [mbind option_bind]; [|by apply IH].
    destruct (key_of_suffix _ _ _ Hkey) as (p & -> & _). apply Forall_app in Hx as [_ Hx]. apply Forall_app in Hxn as [_ Hxn].
    destruct (Z.eqb_spec index 0) as [->|].
    + cbn. by rewrite (proj1 (until_end_line v _ Hx Hxn)).
    + rewrite IH by lia. replace (Z.to_nat index) with (S (Z.to_nat (index - 1))) by lia. done.
Qed.

Lemma config_get_value_ok t r k r2 index : nz t → nz k → 0 ≤ index < 2 ^ 64 →
  config_get_value (t ++ 0 :: r) index (k ++ 0 :: r2) =
  Ret (match vfind k true t index with
       | Some v => Some (buffered (until_end (skip_blanks v)), len t - len (skip_blanks v))
       | None => None
       end).
Proof.
  intros Ht Hk Hi. unfold config_get_value.
  assert (strlen (k ++ 0 :: r2) = Some (len k)) as ->.
  { clear -Hk. induction Hk as [|x k Hx Hk IH]; [done|]. cbn [app strlen]. rewrite (proj2 (Z.eqb_neq x 0)), IH by done. cbn. by rewrite len_cons. }
  cbn [lift mbind out_bind]. apply (get_value_loop_ok _ [] t r k r2 index); [rewrite length_app; lia|done..].
Qed.

Lemma config_get_value_lines ls l r k r2 index :
  Forall (λ l, line l ∧ nz l) ls → line l → nz l → line k → nz k → 0 ≤ index < 2 ^ 64 →
  ∃ v, config_get_value ((with_ends ls ++ l) ++ 0 :: r) index (k ++ 0 :: r2) = Ret v ∧
    fst <$> v = omap (line_value k) (ls ++ [l]) !! Z.to_nat index.
Proof.
  intros Hls Hl Hn Hk Hkn Hi. rewrite config_get_value_ok; [|apply Forall_app; split; [|done]|done|done].
  - eexists. split; [done|]. rewrite <- vfind_lines by (done || lia). by destruct (vfind _ _ _ _).
  - unfold with_ends. clear -Hls. induction Hls as [|x ls [Hx Hxn] Hls IH]; [constructor|]. cbn [map concat].
    repeat (apply Forall_app; split); [done|by constructor|done].
Qed.

(** C33: [config_get_value] gives the value of the [index]th line that starts with
    the key, in either case, and a colon: the rest of the line without the
    blanks in front, at most 4095 characters of it, and nothing if there is
    no such line. *)
Theorem config_get_value_correct ls l r k r2 index :
  Forall (λ l, line l ∧ nz l) ls → line l → nz l → line k → nz k → 0 ≤ index < 2 ^ 64 →
  ∃ v, config_get_value ((with_ends ls ++ l) ++ 0 :: r) index (k ++ 0 :: r2) = Ret v ∧
    fst <$> v = omap (line_value k) (ls ++ [l]) !! Z.to_nat index.
Proof. apply config_get_value_lines. Qed.

Lemma config_get_value_correct_witness :
  (fst <$> match config_get_value (lit "a: 1" ++ NL :: lit "A:  two" ++ [0]) 1 (lit "a" ++ [0]) with Ret v => v | _ => None end) = Some (lit "two") ∧
  ∃ v, config_get_value ((with_ends [lit "a: 1"; lit "A:  two"] ++ lit "b:3") ++ 0 :: []) 1 (lit "a" ++ 0 :: []) = Ret v ∧
    fst <$> v = omap (line_value (lit "a")) ([lit "a: 1"; lit "A:  two"] ++ [lit "b:3"]) !! Z.to_nat 1.
Proof.
  split; [vm_compute; reflexivity|].
  refine (config_get_value_correct [lit "a: 1"; lit "A:  two"] (lit "b:3") [] (lit "a") [] 1 _ _ _ _ _ _); [..|lia];
    repeat constructor; vm_compute; discriminate.
Defined.
