(* ===== verification/ConfigMenu.v ===== *)
(** The menu of a configuration: the tree the code makes of a text is the tree
    the text was written for. *)
From S2P Require Import Prelude Libc Outcome Config ConfigClean ConfigSafe ConfigValue.
From stdpp Require Import strings sets.
Open Scope list_scope.
Open Scope Z_scope.

(** ** Where lines start *)

(** Whether a line starts behind [P], which comes where [start] holds. *)
Definition ends (start : bool) (P : list Z) : bool := match last P with None => start | Some c => c =? NL end.

Lemma ends_cons s c P : ends s (c :: P) = ends (c =? NL) P.
Proof. unfold ends. rewrite last_cons. by destruct (last P). Qed.

Lemma ends_app s P R : ends s (P ++ R) = ends (ends s P) R.
Proof. revert s. induction P as [|c P IH]; intros s; [done|]. cbn [app]. by rewrite !ends_cons, IH. Qed.

Lemma ends_start D : line_start D = ends true D.
Proof. done. Qed.

(** Text in which no line starts with a slash. *)
Fixpoint plain (start : bool) (R : list Z) : Prop :=
  match R with
  | [] => True
  | c :: R => (start = true → c ≠ 47) ∧ c ≠ 0 ∧ plain (c =? NL) R
  end.

Lemma plain_app s P R : plain s P → plain (ends s P) R → plain s (P ++ R).
Proof.
  revert s. induction P as [|c P IH]; intros s HP HR; [done|]. destruct HP as (H1 & H2 & HP). cbn [app plain].
  split; [done|]. split; [done|]. apply IH; [done|]. by rewrite ends_cons in HR.
Qed.

Lemma plain_nz s R : plain s R → nz R.
Proof. revert s. induction R as [|c R IH]; intros s; [constructor|]. intros (_ & H & HR). constructor; [done|]. by eapply IH. Qed.

(** Inside a line anything goes. *)
Lemma plain_inside l : Forall (λ c, line_end c = false) l → plain false l ∧ ends false l = false.
Proof.
  induction 1 as [|c l Hc Hl [IH1 IH2]]; [done|]. rewrite ends_cons. cbn [plain].
  unfold line_end in Hc. apply orb_false_iff in Hc as [-> H0]. apply Z.eqb_neq in H0. done.
Qed.

(** A line of a configuration that starts no entry. *)
Definition value_line (l : list Z) : bool := forallb (λ c, negb (line_end c)) l && negb (bool_decide (head l = Some 47)).

Lemma value_line_spec l : value_line l = true → line l ∧ nz l ∧ Forall (λ c, line_end c = false) l ∧ head l ≠ Some 47.
Proof.
  unfold value_line. intros [Hl Hh]%andb_true_iff. apply negb_true_iff, bool_decide_eq_false in Hh.
  assert (Forall (λ c, line_end c = false) l) as Hf.
  { apply Forall_forall. intros c Hc. apply negb_true_iff. rewrite forallb_forall in Hl. apply Hl. by apply list_elem_of_In. }
  split; [|split; [|done]]; eapply Forall_impl; [exact Hf| |exact Hf|]; cbv beta; intros c [H1 H2]%orb_false_iff; by apply Z.eqb_neq.
Qed.

Lemma value_lines ls : forallb value_line ls = true → Forall (λ l, line l ∧ nz l) ls.
Proof.
  intros Hls. apply Forall_forall. intros l Hl. rewrite forallb_forall in Hls.
  destruct (value_line_spec l) as (H1 & H2 & _); [by apply Hls, list_elem_of_In|done].
Qed.

Lemma plain_lines ls : forallb value_line ls = true → plain true (with_ends ls) ∧ ends true (with_ends ls) = true.
Proof.
  unfold with_ends. induction ls as [|l ls IH]; [done|]. cbn [forallb map concat].
  intros [(_ & _ & Hl & Hh)%value_line_spec Hls]%andb_true_iff. destruct (IH Hls) as [IH1 IH2].
  assert (plain true l) as Hp.
  { destruct l as [|c l]; [done|]. apply Forall_cons in Hl as [Hc Hl]. cbn [plain]. split; [intros _ ->; by apply Hh|].
    unfold line_end in Hc. apply orb_false_iff in Hc as [-> H0]. apply Z.eqb_neq in H0. split; [done|]. by apply plain_inside. }
  assert (ends true (l ++ [NL]) = true) as He by (by rewrite ends_app).
  split; [|by rewrite ends_app, He]. apply plain_app; [|by rewrite He]. apply plain_app; [done|]. cbn [plain].
  split; [done|]. split; [done|done].
Qed.

(** ** Entries one after the other *)
Record flat := Flat { f_depth : nat; f_raw : list Z; f_lines : list (list Z) }.
Definition f_name (f : flat) : list Z := replicate (f_depth f) 47 ++ f_raw f.
Definition f_body (f : flat) : list Z := NL :: with_ends (f_lines f).
Definition f_text (f : flat) : list Z := f_name f ++ f_body f.

Record flat_ok (f : flat) : Prop := {
  fo_depth : (0 < f_depth f)%nat;
  fo_raw : match f_raw f with c :: _ => c ≠ 47 | [] => False end;
  fo_chars : Forall (λ c, line_end c = false) (f_raw f);
  fo_lines : forallb value_line (f_lines f) = true;
}.

Lemma name_chars f : flat_ok f → Forall (λ c, line_end c = false) (f_name f).
Proof. intros [_ _ Hc _]. apply Forall_app. split; [by apply Forall_replicate|done]. Qed.

Lemma body_plain f : flat_ok f → plain false (f_body f) ∧ ends false (f_body f) = true.
Proof.
  intros [_ _ _ Hl]. destruct (plain_lines _ Hl) as [H1 H2]. unfold f_body. rewrite ends_cons. cbn [plain].
  split; [|done]. split; [done|]. by split.
Qed.

Lemma name_slash f : flat_ok f → ∃ x, f_name f = 47 :: x ∧ x ≠ [].
Proof.
  intros [Hd Hr _ _]. unfold f_name. destruct (f_depth f) as [|d]; [lia|]. eexists. split; [done|].
  intros [_ Hnil]%app_eq_nil. by rewrite Hnil in Hr.
Qed.

Lemma text_slash f : flat_ok f → ∃ x, f_text f = 47 :: x ∧ plain false x ∧ ends false x = true.
Proof.
  intros Hf. destruct (name_slash f Hf) as (x & Hx & _). pose proof (name_chars f Hf) as Hc. destruct (body_plain f Hf) as [Hp He].
  rewrite Hx in Hc. apply Forall_cons in Hc as [_ Hc]. destruct (plain_inside x Hc) as [Hpx Hex].
  exists (x ++ f_body f). unfold f_text. rewrite Hx. split; [done|]. rewrite ends_app, Hex. split; [|done].
  apply plain_app; [done|]. by rewrite Hex.
Qed.

(** ** Finding an entry *)

(** The distance to behind the slash of the [k]th entry. *)
Fixpoint slash (start : bool) (R : list Z) (k : Z) : option Z :=
  match R with
  | [] => None
  | c :: R =>
      if (c =? 47) && start then if k =? 0 then Some 1 else Z.add 1 <$> slash false R (k - 1)
      else Z.add 1 <$> slash (c =? NL) R k
  end.

Lemma again_ok D R : (if negb (len D + 1 - 1 =? 0) then c ← get (D ++ R) (len D + 1 - 2); Ret (negb (c =? NL)) else Ret false) =
  Ret (negb (line_start D)).
Proof.
  pose proof (line_start_get D R) as Hs. replace (len D + 1 - 1) with (len D) by lia. replace (len D + 1 - 2) with (len D - 1) by lia.
  destruct (len D =? 0); cbn [negb]; [by injection Hs as <-|].
  destruct (get (D ++ R) (len D - 1)); [|done..]. cbn [mbind out_bind] in *. by injection Hs as <-.
Qed.

Lemma seek_ok fuel D R r i index : (length R < fuel)%nat → nz R → i ≤ index →
  seek fuel (D ++ R ++ 0 :: r) (len D) i index = Ret (Z.add (len D) <$> slash (line_start D) R (index - i)).
Proof.
  intros Hf HR. revert fuel D i Hf. induction HR as [|c R Hc HR IH]; intros [|fuel] D i Hf Hi; cbn [length] in Hf; try lia; cbn [seek].
  - rewrite (proj2 (Z.ltb_ge _ _)) by lia. cbn [app]. rewrite get_here. done.
  - rewrite (proj2 (Z.ltb_ge _ _)) by lia. rewrite get_after. cbn [mbind out_bind slash].
    assert (∀ s k, line_start (D ++ [c]) = s →
      seek fuel (D ++ (c :: R) ++ 0 :: r) (len D + 1) k index = if index <? k then Ret (Some (len D + 1))
        else Ret (Z.add (len D) <$> (Z.add 1 <$> slash s R (index - k)))) as Hnext.
    { intros s k <-. destruct (Z.ltb_spec index k) as [Hk|Hk].
      - destruct fuel as [|fuel]; [lia|]. cbn [seek]. by rewrite (proj2 (Z.ltb_lt _ _)).
      - specialize (IH fuel (D ++ [c]) k ltac:(lia) Hk). rewrite <- app_assoc in IH. rewrite len_app in IH. change (len [c]) with 1 in IH.
        cbn [app] in IH |- *. rewrite IH. f_equal. destruct (slash _ _ _); [|done]. cbn. f_equal. lia. }
    destruct (Z.eqb_spec c 47) as [->|Hn]; cbn [negb andb].
    + cbv zeta. rewrite again_ok. cbn [mbind out_bind]. rewrite (Hnext false) by apply line_start_snoc.
      destruct (line_start D); cbn [negb].
      * destruct (Z.eqb_spec (index - i) 0).
        { by rewrite (proj2 (Z.ltb_lt _ _)) by lia. }
        { rewrite (proj2 (Z.ltb_ge _ _)) by lia. by replace (index - (i + 1)) with (index - i - 1) by lia. }
      * by rewrite (proj2 (Z.ltb_ge _ _)) by lia.
    + rewrite (proj2 (Z.eqb_neq c 0)) by done. rewrite (Hnext (c =? NL)) by apply line_start_snoc.
      by rewrite (proj2 (Z.ltb_ge _ _)) by lia.
Qed.

Lemma slash_plain s P R k : plain s P → slash s (P ++ R) k = Z.add (len P) <$> slash (ends s P) R k.
Proof.
  revert s. induction P as [|c P IH]; intros s HP; [change (ends s []) with s; cbn [app]; by destruct (slash s R k)|]. destruct HP as (H1 & _ & HP).
  cbn [app slash]. assert ((c =? 47) && s = false) as ->.
  { destruct s; [|by rewrite andb_false_r]. rewrite andb_true_r. apply Z.eqb_neq. by apply H1. }
  rewrite IH by done. rewrite ends_cons, len_cons. destruct (slash _ R k); [|done]. cbn. f_equal. lia.
Qed.

Lemma slash_text f R k : flat_ok f → 0 ≤ k →
  slash true (f_text f ++ R) k = if k =? 0 then Some 1 else Z.add (len (f_text f)) <$> slash true R (k - 1).
Proof.
  intros Hf Hk. destruct (text_slash f Hf) as (x & -> & Hp & He). cbn [app slash]. change (47 =? 47) with true. cbn [andb].
  destruct (k =? 0); [done|]. rewrite slash_plain, He, len_cons by done. destruct (slash true R (k - 1)); [|done]. cbn. f_equal. lia.
Qed.

Definition texts (es : list flat) : list Z := concat (map f_text es).
Lemma texts_app a b : texts (a ++ b) = texts a ++ texts b.
Proof. unfold texts. by rewrite map_app, concat_app. Qed.

Lemma slash_texts l k : Forall flat_ok l → slash true (texts l) (Z.of_nat k) = (λ _, len (texts (take k l)) + 1) <$> l !! k.
Proof.
  intros Hl. revert k. induction Hl as [|f l Hf Hl IH]; intros k; [by destruct k|].
  change (texts (f :: l)) with (f_text f ++ texts l). rewrite slash_text by (done || lia).
  destruct k as [|k]; [done|]. rewrite (proj2 (Z.eqb_neq _ _)) by lia. replace (Z.of_nat (S k) - 1) with (Z.of_nat k) by lia.
  rewrite IH. cbn [lookup list_lookup take]. change (texts (f :: take k l)) with (f_text f ++ texts (take k l)).
  destruct (l !! k); [|done]. cbn. f_equal. rewrite len_app. lia.
Qed.

Lemma texts_nz l : Forall flat_ok l → nz (texts l).
Proof.
  induction 1 as [|f l Hf Hl IH]; [constructor|]. change (texts (f :: l)) with (f_text f ++ texts l). apply Forall_app. split; [|done].
  destruct (text_slash f Hf) as (x & -> & Hp & _). constructor; [done|]. by eapply plain_nz.
Qed.

Lemma texts_length l : Forall flat_ok l → (length l ≤ length (texts l))%nat.
Proof.
  induction 1 as [|f l Hf Hl IH]; [done|]. change (texts (f :: l)) with (f_text f ++ texts l). rewrite length_app.
  destruct (text_slash f Hf) as (x & -> & _). cbn [length]. lia.
Qed.

(** ** Written entries *)

Lemma slashes_depth n raw d : match raw with c :: _ => c ≠ 47 | [] => False end →
  (d < n + length raw)%nat →
  forallb (λ c, c =? 47) (take d (replicate n 47 ++ raw)) = bool_decide (d ≤ n)%nat ∧
  ((d ≤ n)%nat → (replicate n 47 ++ raw) !! d = if decide (d = n) then head raw else Some 47).
Proof.
  intros Hraw. revert d. induction n as [|n IH]; intros d Hd.
  - destruct raw as [|c raw]; [done|]. destruct d as [|d]; [done|]. cbn [replicate app take forallb].
    rewrite (proj2 (Z.eqb_neq c 47)) by done. split; [by rewrite bool_decide_false by lia|lia].
  - destruct d as [|d]; [by split|]. cbn [replicate app take forallb]. destruct (IH d ltac:(lia)) as [-> IH2].
    split; [apply bool_decide_ext; lia|]. intros Hle. change ((47 :: replicate n 47 ++ raw) !! S d) with ((replicate n 47 ++ raw) !! d). rewrite IH2 by lia. destruct (decide (d = n)), (decide (S d = S n)); (done || lia).
Qed.

(** What an entry is to a directory of depth [d]. *)
Definition child_of (d : nat) (f : option flat) : Z :=
  match f with
  | None => NOT_CHILD
  | Some f => if decide (f_depth f < d)%nat then NOT_CHILD else if decide (f_depth f = d) then DIRECT_CHILD else INDIRECT_CHILD
  end.

(** What is written behind the slashes. *)
Definition raw_name (gap : nat) (expanded : bool) (name : list Z) : list Z :=
  (if expanded then [43] else []) ++ replicate gap 32 ++ name.

Definition name_ok (name : list Z) : bool :=
  match name with c :: _ => forallb (λ c, negb (line_end c)) name && negb (bool_decide (c ∈ [47; 43; 32])) | [] => false end.

Lemma drop_spaces_ok gap name : name_ok name = true → drop_spaces (replicate gap 32 ++ name) = name.
Proof.
  intros Hn. induction gap as [|gap IH]; [|done]. cbn [replicate app]. destruct name as [|c name]; [done|].
  apply andb_true_iff in Hn as [_ Hn]. apply negb_true_iff, bool_decide_eq_false in Hn. cbn [drop_spaces].
  rewrite (proj2 (Z.eqb_neq c 32)); [done|]. intros ->. apply Hn. set_solver.
Qed.

(** The comment of an entry: the value of the first line that has one. *)
Definition comment_of (ls : list (list Z)) : option (list Z) := head (omap (line_value (lit "COMMENT")) ls).

Lemma comment_ok ls : forallb value_line ls = true →
  ∃ v, config_get_value ((NL :: with_ends ls) ++ [0]) 0 COMMENT = Ret v ∧ fst <$> v = comment_of ls.
Proof.
  intros Hls. destruct (plain_lines ls Hls) as [Hp _].
  assert (nz (lit "COMMENT") ∧ line (lit "COMMENT")) as [Hkn Hkl] by (split; repeat constructor; vm_compute; discriminate).
  assert (NL :: with_ends ls = with_ends ([] :: ls) ++ []) as Hbody by (by rewrite app_nil_r).
  unfold COMMENT. rewrite (config_get_value_ok _ [] (lit "COMMENT") [] 0); [| |done|lia].
  2: { constructor; [done|]. by eapply plain_nz. }
  eexists. split; [done|]. rewrite Hbody.
  assert (Forall (λ l, line l ∧ nz l) ([] :: ls)) as Hall.
  { constructor; [split; constructor|by apply value_lines]. }
  pose proof (vfind_lines (lit "COMMENT") ([] :: ls) [] 0 Hall (Forall_nil_2 _) (Forall_nil_2 _) Hkl ltac:(lia)) as Hv.
  rewrite omap_app in Hv. change (omap (line_value (lit "COMMENT")) [[]]) with (@nil (list Z)) in Hv. rewrite (app_nil_r (omap _ _)) in Hv.
  change (omap (line_value (lit "COMMENT")) ([] :: ls)) with (omap (line_value (lit "COMMENT")) ls) in Hv.
  unfold comment_of. destruct (vfind _ _ _ _); cbn [fmap option_fmap option_map fst] in *; rewrite Hv; by destruct (omap _ ls).
Qed.

Unset Elimination Schemes.
(** An entry as it is written: blanks in front of the name, the name, whether
    a plus comes first, the lines, the entries under it. *)
Inductive node := Node {
  n_gap : nat;
  n_name : list Z;
  n_expanded : bool;
  n_lines : list (list Z);
  n_sub : list node;
}.
Set Elimination Schemes.

Fixpoint flatten (d : nat) (t : node) : list flat :=
  match t with
  | Node gap name expanded ls sub => Flat d (raw_name gap expanded name) ls :: concat (map (flatten (S d)) sub)
  end.

(** Not deeper than the menu goes, with names and lines that are ones. *)
Fixpoint node_ok (d : nat) (t : node) : bool :=
  match t with
  | Node gap name expanded ls sub =>
      bool_decide (d ≤ MAX_MENU_NESTING)%nat && name_ok name && forallb value_line ls && forallb (node_ok (S d)) sub
  end.

(** The entry of the menu. *)
Fixpoint shown (t : node) : menu_entry :=
  match t with
  | Node gap name expanded ls sub =>
      Entry name (comment_of ls) (NL :: with_ends ls) (negb (bool_decide (length sub = 0%nat)) && expanded) (map shown sub)
  end.

Lemma node_ok_spec d gap name expanded ls sub : node_ok d (Node gap name expanded ls sub) = true →
  (d ≤ MAX_MENU_NESTING)%nat ∧ name_ok name = true ∧ forallb value_line ls = true ∧ forallb (node_ok (S d)) sub = true.
Proof.
  cbn [node_ok]. intros [[[Hd%bool_decide_eq_true Hn]%andb_true_iff Hl]%andb_true_iff Hs]%andb_true_iff. done.
Qed.

Lemma raw_ok gap expanded name : name_ok name = true →
  match raw_name gap expanded name with c :: _ => c ≠ 47 | [] => False end ∧
  Forall (λ c, line_end c = false) (raw_name gap expanded name).
Proof.
  intros Hn. unfold raw_name. destruct name as [|c name]; [done|]. apply andb_true_iff in Hn as [Hc Hn].
  apply negb_true_iff, bool_decide_eq_false in Hn. split.
  - destruct expanded; [done|]. destruct gap; [|done]. cbn. intros ->. apply Hn. set_solver.
  - repeat (apply Forall_app; split).
    + destruct expanded; [by constructor|constructor].
    + by apply Forall_replicate.
    + apply Forall_forall. intros x Hx. rewrite forallb_forall in Hc. apply negb_true_iff, Hc. by apply list_elem_of_In.
Qed.

Lemma flatten_ok : ∀ t d, (0 < d)%nat → node_ok d t = true → Forall (λ f, flat_ok f ∧ (d ≤ f_depth f)%nat) (flatten d t).
Proof.
  fix IH 1. intros [gap name expanded ls sub] d Hd (_ & Hn & Hl & Hs)%node_ok_spec. cbn [flatten]. constructor.
  - destruct (raw_ok gap expanded name Hn). split; [by split|done].
  - induction sub as [|t sub IHsub]; [constructor|]. cbn [map concat forallb] in *. apply andb_true_iff in Hs as [Ht Hs].
    apply Forall_app. split; [|by apply IHsub]. eapply Forall_impl; [apply (IH t (S d)); [lia|done]|]. cbv beta. intros f [? ?]. split; [done|lia].
Qed.

Definition flat_all (d : nat) (ts : list node) : list flat := concat (map (flatten d) ts).

Lemma flat_all_ok d ts : (0 < d)%nat → forallb (node_ok d) ts = true → Forall (λ f, flat_ok f ∧ (d ≤ f_depth f)%nat) (flat_all d ts).
Proof.
  intros Hd. induction ts as [|t ts IH]; [constructor|]. cbn [forallb]. intros [Ht Hts]%andb_true_iff.
  apply Forall_app. split; [by apply flatten_ok|by apply IH].
Qed.

(** What follows the entries of a directory. *)
Definition above (d : nat) (post : list flat) : Prop := match post with [] => True | f :: _ => (f_depth f < d)%nat end.

(** ** Reading the entries back *)

Section entries.
Context (G : list Z) (HG : plain true G) (HGe : ends true G = true) (r : list Z).
Context (es : list flat) (Hes : Forall flat_ok es).

Definition buf : list Z := G ++ texts es ++ 0 :: r.

Lemma seek_entry k : seek (S (length buf)) buf 0 0 (Z.of_nat k) =
  Ret ((λ _, len (G ++ texts (take k es)) + 1) <$> es !! k).
Proof.
  assert (buf = [] ++ (G ++ texts es) ++ 0 :: r) as Hbuf by (unfold buf; by rewrite <- app_assoc).
  rewrite Hbuf at 2. rewrite (seek_ok _ []).
  - change (line_start []) with true. rewrite slash_plain, HGe, Z.sub_0_r, slash_texts by done. destruct (es !! k); [|done]. cbn. do 2 f_equal. rewrite len_app.
    change (len []) with 0. lia.
  - unfold buf. rewrite !length_app. lia.
  - apply Forall_app. split; [by eapply plain_nz|by apply texts_nz].
  - lia.
Qed.

(** The buffer around an entry. *)
Lemma buf_at k f : es !! k = Some f →
  buf = (G ++ texts (take k es)) ++ f_name f ++ f_body f ++ texts (drop (S k) es) ++ 0 :: r.
Proof.
  intros Hk. unfold buf. rewrite <- (take_drop_middle _ _ _ Hk) at 1. rewrite texts_app.
  change (texts (f :: drop (S k) es)) with (f_text f ++ texts (drop (S k) es)). unfold f_text. by rewrite <- !app_assoc.
Qed.

Lemma entry_name_ok k : config_get_entry_name buf (Z.of_nat k) = Ret (f_name <$> es !! k).
Proof.
  unfold config_get_entry_name. rewrite seek_entry. destruct (es !! k) as [f|] eqn:Hk; [|done]. cbn [fmap option_fmap option_map mbind out_bind].
  cbv zeta. set (D := G ++ texts (take k es)). pose proof (buf_at k f Hk) as Hb. fold D in Hb.
  replace (len D + 1 - 1) with (len D) by lia.
  assert (flat_ok f) as Hf by (by eapply Forall_lookup_1).
  assert (span_until (S (length buf)) line_end buf (len D) = Ret (len D + len (f_name f))) as ->.
  { rewrite Hb at 2. unfold f_body. cbn [app]. rewrite span_until_run; [done| |by apply name_chars|done].
    rewrite Hb, !length_app. lia. }
  cbn [mbind out_bind]. replace (len D + len (f_name f) - len D) with (len (f_name f)) by lia.
  rewrite Hb, slice_mid. done.
Qed.

Lemma entry_end_ok fuel D R c T : (length R < fuel)%nat → D ≠ [] → plain (line_start D) R →
  c = 0 ∨ (c = 47 ∧ ends (line_start D) R = true) →
  entry_end fuel (D ++ R ++ c :: T) (len D) = Ret (len D + len R).
Proof.
  intros Hf HD HR Hc. revert fuel D Hf HD HR Hc. induction R as [|x R IH]; intros [|fuel] D Hf HD HR Hc; cbn [length] in Hf; try lia;
    cbn [entry_end].
  - cbn [app]. rewrite get_here. cbn [mbind out_bind]. change (len []) with 0. rewrite Z.add_0_r.
    destruct Hc as [->|[-> He]]; [done|]. change (ends (line_start D) []) with (line_start D) in He.
    cbn [Z.eqb negb andb]. change (47 =? 0) with false. cbn [negb].
    pose proof (line_start_get D (47 :: T)) as Hs. pose proof (len_nonneg D).
    rewrite (proj2 (Z.eqb_neq (len D) 0)) in Hs by (by intros H0; apply HD, length_zero_iff_nil; unfold len in H0; lia).
    destruct (get (D ++ 47 :: T) (len D - 1)); [|done..]. cbn [mbind out_bind] in *. injection Hs as ->. by rewrite He.
  - rewrite get_after. cbn [mbind out_bind]. destruct HR as (H1 & H0 & HR). rewrite ends_cons in Hc.
    specialize (IH fuel (D ++ [x]) ltac:(lia) ltac:(by destruct D)).
    rewrite line_start_snoc, len_app, <- app_assoc in IH. change (len [x]) with 1 in IH. cbn [app] in IH |- *.
    specialize (IH HR Hc). rewrite len_cons. replace (len D + (1 + len R)) with (len D + 1 + len R) by lia.
    rewrite (proj2 (Z.eqb_neq x 0)) by done. destruct (Z.eqb_spec x 47) as [->|]; cbn [negb andb]; [|done].
    pose proof (line_start_get D (47 :: R ++ c :: T)) as Hs. pose proof (len_nonneg D).
    rewrite (proj2 (Z.eqb_neq (len D) 0)) in Hs by (by intros Hz; apply HD, length_zero_iff_nil; unfold len in Hz; lia).
    destruct (get (D ++ 47 :: R ++ c :: T) (len D - 1)); [|done..]. cbn [mbind out_bind] in *. injection Hs as ->.
    destruct (line_start D); [by destruct H1|]. done.
Qed.

Lemma get_entry_ok k f : es !! k = Some f →
  config_get_entry buf (Z.of_nat k) = Ret (Some (len (G ++ texts (take k es)) + len (f_name f), len (f_body f))).
Proof.
  intros Hk. unfold config_get_entry. rewrite seek_entry, Hk. cbn [fmap option_fmap option_map mbind out_bind].
  set (D := G ++ texts (take k es)). pose proof (buf_at k f Hk) as Hb. fold D in Hb.
  assert (flat_ok f) as Hf by (by eapply Forall_lookup_1).
  destruct (name_slash f Hf) as (x & Hx & Hx0). destruct x as [|c x]; [done|].
  pose proof (name_chars f Hf) as Hc. rewrite Hx in Hc. apply Forall_cons in Hc as [_ Hc]. apply Forall_cons in Hc as [Hc Hcx].
  assert (span_until (S (length buf)) line_end buf (len D + 1 + 1) = Ret (len D + len (f_name f))) as ->.
  { pose proof (span_until_run (S (length buf)) line_end (D ++ [47; c]) x (with_ends (f_lines f) ++ texts (drop (S k) es) ++ 0 :: r) NL) as Hs.
    rewrite Hb at 2. unfold f_body. rewrite Hx. rewrite <- app_assoc in Hs. cbn [app] in Hs |- *.
    rewrite len_app in Hs. change (len [47; c]) with 2 in Hs. replace (len D + 1 + 1) with (len D + 2) by lia.
    rewrite Hs; [rewrite !len_cons; f_equal; lia| |done|done]. rewrite Hb, Hx, !length_app. cbn [length]. lia. }
  cbn [mbind out_bind].
  assert (∃ c T, texts (drop (S k) es) ++ 0 :: r = c :: T ∧ (c = 0 ∨ c = 47)) as (e & T & HT & He).
  { destruct (drop (S k) es) as [|f' es'] eqn:Hd; [exists 0, r; split; [done|by left]|].
    assert (flat_ok f') as Hf'.
    { apply (Forall_lookup_1 _ _ (S k) _ Hes). rewrite <- (Nat.add_0_r (S k)), <- lookup_drop, Hd. done. }
    destruct (text_slash f' Hf') as (y & Hy & _). change (texts (f' :: es')) with (f_text f' ++ texts es'). rewrite Hy.
    eexists 47, _. split; [done|by right]. }
  destruct (body_plain f Hf) as [Hbp Hbe].
  assert (line_start (D ++ f_name f) = false) as Hls.
  { rewrite ends_start, ends_app. rewrite Hx. rewrite ends_cons. by apply plain_inside; constructor. }
  assert (entry_end (S (length buf)) buf (len D + len (f_name f)) = Ret (len D + len (f_name f) + len (f_body f))) as ->; [|].
  { rewrite Hb at 2. rewrite HT. rewrite app_assoc. rewrite <- len_app. apply entry_end_ok.
    - rewrite Hb, !length_app. lia.
    - rewrite Hx. by destruct D.
    - by rewrite Hls.
    - rewrite Hls. destruct He as [->| ->]; [by left|by right]. }
  cbn [mbind out_bind]. do 3 f_equal. lia.
Qed.

Lemma entry_body k f : es !! k = Some f →
  slice buf (len (G ++ texts (take k es)) + len (f_name f)) (len (f_body f)) = Some (f_body f).
Proof.
  intros Hk. rewrite (buf_at k f Hk) at 1. rewrite <- len_app, app_assoc. apply slice_mid.
Qed.

(** ** Children *)

Lemma is_child_ok d k : is_child buf d (Z.of_nat k) = Ret (child_of d (es !! k)).
Proof.
  unfold is_child. rewrite entry_name_ok. destruct (es !! k) as [f|] eqn:Hk; [|done]. cbn [fmap option_fmap option_map mbind out_bind child_of].
  assert (flat_ok f) as [_ Hraw _ _] by (by eapply Forall_lookup_1).
  assert (len (f_name f) = Z.of_nat (f_depth f + length (f_raw f))) as Hl.
  { unfold f_name, len. rewrite length_app, length_replicate. done. }
  assert (0 < length (f_raw f))%nat as Hpos by (destruct (f_raw f); [done|cbn; lia]).
  rewrite Hl. destruct (Z.ltb_spec (Z.of_nat (f_depth f + length (f_raw f))) (Z.of_nat d + 1)).
  { by rewrite decide_True by lia. }
  destruct (slashes_depth (f_depth f) (f_raw f) d Hraw ltac:(lia)) as [Hs Hg]. unfold f_name. rewrite Hs.
  destruct (decide (f_depth f < d)%nat); [by rewrite bool_decide_false by lia|]. rewrite bool_decide_true by lia. cbn [negb].
  specialize (Hg ltac:(lia)). unfold get. rewrite arr_get_lookup, Hg.
  destruct (decide (d = f_depth f)) as [->|]; [rewrite decide_True by done|rewrite decide_False by lia; done].
  destruct (f_raw f) as [|c raw]; [done|]. cbn [head mbind out_bind]. by rewrite (proj2 (Z.eqb_neq c 47)).
Qed.

Lemma read_entry_ok k d gap expanded name ls : es !! k = Some (Flat d (raw_name gap expanded name) ls) → name_ok name = true →
  read_entry buf d (Z.of_nat k) = Ret (name, expanded, NL :: with_ends ls).
Proof.
  intros Hk Hn. unfold read_entry. rewrite entry_name_ok, Hk. cbn [fmap option_fmap option_map mbind out_bind].
  set (f := Flat d (raw_name gap expanded name) ls) in *. change (f_name f) with (replicate d 47 ++ raw_name gap expanded name).
  assert (get ((replicate d 47 ++ raw_name gap expanded name) ++ [0]) (Z.of_nat d) = Ret (default 0 (head (raw_name gap expanded name)))) as ->.
  { apply get_eq. rewrite <- app_assoc. rewrite arr_get_lookup, lookup_app_r by (rewrite length_replicate; lia).
    rewrite length_replicate, Nat.sub_diag. by destruct (raw_name gap expanded name). }
  cbn [mbind out_bind]. assert ((default 0 (head (raw_name gap expanded name)) =? 43) = expanded) as ->.
  { unfold raw_name. destruct expanded; [done|]. destruct gap; [|done]. destruct name as [|c name]; [done|].
    apply andb_true_iff in Hn as [_ Hn]. apply negb_true_iff, bool_decide_eq_false in Hn. apply Z.eqb_neq. cbn. intros ->. apply Hn. set_solver. }
  cbv zeta. rewrite (get_entry_ok k f Hk). cbn [mbind out_bind]. rewrite (entry_body k f Hk). cbn [lift mbind out_bind].
  change (f_body f) with (NL :: with_ends ls). do 3 f_equal.
  rewrite <- drop_drop, (drop_app_length' (replicate d 47)) by (by rewrite length_replicate). unfold raw_name.
  rewrite <- (drop_spaces_ok gap name Hn) at 2. by destruct expanded.
Qed.

Lemma child_above d pre post : es = pre ++ post → above d post → child_of d (es !! length pre) = NOT_CHILD.
Proof.
  intros -> Hp. rewrite lookup_app_r, Nat.sub_diag by lia. destruct post as [|f post]; [done|]. cbn in *. by rewrite decide_True.
Qed.

(** What is deeper is passed. *)
Lemma menu_loop_skip sub d fuel pre mid post : es = pre ++ mid ++ post → Forall (λ f, d < f_depth f)%nat mid →
  (length es - length pre < fuel)%nat →
  menu_loop buf sub fuel d (Z.of_nat (length pre)) = menu_loop buf sub (fuel - length mid) d (Z.of_nat (length (pre ++ mid))).
Proof.
  intros He Hmid. revert pre fuel He. induction Hmid as [|f mid Hf Hmid IH]; intros pre fuel He Hfuel.
  - rewrite app_nil_r. cbn [length]. by rewrite Nat.sub_0_r.
  - assert (length es = length pre + length (f :: mid) + length post)%nat as Hl by (rewrite He, !length_app; lia).
    destruct fuel as [|fuel]; [cbn in Hl; lia|]. cbn [menu_loop]. rewrite is_child_ok. cbn [mbind out_bind].
    assert (es !! length pre = Some f) as -> by (rewrite He, lookup_app_r, Nat.sub_diag by lia; done).
    cbn [child_of]. rewrite decide_False, decide_False by lia. change (INDIRECT_CHILD =? NOT_CHILD) with false.
    change (INDIRECT_CHILD =? INDIRECT_CHILD) with true. cbn [length Nat.sub].
    specialize (IH (pre ++ [f]) fuel). rewrite <- !app_assoc, length_app in IH. cbn [length app] in IH.
    replace (Z.of_nat (length pre) + 1) with (Z.of_nat (length pre + 1)) by lia.
    rewrite IH; [done|done|]. cbn [length] in Hl. lia.
Qed.

Lemma is_directory_ok d k : match es !! S k with Some f => (f_depth f ≤ S d)%nat | None => True end →
  is_directory buf d (Z.of_nat k) = Ret (child_of (S d) (es !! S k) =? DIRECT_CHILD).
Proof.
  intros Hk. unfold is_directory. replace (Z.of_nat k + 1) with (Z.of_nat (S k)) by lia. rewrite is_child_ok. cbn [mbind out_bind].
  destruct (es !! S k) as [f|]; [|done]. cbn [child_of]. destruct (decide _); [done|]. by rewrite decide_True by lia.
Qed.

Lemma menu_loop_ok sub d ts pre post fuel :
  (∀ pre ts post, es = pre ++ flat_all (S d) ts ++ post → forallb (node_ok (S d)) ts = true → ts ≠ [] → above (S d) post →
    sub (Z.of_nat (length pre)) = Ret (map shown ts)) →
  (0 < d)%nat → es = pre ++ flat_all d ts ++ post → forallb (node_ok d) ts = true → above d post →
  (length es - length pre < fuel)%nat →
  menu_loop buf sub fuel d (Z.of_nat (length pre)) = Ret (map shown ts).
Proof.
  intros Hsub Hd He Hok Hpost. revert pre fuel He. induction ts as [|t ts IH]; intros pre fuel He Hfuel.
  - destruct fuel as [|fuel]; [lia|]. cbn [menu_loop]. rewrite is_child_ok, (child_above d pre post) by done. done.
  - cbn [forallb] in Hok. apply andb_true_iff in Hok as [Ht Hts]. destruct t as [gap name expanded ls nodes].
    destruct (node_ok_spec _ _ _ _ _ _ Ht) as (Hdm & Hn & Hl & Hs).
    set (f := Flat d (raw_name gap expanded name) ls).
    assert (es = pre ++ f :: flat_all (S d) nodes ++ flat_all d ts ++ post) as He'.
    { rewrite He. unfold flat_all. cbn [map concat flatten]. by rewrite <- !app_assoc. }
    assert (length es = length pre + S (length (flat_all (S d) nodes)) + length (flat_all d ts ++ post))%nat as Hlen.
    { rewrite He', length_app. cbn [length]. rewrite length_app. lia. }
    assert (es !! length pre = Some f) as Hf by (rewrite He', lookup_app_r, Nat.sub_diag by lia; done).
    assert (above (S d) (flat_all d ts ++ post)) as Hrest.
    { destruct ts as [|[??? ??] ts]; [destruct post; cbn in *; lia|]. cbn. lia. }
    assert (es !! S (length pre) = head (flat_all (S d) nodes ++ flat_all d ts ++ post)) as Hnext.
    { rewrite He', lookup_app_r by lia. replace (S (length pre) - length pre)%nat with 1%nat by lia.
      cbn [lookup list_lookup]. by destruct (flat_all (S d) nodes ++ flat_all d ts ++ post). }
    destruct fuel as [|fuel]; [lia|]. cbn [menu_loop]. rewrite is_child_ok, Hf. cbn [mbind out_bind child_of].
    rewrite decide_False, decide_True by (cbn; lia). change (DIRECT_CHILD =? NOT_CHILD) with false. change (DIRECT_CHILD =? INDIRECT_CHILD) with false.
    rewrite (read_entry_ok _ _ _ _ _ _ Hf Hn). cbn [mbind out_bind].
    assert (is_directory buf d (Z.of_nat (length pre)) = Ret (negb (bool_decide (length nodes = 0%nat)))) as ->.
    { rewrite is_directory_ok; rewrite Hnext.
      - f_equal. destruct nodes as [|[??? ??] nodes].
        + cbn. destruct (flat_all d ts ++ post) as [|g rest]; [done|]. cbn in Hrest |- *. by rewrite decide_True by lia.
        + cbn. rewrite decide_False, decide_True by lia. done.
      - destruct nodes as [|[??? ??] nodes]; [|cbn; lia]. cbn. destruct (flat_all d ts ++ post); cbn in *; [done|lia]. }
    cbn [mbind out_bind].
    assert ((if negb (bool_decide (length nodes = 0%nat)) then sub (Z.of_nat (length pre) + 1) else Ret []) = Ret (map shown nodes)) as ->.
    { case_bool_decide as Hn0; cbn [negb]; [by destruct nodes|].
      replace (Z.of_nat (length pre) + 1) with (Z.of_nat (length (pre ++ [f]))) by (rewrite length_app; cbn; lia).
      apply (Hsub (pre ++ [f]) nodes (flat_all d ts ++ post)); [by rewrite <- app_assoc|done|by intros ->|done]. }
    cbn [mbind out_bind]. destruct (comment_ok ls Hl) as (v & -> & Hv). cbn [mbind out_bind].
    replace (Z.of_nat (length pre) + 1) with (Z.of_nat (length (pre ++ [f]))) by (rewrite length_app; cbn; lia).
    rewrite (menu_loop_skip _ d fuel (pre ++ [f]) (flat_all (S d) nodes) (flat_all d ts ++ post)).
    + rewrite (IH Hts (_ ++ _)); [cbn [mbind out_bind map shown]; by rewrite Hv|by rewrite <- !app_assoc|].
      rewrite !length_app. cbn [length]. lia.
    + by rewrite <- app_assoc.
    + eapply Forall_impl; [apply flat_all_ok; [lia|exact Hs]|]. cbv beta. intros g [_ ?]. lia.
    + rewrite length_app. cbn [length]. lia.
Qed.

Lemma create_menu_tree_ok fuel d ts pre post : (66 ≤ fuel + d)%nat → (0 < d ≤ MAX_MENU_NESTING)%nat →
  es = pre ++ flat_all d ts ++ post → forallb (node_ok d) ts = true → above d post →
  create_menu_tree fuel buf d (Z.of_nat (length pre)) = Ret (map shown ts).
Proof.
  revert d ts pre post. induction fuel as [|fuel IH]; intros d ts pre post Hfuel Hd He Hok Hpost; [unfold MAX_MENU_NESTING in *; lia|].
  cbn [create_menu_tree]. rewrite (proj2 (Nat.ltb_ge _ _)) by lia. apply (menu_loop_ok _ d ts pre post); [|lia|done|done|done|].
  - intros pre' ts' post' He' Hok' Hne Hpost'. apply (IH _ _ _ post'); [lia| |done|done|done].
    destruct ts' as [|[??? ??] ts']; [done|]. cbn [forallb] in Hok'. apply andb_true_iff in Hok' as [Ht _]. apply node_ok_spec in Ht. lia.
  - pose proof (texts_length es Hes). unfold buf. rewrite !length_app. lia.
Qed.
End entries.

(** The text of a configuration: the global values, then the entries. *)
Definition config_text (globals : list (list Z)) (ts : list node) : list Z :=
  with_ends globals ++ texts (flat_all 1 ts).

Lemma menu_tree_ok globals ts r : forallb value_line globals = true → forallb (node_ok 1) ts = true →
  menu_tree (config_text globals ts ++ 0 :: r) = Ret (map shown ts).
Proof.
  intros Hg Hts. destruct (plain_lines _ Hg) as [Hp He]. unfold menu_tree, config_text. rewrite <- app_assoc.
  assert (Forall flat_ok (flat_all 1 ts)) as Hes by (eapply Forall_impl; [apply flat_all_ok; [lia|done]|]; by intros f [? _]).
  apply (create_menu_tree_ok (with_ends globals) Hp He r (flat_all 1 ts) Hes 65 1 ts [] []);
    [lia|unfold MAX_MENU_NESTING; lia|by rewrite app_nil_r|done|done].
Qed.

(** ** The global values *)

Lemma back_to_slash_ok fuel D y T : (length y < fuel)%nat → Forall (λ c, c ≠ 47) y →
  back_to_slash fuel (D ++ 47 :: y ++ T) (len D + len y) = Ret (len D).
Proof.
  revert fuel T. induction y as [|c y IH] using rev_ind; intros [|fuel] T Hf Hy; rewrite ?length_app in Hf; cbn [length] in Hf; try lia;
    cbn [back_to_slash].
  - change (len []) with 0. rewrite Z.add_0_r. by rewrite get_here.
  - apply Forall_app in Hy as [Hy Hc]. apply Forall_cons in Hc as [Hc _].
    assert (len D + len (y ++ [c]) = len (D ++ 47 :: y)) as Hpos by (rewrite !len_app, (len_cons 47); change (len [c]) with 1; lia).
    assert (D ++ 47 :: (y ++ [c]) ++ T = (D ++ 47 :: y) ++ c :: T) as Hb by (rewrite <- !app_assoc; done).
    rewrite Hpos, Hb, get_here. cbn [mbind out_bind]. rewrite (proj2 (Z.eqb_neq c 47)) by done.
    assert (len (D ++ 47 :: y) = len D + (1 + len y)) as Hl by (rewrite len_app, len_cons; lia).
    pose proof (len_nonneg D). pose proof (len_nonneg y). rewrite (proj2 (Z.ltb_lt _ _)) by lia. cbn [negb andb].
    replace (len (D ++ 47 :: y) - 1) with (len D + len y) by lia. rewrite <- app_assoc. cbn [app]. apply IH; [lia|done].
Qed.

(** A key of global values: no empty one, no slash in front. *)
Definition global_key (k : list Z) : Prop := line k ∧ nz k ∧ match k with c :: _ => c ≠ 47 | [] => False end.

Lemma tolower_slash c : tolower c = 47 → c = 47.
Proof. unfold tolower. destruct ((65 <=? c) && (c <=? 90)) eqn:Hc; [|done]. apply andb_true_iff in Hc as [H1 H2]. lia. Qed.

Lemma no_key k l : global_key k → match l with c :: _ => c = 47 | [] => True end → line_value k l = None.
Proof.
  intros (_ & _ & Hk) Hl. destruct k as [|x k]; [done|]. destruct l as [|c l]; [done|]. subst c. unfold line_value. cbn [key_of].
  change (tolower 47) with 47. destruct (Z.eqb_spec 47 (tolower x)) as [He|]; [|done]. by symmetry in He; apply tolower_slash in He.
Qed.

Lemma global_value globals l r k index : forallb value_line globals = true → line l → nz l → line_value k l = None →
  global_key k → 0 ≤ index < 2 ^ 64 →
  ∃ v, config_get_value ((with_ends globals ++ l) ++ 0 :: r) index (k ++ [0]) = Ret v ∧
    fst <$> v = omap (line_value k) globals !! Z.to_nat index.
Proof.
  intros Hg Hl Hn Hv (Hkl & Hkn & _) Hi.
  destruct (config_get_value_lines globals l r k [] index) as (v & Hr & Hf); [by apply value_lines|done..|].
  exists v. split; [done|]. rewrite Hf, omap_app. cbn [omap list_omap]. by rewrite Hv, app_nil_r.
Qed.

(** A name at its last slash. *)
Lemma last_slash x : ∃ a y, 47 :: x = a ++ 47 :: y ∧ Forall (λ c, c ≠ 47) y ∧ match a with c :: _ => c = 47 | [] => True end.
Proof.
  destruct (list_elem_of_split_r (47 :: x) 47) as (a & y & Ha & Hy); [by left|]. exists a, y. split; [done|]. split.
  - apply Forall_forall. by intros c Hc ->.
  - destruct a as [|c a]; [done|]. by injection Ha as ->.
Qed.

Lemma end_globals_first G f es r : plain true G → ends true G = true → Forall flat_ok (f :: es) → G ≠ [] →
  ∃ a y r', f_name f = a ++ 47 :: y ∧ match a with c :: _ => c = 47 | [] => True end ∧
    end_globals (buf G r (f :: es)) = set ((G ++ a) ++ r') (len (G ++ a) - 1) 0.
Proof.
  intros HG HGe Hes HG0. assert (flat_ok f) as Hf by (by eapply Forall_inv).
  destruct (name_slash f Hf) as (x & Hx & _). destruct (last_slash x) as (a & y & Ha & Hy & Hay). rewrite <- Hx in Ha.
  exists a, y, (47 :: y ++ f_body f ++ texts es ++ 0 :: r). split; [done|]. split; [done|]. unfold end_globals.
  pose proof (get_entry_ok G HG HGe r (f :: es) Hes 0 f eq_refl) as He. change (Z.of_nat 0) with 0 in He. rewrite He. clear He. cbn [mbind out_bind take]. change (texts []) with (@nil Z). rewrite app_nil_r.
  pose proof (buf_at G r (f :: es) 0 f eq_refl) as Hb. cbn [take drop] in Hb. change (texts []) with (@nil Z) in Hb. rewrite app_nil_r in Hb.
  assert (buf G r (f :: es) = (G ++ a) ++ 47 :: (y ++ [NL]) ++ with_ends (f_lines f) ++ texts es ++ 0 :: r) as Hb'.
  { rewrite Hb, Ha. unfold f_body. by rewrite <- !app_assoc. }
  assert (len G + len (f_name f) = len (G ++ a) + len (y ++ [NL])) as ->.
  { rewrite Ha, !len_app, (len_cons 47). change (len [NL]) with 1. lia. }
  rewrite Hb' at 2. rewrite back_to_slash_ok.
  - cbn [mbind out_bind]. rewrite Hb'. rewrite get_here. cbn [mbind out_bind]. change (47 =? 47) with true. cbn [andb].
    assert (0 < len (G ++ a)) as Hpos.
    { rewrite len_app. pose proof (len_nonneg a). destruct G; [done|]. rewrite len_cons. pose proof (len_nonneg G). lia. }
    rewrite (proj2 (Z.ltb_lt _ _)) by done. unfold f_body. by rewrite <- !app_assoc.
  - rewrite Hb', !length_app. cbn [length]. rewrite !length_app. cbn [length]. lia.
  - apply Forall_app. split; [done|by constructor].
Qed.

Lemma set_snoc w z r : set ((w ++ [z]) ++ r) (len (w ++ [z]) - 1) 0 = Ret (w ++ 0 :: r).
Proof.
  unfold set. rewrite len_app. change (len [z]) with 1. pose proof (len_nonneg w). replace (len w + 1 - 1) with (len w) by lia.
  rewrite arr_set_lt by (rewrite !len_app; change (len [z]) with 1; pose proof (len_nonneg r); lia).
  f_equal. unfold len. rewrite Nat2Z.id, <- app_assoc. rewrite insert_app_r_alt by lia. by rewrite Nat.sub_diag.
Qed.

Lemma with_ends_snoc gs g : with_ends (gs ++ [g]) = (with_ends gs ++ g) ++ [NL].
Proof. unfold with_ends. rewrite map_app, concat_app. cbn. by rewrite app_nil_r, app_assoc. Qed.

Lemma end_globals_ok globals ts r : forallb value_line globals = true → forallb (node_ok 1) ts = true →
  globals ≠ [] ∨ ts = [] →
  ∃ b, end_globals (config_text globals ts ++ 0 :: r) = Ret b ∧
    ∀ k index, global_key k → 0 ≤ index < 2 ^ 64 →
      ∃ v, config_get_value b index (k ++ [0]) = Ret v ∧ fst <$> v = omap (line_value k) globals !! Z.to_nat index.
Proof.
  intros Hg Hts Hne. destruct (plain_lines _ Hg) as [Hp He].
  assert (Forall flat_ok (flat_all 1 ts)) as Hes by (eapply Forall_impl; [apply flat_all_ok; [lia|done]|]; by intros f [? _]).
  unfold config_text. rewrite <- app_assoc. change (with_ends globals ++ texts (flat_all 1 ts) ++ 0 :: r) with (buf (with_ends globals) r (flat_all 1 ts)).
  destruct (flat_all 1 ts) as [|f es] eqn:Hflat.
  - exists (buf (with_ends globals) r []). split.
    + unfold end_globals, config_get_entry. pose proof (seek_entry (with_ends globals) Hp He r [] (Forall_nil_2 _) 0) as Hs.
      change (Z.of_nat 0) with 0 in Hs. rewrite Hs. done.
    + intros k index Hk Hi. pose proof (global_value globals [] r k index Hg (Forall_nil_2 _) (Forall_nil_2 _)) as Hv.
      rewrite app_nil_r in Hv. apply Hv; [by apply no_key|done|done].
  - destruct Hne as [Hne| ->]; [|done]. destruct globals as [|g0 gs0 _] using rev_ind; [done|]. clear Hne.
    rename g0 into g, gs0 into gs.
    destruct (end_globals_first (with_ends (gs ++ [g])) f es r Hp He Hes) as (a & y & r' & Ha & Hay & ->).
    { rewrite with_ends_snoc. intros Hnil. by apply app_nil in Hnil as [_ ?]. }
    assert (Forall (λ c, line_end c = false) a) as Hac.
    { assert (flat_ok f) as Hf by (by eapply Forall_inv). pose proof (name_chars f Hf) as Hc. rewrite Ha in Hc. by apply Forall_app in Hc as [? _]. }
    assert (∀ l, Forall (λ c, line_end c = false) l → line l ∧ nz l) as Hline.
    { intros l Hl. split; (eapply Forall_impl; [exact Hl|]); cbv beta; intros c [H1 H2]%orb_false_iff; by apply Z.eqb_neq. }
    destruct a as [|z a _] using rev_ind.
    + rewrite app_nil_r, with_ends_snoc, set_snoc. eexists. split; [done|]. intros k index Hk Hi.
      rewrite forallb_app in Hg. apply andb_true_iff in Hg as [Hgs Hgg]. cbn [forallb] in Hgg. rewrite andb_true_r in Hgg.
      destruct (value_line_spec g Hgg) as (Hgl & Hgn & _), Hk as (Hkl & Hkn & _).
      apply config_get_value_lines; [by apply value_lines|done..].
    + rewrite (app_assoc _ a), set_snoc. eexists. split; [done|]. intros k index Hk Hi.
      apply Forall_app in Hac as [Hac _]. destruct (Hline a Hac).
      apply global_value; [done..| |done|done]. apply no_key; [done|]. by destruct a.
Qed.

(** C8: The text of global lines and a forest of entries at most 64 deep
    becomes the menu that shows exactly that forest: names, plus signs on
    directories, comments, bodies and nesting.  When a global line comes
    before the first entry, a key looked up without an entry is then found
    among the global lines only. *)
Theorem menu_tree_correct globals ts r :
  forallb value_line globals = true → forallb (node_ok 1) ts = true → globals ≠ [] ∨ ts = [] →
  menu_tree (config_text globals ts ++ 0 :: r) = Ret (map shown ts) ∧
  ∃ b, end_globals (config_text globals ts ++ 0 :: r) = Ret b ∧
    ∀ k index, global_key k → 0 ≤ index < 2 ^ 64 →
      ∃ v, config_get_value b index (k ++ [0]) = Ret v ∧ fst <$> v = omap (line_value k) globals !! Z.to_nat index.
Proof. intros Hg Hts Hne. split; [by apply menu_tree_ok|by apply end_globals_ok]. Qed.

(** A directory with an entry, and an entry. *)
Definition example_nodes : list node :=
  [Node 0 (lit "Systems") true [lit "comment: all"] [Node 1 (lit "Linux/6") false [lit "protocol: linux"; lit "path: boot():/vmlinuz"] []];
   Node 0 (lit "Reboot") false [] []].

Example example_text : config_text [lit "timeout: 5"] example_nodes =
  lit "timeout: 5" ++ [NL] ++ lit "/+Systems" ++ [NL] ++ lit "comment: all" ++ [NL] ++ lit "// Linux/6" ++ [NL] ++
  lit "protocol: linux" ++ [NL] ++ lit "path: boot():/vmlinuz" ++ [NL] ++ lit "/Reboot" ++ [NL].
Proof. vm_compute. reflexivity. Qed.

Lemma menu_tree_correct_witness :
  menu_tree (config_text [lit "timeout: 5"] example_nodes ++ 0 :: []) = Ret (map shown example_nodes) ∧
  ∃ b, end_globals (config_text [lit "timeout: 5"] example_nodes ++ 0 :: []) = Ret b ∧
    ∀ k index, global_key k → 0 ≤ index < 2 ^ 64 →
      ∃ v, config_get_value b index (k ++ [0]) = Ret v ∧ fst <$> v = omap (line_value k) [lit "timeout: 5"] !! Z.to_nat index.
Proof.
  refine (menu_tree_correct [lit "timeout: 5"] example_nodes [] _ _ _); [vm_compute; reflexivity|vm_compute; reflexivity|].
  left. discriminate.
Defined.
