(* ===== verification/ConfigLoad.v ===== *)
(** Loading a configuration stays inside its buffers and ends: the entries, the
    menu, the firmware's tables and the whole of [init_config]. *)
From S2P Require Import Prelude Libc LibcProofs Outcome Blake2b Config ConfigClean ConfigSafe ConfigValue.
From stdpp Require Import strings.
Open Scope list_scope.
Open Scope Z_scope.

Section entries.
Context (b : list Z) (n : Z) (Hb : text_buf b n).

(** Each entry that is passed is at least one character. *)
Lemma seek_safe fuel p i index : 0 ≤ p ≤ n → (index < i → 1 ≤ p ≤ n - 1 ∧ b.[p - 1] = Some 47) → n - p < Z.of_nat fuel → 0 ≤ i →
  safe (seek fuel b p i index) (λ r, match r with
    | Some q => p + Z.max 0 (index - i + 1) ≤ q ≤ n - 1 ∧ 1 ≤ q ∧ b.[q - 1] = Some 47
    | None => True
    end).
Proof.
  pose proof (tb_range _ _ Hb) as Hr.
  revert p i. induction fuel as [|fuel IH]; intros p i Hp Hpre Hf Hi; [lia|]. cbn [seek].
  destruct (Z.ltb_spec index i) as [Hlt|Hge]; [destruct (Hpre Hlt); cbn; split; [lia|by split; [lia|]]|].
  apply safe_bind_get; [lia|]. intros c Hc. destruct (Z.eqb_spec c 47) as [->|]; cbn [negb].
  - pose proof (not_end b n Hb p 47 Hp Hc ltac:(done) ltac:(done)).
    assert (b.[p + 1 - 1] = Some 47) as Hs by (by replace (p + 1 - 1) with p by lia).
    apply (safe_bind _ _ (λ _, True)).
    { destruct (Z.eqb_spec (p + 1 - 1) 0); cbn [negb]; [done|]. apply safe_bind_get; [lia|done]. }
    intros again _. eapply safe_weaken; [apply IH|].
    + lia.
    + intros _. split; [lia|done].
    + lia.
    + destruct again; lia.
    + cbv beta. intros [q|]; [|done]. intros (? & ? & ?). split; [destruct again; lia|by split].
  - destruct (Z.eqb_spec c 0) as [->|]; [done|].
    destruct (decide (p = n)) as [->|]; [rewrite (tb_zero _ _ Hb) in Hc; congruence|].
    eapply safe_weaken; [apply IH; try lia|]. cbv beta. intros [q|]; [|done]. intros (? & ? & ?). split; [lia|by split].
Qed.

Lemma first_seek index : 0 ≤ index →
  safe (seek (S (length b)) b 0 0 index) (λ r, match r with
    | Some q => index + 1 ≤ q ≤ n - 1 ∧ b.[q - 1] = Some 47
    | None => True
    end).
Proof.
  intros Hi. pose proof (tb_range _ _ Hb) as Hr. eapply safe_weaken; [apply seek_safe; unfold len in *; lia|].
  cbv beta. intros [q|]; [|done]. intros (? & ? & ?). split; [lia|done].
Qed.

Lemma slice_safe {A} (l : list A) i k (Q : list A → Prop) : 0 ≤ i → 0 ≤ k → i + k ≤ len l →
  Q (take (Z.to_nat k) (drop (Z.to_nat i) l)) → safe (lift (slice l i k)) Q.
Proof. intros. by rewrite slice_lt. Qed.

Lemma entry_name_safe index : 0 ≤ index →
  safe (config_get_entry_name b index) (λ r, match r with Some name => index < n | None => True end).
Proof.
  intros Hi. pose proof (tb_range _ _ Hb) as Hr. unfold config_get_entry_name.
  eapply safe_bind; [by apply first_seek|]. intros [q|]; [|done]. intros [Hq _]. cbv zeta.
  eapply safe_bind; [apply (span_until_safe _ _ _ _ n (line_end_n b n Hb)); unfold len in *; lia|].
  intros e [He _]. eapply safe_bind; [apply (slice_safe _ _ _ (λ _, True)); [lia..|done]|]. intros name _. cbn. lia.
Qed.

Lemma entry_end_safe fuel p : 1 ≤ p ≤ n → n - p < Z.of_nat fuel →
  safe (entry_end fuel b p) (λ e, p ≤ e ≤ n ∧ ∀ k, p ≤ k < e → b.[k] ≠ Some 0).
Proof.
  pose proof (tb_range _ _ Hb) as Hr.
  revert p. induction fuel as [|fuel IH]; intros p Hp Hf; [lia|]. cbn [entry_end].
  apply safe_bind_get; [lia|]. intros c Hc.
  assert (c ≠ 0 → safe (entry_end fuel b (p + 1)) (λ e, p ≤ e ≤ n ∧ ∀ k, p ≤ k < e → b.[k] ≠ Some 0)) as Hnext.
  { intros H0. destruct (decide (p = n)) as [->|]; [rewrite (tb_zero _ _ Hb) in Hc; congruence|].
    eapply safe_weaken; [apply IH; lia|]. cbv beta. intros e [He Hk]. split; [lia|]. intros k Hkk.
    destruct (decide (k = p)) as [->|]; [congruence|]. apply Hk. lia. }
  destruct (Z.eqb_spec c 47) as [->|]; cbn [negb andb].
  - destruct (Z.eqb_spec 47 0); [done|]. cbn [negb]. apply safe_bind_get; [lia|]. intros d Hd.
    destruct (negb (d =? NL)); [by apply Hnext|]. split; [lia|]. intros k Hk. lia.
  - destruct (Z.eqb_spec c 0) as [->|]; cbn [negb]; [|by apply Hnext]. split; [lia|]. intros k Hk. lia.
Qed.

Lemma get_entry_safe index : 0 ≤ index →
  safe (config_get_entry b index) (λ r, match r with
    | Some (p, size) => 1 ≤ p ≤ n ∧ 0 ≤ size ∧ p + size ≤ n ∧ ∀ k, p ≤ k < p + size → b.[k] ≠ Some 0
    | None => True
    end).
Proof.
  intros Hi. pose proof (tb_range _ _ Hb) as Hr. unfold config_get_entry.
  eapply safe_bind; [by apply first_seek|]. intros [q|]; [|done]. intros [Hq _].
  eapply safe_bind; [apply (span_until_safe _ _ _ _ n (line_end_n b n Hb)); unfold len in *; lia|].
  intros ret [Hret _]. eapply safe_bind; [apply entry_end_safe; [lia|unfold len in *; lia]|].
  intros e [He Hk]. cbn. split; [lia|]. split; [lia|]. split; [lia|]. intros k Hkk. apply Hk. lia.
Qed.

(** An entry with a name has a body. *)
Lemma entry_both index name : config_get_entry_name b index = Ret (Some name) → config_get_entry b index ≠ Ret None.
Proof.
  unfold config_get_entry_name, config_get_entry. destruct (seek _ _ _ _ _) as [[q|]|?|]; cbn [mbind out_bind]; try done.
  intros _. destruct (span_until _ _ _ _); cbn [mbind out_bind]; [|done..]. by destruct (entry_end _ _ _).
Qed.

(** ** The menu *)

Lemma is_child_safe d index : 0 ≤ index →
  safe (is_child b d index) (λ k, (k = NOT_CHILD ∨ k = DIRECT_CHILD ∨ k = INDIRECT_CHILD) ∧
    (k ≠ NOT_CHILD → index < n ∧ ∃ name, config_get_entry_name b index = Ret (Some name) ∧ Z.of_nat d < len name)).
Proof.
  intros Hi. unfold is_child. pose proof (entry_name_safe index Hi) as Hn.
  destruct (config_get_entry_name b index) as [[name|]|?|]; cbn [mbind out_bind safe] in *; [|by split; [left|]|done|done].
  destruct (Z.ltb_spec (len name) (Z.of_nat d + 1)); [by split; [left|]|]. destruct (negb (forallb _ _)); [by split; [left|]|].
  apply safe_bind_get; [lia|]. intros c _. cbn. split; [destruct (c =? 47); auto|]. intros _. split; [done|].
  exists name. split; [done|lia].
Qed.

Lemma read_entry_safe d index name : 0 ≤ index → config_get_entry_name b index = Ret (Some name) → Z.of_nat d < len name →
  safe (read_entry b d index) (λ '(_, _, body), nz body).
Proof.
  intros Hi Hn Hd. unfold read_entry. rewrite Hn. cbn [mbind out_bind].
  apply safe_bind_get; [rewrite len_app; change (len [0]) with 1; lia|]. intros c _.
  pose proof (get_entry_safe index Hi) as He. pose proof (entry_both index name Hn) as Hne.
  destruct (config_get_entry b index) as [[[p size]|]|?|]; cbn [mbind out_bind safe] in *; [|by destruct Hne|done|done].
  destruct He as (Hp & Hs & Hps & Hk). destruct (tb_range _ _ Hb) as [Hn1 Hlen].
  eapply safe_bind; [apply (slice_safe _ _ _ nz); [lia..|]|]; [|intros body Hbody; exact Hbody].
  apply Forall_lookup. intros k x Hx ->. apply lookup_take_Some in Hx as [Hx Hlt]. rewrite lookup_drop in Hx.
  apply (Hk (p + Z.of_nat k)); [lia|]. unfold arr_get. rewrite decide_True by lia. by replace (Z.to_nat (p + Z.of_nat k)) with (Z.to_nat p + k)%nat by lia.
Qed.

Lemma comment_safe body : nz body → ∃ c, config_get_value (body ++ [0]) 0 COMMENT = Ret c.
Proof.
  intros Hb'. unfold COMMENT. rewrite (config_get_value_ok body [] (lit "COMMENT") [] 0); [by eexists|done| |lia].
  repeat constructor; vm_compute; discriminate.
Qed.

Lemma menu_loop_safe sub fuel d i : (∀ i, 0 ≤ i ≤ n → safe (sub i) (λ _, True)) → 0 ≤ i ≤ n → n - i < Z.of_nat fuel →
  safe (menu_loop b sub fuel d i) (λ _, True).
Proof.
  intros Hsub. revert i. induction fuel as [|fuel IH]; intros i Hi Hf; [lia|]. cbn [menu_loop].
  eapply safe_bind; [apply is_child_safe; lia|]. intros k [Hk Hname].
  destruct (Z.eqb_spec k NOT_CHILD) as [|Hnot]; [done|]. destruct (Hname Hnot) as (Hin & name & Hn & Hd). clear Hname.
  destruct (k =? INDIRECT_CHILD); [apply IH; lia|].
  eapply safe_bind; [apply (read_entry_safe d i name); [lia|done|done]|]. intros [[name' dx] body] Hbody.
  apply (safe_bind _ _ (λ _, True)).
  { unfold is_directory. eapply safe_bind; [apply is_child_safe; lia|]. intros k' _. by destruct (k' =? INDIRECT_CHILD). }
  intros dir _. apply (safe_bind _ _ (λ _, True)); [destruct dir; [apply Hsub; lia|done]|]. intros subs _.
  destruct (comment_safe body Hbody) as (c & ->). cbn [mbind out_bind].
  eapply safe_bind; [apply IH; lia|]. done.
Qed.

Lemma create_menu_tree_safe fuel d i : (66 ≤ fuel + d)%nat → (d ≤ 65)%nat → 0 ≤ i ≤ n →
  safe (create_menu_tree fuel b d i) (λ _, True).
Proof.
  revert d i. induction fuel as [|fuel IH]; intros d i Hf Hd Hi; [lia|]. cbn [create_menu_tree].
  unfold MAX_MENU_NESTING. destruct (Nat.ltb_spec 64 d); [done|].
  apply menu_loop_safe; [intros j Hj; apply IH; lia|done|]. destruct (tb_range _ _ Hb). unfold len in *. lia.
Qed.

Lemma back_to_slash_safe fuel c : 0 ≤ c ≤ n → c < Z.of_nat fuel → safe (back_to_slash fuel b c) (λ r, 0 ≤ r ≤ n).
Proof.
  destruct (tb_range _ _ Hb) as [Hn Hlen]. revert c. induction fuel as [|fuel IH]; intros c Hc Hf; [lia|]. cbn [back_to_slash].
  apply safe_bind_get; [lia|]. intros x _. destruct (Z.ltb_spec 0 c); [|by rewrite andb_false_r].
  rewrite andb_true_r. destruct (negb (x =? 47)); [apply IH; lia|done].
Qed.

Lemma end_globals_safe : safe (end_globals b) (λ b', len b' = len b).
Proof.
  destruct (tb_range _ _ Hb) as [Hn Hlen]. unfold end_globals. eapply safe_bind; [apply get_entry_safe; lia|].
  intros [[p s]|]; [|done]. intros (Hp & _). eapply safe_bind; [apply back_to_slash_safe; [lia|unfold len in *; lia]|].
  intros c Hc. cbv beta in Hc. apply safe_bind_get; [lia|]. intros x _. destruct (Z.ltb_spec 0 c); [|by rewrite andb_false_r].
  rewrite andb_true_r. destruct (x =? 47); [|done]. unfold set. rewrite arr_set_lt by lia. cbn. unfold len. by rewrite length_insert.
Qed.
End entries.

(** ** The whole *)

Lemma parse_hash_safe k digits : (2 * k ≤ length digits)%nat → safe (parse_hash k digits) (λ _, True).
Proof.
  revert digits. induction k as [|k IH]; intros digits Hl; [done|]. destruct digits as [|c1 [|c2 digits]]; cbn in Hl; [lia..|].
  cbn [parse_hash]. destruct (_ || _); [done|]. eapply safe_bind; [apply IH; lia|done].
Qed.

Lemma init_config_safe digits arch fw t x : 128 ≤ len digits →
  safe (init_config digits arch fw (t ++ [x; 0]) (len t + 2)) (λ _, True).
Proof.
  intros Hd. unfold init_config. pose proof (len_nonneg t). apply (safe_bind _ _ (λ _, True)).
  { unfold check_b2sum. case_bool_decide; [done|].
    eapply safe_bind; [apply (slice_safe _ _ _ (λ _, True)); [lia|lia|rewrite len_app; change (len [x; 0]) with 2; lia|done]|].
    intros text _. rewrite blake2b_ok. cbn [lift mbind out_bind].
    eapply safe_bind; [apply parse_hash_safe; unfold len in Hd; lia|]. intros hash _. by case_bool_decide. }
  intros enrolled _. replace (len t + 2 - 2) with (len t) by lia.
  assert (set (t ++ [x; 0]) (len t) NL = Ret (t ++ [NL; 0])) as ->.
  { unfold set. rewrite arr_set_lt by (rewrite len_app; change (len [x; 0]) with 2; lia). unfold len. rewrite Nat2Z.id.
    f_equal. rewrite insert_app_r_alt by lia. by rewrite Nat.sub_diag. }
  cbn [mbind out_bind]. destruct (clean_ok (t ++ [NL; 0]) []) as (T' & Hc & _). rewrite app_nil_r in Hc.
  replace (len (t ++ [NL; 0])) with (len t + 2) in Hc by (rewrite len_app; done). rewrite Hc. cbn [mbind out_bind].
  destruct (cleaned_end true t) as (Y & ->). pose proof (text_buf_app Y T') as Hb.
  replace (len (Y ++ [NL; 0])) with (len Y + 1 + 1) by (rewrite len_app; change (len [NL; 0]) with 2; lia).
  destruct (tb_range _ _ Hb) as [Hn Hlen].
  eapply safe_bind; [apply (load_loop_safe _ _ Hb); [lia|unfold len in *; lia]|]. intros macros _.
  eapply safe_bind; [apply (expand_safe _ _ Hb)|]. intros [b' s] (Hb' & _). destruct (tb_range _ _ Hb').
  eapply safe_bind; [apply (create_menu_tree_safe _ _ Hb'); lia|]. intros tree _.
  eapply safe_bind; [apply (end_globals_safe _ _ Hb')|]. done.
Qed.

(** ** The firmware's tables *)

Lemma string_area_safe fuel sd m i : 1 ≤ i → m ≤ len sd → m - i < Z.of_nat fuel → (0 < fuel)%nat →
  safe (string_area fuel sd m i) (λ j, i ≤ j ∧ (j < m → sd.[j] = Some 0)).
Proof.
  revert i. induction fuel as [|fuel IH]; intros i Hi Hm Hf H0; [lia|]. cbn [string_area].
  destruct (Z.ltb_spec i m); [|cbn; lia]. apply safe_bind_get; [lia|]. intros x _.
  apply (safe_bind _ _ (λ r, r = false → sd.[i] = Some 0)).
  { destruct (negb (x =? 0)); [done|]. apply safe_bind_get; [lia|]. intros y Hy. cbn. intros Hz%negb_false_iff%Z.eqb_eq. by subst y. }
  intros [|] Hz; [|cbn; split; [lia|by intros _; apply Hz]].
  eapply safe_weaken; [apply IH; lia|]. cbv beta. intros j [? ?]. split; [lia|done].
Qed.

Lemma arr_get_drop (s : list Z) n i : 0 ≤ n → 0 ≤ i → (drop (Z.to_nat n) s).[i] = s.[n + i].
Proof.
  intros Hn Hi. unfold arr_get. rewrite !decide_True by lia. rewrite lookup_drop. f_equal. lia.
Qed.

(** A structure that is not refused is inside the table and its strings end
    with it. *)
Lemma smbios_struct_size_safe hdr remaining : remaining ≤ len hdr →
  safe (smbios_struct_size hdr remaining) (λ r, r = 0 ∨ ∃ l, hdr.[1] = Some l ∧ 4 ≤ l ∧ l + 2 ≤ r ≤ remaining ∧
    hdr.[r - 1] = Some 0).
Proof.
  intros Hr. unfold smbios_struct_size. destruct (Z.ltb_spec remaining 4); [by left|].
  apply safe_bind_get; [lia|]. intros l Hl. destruct (Z.ltb_spec l 4); [by left|]. destruct (Z.ltb_spec remaining l); [by left|].
  eapply safe_bind; [apply string_area_safe; [lia|unfold len in *; rewrite length_drop; lia|lia|lia]|].
  intros j [Hj Hz]. destruct (Z.leb_spec (remaining - l) j); [by left|]. right. exists l. split; [done|]. split; [done|]. split; [lia|].
  cbv beta in *. assert (j < remaining - l) as Hjl by lia. specialize (Hz Hjl). rewrite arr_get_drop in Hz by lia. rewrite <- Hz. f_equal. lia.
Qed.

Lemma strncmp_total s1 s2 k : (k ≤ length s1)%nat → (k ≤ length s2)%nat → ∃ r, strncmp s1 s2 k = Some r.
Proof.
  revert s1 s2. induction k as [|k IH]; intros s1 s2 H1 H2; [exists 0; by destruct s1|].
  destruct s1 as [|x s1], s2 as [|y s2]; cbn in H1, H2; try lia. cbn [strncmp].
  destruct (negb (x =? y)); [by eexists|]. destruct (x =? 0); [by eexists|]. apply IH; lia.
Qed.

Lemma strnlen_total s k : (k ≤ length s)%nat → ∃ r, strnlen s k = Some r ∧ 0 ≤ r ≤ Z.of_nat k ∧
  ∀ j, 0 ≤ j < r → s.[j] ≠ Some 0.
Proof.
  revert s. induction k as [|k IH]; intros s Hl; [exists 0; split; [by destruct s|]; split; [lia|]; intros j ?; lia|].
  destruct s as [|x s]; cbn in Hl; [lia|]. cbn [strnlen]. destruct (Z.eqb_spec x 0).
  { exists 0. split; [done|]. split; [lia|]. intros j ?. lia. }
  destruct (IH s) as (r & -> & Hr & Hj); [lia|]. exists (1 + r). split; [done|]. split; [lia|]. intros j Hjj.
  destruct (decide (j = 0)) as [->|]; [by intros [= ?]|].
  change (x :: s) with ([x] ++ s). rewrite arr_get_app_r by (change (len [x]) with 1; lia). change (len [x]) with 1. apply Hj. lia.
Qed.

Lemma smbios_config_safe hdr size l : hdr.[1] = Some l → 4 ≤ l → l + 2 ≤ size ≤ len hdr → hdr.[size - 1] = Some 0 →
  safe (smbios_config hdr size) (λ r, match r with Some text => ∃ t x, text = t ++ [x; 0] | None => True end).
Proof.
  intros Hl H4 Hs Hz. unfold smbios_config. rewrite (get_eq _ _ _ Hl). cbn [mbind out_bind].
  set (sd := drop (Z.to_nat l) hdr). assert (len sd = len hdr - l) as Hsd by (unfold sd, len in *; rewrite length_drop; lia).
  change (len smbios_prefix) with 14. apply (safe_bind _ _ (λ r, r = true → 14 < size - l)).
  { destruct (Z.ltb_spec 14 (size - l)); [|done].
    destruct (strncmp_total sd (smbios_prefix ++ [0]) 14) as (r & Hr); [unfold len in *; lia|vm_compute; lia|].
    change (Z.to_nat 14) with 14%nat. rewrite Hr. intros _. exact H. }
  intros [|] Hlong; [|done]. specialize (Hlong eq_refl). cbn [negb].
  destruct (strnlen_total sd (Z.to_nat (size - l))) as (r & -> & Hr & Hj); [unfold len in *; lia|]. cbn [lift mbind out_bind].
  destruct (Z.leb_spec r 14); [done|].
  assert (sd.[size - l - 1] = Some 0) as Hsz.
  { unfold sd. rewrite arr_get_drop by lia. rewrite <- Hz. f_equal. lia. }
  assert (r ≤ size - l - 1).
  { destruct (decide (r ≤ size - l - 1)); [done|]. exfalso. apply (Hj (size - l - 1)); [lia|done]. }
  assert (0 ≤ 14 + (r - 14 + 2 - 1) ≤ len sd) by lia. rewrite slice_lt by lia. cbn [lift mbind out_bind safe].
  set (text := take _ _). assert (length text = Z.to_nat (r - 14 + 2 - 1)) as Ht.
  { unfold text. rewrite length_take, length_drop. unfold len in *. lia. }
  destruct text as [|x text _] using rev_ind; [cbn in Ht; lia|]. exists text, x. by rewrite <- app_assoc.
Qed.

Lemma smbios_loop_safe fuel table count k p : 0 ≤ p ≤ len table → len table - p < Z.of_nat fuel →
  safe (smbios_loop fuel table (len table) count k p) (λ r, match r with Some text => ∃ t x, text = t ++ [x; 0] | None => True end).
Proof.
  revert k p. induction fuel as [|fuel IH]; intros k p Hp Hf; [lia|]. cbn [smbios_loop].
  destruct (_ && _); [done|]. set (hdr := drop (Z.to_nat p) table).
  assert (len hdr = len table - p) as Hh by (unfold hdr, len in *; rewrite length_drop; lia).
  destruct (Z.ltb_spec (len table - p) 4); [done|]. apply safe_bind_get; [lia|]. intros ty _.
  destruct (ty =? 127); [done|]. eapply safe_bind; [apply smbios_struct_size_safe; lia|]. intros size Hsize.
  destruct (Z.eqb_spec size 0); [done|]. destruct Hsize as [?|(l & Hl & H4 & Hs & Hz)]; [done|].
  rewrite (get_eq _ _ _ Hl). cbn [mbind out_bind].
  apply (safe_bind _ _ (λ r, match r with Some text => ∃ t x, text = t ++ [x; 0] | None => True end)).
  { destruct (_ && _); [|done]. by apply (smbios_config_safe hdr size l); [| |lia|]. }
  intros [text|] Htext; [done|]. cbv zeta. destruct (Z.leb_spec (len table) (p + size)); [done|]. apply IH; lia.
Qed.

(** C15: whatever is in the configuration file or in the strings of the
    firmware's table, loading it ends, with a configuration or a panic, and
    never reads or writes outside the file's buffer, the buffer of the expanded
    macros, a macro's arrays or the table. *)
Theorem config_loading_safe digits arch fw : 128 ≤ len digits →
  (∀ fopen, init_config_disk digits arch fw fopen ≠ Wild) ∧
  (∀ table struct_count, init_config_smbios digits arch fw table (len table) struct_count ≠ Wild).
Proof.
  intros Hd. split.
  - intros fopen. unfold init_config_disk. destruct (first_file _ _) as [f|]; [|done].
    destruct (SIZE_MAX - 2 <? len f); [done|]. pose proof (init_config_safe digits arch fw f 0 Hd) as Hs. cbv zeta.
    by destruct (init_config _ _ _ _ _).
  - intros table count. unfold init_config_smbios. destruct (len table =? 0); [done|].
    pose proof (smbios_loop_safe (S (Z.to_nat (len table))) table count 0 0) as Hs. pose proof (len_nonneg table).
    destruct (smbios_loop _ _ _ _ _ _) as [[text|]|?|]; [|done|done|exfalso; apply Hs; lia].
    destruct Hs as (t & x & ->); [lia|lia|]. cbn [mbind out_bind].
    pose proof (init_config_safe digits arch fw t x Hd) as Hs. replace (len (t ++ [x; 0])) with (len t + 2) by (rewrite len_app; done).
    by destruct (init_config _ _ _ _ _).
Qed.

Lemma config_loading_safe_witness :
  init_config_disk CONFIG_B2SUM_EMPTY (lit "x86-64") (lit "BIOS") (λ _, Some (lit "timeout: 5")) ≠ Wild ∧
  init_config_smbios CONFIG_B2SUM_EMPTY (lit "x86-64") (lit "BIOS") [11; 5; 0; 0; 1; 0; 0] (len [11; 5; 0; 0; 1; 0; 0]) 1 ≠ Wild.
Proof.
  pose proof (config_loading_safe CONFIG_B2SUM_EMPTY (lit "x86-64") (lit "BIOS") ltac:(vm_compute; discriminate)) as [Hd Hs].
  split; [apply Hd|apply Hs].
Defined.
