(* ===== verification/Volume.v ===== *)
(** Volumes, [limine/common/lib/part.s2.c] and the sectors of
    [limine/common/drivers/disk.s2.c] as the BIOS build has them: a volume is a
    drive or a part of one, and keeps the block it read last.

    [int13 drive lba count] is what the firmware leaves in the transfer buffer,
    or none when it reports an error.  A read of [volume_read] that is refused
    gives none. *)
From S2P Require Import Prelude Outcome.
From stdpp Require Import strings.
Open Scope list_scope.
Open Scope Z_scope.

Definition XFER_BUF_SIZE : Z := 64 * 512.
Definition UNKNOWN_SIZE : Z := 2 ^ 64 - 1.

(** [cached] is the cache when its status is [CACHE_READY]: the block and the
    buffer; [first_sect] and [sect_count] count 512 bytes. *)
Record volume := Vol {
  drive : Z;
  fastest_xfer_size : Z;
  pxe : bool;
  sector_size : Z;
  cache : option (list Z);
  cached : option Z;
  first_sect : Z;
  sect_count : Z;
}.

Definition with_cache (v : volume) (c : option (list Z)) (b : option Z) : volume :=
  Vol (drive v) (fastest_xfer_size v) (pxe v) (sector_size v) c b (first_sect v) (sect_count v).

Section volume.
Context (int13 : Z → Z → Z → option (list Z)).

(** What [disk_read_sectors] copies to its buffer; none is [DISK_FAILURE]. *)
Definition disk_read_sectors (v : volume) (block count : Z) : out (option (list Z)) :=
  if XFER_BUF_SIZE <? count * sector_size v then Panic "XFER" else
  match int13 (drive v) block count with
  | None => Ret None
  | Some xfer_buf => bs ← lift (slice xfer_buf 0 (count * sector_size v)); Ret (Some bs)
  end.

(** [DIV_ROUNDUP]. *)
Definition div_roundup (a b : Z) : option Z := s ← add64 a (b - 1); Some (s / b).

(** The first sector of a block and how many are read. *)
Definition block_extent (v : volume) (block : Z) : option (Z * Z) :=
  let k := sector_size v / 512 in
  if negb (first_sect v mod k =? 0) then None else
  let first := first_sect v / k in
  block_offset ← mul64 block (fastest_xfer_size v);
  read_sector ← add64 first block_offset;
  if negb (sect_count v =? UNKNOWN_SIZE) then
    volume_sectors ← div_roundup (sect_count v) k;
    let end_sector := default UNKNOWN_SIZE (add64 first volume_sectors) in
    if end_sector <=? read_sector then None else
    let remaining := end_sector - read_sector in
    Some (read_sector, if remaining <? fastest_xfer_size v then remaining else fastest_xfer_size v)
  else Some (read_sector, fastest_xfer_size v).

Definition cache_block (v : volume) (block : Z) : out (bool * volume) :=
  if bool_decide (cached v = Some block) then Ret (true, v) else
  let v := with_cache v (cache v) None in
  buf ← match cache v with
        | Some buf => Ret buf
        | None => match mul64 (fastest_xfer_size v) (sector_size v) with
                  | Some size => Ret (replicate (Z.to_nat size) 0)
                  | None => Panic "cache_block: block size overflow"
                  end
        end;
  let v := with_cache v (Some buf) None in
  match block_extent v block with
  | None => Ret (false, v)
  | Some (read_sector, xfer_size) =>
      ret ← disk_read_sectors v read_sector xfer_size;
      match ret with
      | None => Ret (false, v)
      | Some bs =>
          if len buf <? len bs then Wild else
          Ret (true, with_cache v (Some (bs ++ drop (length bs) buf)) (Some block))
      end
  end.

(** From [progress] on; [got] is what the buffer holds so far. *)
Fixpoint read_loop (fuel : nat) (v : volume) (loc count block_size progress : Z) (got : list Z)
    : out (option (list Z) * volume) :=
  match fuel with
  | O => Wild
  | S fuel =>
      if progress <? count then
        let block := u64 (loc + progress) / block_size in
        '(ok, v) ← cache_block v block;
        if negb ok then Ret (None, v) else
        let chunk := count - progress in
        let offset := u64 (loc + progress) mod block_size in
        let chunk := if block_size - offset <? chunk then block_size - offset else chunk in
        match cache v with
        | None => Wild
        | Some buf =>
            bs ← lift (slice buf offset chunk);
            read_loop fuel v loc count block_size (progress + chunk) (got ++ bs)
        end
      else Ret (Some got, v)
  end.

Definition volume_read (v : volume) (loc count : Z) : out (option (list Z) * volume) :=
  if pxe v then Panic "Attempted volume_read() on pxe" else
  if (fastest_xfer_size v =? 0) || (sector_size v <? 512) || negb (sector_size v mod 512 =? 0) then Ret (None, v) else
  let out_of_range :=
    if negb (sect_count v =? UNKNOWN_SIZE) then
      match mul64 (sect_count v) 512 with
      | None => true
      | Some part_size => (part_size <=? loc) || (part_size - loc <? count)
      end
    else false in
  if out_of_range : bool then Ret (None, v) else
  read_loop (S (Z.to_nat count)) v loc count (u64 (fastest_xfer_size v * sector_size v)) 0 [].
End volume.

(** ** What a read is

    [disk d p] is byte [p] of drive [d]. *)
Section spec.
Context (int13 : Z → Z → Z → option (list Z)) (disk : Z → Z → Z).

(** The firmware gives the sectors it is asked for. *)
Definition firmware_ok (d ss : Z) : Prop := ∀ lba n bs,
  int13 d lba n = Some bs → n * ss ≤ len bs ∧ ∀ i, 0 ≤ i < n * ss → bs.[i] = Some (disk d (lba * ss + i)).

Definition bytes_at (d p n : Z) : list Z := map (λ i, disk d (p + i)) (seqZ 0 n).

Definition block_size (v : volume) : Z := fastest_xfer_size v * sector_size v.

Record volume_ok (v : volume) : Prop := {
  vo_xfer : 0 < fastest_xfer_size v;
  vo_sector : 512 ≤ sector_size v ∧ sector_size v mod 512 = 0;
  vo_block : block_size v ≤ XFER_BUF_SIZE;
  vo_pxe : pxe v = false;
  vo_first : 0 ≤ first_sect v;
  vo_count : 0 ≤ sect_count v;
  vo_size : sect_count v = UNKNOWN_SIZE ∨ first_sect v + sect_count v < 2 ^ 64;
  vo_firmware : firmware_ok (drive v) (sector_size v);
}.

(** The bytes a block is read as. *)
Definition load (v : volume) (block : Z) : option (list Z) :=
  '(s, n) ← block_extent v block;
  _ ← int13 (drive v) s n;
  Some (bytes_at (drive v) (s * sector_size v) (n * sector_size v)).

(** What is in the cache is what is on the disk. *)
Record cache_ok (v : volume) : Prop := {
  co_len : ∀ buf, cache v = Some buf → len buf = block_size v;
  co_block : ∀ b, cached v = Some b → ∃ bs rest, cache v = Some (bs ++ rest) ∧ load v b = Some bs;
}.

Definition in_range (v : volume) (loc count : Z) : bool :=
  (sect_count v =? UNKNOWN_SIZE) || ((sect_count v * 512 <? 2 ^ 64) && (loc <? sect_count v * 512) && (count <=? sect_count v * 512 - loc)).

(** All blocks the range touches can be read. *)
Definition loadable (v : volume) (loc count : Z) : bool :=
  forallb (λ b, if load v b is Some _ then true else false)
    (if 0 <? count then seqZ (loc / block_size v) ((loc + count - 1) / block_size v - loc / block_size v + 1) else []).

Definition volume_bytes (v : volume) (loc count : Z) : option (list Z) :=
  if in_range v loc count && loadable v loc count then Some (bytes_at (drive v) (first_sect v * 512 + loc) count) else None.
End spec.
