(* ===== verification/VolumeProofs.v ===== *)
(** Reading a volume gives the bytes of its part of the drive, whatever was
    read before, and stays inside the cache. *)
From S2P Require Import Prelude Outcome Volume.
From stdpp Require Import strings.
Open Scope list_scope.
Open Scope Z_scope.

Section proofs.
Context (int13 : Z → Z → Z → option (list Z)) (disk : Z → Z → Z).
Notation volume_ok := (volume_ok int13 disk).
Notation cache_ok := (cache_ok int13 disk).
Notation load := (load int13 disk).
Notation bytes_at := (bytes_at disk).

(** ** Bytes of a drive *)

Lemma len_bytes_at d p n : 0 ≤ n → len (bytes_at d p n) = n.
Proof. intros Hn. unfold bytes_at, len. rewrite length_map, length_seqZ. lia. Qed.

Lemma bytes_at_get d p n i : 0 ≤ i < n → (bytes_at d p n).[i] = Some (disk d (p + i)).
Proof.
  intros Hi. unfold arr_get, bytes_at. rewrite decide_True by lia. change (map (λ i, disk d (p + i)) (seqZ 0 n)) with ((λ i, disk d (p + i)) <$> seqZ 0 n). rewrite list_lookup_fmap.
  rewrite lookup_seqZ_lt by lia. cbn. do 2 f_equal. lia.
Qed.

Lemma bytes_at_app d p n m : 0 ≤ n → 0 ≤ m → bytes_at d p n ++ bytes_at d (p + n) m = bytes_at d p (n + m).
Proof.
  intros Hn Hm. apply arr_ext; [rewrite len_app, !len_bytes_at by lia; lia|]. intros i Hi.
  rewrite len_app, !len_bytes_at in Hi by lia. rewrite (bytes_at_get _ _ (n + m)) by lia. destruct (Z.lt_ge_cases i n).
  - rewrite arr_get_app_l by (rewrite len_bytes_at; lia). by rewrite bytes_at_get by lia.
  - rewrite arr_get_app_r by (rewrite len_bytes_at; lia). rewrite len_bytes_at by lia. rewrite bytes_at_get by lia. do 2 f_equal. lia.
Qed.

Lemma bytes_at_slice d p n rest i m : 0 ≤ i → 0 ≤ m → i + m ≤ n → slice (bytes_at d p n ++ rest) i m = Some (bytes_at d (p + i) m).
Proof.
  intros Hi Hm Hl. pose proof (len_nonneg rest). rewrite slice_lt; [|lia|lia|rewrite len_app, len_bytes_at; lia]. f_equal.
  apply arr_ext.
  - rewrite len_bytes_at by lia. unfold len. rewrite length_take, length_drop, length_app.
    unfold bytes_at. rewrite length_map, length_seqZ. lia.
  - intros j Hj. assert (j < m) by (unfold len in Hj; rewrite length_take in Hj; lia).
    rewrite bytes_at_get by lia. unfold arr_get. rewrite decide_True by lia. rewrite lookup_take_lt by lia. rewrite lookup_drop.
    pose proof (bytes_at_get d p n (i + j)) as Hg. specialize (Hg ltac:(lia)). unfold arr_get in Hg. rewrite decide_True in Hg by lia.
    replace (Z.to_nat i + Z.to_nat j)%nat with (Z.to_nat (i + j)) by lia.
    rewrite lookup_app_l; [rewrite Hg; do 2 f_equal; lia|by eapply lookup_lt_Some].
Qed.

(** ** Blocks *)

Section ok.
Context (v : volume) (Hv : volume_ok v).
Notation F := (first_sect v * 512).
Notation B := (block_size v).

Lemma sector_parts : sector_size v = 512 * (sector_size v / 512) ∧ 1 ≤ sector_size v / 512.
Proof.
  destruct Hv as [_ [H1 H2] _ _ _ _ _ _]. split; [pose proof (Z.div_mod (sector_size v) 512 ltac:(done)); lia|].
  apply Z.div_le_lower_bound; lia.
Qed.

Lemma div_roundup_bounds a k : 0 ≤ a → 1 ≤ k → a ≤ k * ((a + (k - 1)) / k) ∧ (a + (k - 1)) / k ≤ a.
Proof.
  intros Ha Hk. pose proof (Z.div_mod (a + (k - 1)) k ltac:(lia)). pose proof (Z.mod_pos_bound (a + (k - 1)) k ltac:(lia)).
  split; [lia|]. apply Z.lt_succ_r, Z.div_lt_upper_bound; nia.
Qed.

(** The block is where it should be and reaches as far as the volume. *)
Lemma extent_ok block s n : 0 ≤ block → block_extent v block = Some (s, n) →
  s * sector_size v = F + block * B ∧ 0 < n ≤ fastest_xfer_size v ∧
  (n = fastest_xfer_size v ∨ sect_count v ≠ UNKNOWN_SIZE ∧ sect_count v * 512 - block * B ≤ n * sector_size v).
Proof.
  intros Hb. unfold block_extent. destruct sector_parts as [Hss Hk]. set (k := sector_size v / 512) in *.
  destruct Hv as [Hx _ _ _ Hf Hc Hsz _]. destruct (Z.eqb_spec (first_sect v mod k) 0) as [Hm|]; cbn [negb]; [|done].
  pose proof (Z.div_mod (first_sect v) k ltac:(lia)) as Hdm. rewrite Hm in Hdm. set (f := first_sect v / k) in *. clearbody f.
  unfold mul64. destruct (Z.ltb_spec (block * fastest_xfer_size v) (2 ^ 64)); cbn [mbind option_bind]; [|done].
  destruct (add64 f (block * fastest_xfer_size v)) as [rs|] eqn:Hrs; cbn [mbind option_bind]; [apply add64_Some in Hrs as [-> ?]|done].
  set (x := fastest_xfer_size v) in *. unfold block_size. fold x. rewrite Hss. clearbody k.
  assert ((f + block * x) * (512 * k) = first_sect v * 512 + block * (x * (512 * k))) as Hpos by (rewrite Hdm; ring).
  destruct (Z.eqb_spec (sect_count v) UNKNOWN_SIZE) as [|Hne]; cbn [negb].
  { intros [= <- <-]. split; [done|]. split; [lia|by left]. }
  destruct (div_roundup_bounds (sect_count v) k Hc Hk) as [Hd1 Hd2].
  unfold div_roundup. destruct (add64 (sect_count v) (k - 1)) as [sm|] eqn:Hsm; cbn [mbind option_bind]; [apply add64_Some in Hsm as [-> ?]|done].
  set (c := (sect_count v + (k - 1)) / k) in *. clearbody c.
  destruct Hsz as [|Hsz]; [done|]. assert (f ≤ first_sect v) by nia. rewrite add64_lt by lia. cbn [default]. change (id (f + c)) with (f + c).
  destruct (Z.leb_spec (f + c) (f + block * x)); [done|].
  destruct (Z.ltb_spec (f + c - (f + block * x)) x); intros [= <- <-]; (split; [done|]); (split; [lia|]); [right|by left].
  split; [done|]. replace ((f + c - (f + block * x)) * (512 * k)) with (512 * (k * c) - block * (x * (512 * k))) by ring. lia.
Qed.

Lemma load_extent block bs : load v block = Some bs → ∃ s n, block_extent v block = Some (s, n) ∧
  bs = bytes_at (drive v) (s * sector_size v) (n * sector_size v).
Proof.
  unfold Volume.load. destruct (block_extent v block) as [[s n]|]; cbn [mbind option_bind]; [|done].
  destruct (int13 _ _ _); cbn [mbind option_bind]; [|done]. intros [= <-]. by exists s, n.
Qed.

(** The part of a block a read is for. *)
Lemma load_slice block bs rest p m : 0 ≤ block → load v block = Some bs → block * B ≤ p → 0 ≤ m → p + m ≤ (block + 1) * B →
  (sect_count v = UNKNOWN_SIZE ∨ p + m ≤ sect_count v * 512) →
  slice (bs ++ rest) (p - block * B) m = Some (bytes_at (drive v) (F + p) m).
Proof.
  intros Hb (s & n & He & ->)%load_extent Hp Hm Hpm Hin. destruct (extent_ok block s n Hb He) as (Hs & Hn & Hreach).
  assert (p + m - block * B ≤ n * sector_size v) as Hend.
  { destruct Hreach as [->|[Hne ?]]; [unfold block_size in *; lia|]. destruct Hin as [?|?]; [done|lia]. }
  rewrite bytes_at_slice by lia. do 2 f_equal. lia.
Qed.

Lemma disk_read_ok s n : 0 < n ≤ fastest_xfer_size v →
  disk_read_sectors int13 v s n = Ret (_ ← int13 (drive v) s n; Some (bytes_at (drive v) (s * sector_size v) (n * sector_size v))).
Proof.
  intros Hn. unfold disk_read_sectors. destruct Hv as [Hx Hss Hbs _ _ _ _ Hfw]. unfold block_size in Hbs.
  assert (n * sector_size v ≤ fastest_xfer_size v * sector_size v) by nia.
  rewrite (proj2 (Z.ltb_ge _ _)) by lia. destruct (int13 (drive v) s n) as [xfer|] eqn:Hi; [|done]. cbn [mbind option_bind].
  destruct (Hfw _ _ _ Hi) as [Hl Hget]. rewrite slice_lt by nia. cbn [lift mbind out_bind]. do 2 f_equal. apply arr_ext.
  - rewrite len_bytes_at by nia. unfold len in *. rewrite length_take, length_drop. nia.
  - intros i Hi'. assert (0 ≤ i < n * sector_size v) as Hr.
    { unfold len in *. rewrite length_take, length_drop in Hi'. lia. }
    rewrite bytes_at_get by lia. change (Z.to_nat 0) with 0%nat. rewrite drop_0. rewrite <- (Hget i Hr). unfold arr_get.
    rewrite !decide_True by lia. apply lookup_take_lt. lia.
Qed.
End ok.

Lemma volume_ok_cache v c b : volume_ok v → volume_ok (with_cache v c b).
Proof. by intros []. Qed.

(** ** The cache *)

(** [w] is [v] with a cache that may be another. *)
Definition same_volume (v w : volume) : Prop := ∃ c b, w = with_cache v c b.

Lemma same_volume_refl v : same_volume v v.
Proof. exists (cache v), (cached v). by destruct v. Qed.
Lemma same_volume_trans u v w : same_volume u v → same_volume v w → same_volume u w.
Proof. intros (c & b & ->) (c' & b' & ->). by exists c', b'. Qed.
Lemma same_volume_ok v w : same_volume v w → volume_ok v → volume_ok w.
Proof. intros (c & b & ->). apply volume_ok_cache. Qed.

Lemma cache_block_ok v block : volume_ok v → cache_ok v → 0 ≤ block →
  ∃ ok w, cache_block int13 v block = Ret (ok, w) ∧ same_volume v w ∧ cache_ok w ∧
    match load v block with Some bs => ok = true ∧ ∃ rest, cache w = Some (bs ++ rest) | None => ok = false end.
Proof.
  intros Hv Hc Hb. unfold cache_block. case_bool_decide as Hhit.
  { destruct (co_block _ _ _ Hc _ Hhit) as (bs & rest & Hbuf & Hl). exists true, v. split; [done|]. split; [apply same_volume_refl|].
    split; [done|]. rewrite Hl. split; [done|by exists rest]. }
  cbv zeta. pose proof (vo_xfer _ _ _ Hv). pose proof (proj1 (vo_sector _ _ _ Hv)). pose proof (vo_block _ _ _ Hv) as Hbs.
  assert (∃ buf, match cache (with_cache v (cache v) None) with
                 | Some buf => Ret buf
                 | None => match mul64 (fastest_xfer_size (with_cache v (cache v) None)) (sector_size (with_cache v (cache v) None)) with
                           | Some size => Ret (replicate (Z.to_nat size) 0)
                           | None => Panic "cache_block: block size overflow"
                           end
                 end = Ret buf ∧ len buf = block_size v) as (buf & -> & Hlen).
  { cbn [with_cache cache fastest_xfer_size sector_size]. destruct (cache v) as [buf|] eqn:Hcv; [exists buf; split; [done|by apply (co_len _ _ _ Hc)]|].
    unfold mul64. fold (block_size v). rewrite (proj2 (Z.ltb_lt _ _)) by (unfold XFER_BUF_SIZE in Hbs; lia).
    eexists. split; [done|]. rewrite len_replicate. unfold block_size. nia. }
  cbn [mbind out_bind]. change (block_extent (with_cache (with_cache v (cache v) None) (Some buf) None) block) with (block_extent v block).
  assert (cache_ok (with_cache v (Some buf) None)) as Hcold by (split; [by intros ? [= <-]|done]).
  destruct (block_extent v block) as [[s n]|] eqn:He.
  2: { exists false, (with_cache v (Some buf) None). split; [done|]. split; [by eexists _, _|]. split; [done|].
       unfold Volume.load. by rewrite He. }
  destruct (extent_ok v Hv block s n Hb He) as (_ & Hn & _).
  change (disk_read_sectors int13 (with_cache (with_cache v (cache v) None) (Some buf) None) s n) with (disk_read_sectors int13 v s n).
  rewrite (disk_read_ok v Hv) by done. cbn [mbind out_bind].
  assert (load v block = _ ← int13 (drive v) s n; Some (bytes_at (drive v) (s * sector_size v) (n * sector_size v))) as Hload.
  { unfold Volume.load. by rewrite He. }
  destruct (int13 (drive v) s n); cbn [mbind option_bind] in Hload |- *.
  2: { exists false, (with_cache v (Some buf) None). split; [done|]. split; [by eexists _, _|]. split; [done|]. by rewrite Hload. }
  set (bs := bytes_at _ _ _) in *. assert (len bs = n * sector_size v) as Hlb by (unfold bs; apply len_bytes_at; nia).
  assert (n * sector_size v ≤ block_size v) by (unfold block_size; nia).
  rewrite (proj2 (Z.ltb_ge _ _)) by lia.
  exists true, (with_cache v (Some (bs ++ drop (length bs) buf)) (Some block)). split; [done|]. split; [by eexists _, _|]. split.
  - split.
    + intros ? [= <-]. rewrite len_app. unfold len in *. rewrite length_drop. change (block_size (with_cache v _ _)) with (block_size v). lia.
    + intros ? [= <-]. by exists bs, (drop (length bs) buf).
  - rewrite Hload. split; [done|]. by eexists.
Qed.

(** ** Reading *)

Notation loadable := (loadable int13 disk).
Notation volume_bytes := (volume_bytes int13 disk).

Lemma block_pos v : volume_ok v → 0 < block_size v ∧ u64 (block_size v) = block_size v.
Proof.
  intros [Hx [Hss _] Hbs _ _ _ _ _]. unfold XFER_BUF_SIZE in Hbs. assert (0 < block_size v) by (unfold block_size in *; nia).
  split; [done|]. apply u64_id. lia.
Qed.

(** The first block of a range and the rest. *)
Lemma loadable_step v p m chunk : volume_ok v → 0 ≤ p → 0 < chunk ≤ m → p mod block_size v + chunk ≤ block_size v →
  (chunk = m ∨ p mod block_size v + chunk = block_size v) →
  loadable v p m = (if load v (p / block_size v) is Some _ then true else false) && loadable v (p + chunk) (m - chunk).
Proof.
  intros Hv Hp Hm Hfit Hend. destruct (block_pos v Hv) as [Hb _]. unfold Volume.loadable. set (B := block_size v) in *.
  rewrite (proj2 (Z.ltb_lt 0 m)) by lia. pose proof (Z.div_mod p B ltac:(lia)) as Hdm. pose proof (Z.mod_pos_bound p B Hb).
  set (q := p / B) in *. set (o := p mod B) in *. clearbody q o.
  assert (q ≤ (p + m - 1) / B) by (apply Z.div_le_lower_bound; lia).
  rewrite seqZ_cons by lia. cbn [forallb]. f_equal.
  replace (Z.pred ((p + m - 1) / B - q + 1)) with ((p + m - 1) / B - q) by lia.
  destruct (Z.ltb_spec 0 (m - chunk)).
  - destruct Hend as [|Hend]; [lia|]. assert ((p + chunk) / B = Z.succ q) as ->.
    { symmetry. apply Z.div_unique_exact; [lia|]. nia. }
    replace (p + chunk + (m - chunk) - 1) with (p + m - 1) by lia. f_equal. f_equal. lia.
  - assert (m = chunk) by lia. subst m. assert ((p + chunk - 1) / B = q) as ->; [|by replace (q - q) with 0 by lia].
    symmetry. apply (Z.div_unique _ _ _ (o + chunk - 1)); [left; lia|]. nia.
Qed.

Lemma read_loop_ok fuel v loc count progress : volume_ok v → cache_ok v → 0 ≤ loc → loc + count ≤ 2 ^ 64 → 0 ≤ progress ≤ count →
  (sect_count v = UNKNOWN_SIZE ∨ loc + count ≤ sect_count v * 512) → count - progress < Z.of_nat fuel →
  ∃ w, read_loop int13 fuel v loc count (block_size v) progress (bytes_at (drive v) (first_sect v * 512 + loc) progress) =
    Ret (if loadable v (loc + progress) (count - progress) then Some (bytes_at (drive v) (first_sect v * 512 + loc) count) else None, w) ∧
    same_volume v w ∧ cache_ok w.
Proof.
  revert v progress. induction fuel as [|fuel IH]; intros v progress Hv Hc Hloc Hend Hp Hin Hf; [lia|]. cbn [read_loop].
  destruct (block_pos v Hv) as [Hb _]. destruct (Z.ltb_spec progress count).
  2: { assert (progress = count) as -> by lia. exists v. split; [|split; [apply same_volume_refl|done]].
       unfold Volume.loadable. by rewrite Z.sub_diag. }
  rewrite u64_id by lia. cbv zeta. set (p := loc + progress) in *. set (B := block_size v) in *.
  pose proof (Z.div_mod p B ltac:(lia)) as Hdm. pose proof (Z.mod_pos_bound p B Hb).
  assert (0 ≤ p / B) by (apply Z.div_pos; lia).
  set (chunk := if B - p mod B <? count - progress then B - p mod B else count - progress).
  assert (0 < chunk ≤ count - progress ∧ p mod B + chunk ≤ B ∧ (chunk = count - progress ∨ p mod B + chunk = B)) as (Hch & Hfit & Hfull).
  { unfold chunk. destruct (Z.ltb_spec (B - p mod B) (count - progress)); lia. }
  rewrite (loadable_step v p (count - progress) chunk) by (done || lia). fold B.
  destruct (cache_block_ok v (p / B) Hv Hc ltac:(done)) as (ok & w & -> & Hsame & Hcw & Hload). cbn [mbind out_bind].
  destruct (load v (p / B)) as [bs|] eqn:Hl; [|subst ok; exists w; done].
  destruct Hload as [-> (rest & ->)]. cbn [negb andb].
  assert (slice (bs ++ rest) (p mod B) chunk = Some (bytes_at (drive v) (first_sect v * 512 + p) chunk)) as ->.
  { replace (p mod B) with (p - p / B * B) by lia. apply (load_slice v Hv); [done|done|lia|lia|fold B; lia|]. destruct Hin; [by left|right; unfold p; lia]. }
  cbn [lift mbind out_bind]. replace (first_sect v * 512 + p) with (first_sect v * 512 + loc + progress) by (unfold p; lia).
  rewrite bytes_at_app by lia. destruct Hsame as (c & b & ->).
  destruct (IH (with_cache v c b) (progress + chunk)) as (w & Hw & (c' & b' & ->) & Hcw'); [by apply volume_ok_cache|done|done|done|lia|done|lia|].
  exists (with_cache (with_cache v c b) c' b'). split; [|split; [by exists c', b'|done]].
  replace (p + chunk) with (loc + (progress + chunk)) by (unfold p; lia).
  replace (count - progress - chunk) with (count - (progress + chunk)) by lia. exact Hw.
Qed.

(** The range may run over the last address if that leaves the volume. *)
Lemma volume_read_ok v loc count : volume_ok v → cache_ok v → 0 ≤ loc → 0 ≤ count →
  sect_count v ≠ UNKNOWN_SIZE ∨ loc + count ≤ 2 ^ 64 →
  ∃ w, volume_read int13 v loc count = Ret (volume_bytes v loc count, w) ∧ same_volume v w ∧ cache_ok w.
Proof.
  intros Hv Hc Hloc Hcount Hend. destruct (block_pos v Hv) as [Hb Hu]. unfold volume_read, Volume.volume_bytes.
  destruct Hv as [Hx [Hs1 Hs2] Hbs Hpxe Hf Hsc Hsz Hfw] eqn:Heq. clear Heq. rewrite Hpxe.
  rewrite (proj2 (Z.eqb_neq _ 0)), (proj2 (Z.ltb_ge _ _)), Hs2 by lia. cbn [orb negb Z.eqb].
  assert (volume_ok v) as Hok by done.
  assert ((if negb (sect_count v =? UNKNOWN_SIZE) then
    match mul64 (sect_count v) 512 with Some part_size => (part_size <=? loc) || (part_size - loc <? count) | None => true end
    else false) = negb (in_range v loc count)) as ->.
  { unfold in_range, mul64. destruct (sect_count v =? UNKNOWN_SIZE); cbn [negb orb]; [done|].
    destruct (sect_count v * 512 <? 2 ^ 64); cbn [andb negb]; [|done]. rewrite negb_andb. by rewrite <- Z.leb_antisym, <- Z.ltb_antisym. }
  destruct (in_range v loc count) eqn:Hr; cbn [negb andb]; [|exists v; split; [done|split; [apply same_volume_refl|done]]].
  change (fastest_xfer_size v * sector_size v) with (block_size v). rewrite Hu.
  assert (sect_count v = UNKNOWN_SIZE ∨ sect_count v * 512 < 2 ^ 64 ∧ loc + count ≤ sect_count v * 512) as Hin.
  { unfold in_range in Hr. apply orb_true_iff in Hr as [Hr|Hr]; [left; by apply Z.eqb_eq|right]. lia. }
  destruct (read_loop_ok (S (Z.to_nat count)) v loc count 0 Hok Hc Hloc) as (w & Hw & Hsame & Hcw); [|lia| |lia|].
  - destruct Hin as [?|?]; [by destruct Hend|lia].
  - destruct Hin as [?|?]; [by left|right; lia].
  - exists w. split; [|done]. rewrite Z.add_0_r, Z.sub_0_r in Hw. exact Hw.
Qed.

(** One read after the other. *)
Fixpoint read_all (v : volume) (reqs : list (Z * Z)) : out (list (option (list Z))) :=
  match reqs with
  | [] => Ret []
  | (loc, count) :: reqs => '(r, v) ← volume_read int13 v loc count; rs ← read_all v reqs; Ret (r :: rs)
  end.

Definition request_ok (r : Z * Z) : Prop := 0 ≤ fst r ∧ 0 ≤ snd r ∧ fst r + snd r ≤ 2 ^ 64.

Lemma volume_bytes_same v w loc count : same_volume v w → volume_bytes w loc count = volume_bytes v loc count.
Proof. by intros (c & b & ->). Qed.

Lemma volume_read_all_ok v reqs : volume_ok v → cache_ok v → Forall request_ok reqs →
  read_all v reqs = Ret (map (λ r, volume_bytes v (fst r) (snd r)) reqs).
Proof.
  intros Hv Hc Hreqs. revert v Hv Hc. induction Hreqs as [|[loc count] reqs (H1 & H2 & H3) Hreqs IH]; intros v Hv Hc; [done|].
  cbn [read_all map fst snd] in *. destruct (volume_read_ok v loc count Hv Hc H1 H2 (or_intror H3)) as (w & -> & Hs & Hcw). cbn [mbind out_bind].
  rewrite IH; [|by eapply same_volume_ok|done]. cbn [mbind out_bind]. do 2 f_equal. apply map_ext. intros r. by apply volume_bytes_same.
Qed.

Lemma fresh_cache_ok v : cache_ok (with_cache v None None).
Proof. by split. Qed.
End proofs.


(** A drive of [n] sectors. *)
Definition drive_int13 (disk : Z → Z → Z) (n d lba count : Z) : option (list Z) :=
  if lba + count <=? n then Some (bytes_at disk d (lba * 512) (count * 512)) else None.

Lemma drive_firmware disk n d : firmware_ok (drive_int13 disk n) disk d 512.
Proof.
  intros lba count bs. unfold drive_int13. destruct (lba + count <=? n); [|done]. intros [= <-].
  destruct (Z.lt_ge_cases count 0).
  - split; [etrans; [|apply len_nonneg]; lia|intros i Hi; lia].
  - split; [rewrite len_bytes_at by lia; lia|]. intros i Hi. by rewrite bytes_at_get by lia.
Qed.

Definition small_disk (d p : Z) : Z := p mod 251.
Notation small_int13 := (drive_int13 small_disk 8).
Definition small_volume : volume := Vol 0x80 2 false 512 None None 2 5.

Lemma small_ok : volume_ok small_int13 small_disk small_volume.
Proof. split; try done; [by right|]. apply drive_firmware. Qed.

Example small_reads : read_all small_int13 small_volume [(0, 4); (510, 4); (2556, 4); (2556, 5)] =
  Ret [Some [20; 21; 22; 23]; Some [28; 29; 30; 31]; Some [66; 67; 68; 69]; None].
Proof. vm_compute. reflexivity. Qed.

