(* ===== verification/Part.v ===== *)
(** Partition tables, [limine/common/lib/part.s2.c]: GPT with its checks and
    its alternate header, MBR and the chain of logical partitions, and what is
    remembered from one probe to the next.

    Code that reads one volume is a program of type [rdr], which [run] runs on
    the volume and its cache.  A structure of the disk is its bytes.  The file
    system label of a partition is left out, and so are the fields of a volume
    that are only copied. *)
From S2P Require Import Prelude Libc Outcome Volume.
From stdpp Require Import strings.
Open Scope list_scope.
Open Scope Z_scope.

(** ** Programs that read a volume *)
Inductive rdr (A : Type) :=
  | Done (a : A)
  | Read (loc count : Z) (k : option (list Z) → rdr A).
Arguments Done {A} a.
Arguments Read {A} loc count k.

Fixpoint rdr_then {A B} (p : rdr A) (f : A → rdr B) : rdr B :=
  match p with
  | Done a => f a
  | Read loc count k => Read loc count (λ r, rdr_then (k r) f)
  end.

#[export] Instance rdr_ret : MRet rdr := λ A a, Done a.
#[export] Instance rdr_bind : MBind rdr := λ A B f p, rdr_then p f.

Definition vread (loc count : Z) : rdr (option (list Z)) := Read loc count Done.

(** The arguments of [volume_read] are [uint64_t]. *)
Fixpoint run {A} (int13 : Z → Z → Z → option (list Z)) (v : volume) (p : rdr A) : out (A * volume) :=
  match p with
  | Done a => Ret (a, v)
  | Read loc count k => '(r, v) ← volume_read int13 v (u64 loc) (u64 count); run int13 v (k r)
  end.

(** The field of [n] bytes at [o]. *)
Definition field (b : list Z) (o n : nat) : Z := le_val (take n (drop o b)).

Definition partition_range_valid (volume_count first count : Z) : bool :=
  if count =? 0 then false else
  match add64 first count with
  | None => false
  | Some end_sect => negb (negb (volume_count =? UNKNOWN_SIZE) && (volume_count <? end_sect))
  end.

(** ** GPT headers *)
Definition GPT_HEADER_SIZE : Z := 92.
Definition GPT_ENTRY_SIZE : Z := 128.
Definition EFI_PART : list Z := lit "EFI PART".
Definition signature (h : list Z) : list Z := take 8 h.
Definition revision (h : list Z) : Z := field h 8 4.
Definition header_size (h : list Z) : Z := field h 12 4.
Definition header_crc32 (h : list Z) : Z := field h 16 4.
Definition my_lba (h : list Z) : Z := field h 24 8.
Definition alternate_lba (h : list Z) : Z := field h 32 8.
Definition first_usable_lba (h : list Z) : Z := field h 40 8.
Definition last_usable_lba (h : list Z) : Z := field h 48 8.
Definition disk_guid (h : list Z) : list Z := take 16 (drop 56 h).
Definition partition_entry_lba (h : list Z) : Z := field h 72 8.
Definition number_of_partition_entries (h : list Z) : Z := field h 80 4.
Definition size_of_partition_entry (h : list Z) : Z := field h 84 4.
Definition partition_entry_array_crc32 (h : list Z) : Z := field h 88 4.

Fixpoint crc32_shift (n : nat) (crc : Z) : Z :=
  match n with
  | O => crc
  | S n => crc32_shift n (if Z.odd crc then Z.lxor (Z.shiftr crc 1) 0xedb88320 else Z.shiftr crc 1)
  end.
Definition crc32_update (crc : Z) (buffer : list Z) : Z := fold_left (λ crc b, crc32_shift 8 (Z.lxor crc b)) buffer crc.

Fixpoint crc32_volume_range (fuel : nat) (loc count crc : Z) : rdr (option Z) :=
  match fuel with
  | O => mret None
  | S fuel =>
      if 0 <? count then
        let step := if count <? 512 then count else 512 in
        r ← vread loc step;
        match r with
        | None => mret None
        | Some chunk => crc32_volume_range fuel (u64 (loc + step)) (count - step) (crc32_update crc chunk)
        end
      else mret (Some crc)
  end.
(** Every chunk but the last is 512 bytes. *)
Definition crc_fuel (count : Z) : nat := S (Z.to_nat ((count + 511) / 512)).

Definition GPT_MAX_ARRAY_SIZE : Z := 1024 * 1024.

(** Where the array of entries may lie. *)
Definition array_placed (volume_count : Z) (h : list Z) (header_lba lb_size array_size : Z) : bool :=
  let array_lba := partition_entry_lba h in
  let array_blocks := u64 (array_size + lb_size - 1) / lb_size in
  match add64 array_lba array_blocks with
  | None => false
  | Some array_end =>
      if last_usable_lba h <? first_usable_lba h then false else
      if (if array_lba <? first_usable_lba h then first_usable_lba h <? array_end
          else (array_lba <=? last_usable_lba h) || (header_lba <? array_end)) then false else
      if negb (volume_count =? UNKNOWN_SIZE) then
        let device_blocks := volume_count / (lb_size / 512) in
        negb ((device_blocks <=? last_usable_lba h) || (device_blocks <? array_end))
      else true
  end.

(** Whether the header is good, and what is left of the budget. *)
Definition gpt_verify_header (volume_count : Z) (h : list Z) (header_lba lb_size budget : Z) : rdr (bool * Z) :=
  if negb (bool_decide (signature h = EFI_PART)) then mret (false, budget) else
  if negb (revision h =? 0x10000) then mret (false, budget) else
  if (header_size h <? GPT_HEADER_SIZE) || (lb_size <? header_size h) then mret (false, budget) else
  if negb (my_lba h =? header_lba) then mret (false, budget) else
  match mul64 header_lba lb_size with
  | None => mret (false, budget)
  | Some header_loc =>
      let zeroed := take 16 h ++ [0; 0; 0; 0] ++ drop 20 h in
      let crc := crc32_update 0xffffffff zeroed in
      crc ← (if GPT_HEADER_SIZE <? header_size h then
               match add64 header_loc GPT_HEADER_SIZE with
               | None => mret None
               | Some tail => crc32_volume_range (crc_fuel (header_size h - GPT_HEADER_SIZE)) tail (header_size h - GPT_HEADER_SIZE) crc
               end
             else mret (Some crc));
      match crc with
      | None => mret (false, budget)
      | Some crc =>
          if negb (u32 (Z.lnot crc) =? header_crc32 h) then mret (false, budget) else
          let entry_size := size_of_partition_entry h in
          if (entry_size <? GPT_ENTRY_SIZE) || negb (Z.land entry_size (entry_size - 1) =? 0) then mret (false, budget) else
          match mul64 (number_of_partition_entries h) entry_size with
          | None => mret (false, budget)
          | Some array_size =>
              if array_size =? 0 then mret (false, budget) else
              if (GPT_MAX_ARRAY_SIZE <? array_size) || (budget <? array_size) then mret (false, budget) else
              if negb (array_placed volume_count h header_lba lb_size array_size) then mret (false, budget) else
              match mul64 (partition_entry_lba h) lb_size with
              | None => mret (false, budget)
              | Some array_loc =>
                  let budget := budget - array_size in
                  crc ← crc32_volume_range (crc_fuel array_size) array_loc array_size 0xffffffff;
                  match crc with
                  | None => mret (false, budget)
                  | Some crc => mret (u32 (Z.lnot crc) =? partition_entry_array_crc32 h, budget)
                  end
              end
          end
      end
  end.

Fixpoint protective_from (slots : list Z) : rdr bool :=
  match slots with
  | [] => mret false
  | i :: slots =>
      r ← vread (0x1be + 16 * i + 4) 1;
      match r with
      | None => mret false
      | Some type => if field type 0 1 =? 0xee then mret true else protective_from slots
      end
  end.
Definition gpt_protective_mbr : rdr bool := protective_from [0; 1; 2; 3].

(** A header, where it was found and the size of a block. *)
Record location := Loc { l_header : list Z; l_lba : Z; l_size : Z }.

Fixpoint try_candidates (volume_count guess budget : Z) (candidates : list Z) : rdr (option location * Z) :=
  match candidates with
  | [] => mret (None, budget)
  | lba :: candidates =>
      match mul64 lba guess with
      | None => try_candidates volume_count guess budget candidates
      | Some loc =>
          r ← vread loc GPT_HEADER_SIZE;
          match r with
          | None => try_candidates volume_count guess budget candidates
          | Some h =>
              '(ok, budget) ← gpt_verify_header volume_count h lba guess budget;
              if ok : bool then mret (Some (Loc h lba guess), budget)
              else try_candidates volume_count guess budget candidates
          end
      end
  end.

(** The last block first, then the one the primary header names. *)
Definition add_last_block (volume_count guess : Z) (candidates : list Z) : list Z :=
  if negb (volume_count =? UNKNOWN_SIZE) && (512 <=? guess) then
    let blocks := volume_count / (guess / 512) in
    if 2 <=? blocks then
      match candidates with
      | c :: _ => if c =? blocks - 1 then [blocks - 1] else [blocks - 1; c]
      | [] => [blocks - 1]
      end
    else candidates
  else candidates.

Fixpoint try_guesses (volume_count : Z) (protective : bool) (budget : Z) (guesses : list Z) : rdr (option location) :=
  match guesses with
  | [] => mret None
  | guess :: guesses =>
      r ← vread guess GPT_HEADER_SIZE;
      '(found, candidates, budget) ←
        match r with
        | None => mret (None, [], budget)
        | Some h =>
            '(ok, budget) ← gpt_verify_header volume_count h 1 guess budget;
            if ok : bool then mret (Some (Loc h 1 guess), [], budget) else
            mret (None, if bool_decide (signature h = EFI_PART) && (1 <? alternate_lba h) then [alternate_lba h] else [], budget)
        end;
      match found with
      | Some l => mret (Some l)
      | None =>
          let candidates := add_last_block volume_count guess candidates in
          if negb protective then try_guesses volume_count protective budget guesses else
          '(found, budget) ← try_candidates volume_count guess budget candidates;
          match found with
          | Some l => mret (Some l)
          | None => try_guesses volume_count protective budget guesses
          end
      end
  end.

(** The search of [gpt_locate_header]. *)
Definition gpt_search (volume_count : Z) : rdr (option location) :=
  protective ← gpt_protective_mbr;
  try_guesses volume_count protective (GPT_MAX_ARRAY_SIZE * 2) [512; 2048; 4096].

(** ** What is remembered of it

    A volume is its address [va].  [m_hit] is [gpt_memo_volume] with the
    header found there, [m_none] is [gpt_memo_none_volume] with what its header
    block was, if it could be read. *)
Record gpt_memo := Memo {
  m_hit : option (Z * location);
  m_none : option (Z * option (list Z));
}.

Definition gpt_memo_hit (m : gpt_memo) (va : Z) : rdr (option location) :=
  match m_hit m with
  | Some (va', l) =>
      if negb (va' =? va) then mret None else
      match mul64 (l_lba l) (l_size l) with
      | None => mret None
      | Some loc =>
          fresh ← vread loc GPT_HEADER_SIZE;
          mret (if bool_decide (fresh = Some (l_header l)) then Some l else None)
      end
  | None => mret None
  end.

Definition gpt_memo_none_hit (m : gpt_memo) (va : Z) : rdr bool :=
  match m_none m with
  | Some (va', block) =>
      if negb (va' =? va) then mret false else
      fresh ← vread 512 GPT_HEADER_SIZE;
      mret (bool_decide (fresh = block))
  | None => mret false
  end.

Definition gpt_locate_header (m : gpt_memo) (va volume_count : Z) : rdr (option location * gpt_memo) :=
  hit ← gpt_memo_hit m va;
  match hit with
  | Some l => mret (Some l, m)
  | None =>
      none ← gpt_memo_none_hit m va;
      if none : bool then mret (None, m) else
      found ← gpt_search volume_count;
      match found with
      | Some l => mret (Some l, Memo (Some (va, l)) (m_none m))
      | None => block ← vread 512 GPT_HEADER_SIZE; mret (None, Memo (m_hit m) (Some (va, block)))
      end
  end.

Definition gpt_get_guid (m : gpt_memo) (va volume_count : Z) : rdr (option (list Z) * gpt_memo) :=
  '(found, m) ← gpt_locate_header m va volume_count;
  mret (match found with Some l => Some (disk_guid (l_header l)) | None => None end, m).

(** ** Partitions *)
Record part := Part {
  p_number : Z;
  p_first : Z;
  p_count : Z;
  p_guid : option (list Z);
  p_type_guid : option (list Z);
}.

Inductive probe :=
  | NO_PARTITION
  | INVALID_TABLE
  | END_OF_TABLE
  | Found (p : part).

Definition MAX_GPT_PARTITIONS : Z := 256.

Definition gpt_entry_part (volume_count lb_size partition : Z) (entry : list Z) : probe :=
  let unique_partition_guid := take 16 (drop 16 entry) in
  let starting_lba := field entry 32 8 in
  let ending_lba := field entry 40 8 in
  if bool_decide (unique_partition_guid = replicate 16 0) then NO_PARTITION else
  if ending_lba <? starting_lba then NO_PARTITION else
  let sect_multiplier := lb_size / 512 in
  match mul64 starting_lba sect_multiplier with
  | None => NO_PARTITION
  | Some first =>
      let partition_size := ending_lba - starting_lba in
      if partition_size =? 2 ^ 64 - 1 then NO_PARTITION else
      match mul64 (partition_size + 1) sect_multiplier with
      | None => NO_PARTITION
      | Some count =>
          if partition_range_valid volume_count first count
          then Found (Part (partition + 1) first count (Some unique_partition_guid) (Some (take 16 entry)))
          else NO_PARTITION
      end
  end.

Definition gpt_get_part (m : gpt_memo) (va volume_count partition : Z) : rdr (probe * gpt_memo) :=
  '(found, m) ← gpt_locate_header m va volume_count;
  match found with
  | None => mret (INVALID_TABLE, m)
  | Some l =>
      let h := l_header l in
      let entry_count := number_of_partition_entries h in
      let entry_count := if MAX_GPT_PARTITIONS <? entry_count then MAX_GPT_PARTITIONS else entry_count in
      if entry_count <=? u32 partition then mret (END_OF_TABLE, m) else
      let entry_size := size_of_partition_entry h in
      if entry_size <? GPT_ENTRY_SIZE then mret (INVALID_TABLE, m) else
      match (o ← mul64 (partition_entry_lba h) (l_size l); add64 o (u64 (partition * entry_size))) with
      | None => mret (INVALID_TABLE, m)
      | Some entry_offset =>
          r ← vread entry_offset GPT_ENTRY_SIZE;
          match r with
          | None => mret (END_OF_TABLE, m)
          | Some entry => mret (gpt_entry_part volume_count (l_size l) partition entry, m)
          end
      end
  end.

(** ** MBR *)
Definition e_type (entry : list Z) : Z := field entry 4 1.
Definition e_first_sect (entry : list Z) : Z := field entry 8 4.
Definition e_sect_count (entry : list Z) : Z := field entry 12 4.
Definition is_extended (type : Z) : bool := (type =? 0x0f) || (type =? 0x05) || (type =? 0x85).

(** The bytes at each place are ones [ok] accepts. *)
Fixpoint all_checks (checks : list (Z * Z * (list Z → bool))) : rdr bool :=
  match checks with
  | [] => mret true
  | (loc, count, ok) :: checks =>
      r ← vread loc count;
      match r with
      | None => mret false
      | Some bs => if negb (ok bs) then mret false else all_checks checks
      end
  end.

Definition status_ok (bs : list Z) : bool := (field bs 0 1 =? 0) || (field bs 0 1 =? 0x80).
Definition is_not (s bs : list Z) : bool := negb (bool_decide (bs = s)).

Definition is_valid_mbr : rdr bool := all_checks
  [(510, 2, λ bs, field bs 0 2 =? 0xaa55);
   (446, 1, status_ok); (462, 1, status_ok); (478, 1, status_ok); (494, 1, status_ok);
   (3, 4, is_not (lit "NTFS")); (54, 3, is_not (lit "FAT")); (82, 3, is_not (lit "FAT"));
   (3, 5, is_not (lit "FAT32")); (1080, 2, λ bs, negb (field bs 0 2 =? 0xef53))].

Definition mbr_get_id : rdr Z :=
  ok ← is_valid_mbr;
  if negb (ok : bool) then mret 0 else
  r ← vread 0x1b8 4;
  mret (match r with Some bs => field bs 0 4 | None => 0 end).

Definition MAX_LOGICAL_PARTITIONS : nat := 256.

(** [ebr_walk_*]: an EBR and how many logical partitions come before it. *)
Record walk := Walk { w_index : Z; w_sector : Z; w_size : Z }.

Section logical.
(** The extent of the extended partition, the size of the disk and the number
    asked for. *)
Context (ext_first ext_count disk_count partition : Z).

(** The first sector on the disk. *)
Definition mbr_logical_entry_contained (ebr_sector : Z) (entry : list Z) : option Z :=
  match add64 ebr_sector (e_first_sect entry) with
  | None => None
  | Some rel_first =>
      if negb (partition_range_valid ext_count rel_first (e_sect_count entry)) then None else
      match add64 ext_first rel_first with
      | None => None
      | Some first => if partition_range_valid disk_count first (e_sect_count entry) then Some first else None
      end
  end.

(** The entries of an EBR from [i] on: an answer, or the number of partitions
    so far and the link. *)
Fixpoint ebr_entries (slots : list Z) (w : walk) (accepted : Z) (link : option (Z * Z)) : rdr (probe + Z * option (Z * Z)) :=
  match slots with
  | [] => mret (inr (accepted, link))
  | i :: slots =>
      r ← vread (u64 (w_sector w * 512 + 0x1be + 16 * i)) 16;
      match r with
      | None => mret (inl END_OF_TABLE)
      | Some entry =>
          if is_extended (e_type entry) then
            ebr_entries slots w accepted
              (match link with
               | None => if negb (e_sect_count entry =? 0) then Some (e_first_sect entry, e_sect_count entry) else None
               | Some _ => link
               end)
          else if e_sect_count entry =? 0 then ebr_entries slots w accepted link
          else
            let contained := mbr_logical_entry_contained (w_sector w) entry in
            let within_link := e_first_sect entry + e_sect_count entry <=? w_size w in
            if (2 <=? i) && (negb (bool_decide (is_Some contained)) || negb within_link) then ebr_entries slots w accepted link
            else if accepted =? partition then
              mret (inl (match contained with
                         | None => NO_PARTITION
                         | Some first => Found (Part (partition + 4 + 1) first (e_sect_count entry) None None)
                         end))
            else ebr_entries slots w (accepted + 1) link
      end
  end.

(** One EBR: an answer or the next one. *)
Definition ebr_step (w : walk) : rdr (probe + walk) :=
  r ← vread (u64 (w_sector w * 512 + 510)) 2;
  match r with
  | None => mret (inl END_OF_TABLE)
  | Some signature =>
      if negb (field signature 0 2 =? 0xaa55) then mret (inl END_OF_TABLE) else
      r ← ebr_entries [0; 1; 2; 3] w (w_index w) None;
      mret (match r with
            | inl p => inl p
            | inr (accepted, None) => inl END_OF_TABLE
            | inr (accepted, Some (sector, size)) =>
                if (sector =? 0) || (sector <=? w_sector w) then inl END_OF_TABLE
                else if ext_count <=? sector then inl END_OF_TABLE
                else inr (Walk accepted sector size)
            end)
  end.

(** [n] more EBRs; the last one looked at is remembered. *)
Fixpoint ebr_links (n : nat) (memo w : walk) : rdr (probe * walk) :=
  match n with
  | O => mret (END_OF_TABLE, memo)
  | S n =>
      r ← ebr_step w;
      match r with
      | inl p => mret (p, w)
      | inr w' => ebr_links n w w'
      end
  end.

Definition mbr_get_logical_part (memo : walk) : rdr (probe * walk) :=
  if Z.of_nat MAX_LOGICAL_PARTITIONS <=? partition then mret (END_OF_TABLE, memo) else
  let w := if w_index memo <=? partition then memo else Walk 0 0 ext_count in
  ebr_links MAX_LOGICAL_PARTITIONS memo w.
End logical.

(** The first extended partition among the entries. *)
Fixpoint find_extended (disk_count : Z) (slots : list Z) : rdr (option (Z * Z)) :=
  match slots with
  | [] => mret None
  | i :: slots =>
      r ← vread (0x1be + 16 * i) 16;
      match r with
      | None => find_extended disk_count slots
      | Some entry =>
          if negb (is_extended (e_type entry)) then find_extended disk_count slots
          else if e_sect_count entry =? 0 then find_extended disk_count slots
          else if negb (partition_range_valid disk_count (e_first_sect entry) (e_sect_count entry)) then find_extended disk_count slots
          else mret (Some (e_first_sect entry, e_sect_count entry))
      end
  end.

Definition primary_part (disk_count partition : Z) : rdr probe :=
  r ← vread (0x1be + 16 * partition) 16;
  mret (match r with
        | None => END_OF_TABLE
        | Some entry =>
            if e_type entry =? 0 then NO_PARTITION
            else if e_sect_count entry =? 0 then NO_PARTITION
            else if negb (partition_range_valid disk_count (e_first_sect entry) (e_sect_count entry)) then NO_PARTITION
            else Found (Part (partition + 1) (e_first_sect entry) (e_sect_count entry) None None)
        end).

(** ** A drive that is probed

    [ebr_part] is the volume of the extended partition and its walk. *)
Record device := Dev {
  d_address : Z;
  d_volume : volume;
  d_ebr_part : option (volume * walk);
}.

(** A part of a volume, with no cache yet. *)
Definition sub_volume (v : volume) (first count : Z) : volume :=
  Vol (drive v) (fastest_xfer_size v) false (sector_size v) None None first count.

Section probing.
Context (int13 : Z → Z → Z → option (list Z)).

Definition logical_part (d : device) (v : volume) (ext : volume) (w : walk) (partition : Z) : out (probe * device) :=
  '((r, w), ext) ← run int13 ext (mbr_get_logical_part (first_sect ext) (sect_count ext) (sect_count v) (partition - 4) w);
  Ret (r, Dev (d_address d) v (Some (ext, w))).

Definition mbr_get_part (d : device) (partition : Z) : out (probe * device) :=
  '(valid, v) ← run int13 (d_volume d) is_valid_mbr;
  if negb (valid : bool) then Ret (INVALID_TABLE, Dev (d_address d) v (d_ebr_part d)) else
  if 3 <? partition then
    match d_ebr_part d with
    | Some (ext, w) => logical_part d v ext w partition
    | None =>
        '(found, v) ← run int13 v (find_extended (sect_count v) [0; 1; 2; 3]);
        match found with
        | None => Ret (END_OF_TABLE, Dev (d_address d) v None)
        | Some (first, count) => logical_part d v (sub_volume v first count) (Walk 0 0 count) partition
        end
    end
  else
    '(r, v) ← run int13 v (primary_part (sect_count v) partition);
    Ret (r, Dev (d_address d) v (d_ebr_part d)).

Definition part_get (m : gpt_memo) (d : device) (partition : Z) : out (probe * gpt_memo * device) :=
  if partition <? 0 then Ret (NO_PARTITION, m, d) else
  '((r, m), v) ← run int13 (d_volume d) (gpt_get_part m (d_address d) (sect_count (d_volume d)) partition);
  let d := Dev (d_address d) v (d_ebr_part d) in
  match r with
  | INVALID_TABLE => '(r, d) ← mbr_get_part d partition; Ret (r, m, d)
  | _ => Ret (r, m, d)
  end.

(** The probes of [disk_create_index] for one drive: all its partitions. *)
Fixpoint index_parts (fuel : nat) (m : gpt_memo) (d : device) (i : Z) : out (list part * gpt_memo * device) :=
  match fuel with
  | O => Wild
  | S fuel =>
      '(r, m, d) ← part_get m d i;
      match r with
      | END_OF_TABLE | INVALID_TABLE => Ret ([], m, d)
      | NO_PARTITION => index_parts fuel m d (i + 1)
      | Found p => '(ps, m, d) ← index_parts fuel m d (i + 1); Ret (p :: ps, m, d)
      end
  end.
End probing.
