(* ===== verification/PartProofs.v ===== *)
(** Probing a drive for partitions: what is remembered from one probe to the
    next never shows in an answer, and every partition lies inside its drive. *)
From S2P Require Import Prelude Libc Outcome Volume VolumeProofs Part.
From stdpp Require Import strings.
Open Scope list_scope.
Open Scope Z_scope.

(** ** Programs on contents

    [evals rd p]: the answer of [p] when reads are answered by [rd]. *)
Fixpoint evals {A} (rd : Z → Z → option (list Z)) (p : rdr A) : A :=
  match p with
  | Done a => a
  | Read loc count k => evals rd (k (rd loc count))
  end.

Lemma evals_bind {A B} rd (p : rdr A) (f : A → rdr B) : evals rd (p ≫= f) = evals rd (f (evals rd p)).
Proof. induction p as [a|loc count k IH]; [done|]. apply IH. Qed.

Lemma evals_read rd loc count : evals rd (vread loc count) = rd loc count.
Proof. done. Qed.

(** All answers of [p] are [Q] when what is read are bytes. *)
Fixpoint yields {A} (p : rdr A) (Q : A → Prop) : Prop :=
  match p with
  | Done a => Q a
  | Read loc count k => ∀ r, (∀ bs, r = Some bs → is_bytes bs) → yields (k r) Q
  end.

Lemma yields_bind {A B} (p : rdr A) (f : A → rdr B) (P : A → Prop) (Q : B → Prop) :
  yields p P → (∀ a, P a → yields (f a) Q) → yields (p ≫= f) Q.
Proof. intros Hp Hf. induction p as [a|loc count k IH]; cbn in *; [by apply Hf|]. intros r Hr. by apply IH, Hp. Qed.

Lemma yields_true {A} (p : rdr A) : yields p (λ _, True).
Proof. induction p; cbn; auto. Qed.

Lemma yields_evals {A} rd (p : rdr A) (Q : A → Prop) : (∀ l c bs, rd l c = Some bs → is_bytes bs) → yields p Q → Q (evals rd p).
Proof. intros Hrd. induction p as [a|loc count k IH]; cbn; [done|]. intros Hq. apply IH, Hq. intros bs. apply Hrd. Qed.

Lemma yields_read {B} loc count (f : option (list Z) → rdr B) (Q : B → Prop) :
  (∀ r, (∀ bs, r = Some bs → is_bytes bs) → yields (f r) Q) → yields (vread loc count ≫= f) Q.
Proof. done. Qed.

Section volume.
Context (int13 : Z → Z → Z → option (list Z)) (disk : Z → Z → Z) (Hdisk : ∀ d p, is_word 8 (disk d p)).

(** What reads of a volume give. *)
Definition reads (v : volume) (loc count : Z) : option (list Z) := volume_bytes int13 disk v (u64 loc) (u64 count).

Lemma reads_bytes v loc count bs : reads v loc count = Some bs → is_bytes bs.
Proof.
  unfold reads, volume_bytes. destruct (_ && _); [|done]. intros [= <-]. apply Forall_forall. intros x Hx.
  apply list_elem_of_In, in_map_iff in Hx as (i & <- & _). apply Hdisk.
Qed.

Lemma reads_same v w : same_volume v w → reads w = reads v.
Proof. by intros (c & b & ->). Qed.

(** A volume of known size with what is on the disk in its cache. *)
Record known (v : volume) : Prop := {
  kn_ok : volume_ok int13 disk v;
  kn_cache : cache_ok int13 disk v;
  kn_size : sect_count v ≠ UNKNOWN_SIZE;
}.

Lemma run_ok {A} v (p : rdr A) : known v → ∃ w, run int13 v p = Ret (evals (reads v) p, w) ∧ same_volume v w ∧ known w.
Proof.
  intros Hv. revert v Hv. induction p as [a|loc count k IH]; intros v Hv.
  { exists v. split; [done|]. split; [apply same_volume_refl|done]. }
  destruct Hv as [Hok Hc Hsz]. cbn [run evals].
  destruct (volume_read_ok int13 disk v (u64 loc) (u64 count) Hok Hc) as (w & -> & Hs & Hcw).
  { apply Z.mod_pos_bound. done. } { apply Z.mod_pos_bound. done. } { by left. }
  cbn [mbind out_bind]. destruct (IH (reads v loc count) w) as (w' & Hw' & Hs' & Hk).
  { split; [by eapply same_volume_ok|done|]. by destruct Hs as (c & b & ->). }
  exists w'. rewrite (reads_same v w Hs) in Hw'. split; [exact Hw'|]. split; [by eapply same_volume_trans|done].
Qed.
End volume.

(** Fuel of [crc_fuel] is enough: more changes nothing. *)
Lemma crc_fuel_enough rd fuel more loc count crc : (crc_fuel count ≤ fuel)%nat → (fuel ≤ more)%nat →
  evals rd (crc32_volume_range fuel loc count crc) = evals rd (crc32_volume_range more loc count crc).
Proof.
  unfold crc_fuel. revert more loc count crc. induction fuel as [|fuel IH]; intros [|more] loc count crc Hf Hm; try lia. cbn [crc32_volume_range].
  destruct (Z.ltb_spec 0 count); [|done]. rewrite !evals_bind, evals_read. destruct (rd _ _); [|done].
  destruct (Z.ltb_spec count 512).
  - rewrite Z.sub_diag. destruct fuel as [|fuel]; [|destruct more as [|more]; [lia|done]].
    exfalso. pose proof (Z.div_le_lower_bound (count + 511) 512 1 ltac:(done) ltac:(lia)). lia.
  - apply IH; [|lia]. assert ((count + 511) / 512 = (count - 512 + 511) / 512 + 1) as Hd.
    { rewrite <- Z.div_add by done. f_equal. lia. }
    pose proof (Z.div_pos (count - 512 + 511) 512 ltac:(lia) ltac:(done)). lia.
Qed.

(** ** The GPT that is remembered *)

Section gpt.
Context (rd : Z → Z → option (list Z)) (va count : Z).

(** What is remembered of this volume is what a search gives. *)
Record memo_ok (m : gpt_memo) : Prop := {
  mo_hit : ∀ l, m_hit m = Some (va, l) → evals rd (gpt_search count) = Some l;
  mo_none : ∀ b, m_none m = Some (va, b) → evals rd (gpt_search count) = None;
}.

Lemma memo_hit_ok m l : memo_ok m → evals rd (gpt_memo_hit m va) = Some l → evals rd (gpt_search count) = Some l.
Proof.
  intros Hm. unfold gpt_memo_hit. destruct (m_hit m) as [[va' l']|] eqn:Hh; [|done].
  destruct (Z.eqb_spec va' va) as [->|]; cbn [negb]; [|done]. destruct (mul64 _ _); [|done].
  rewrite evals_bind. cbn [evals mret rdr_ret]. case_bool_decide; [|done]. intros [= <-]. by apply (mo_hit m Hm).
Qed.

Lemma memo_none_ok m : memo_ok m → evals rd (gpt_memo_none_hit m va) = true → evals rd (gpt_search count) = None.
Proof.
  intros Hm. unfold gpt_memo_none_hit. destruct (m_none m) as [[va' b]|] eqn:Hh; [|done].
  destruct (Z.eqb_spec va' va) as [->|]; cbn [negb]; [|done]. intros _. by eapply (mo_none m Hm).
Qed.

Lemma locate_ok m : memo_ok m →
  ∃ m', evals rd (gpt_locate_header m va count) = (evals rd (gpt_search count), m') ∧ memo_ok m'.
Proof.
  intros Hm. unfold gpt_locate_header. rewrite evals_bind.
  destruct (evals rd (gpt_memo_hit m va)) as [l|] eqn:Hhit.
  { exists m. split; [|done]. by rewrite (memo_hit_ok m l). }
  rewrite evals_bind. destruct (evals rd (gpt_memo_none_hit m va)) eqn:Hnone.
  { exists m. split; [|done]. by rewrite (memo_none_ok m). }
  rewrite evals_bind. destruct (evals rd (gpt_search count)) as [l|] eqn:Hs.
  - eexists. split; [done|]. split; cbn [m_hit m_none]; [|apply Hm]. by intros ? [= <-].
  - rewrite evals_bind. eexists. split; [done|]. split; cbn [m_hit m_none]; [apply Hm|]. done.
Qed.

Lemma gpt_get_part_ok m m0 partition : memo_ok m → memo_ok m0 →
  ∃ m', evals rd (gpt_get_part m va count partition) = (fst (evals rd (gpt_get_part m0 va count partition)), m') ∧ memo_ok m'.
Proof.
  intros Hm Hm0. unfold gpt_get_part. rewrite !evals_bind.
  destruct (locate_ok m Hm) as (m' & -> & Hm'), (locate_ok m0 Hm0) as (m0' & -> & _).
  exists m'. split; [|done]. destruct (evals rd (gpt_search count)) as [l|]; [|done].
  destruct (_ <=? _); [done|]. destruct (_ <? GPT_ENTRY_SIZE); [done|]. destruct (_ ← _; _) as [o|]; [|done].
  rewrite !evals_bind, evals_read. by destruct (rd _ _).
Qed.
End gpt.

(** ** The walk that is remembered *)

Section chain.
Context (rd : Z → Z → option (list Z)) (ext_first ext_count disk_count : Z).
Notation entries p slots w acc link := (evals rd (ebr_entries ext_first ext_count disk_count p slots w acc link)).
Notation step p w := (evals rd (ebr_step ext_first ext_count disk_count p w)).
Notation links p n memo w := (evals rd (ebr_links ext_first ext_count disk_count p n memo w)).

(** The entries up to one that is asked for are counted whoever asks; number
    -1 is never found. *)
Lemma entries_all p slots w acc link : 0 ≤ acc ≤ p →
  match entries (-1) slots w acc link with
  | inl _ => ∃ q, entries p slots w acc link = inl q
  | inr (acc', link') => acc ≤ acc' ∧
      if acc' <=? p then entries p slots w acc link = inr (acc', link') else ∃ q, entries p slots w acc link = inl q
  end.
Proof.
  revert acc link. induction slots as [|i slots IH]; intros acc link Ha; cbn [ebr_entries].
  { cbn. split; [lia|]. by rewrite (proj2 (Z.leb_le _ _)) by lia. }
  rewrite !evals_bind, evals_read. destruct (rd _ 16) as [entry|]; [|by eexists].
  destruct (is_extended (e_type entry)); [by apply IH|]. destruct (e_sect_count entry =? 0); [by apply IH|]. cbv zeta.
  destruct (_ && _); [by apply IH|]. rewrite (proj2 (Z.eqb_neq acc (-1))) by lia.
  destruct (Z.eqb_spec acc p) as [->|]; [|specialize (IH (acc + 1) link ltac:(lia)); destruct (entries (-1) slots w (acc + 1) link) as [q|[acc' link']];
    [done|destruct IH as [? IH]; split; [lia|done]]].
  (* found here: the count goes past it *)
  assert (∀ slots acc link, 0 ≤ acc → match entries (-1) slots w acc link with inl _ => True | inr (acc', _) => acc ≤ acc' end) as Hmono.
  { clear. induction slots as [|i slots IH]; intros acc link Ha; cbn [ebr_entries]; [by cbn|].
    rewrite evals_bind, evals_read. destruct (rd _ 16) as [entry|]; [|done].
    destruct (is_extended (e_type entry)); [by apply IH|]. destruct (e_sect_count entry =? 0); [by apply IH|]. cbv zeta.
    destruct (_ && _); [by apply IH|]. rewrite (proj2 (Z.eqb_neq acc (-1))) by lia.
    specialize (IH (acc + 1) link ltac:(lia)). destruct (entries (-1) slots w (acc + 1) link) as [|[? ?]]; [done|lia]. }
  specialize (Hmono slots (p + 1) link ltac:(lia)). destruct (entries (-1) slots w (p + 1) link) as [q|[acc' link']]; [by eexists|].
  split; [lia|]. rewrite (proj2 (Z.leb_gt _ _)) by lia. by eexists.
Qed.

(** The next EBR of the chain. *)
Definition next (w : walk) : option walk := match step (-1) w with inr w' => Some w' | inl _ => None end.

Lemma step_next p w : 0 ≤ w_index w ≤ p →
  match next w with
  | None => ∃ q, step p w = inl q
  | Some w' => w_index w ≤ w_index w' ∧ if w_index w' <=? p then step p w = inr w' else ∃ q, step p w = inl q
  end.
Proof.
  intros Hp. unfold next, ebr_step. rewrite !evals_bind, evals_read. destruct (rd _ 2) as [sig|]; [|by eexists].
  destruct (negb (_ =? _)); [by eexists|]. rewrite !evals_bind. pose proof (entries_all p [0; 1; 2; 3] w (w_index w) None Hp) as He.
  destruct (entries (-1) [0; 1; 2; 3] w (w_index w) None) as [q|[acc' link']].
  { destruct He as (q' & ->). by eexists. }
  destruct He as [Hle He]. destruct (Z.leb_spec acc' p) as [Hp'|Hp'].
  - rewrite He. destruct link' as [[sector size]|]; [|by eexists]. cbn [evals mret rdr_ret].
    destruct (_ || _); [by eexists|]. destruct (ext_count <=? sector); [by eexists|]. cbn [w_index].
    split; [done|]. by rewrite (proj2 (Z.leb_le _ _)).
  - destruct He as (q & ->). destruct link' as [[sector size]|]; [|by eexists]. cbn [evals mret rdr_ret].
    destruct (_ || _); [by eexists|]. destruct (ext_count <=? sector); [by eexists|]. cbn [w_index].
    split; [done|]. rewrite (proj2 (Z.leb_gt _ _)) by lia. by eexists.
Qed.

(** [n] EBRs on. *)
Fixpoint chain (n : nat) (w : walk) : option walk :=
  match n with O => Some w | S n => w' ← next w; chain n w' end.

Lemma chain_add n k w : chain (n + k) w = w' ← chain n w; chain k w'.
Proof. revert w. induction n as [|n IH]; intros w; [done|]. cbn [Nat.add chain]. destruct (next w); [apply IH|done]. Qed.

Lemma chain_none n k w : chain n w = None → (n ≤ k)%nat → chain k w = None.
Proof. intros Hn Hk. replace k with (n + (k - n))%nat by lia. by rewrite chain_add, Hn. Qed.

Lemma next_index w w' : 0 ≤ w_index w → next w = Some w' → w_index w ≤ w_index w'.
Proof. intros Hw Hn. pose proof (step_next (w_index w) w ltac:(lia)) as Hs. rewrite Hn in Hs. apply Hs. Qed.

Lemma chain_index n w w' : 0 ≤ w_index w → chain n w = Some w' → w_index w ≤ w_index w'.
Proof.
  revert w. induction n as [|n IH]; intros w Hw; cbn [chain]; [intros [= ->]; lia|].
  destruct (next w) as [w1|] eqn:Hn; cbn [mbind option_bind]; [|done]. intros Hc. pose proof (next_index _ _ Hw Hn).
  specialize (IH w1 ltac:(lia) Hc). lia.
Qed.

Lemma links_step p n memo w : 0 ≤ w_index w ≤ p →
  links p (S n) memo w = match step p w with inl q => (q, w) | inr w' => links p n w w' end.
Proof. intros _. cbn [ebr_links]. rewrite evals_bind. by destruct (step p w). Qed.

(** With enough links their number and what was remembered do not matter. *)
Lemma links_enough p n n' memo memo' w : 0 ≤ w_index w ≤ p → chain n w = None → chain n' w = None →
  links p n memo w = links p n' memo' w.
Proof.
  revert n' memo memo' w. induction n as [|n IH]; intros [|n'] memo memo' w Hp; try done. cbn [chain]. rewrite !links_step by done.
  pose proof (step_next p w Hp) as Hs. destruct (next w) as [w1|]; cbn [mbind option_bind]; [|by destruct Hs as (q & ->)].
  destruct Hs as [Hle Hs]. intros Hn Hn'. destruct (Z.leb_spec (w_index w1) p); [|by destruct Hs as (q & ->)].
  rewrite Hs. apply IH; [lia|done|done].
Qed.

(** Starting further on makes no difference to what is further on. *)
Lemma links_skip p j n memo memo' w0 w : chain j w0 = Some w → 0 ≤ w_index w0 → w_index w ≤ p → chain n w0 = None →
  links p n memo w0 = links p n memo' w.
Proof.
  revert n memo w0. induction j as [|j IH]; intros n memo w0; cbn [chain].
  { intros [= ->] H0 Hp Hn. by apply links_enough. }
  destruct (next w0) as [w1|] eqn:Hnext; cbn [mbind option_bind]; [|done]. intros Hj H0 Hp Hn.
  pose proof (next_index _ _ H0 Hnext) as H1. pose proof (chain_index j w1 w ltac:(lia) Hj) as H2.
  destruct n as [|n]; [done|]. cbn [chain] in Hn. rewrite Hnext in Hn. cbn [mbind option_bind] in Hn.
  rewrite links_step by lia. pose proof (step_next p w0 ltac:(lia)) as Hs. rewrite Hnext in Hs. destruct Hs as [_ Hs].
  rewrite (proj2 (Z.leb_le _ _)) in Hs by lia. rewrite Hs. rewrite (IH n w0 w1) by (done || lia).
  assert (chain n w = None) as Hw.
  { pose proof (chain_none n (j + n) w1 Hn ltac:(lia)) as Hc. by rewrite chain_add, Hj in Hc. }
  apply links_enough; [lia|done|]. apply (chain_none n); [done|lia].
Qed.

(** The head of the chain and its members. *)
Definition head_ebr : walk := Walk 0 0 ext_count.
Definition on_chain (w : walk) : Prop := ∃ j, chain j head_ebr = Some w.

Lemma links_on_chain p n memo w : 0 ≤ w_index w ≤ p → on_chain memo → on_chain w → on_chain (snd (links p n memo w)).
Proof.
  revert memo w. induction n as [|n IH]; intros memo w Hp Hm Hw; [done|]. rewrite links_step by done.
  pose proof (step_next p w Hp) as Hs. destruct (next w) as [w1|] eqn:Hnext; [|by destruct Hs as (q & ->)].
  destruct Hs as [Hle Hs]. destruct (Z.leb_spec (w_index w1) p); [|by destruct Hs as (q & ->)]. rewrite Hs.
  apply IH; [lia|done|]. destruct Hw as (j & Hj). exists (j + 1)%nat. rewrite chain_add, Hj. cbn. by rewrite Hnext.
Qed.

Lemma logical_ok p memo : 0 ≤ p → on_chain memo → chain MAX_LOGICAL_PARTITIONS head_ebr = None →
  ∃ memo', evals rd (mbr_get_logical_part ext_first ext_count disk_count p memo) =
    (fst (evals rd (mbr_get_logical_part ext_first ext_count disk_count p head_ebr)), memo') ∧ on_chain memo'.
Proof.
  intros Hp Hm Hend. unfold mbr_get_logical_part. destruct (_ <=? p); [by exists memo|]. cbv zeta.
  assert (on_chain head_ebr) as Hh by (by exists O). assert (w_index head_ebr <=? p = true) as Hhp by (apply Z.leb_le; cbn; lia).
  rewrite Hhp. fold head_ebr. destruct (Z.leb_spec (w_index memo) p).
  - destruct Hm as (j & Hj). pose proof (chain_index j head_ebr memo ltac:(cbn; lia) Hj) as H0. cbn in H0.
    exists (snd (links p MAX_LOGICAL_PARTITIONS memo memo)).
    rewrite (links_skip p j MAX_LOGICAL_PARTITIONS head_ebr memo head_ebr memo) by (done || (cbn; lia)).
    split; [by destruct (links p MAX_LOGICAL_PARTITIONS memo memo)|]. apply links_on_chain; [lia|by exists j|by exists j].
  - exists (snd (links p MAX_LOGICAL_PARTITIONS memo head_ebr)).
    rewrite (links_enough p MAX_LOGICAL_PARTITIONS MAX_LOGICAL_PARTITIONS head_ebr memo head_ebr) by (done || (cbn; lia)).
    split; [by destruct (links p MAX_LOGICAL_PARTITIONS memo head_ebr)|]. apply links_on_chain; [cbn; lia|done|done].
Qed.
End chain.

(** ** Partitions lie inside *)

Lemma field_nonneg b o n : is_bytes b → 0 ≤ field b o n.
Proof. intros Hb. unfold field. apply le_val_range. by apply Forall_take, Forall_drop. Qed.

(** A partition is not empty and ends inside a volume of [count] sectors. *)
Definition inside (count : Z) (q : probe) : Prop :=
  match q with Found p => 0 ≤ p_first p ∧ 0 < p_count p ∧ p_first p + p_count p ≤ count | _ => True end.

Lemma range_valid_inside count first n : count ≠ UNKNOWN_SIZE → 0 ≤ n → partition_range_valid count first n = true →
  0 < n ∧ first + n ≤ count.
Proof.
  intros Hc Hn. unfold partition_range_valid. destruct (Z.eqb_spec n 0); [done|]. destruct (add64 first n) as [e|] eqn:He; [|done].
  apply add64_Some in He as [-> _]. rewrite (proj2 (Z.eqb_neq _ _)) by done. cbn [negb andb]. intros ?%negb_true_iff. lia.
Qed.

Lemma gpt_entry_inside count lb partition entry : count ≠ UNKNOWN_SIZE → 0 ≤ lb → is_bytes entry →
  inside count (gpt_entry_part count lb partition entry).
Proof.
  intros Hc Hlb He. unfold gpt_entry_part. case_bool_decide; [done|]. pose proof (field_nonneg entry 32 8 He) as Hs.
  destruct (Z.ltb_spec (field entry 40 8) (field entry 32 8)); [done|]. cbv zeta.
  pose proof (Z.div_pos lb 512 Hlb ltac:(done)).
  destruct (mul64 (field entry 32 8) _) as [first|] eqn:Hf; [|done]. apply mul64_Some in Hf as [Hf _]. destruct (_ =? 2 ^ 64 - 1); [done|].
  destruct (mul64 (_ + 1) _) as [n|] eqn:Hn; [|done]. apply mul64_Some in Hn as [Hn _].
  destruct (partition_range_valid _ _ _) eqn:Hr; [|done]. cbn. apply range_valid_inside in Hr; [nia|done|nia].
Qed.

Lemma primary_inside count partition : count ≠ UNKNOWN_SIZE → yields (primary_part count partition) (inside count).
Proof.
  intros Hc. apply yields_read. intros [entry|] Hb; [|done]. specialize (Hb _ eq_refl). cbn.
  destruct (e_type entry =? 0); [done|]. destruct (e_sect_count entry =? 0); [done|].
  destruct (partition_range_valid _ _ _) eqn:Hr; cbn [negb]; [|done]. cbn.
  apply range_valid_inside in Hr; [|done|by apply field_nonneg]. pose proof (field_nonneg entry 8 4 Hb). unfold e_first_sect in *. lia.
Qed.

Lemma find_extended_inside count slots : count ≠ UNKNOWN_SIZE →
  yields (find_extended count slots) (λ r, match r with Some (f, n) => 0 ≤ f ∧ 0 < n ∧ f + n ≤ count | None => True end).
Proof.
  intros Hc. induction slots as [|i slots IH]; [done|]. apply yields_read. intros [entry|] Hb; [|done]. specialize (Hb _ eq_refl).
  destruct (negb _); [done|]. destruct (e_sect_count entry =? 0); [done|].
  destruct (partition_range_valid _ _ _) eqn:Hr; cbn [negb]; [|done]. cbn.
  apply range_valid_inside in Hr; [|done|by apply field_nonneg]. pose proof (field_nonneg entry 8 4 Hb). unfold e_first_sect in *. lia.
Qed.

Section logical_inside.
Context (ext_first ext_count disk_count p : Z) (Hdc : disk_count ≠ UNKNOWN_SIZE) (Hf : 0 ≤ ext_first).

Lemma contained_inside sector entry first : 0 ≤ sector → is_bytes entry →
  mbr_logical_entry_contained ext_first ext_count disk_count sector entry = Some first →
  0 ≤ first ∧ 0 < e_sect_count entry ∧ first + e_sect_count entry ≤ disk_count.
Proof.
  intros Hs Hb. unfold mbr_logical_entry_contained. destruct (add64 sector _) as [rel|] eqn:Hrel; [|done].
  apply add64_Some in Hrel as [-> _]. destruct (negb _); [done|]. destruct (add64 ext_first _) as [f|] eqn:Hadd; [|done].
  apply add64_Some in Hadd as [-> _]. destruct (partition_range_valid disk_count _ _) eqn:Hr; [|done]. intros [= <-].
  pose proof (field_nonneg entry 8 4 Hb). pose proof (field_nonneg entry 12 4 Hb).
  apply range_valid_inside in Hr; [unfold e_first_sect in *; lia|done|done].
Qed.

(** An answer is inside, a link is not before the disk. *)
Definition entries_inside (r : probe + Z * option (Z * Z)) : Prop :=
  match r with inl q => inside disk_count q | inr (_, Some (s, _)) => 0 ≤ s | inr (_, None) => True end.

Lemma entries_inside_ok slots w acc link : 0 ≤ w_sector w → (∀ s n, link = Some (s, n) → 0 ≤ s) →
  yields (ebr_entries ext_first ext_count disk_count p slots w acc link) entries_inside.
Proof.
  intros Hw. revert acc link. induction slots as [|i slots IH]; intros acc link Hl.
  { cbn. destruct link as [[s n]|]; [by eapply Hl|done]. }
  apply yields_read. intros [entry|] Hb; [|done]. specialize (Hb _ eq_refl). destruct (is_extended _).
  { apply IH. intros s n. destruct link as [[s' n']|]; [intros [= <- <-]; by eapply Hl|]. destruct (negb _); [|done].
    intros [= <- <-]. by apply field_nonneg. }
  destruct (e_sect_count entry =? 0); [by apply IH|]. cbv zeta. destruct (_ && _); [by apply IH|].
  destruct (acc =? p); [|by apply IH]. cbn.
  destruct (mbr_logical_entry_contained _ _ _ _ _) as [first|] eqn:Hc; [|done]. cbn. by eapply contained_inside.
Qed.

Lemma links_inside n memo w : 0 ≤ w_sector w →
  yields (ebr_links ext_first ext_count disk_count p n memo w) (λ r, inside disk_count (fst r)).
Proof.
  revert memo w. induction n as [|n IH]; intros memo w Hw; [done|]. cbn [ebr_links].
  apply (yields_bind _ _ (λ r, match r with inl q => inside disk_count q | inr w' => 0 ≤ w_sector w' end)).
  - apply yields_read. intros [sig|] _; [|done]. destruct (negb _); [done|].
    apply (yields_bind _ _ entries_inside); [by apply entries_inside_ok|]. intros [q|[acc [[s m]|]]] Hr; cbn in Hr |- *; [done| |done].
    destruct (_ || _); [done|]. by destruct (ext_count <=? s).
  - intros [q|w'] Hr; [done|]. by apply IH.
Qed.

Lemma logical_inside : yields (mbr_get_logical_part ext_first ext_count disk_count p (Walk 0 0 ext_count)) (λ r, inside disk_count (fst r)).
Proof.
  unfold mbr_get_logical_part. destruct (_ <=? p); [done|]. cbv zeta. apply links_inside. by destruct (_ <=? p).
Qed.
End logical_inside.

Lemma search_size count : yields (gpt_search count) (λ r, match r with Some l => 0 ≤ l_size l | None => True end).
Proof.
  apply (yields_bind _ _ (λ _, True)); [apply yields_true|]. intros protective _.
  assert (∀ guesses budget, Forall (λ g, 0 ≤ g) guesses →
    yields (try_guesses count protective budget guesses) (λ r, match r with Some l => 0 ≤ l_size l | None => True end)) as Hg;
    [|apply Hg; repeat constructor; lia].
  assert (∀ guess candidates budget, 0 ≤ guess →
    yields (try_candidates count guess budget candidates) (λ '(r, _), match r with Some l => 0 ≤ l_size l | None => True end)) as Hcand.
  { intros guess candidates. induction candidates as [|lba candidates IH]; intros budget Hge; [done|]. cbn [try_candidates].
    destruct (mul64 lba guess); [|by apply IH]. apply yields_read. intros [h|] _; [|by apply IH].
    apply (yields_bind _ _ (λ _, True)); [apply yields_true|]. intros [[|] b] _; [exact Hge|by apply IH]. }
  intros guesses. induction guesses as [|guess guesses IH]; intros budget HF; [done|]. apply Forall_cons in HF as [Hge HF]. cbn [try_guesses].
  apply yields_read. intros r _.
  apply (yields_bind _ _ (λ '(found, _, _), match found with Some l => 0 ≤ l_size l | None => True end)).
  - destruct r as [h|]; [|done]. apply (yields_bind _ _ (λ _, True)); [apply yields_true|]. intros [[|] b] _; [exact Hge|done].
  - intros [[[l|] candidates] b] Hl; [done|]. cbv zeta. destruct (negb protective); [by apply IH|].
    eapply yields_bind; [by apply Hcand|]. intros [[l|] b'] Hl'; [done|by apply IH].
Qed.

Lemma gpt_inside va count partition : count ≠ UNKNOWN_SIZE →
  yields (gpt_get_part (Memo None None) va count partition) (λ r, inside count (fst r)).
Proof.
  intros Hc. apply (yields_bind _ _ (λ r, match fst r with Some l => 0 ≤ l_size l | None => True end)).
  - apply (yields_bind _ _ (λ r, r = None)); [done|]. intros _ ->. apply (yields_bind _ _ (λ r, r = false)); [done|]. intros _ ->.
    eapply yields_bind; [apply search_size|]. intros [l|] Hl; [done|]. by apply yields_read.
  - intros [[l|] m] Hl; [|done]. cbn in Hl. cbv zeta. destruct (_ <=? _); [done|]. destruct (_ <? GPT_ENTRY_SIZE); [done|].
    destruct (_ ← _; _); [|done]. apply yields_read. intros [entry|] Hb; [|done]. cbn. apply gpt_entry_inside; [done|done|by apply Hb].
Qed.

(** ** Probes *)

Section device.
Context (int13 : Z → Z → Z → option (list Z)) (disk : Z → Z → Z) (Hdisk : ∀ d p, is_word 8 (disk d p)).
Context (v0 : volume) (Hv0 : known int13 disk v0) (va : Z).
Notation reads := (reads int13 disk).
Notation count := (sect_count v0).
Notation slots := [0; 1; 2; 3].
Notation extended := (evals (reads v0) (find_extended count slots)).
Notation logical f n p memo := (evals (reads (sub_volume v0 f n)) (mbr_get_logical_part f n count p memo)).

(** The chain of logical partitions ends within as many links as are followed. *)
Definition short_chain : Prop := ∀ f n, extended = Some (f, n) →
  chain (reads (sub_volume v0 f n)) f n count MAX_LOGICAL_PARTITIONS (head_ebr n) = None.

(** The answer to a probe: what the tables say. *)
Definition answer (partition : Z) : probe :=
  if partition <? 0 then NO_PARTITION else
  match fst (evals (reads v0) (gpt_get_part (Memo None None) va count partition)) with
  | INVALID_TABLE =>
      if negb (evals (reads v0) is_valid_mbr) then INVALID_TABLE else
      if 3 <? partition then
        match extended with
        | None => END_OF_TABLE
        | Some (f, n) => fst (logical f n (partition - 4) (head_ebr n))
        end
      else evals (reads v0) (primary_part count partition)
  | q => q
  end.

Lemma extended_inside f n : extended = Some (f, n) → 0 ≤ f ∧ 0 < n ∧ f + n ≤ count.
Proof.
  intros He. pose proof (yields_evals (reads v0) _ _ (reads_bytes int13 disk Hdisk v0) (find_extended_inside count slots (kn_size _ _ _ Hv0))) as Hy.
  by rewrite He in Hy.
Qed.

Lemma count_word : count < UNKNOWN_SIZE.
Proof. destruct Hv0 as [[] _ ?]. unfold UNKNOWN_SIZE in *. lia. Qed.

Lemma sub_volume_known f n : 0 ≤ f → 0 < n → f + n ≤ count → known int13 disk (sub_volume v0 f n).
Proof.
  intros Hf Hn Hfn. pose proof count_word as Hc. unfold UNKNOWN_SIZE in Hc. destruct Hv0 as [[] _ ?]. split.
  - split; try done; cbn; [lia|right; lia].
  - by split.
  - unfold UNKNOWN_SIZE. cbn. lia.
Qed.

Lemma answer_inside partition : inside count (answer partition).
Proof.
  pose proof (kn_size _ _ _ Hv0) as Hc. unfold answer. destruct (partition <? 0); [done|].
  pose proof (yields_evals (reads v0) _ _ (reads_bytes int13 disk Hdisk v0) (gpt_inside va count partition Hc)) as Hg. cbv beta in Hg.
  destruct (fst (evals _ (gpt_get_part _ _ _ _))); [done| |done|done]. destruct (negb _); [done|]. destruct (3 <? partition).
  - destruct extended as [[f n]|] eqn:He; [|done]. destruct (extended_inside f n He) as (Hf & Hn & Hfn).
    exact (yields_evals _ _ _ (reads_bytes int13 disk Hdisk _) (logical_inside f n count (partition - 4) Hc Hf)).
  - exact (yields_evals _ _ _ (reads_bytes int13 disk Hdisk v0) (primary_inside count partition Hc)).
Qed.

(** What holds of a drive and the memory between probes. *)
Record device_ok (m : gpt_memo) (d : device) : Prop := {
  do_address : d_address d = va;
  do_volume : same_volume v0 (d_volume d) ∧ known int13 disk (d_volume d);
  do_memo : memo_ok (reads v0) va count m;
  do_ext : match d_ebr_part d with
    | None => True
    | Some (ext, w) => ∃ f n, extended = Some (f, n) ∧ same_volume (sub_volume v0 f n) ext ∧ known int13 disk ext ∧
        on_chain (reads (sub_volume v0 f n)) f n count w
    end;
}.

Lemma run_same {A} v (p : rdr A) : same_volume v0 v → known int13 disk v →
  ∃ w, run int13 v p = Ret (evals (reads v0) p, w) ∧ same_volume v0 w ∧ known int13 disk w.
Proof.
  intros Hs Hk. destruct (run_ok int13 disk v p Hk) as (w & Hw & Hs' & Hk'). exists w. rewrite (reads_same int13 disk v0 v Hs) in Hw.
  split; [done|]. split; [by eapply same_volume_trans|done].
Qed.

Lemma logical_part_ok m d v ext w partition f n : short_chain → 3 < partition → d_address d = va → memo_ok (reads v0) va count m →
  same_volume v0 v → known int13 disk v →
  extended = Some (f, n) → same_volume (sub_volume v0 f n) ext → known int13 disk ext →
  on_chain (reads (sub_volume v0 f n)) f n count w →
  ∃ d', logical_part int13 d v ext w partition = Ret (fst (logical f n (partition - 4) (head_ebr n)), d') ∧ device_ok m d'.
Proof.
  intros Hshort Hp Hva Hm Hs Hk He Hse Hke Hw. unfold logical_part.
  destruct (run_ok int13 disk ext (mbr_get_logical_part (first_sect ext) (sect_count ext) (sect_count v) (partition - 4) w) Hke) as (ext' & Hr & Hs' & Hk').
  rewrite Hr. clear Hr. rewrite (reads_same int13 disk _ _ Hse).
  assert (first_sect ext = f ∧ sect_count ext = n ∧ sect_count v = count) as (-> & -> & ->).
  { destruct Hse as (c & b & ->), Hs as (c' & b' & ->). done. }
  destruct (logical_ok (reads (sub_volume v0 f n)) f n count (partition - 4) w ltac:(lia) Hw (Hshort f n He)) as (w' & -> & Hw').
  cbn [mbind out_bind]. eexists. split; [done|]. split; [done|done|done|]. cbn. exists f, n. split; [done|].
  split; [by eapply same_volume_trans|done].
Qed.

Lemma mbr_get_part_ok m d partition : short_chain → 0 ≤ partition → device_ok m d →
  ∃ d', mbr_get_part int13 d partition =
    Ret (if negb (evals (reads v0) is_valid_mbr) then INVALID_TABLE else
         if 3 <? partition then
           match extended with None => END_OF_TABLE | Some (f, n) => fst (logical f n (partition - 4) (head_ebr n)) end
         else evals (reads v0) (primary_part count partition), d') ∧ device_ok m d'.
Proof.
  intros Hshort Hp [Hva [Hs Hk] Hm Hext]. unfold mbr_get_part.
  destruct (run_same (d_volume d) is_valid_mbr Hs Hk) as (v & -> & Hs1 & Hk1). cbn [mbind out_bind].
  destruct (negb _); [by eexists; split; [done|]; split|].
  assert (sect_count v = count) as Hcount by (by destruct Hs1 as (c & b & ->)).
  destruct (Z.ltb_spec 3 partition).
  - destruct (d_ebr_part d) as [[ext w]|].
    + destruct Hext as (f & n & He & Hse & Hke & Hw). rewrite He. by apply logical_part_ok.
    + rewrite Hcount. destruct (run_same v (find_extended count slots) Hs1 Hk1) as (v2 & -> & Hs2 & Hk2). cbn [mbind out_bind].
      destruct extended as [[f n]|] eqn:He; [|by eexists; split; [done|]; split].
      destruct (extended_inside f n He) as (Hf & Hn & Hfn).
      assert (sub_volume v2 f n = sub_volume v0 f n) as -> by (by destruct Hs2 as (c & b & ->)).
      apply logical_part_ok; [done..|apply same_volume_refl|by apply sub_volume_known|by exists O].
  - rewrite Hcount. destruct (run_same v (primary_part count partition) Hs1 Hk1) as (v2 & -> & Hs2 & Hk2). cbn [mbind out_bind].
    by eexists; split; [done|]; split.
Qed.

Lemma part_get_ok m d partition : short_chain → device_ok m d →
  ∃ m' d', part_get int13 m d partition = Ret (answer partition, m', d') ∧ device_ok m' d'.
Proof.
  intros Hshort Hd. unfold part_get, answer. destruct (Z.ltb_spec partition 0); [by exists m, d|].
  destruct Hd as [Hva [Hs Hk] Hm Hext] eqn:Heq. clear Heq.
  assert (sect_count (d_volume d) = count) as -> by (by destruct Hs as (c & b & ->)). rewrite Hva.
  destruct (run_same (d_volume d) (gpt_get_part m va count partition) Hs Hk) as (v & -> & Hs1 & Hk1).
  destruct (gpt_get_part_ok (reads v0) va count m (Memo None None) partition Hm ltac:(by split)) as (m' & -> & Hm').
  cbn [mbind out_bind]. assert (device_ok m' (Dev va v (d_ebr_part d))) as Hd' by (by split).
  destruct (fst (evals _ (gpt_get_part _ _ _ _))); [by eexists _, _| |by eexists _, _|by eexists _, _].
  destruct (mbr_get_part_ok m' _ partition Hshort ltac:(lia) Hd') as (d' & -> & Hd''). by exists m', d'.
Qed.

(** One probe after the other. *)
Fixpoint probe_all (m : gpt_memo) (d : device) (ps : list Z) : out (list probe) :=
  match ps with
  | [] => Ret []
  | p :: ps => '(r, m, d) ← part_get int13 m d p; rs ← probe_all m d ps; Ret (r :: rs)
  end.

Lemma probe_all_ok m d ps : short_chain → device_ok m d → probe_all m d ps = Ret (map answer ps).
Proof.
  intros Hshort. revert m d. induction ps as [|p ps IH]; intros m d Hd; [done|]. cbn [probe_all].
  destruct (part_get_ok m d p Hshort Hd) as (m' & d' & -> & Hd'). cbn [mbind out_bind]. by rewrite (IH m' d' Hd').
Qed.

(** From number 260 on there is nothing. *)
Lemma answer_end partition : 260 ≤ partition < 2 ^ 31 → answer partition = END_OF_TABLE ∨ answer partition = INVALID_TABLE.
Proof.
  intros Hp. unfold answer. rewrite (proj2 (Z.ltb_ge _ _)) by lia.
  unfold gpt_get_part. rewrite evals_bind.
  destruct (locate_ok (reads v0) va count (Memo None None) ltac:(by split)) as (m' & -> & _).
  destruct (evals (reads v0) (gpt_search count)) as [l|].
  - cbv zeta. rewrite (u32_id partition) by lia. rewrite (proj2 (Z.leb_le _ partition)); [by left|].
    unfold MAX_GPT_PARTITIONS. destruct (Z.ltb_spec 256 (number_of_partition_entries (l_header l))); lia.
  - cbn [evals mret rdr_ret fst]. destruct (negb _); [by right|]. rewrite (proj2 (Z.ltb_lt 3 partition)) by lia.
    destruct extended as [[f n]|]; [|by left]. left. unfold mbr_get_logical_part.
    by rewrite (proj2 (Z.leb_le (Z.of_nat MAX_LOGICAL_PARTITIONS) _)) by (unfold MAX_LOGICAL_PARTITIONS; lia).
Qed.

Definition found (q : probe) : option part := match q with Found p => Some p | _ => None end.
Definition last_probe (q : probe) : bool := match q with END_OF_TABLE | INVALID_TABLE => true | _ => false end.

(** The answers up to the first that ends the table. *)
Fixpoint until_last (qs : list probe) : list probe :=
  match qs with [] => [] | q :: qs => if last_probe q then [] else q :: until_last qs end.

Lemma index_parts_ok fuel m d i : short_chain → device_ok m d → 0 ≤ i ≤ 260 → 260 - i < Z.of_nat fuel →
  ∃ m' d', index_parts int13 fuel m d i = Ret (omap found (until_last (map answer (seqZ i (260 - i)))), m', d').
Proof.
  intros Hshort. revert m d i. induction fuel as [|fuel IH]; intros m d i Hd Hi Hf; [lia|]. cbn [index_parts].
  destruct (part_get_ok m d i Hshort Hd) as (m' & d' & -> & Hd'). cbn [mbind out_bind].
  destruct (decide (i = 260)) as [->|].
  { change (seqZ 260 (260 - 260)) with (@nil Z). cbn [map until_last omap list_omap].
    destruct (answer_end 260 ltac:(lia)) as [-> | ->]; by eexists _, _. }
  rewrite seqZ_cons by lia. cbn [map until_last]. replace (Z.pred (260 - i)) with (260 - (i + 1)) by lia.
  change (Z.succ i) with (i + 1). destruct (answer i) as [| | |p] eqn:Ha; cbn [last_probe].
  - destruct (IH m' d' (i + 1) Hd' ltac:(lia) ltac:(lia)) as (m2 & d2 & ->). by eexists _, _.
  - by eexists _, _.
  - by eexists _, _.
  - destruct (IH m' d' (i + 1) Hd' ltac:(lia) ltac:(lia)) as (m2 & d2 & ->). by eexists _, _.
Qed.

(** Nothing remembered of the drive. *)
Definition foreign (m : gpt_memo) : Prop := (∀ l, m_hit m ≠ Some (va, l)) ∧ (∀ b, m_none m ≠ Some (va, b)).

Lemma fresh_device_ok m : foreign m → device_ok m (Dev va v0 None).
Proof.
  intros [Hh Hn]. split; [done|split; [apply same_volume_refl|done]| |done]. split; [by intros l ?%Hh|by intros b ?%Hn].
Qed.
End device.

(** C10: On a drive of known size whose chain of logical partitions ends within
    256 links, any sequence of probes, in any order and repeated, gives each
    probe the answer it would get first of all with nothing remembered: the
    header that is kept, the absence that is kept, the walk along the chain and
    the cached blocks never show.  Every partition found lies inside the drive
    and is not empty.  Indexing the drive ends and finds the partitions in
    front of the end of the table. *)
Theorem part_get_correct int13 disk v va m :
  (∀ d p, is_word 8 (disk d p)) → known int13 disk v → short_chain int13 disk v → foreign va m →
  (∀ p, ∃ m' d', part_get int13 (Memo None None) (Dev va v None) p = Ret (answer int13 disk v va p, m', d')) ∧
  (∀ ps, probe_all int13 m (Dev va v None) ps = Ret (map (answer int13 disk v va) ps)) ∧
  (∀ p, inside (sect_count v) (answer int13 disk v va p)) ∧
  ∃ m' d', index_parts int13 261 m (Dev va v None) 0 =
    Ret (omap found (until_last (map (answer int13 disk v va) (seqZ 0 260))), m', d').
Proof.
  intros Hd Hv Hshort Hm. split; [|split; [|split]].
  - intros p. destruct (part_get_ok int13 disk Hd v Hv va (Memo None None) (Dev va v None) p Hshort) as (m' & d' & Hp & _); [|by exists m', d'].
    by apply fresh_device_ok.
  - intros ps. by apply probe_all_ok, fresh_device_ok.
  - intros p. by apply answer_inside.
  - apply (index_parts_ok int13 disk Hd v Hv va 261 m (Dev va v None) 0 Hshort); [by apply fresh_device_ok|lia|lia].
Qed.

(** A drive of 64 sectors with a primary partition and two logical ones. *)
Definition mbr_bytes (p : Z) : Z :=
  match p with
  | 450 => 0x83 | 454 => 1 | 458 => 3 | 466 => 5 | 470 => 8 | 474 => 32 | 510 => 0x55 | 511 => 0xaa
  | 4546 => 0x83 | 4550 => 1 | 4554 => 4 | 4562 => 5 | 4566 => 10 | 4570 => 8 | 4606 => 0x55 | 4607 => 0xaa
  | 9666 => 0x83 | 9670 => 1 | 9674 => 5 | 9726 => 0x55 | 9727 => 0xaa
  | _ => 0
  end.
Definition mbr_disk (d p : Z) : Z := u8 (mbr_bytes p).
Definition mbr_volume : volume := Vol 0x80 1 false 512 None None 0 64.
Notation mbr_int13 := (drive_int13 mbr_disk 64).

Example mbr_probes : probe_all mbr_int13 (Memo None None) (Dev 1 mbr_volume None) [0; 1; 2; 5; 4; 6] =
  Ret [Found (Part 1 1 3 None None); Found (Part 2 8 32 None None); NO_PARTITION; Found (Part 6 19 5 None None);
       Found (Part 5 9 4 None None); END_OF_TABLE].
Proof. vm_compute. reflexivity. Qed.

Example mbr_index : ∃ m d, index_parts mbr_int13 261 (Memo None None) (Dev 1 mbr_volume None) 0 =
  Ret ([Part 1 1 3 None None; Part 2 8 32 None None; Part 5 9 4 None None; Part 6 19 5 None None], m, d).
Proof. eexists _, _. vm_compute. reflexivity. Qed.

Lemma mbr_known : known mbr_int13 mbr_disk mbr_volume.
Proof. split; [split; try done; [by right|apply drive_firmware]|by split|done]. Qed.

Lemma mbr_short : short_chain mbr_int13 mbr_disk mbr_volume.
Proof. intros f n He. vm_compute in He. injection He as <- <-. vm_compute. reflexivity. Qed.

Lemma part_get_correct_witness :
  probe_all mbr_int13 (Memo None None) (Dev 1 mbr_volume None) [5; 4; 5] =
    Ret (map (answer mbr_int13 mbr_disk mbr_volume 1) [5; 4; 5]) ∧
  ∃ m' d', index_parts mbr_int13 261 (Memo None None) (Dev 1 mbr_volume None) 0 =
    Ret (omap found (until_last (map (answer mbr_int13 mbr_disk mbr_volume 1) (seqZ 0 260))), m', d').
Proof.
  assert (∀ d p, is_word 8 (mbr_disk d p)) as Hd by (intros d p; apply wrap_word; discriminate).
  assert (foreign 1 (Memo None None)) as Hm by (split; discriminate).
  destruct (part_get_correct mbr_int13 mbr_disk mbr_volume 1 (Memo None None) Hd mbr_known mbr_short Hm) as (_ & Hp & _ & Hi).
  split; [apply Hp|exact Hi].
Defined.
