(* ===== verification/Reader.v ===== *)
(** What a file system is promised by the medium below it: reads that agree
    with each other, [coherent].  A volume keeps the promise. *)
From S2P Require Import Prelude Libc Outcome Volume VolumeProofs Part PartProofs.
From stdpp Require Import strings.
Open Scope list_scope.
Open Scope Z_scope.

(** A read that succeeds gives bytes, as many as asked for, and so does a read
    of a part of it. *)
Class coherent (rd : Z → Z → option (list Z)) : Prop := {
  coherent_bytes p n bs : rd p n = Some bs → is_bytes bs;
  coherent_len p n bs : 0 ≤ n < 2 ^ 64 → rd p n = Some bs → len bs = n;
  coherent_part p n bs i m :
    0 ≤ p → p + n ≤ 2 ^ 64 → 0 < m → 0 ≤ i → i + m ≤ n → n < 2 ^ 64 → rd p n = Some bs → rd (p + i) m = slice bs i m;
}.

Lemma slice_all {A} (l : list A) : slice l 0 (len l) = Some l.
Proof.
  rewrite slice_lt; [|lia|apply len_nonneg|lia]. f_equal. change (Z.to_nat 0) with 0%nat. rewrite drop_0. apply take_ge. unfold len. lia.
Qed.

Lemma slice_app {A} (l : list A) i n m : 0 ≤ n → 0 ≤ m → 0 ≤ i → i + n + m ≤ len l →
  ∃ a b, slice l i n = Some a ∧ slice l (i + n) m = Some b ∧ slice l i (n + m) = Some (a ++ b).
Proof.
  intros Hn Hm Hi Hl. rewrite !slice_lt by lia. do 2 eexists. do 2 (split; [done|]). f_equal.
  rewrite (Z2Nat.inj_add n m), (Z2Nat.inj_add i n) by lia. rewrite <- drop_drop. symmetry. apply take_take_drop.
Qed.

(** A slice of one of two lists put together. *)
Lemma slice_app_l {A} (l k : list A) i n : i + n ≤ len l → 0 ≤ n → 0 ≤ i → slice (l ++ k) i n = slice l i n.
Proof.
  intros Hl Hn Hi. pose proof (len_nonneg k). rewrite !slice_lt; rewrite ?len_app; try lia. f_equal. unfold len in *. rewrite drop_app_le by lia. rewrite take_app_le; [done|].
  rewrite length_drop. lia.
Qed.

Lemma slice_app_r {A} (l k : list A) i n : len l ≤ i → 0 ≤ n → slice (l ++ k) i n = slice k (i - len l) n.
Proof.
  intros Hl Hn. unfold slice. rewrite len_app. pose proof (len_nonneg l). repeat case_decide; try lia; [|done]. f_equal. f_equal.
  unfold len in *. rewrite drop_app_ge by lia. f_equal. lia.
Qed.

Lemma slice_nil {A} (l : list A) i : 0 ≤ i ≤ len l → slice l i 0 = Some [].
Proof. intros Hi. by rewrite slice_lt by lia. Qed.

Section volume.
Context (int13 : Z → Z → Z → option (list Z)) (disk : Z → Z → Z) (Hdisk : ∀ d p, is_word 8 (disk d p)).

Lemma loadable_part v p n i m : 0 < block_size v → 0 ≤ p → 0 < m → 0 ≤ i → i + m ≤ n →
  loadable int13 disk v p n = true → loadable int13 disk v (p + i) m = true.
Proof.
  intros HB Hp Hm Hi Hn. unfold loadable. rewrite !(proj2 (Z.ltb_lt _ _)) by lia. rewrite !forallb_forall. intros Hall b Hb.
  apply Hall, list_elem_of_In, elem_of_seqZ. apply list_elem_of_In, elem_of_seqZ in Hb.
  assert (p / block_size v ≤ (p + i) / block_size v) by (apply Z.div_le_mono; lia).
  assert ((p + i + m - 1) / block_size v ≤ (p + n - 1) / block_size v) by (apply Z.div_le_mono; lia). lia.
Qed.

#[export] Instance reads_coherent v : volume_ok int13 disk v → sect_count v ≠ UNKNOWN_SIZE → coherent (reads int13 disk v).
Proof.
  intros Hv Hs. split.
  - intros p n bs. by apply reads_bytes.
  - intros p n bs Hn. unfold reads, volume_bytes. destruct (_ && _); [|done]. intros [= <-]. rewrite len_bytes_at; rewrite (u64_id n); lia.
  - intros p n bs i m Hp Hpn Hm Hi Hin Hn. unfold reads, volume_bytes. rewrite !u64_id by lia.
    destruct (in_range v p n) eqn:Hr; [|done]. cbn [andb]. destruct (loadable int13 disk v p n) eqn:Hl; [|done]. intros [= <-].
    rewrite (loadable_part v p n) by (done || lia || by eapply (block_pos int13 disk)). rewrite andb_true_r.
    assert (in_range v (p + i) m = true) as ->.
    { unfold in_range in *. rewrite (proj2 (Z.eqb_neq _ _) Hs) in *. cbn [orb] in *. lia. }
    rewrite <- (app_nil_r (bytes_at disk _ _ n)), (bytes_at_slice disk) by lia. do 2 f_equal. lia.
Qed.
End volume.
