(* ===== verification/Fat.v ===== *)
(** The FAT file system, [limine/common/fs/fat32.s2.c]: the boot record, the
    table, the chain of clusters of a file, directories with long names, paths.

    The functions read one volume, so they are programs of type [rdr]; their
    answer is none where the code returns an error.  Memory that is allocated
    is there and is not modelled; a name or a path is its characters without
    the zero. *)
From S2P Require Import Prelude Libc Outcome Config Volume Part.
From stdpp Require Import strings.
Open Scope list_scope.
Open Scope Z_scope.

Definition FAT32_LFN_MAX_ENTRIES : Z := 20.
Definition FAT32_LFN_MAX_FILENAME_LENGTH : Z := FAT32_LFN_MAX_ENTRIES * 13 + 1.
Definition FAT32_ATTRIBUTE_SUBDIRECTORY : Z := 0x10.
Definition FAT32_LFN_ATTRIBUTE : Z := 0x0F.
Definition FAT32_ATTRIBUTE_VOLLABEL : Z := 0x08.

Inductive fat_type := FAT12 | FAT16 | FAT32.
#[export] Instance fat_type_dec : EqDecision fat_type.
Proof. solve_decision. Defined.

(** [part_sectors] is the [sect_count] of the volume. *)
Record fat32_context := Fat {
  part_sectors : Z;
  type : fat_type;
  bytes_per_sector : Z;
  sectors_per_cluster : Z;
  reserved_sectors : Z;
  number_of_fats : Z;
  hidden_sectors : Z;
  sectors_per_fat : Z;
  fat_start_lba : Z;
  data_start_lba : Z;
  root_directory_cluster : Z;
  root_entries : Z;
  root_start : Z;
  root_size : Z;
}.

(** ** The boot record *)
Definition bpb_signature (bpb : list Z) : bool :=
  bool_decide (take 3 (drop 0x36 bpb) = lit "FAT") || bool_decide (take 3 (drop 0x52 bpb) = lit "FAT")
  || bool_decide (take 5 (drop 0x03 bpb) = lit "FAT32").

(** What the sizes in the boot record make of the file system. *)
Definition read_bpb (part_sectors : Z) (bpb : list Z) : option fat32_context :=
  let bytes := field bpb 11 2 in
  let cluster := field bpb 13 1 in
  let reserved := field bpb 14 2 in
  let fats := field bpb 16 1 in
  let entries := field bpb 17 2 in
  if negb (bpb_signature bpb) then None else
  if negb (bool_decide (cluster ∈ [1; 2; 4; 8; 16; 32; 64; 128])) then None else
  if negb (bool_decide (bytes ∈ [512; 1024; 2048; 4096])) then None else
  if (fats =? 0) || (4 <? fats) then None else
  if reserved =? 0 then None else
  let root_dir_sects := (entries * 32 + (bytes - 1)) / bytes in
  let total_sects := if field bpb 19 2 =? 0 then field bpb 32 4 else field bpb 19 2 in
  let spf := if field bpb 22 2 =? 0 then field bpb 36 4 else field bpb 22 2 in
  let metadata_sects := reserved + fats * spf + root_dir_sects in
  if total_sects <=? metadata_sects then None else
  let clusters_count := (total_sects - metadata_sects) / cluster in
  let type := if clusters_count <? 4085 then FAT12 else if clusters_count <? 65525 then FAT16 else FAT32 in
  let spf := if decide (type = FAT32) then field bpb 36 4 else field bpb 22 2 in
  if spf =? 0 then None else
  if bool_decide (type ≠ FAT32) && (entries =? 0) then None else
  let root_start := reserved + fats * spf in
  if 2 ^ 32 - 1 <? root_start then None else
  root_size ← div_roundup (entries * 32) bytes;
  let data_start := if decide (type = FAT32) then root_start else root_start + root_size in
  if 2 ^ 32 - 1 <? data_start then None else
  Some (Fat part_sectors type bytes cluster reserved fats (field bpb 28 4) spf reserved data_start (field bpb 44 4) entries
    root_start root_size).

Definition fat32_init_context (part_sectors : Z) : rdr (option fat32_context) :=
  r ← vread 0 512;
  mret (bpb ← r; read_bpb part_sectors bpb).

(** ** The table *)
Definition fat_size (c : fat32_context) : Z := sectors_per_fat c * bytes_per_sector c.

Definition read_cluster_from_map (c : fat32_context) (cluster : Z) : rdr (option Z) :=
  let fat_base := fat_start_lba c * bytes_per_sector c in
  match type c with
  | FAT12 =>
      let offset := cluster + cluster / 2 in
      if fat_size c <? offset + 2 then mret None else
      r ← vread (fat_base + offset) 2;
      mret (tmp ← r; Some (if cluster mod 2 =? 0 then Z.land (field tmp 0 2) 0xfff else Z.shiftr (field tmp 0 2) 4))
  | FAT16 =>
      let offset := cluster * 2 in
      if fat_size c <? offset + 2 then mret None else
      r ← vread (fat_base + offset) 2;
      mret (tmp ← r; Some (field tmp 0 2))
  | FAT32 =>
      let offset := cluster * 4 in
      if fat_size c <? offset + 4 then mret None else
      r ← vread (fat_base + offset) 4;
      mret (tmp ← r; Some (Z.land (field tmp 0 4) 0x0fffffff))
  end.

Definition FAT32_MAX_CHAIN_LENGTH : Z := 64 * 1024 * 1024 / 4.

Definition cluster_limit (c : fat32_context) : Z :=
  match type c with FAT12 => 0xfef | FAT16 => 0xffef | FAT32 => 0xfffffef end.

Definition fat_entries (c : fat32_context) : Z :=
  match type c with FAT12 => fat_size c * 2 / 3 | FAT16 => fat_size c / 2 | FAT32 => fat_size c / 4 end.

Definition max_clusters (c : fat32_context) : Z :=
  let n := cluster_limit c - 1 in
  let n := if FAT32_MAX_CHAIN_LENGTH <? n then FAT32_MAX_CHAIN_LENGTH else n in
  if fat_entries c <? n then fat_entries c else n.

(** The last cluster the medium has room for. *)
Definition readable_cluster_limit (c : fat32_context) : option Z :=
  if negb (part_sectors c =? UNKNOWN_SIZE) then
    bytes ← mul64 (part_sectors c) 512;
    let volume_sectors := bytes / bytes_per_sector c in
    let data_clusters :=
      if data_start_lba c <? volume_sectors then (volume_sectors - data_start_lba c) / sectors_per_cluster c else 0 in
    Some (if data_clusters + 1 <? cluster_limit c then data_clusters + 1 else cluster_limit c)
  else Some (cluster_limit c).

(** How long the chain is; [n] more clusters are allowed. *)
Fixpoint measure_chain (n : nat) (c : fat32_context) (readable cluster chain_length : Z) : rdr (option Z) :=
  match n with
  | O => mret None
  | S n =>
      if readable <? cluster then mret None else
      r ← read_cluster_from_map c cluster;
      match r with
      | None => mret None
      | Some cluster =>
          if (cluster <? 2) || (cluster_limit c <? cluster) then mret (Some chain_length)
          else measure_chain n c readable cluster (chain_length + 1)
      end
  end.

(** The clusters of a chain of known length. *)
Fixpoint collect_chain (n : nat) (c : fat32_context) (cluster : Z) (chain : list Z) : rdr (option (list Z)) :=
  match n with
  | O => mret (Some chain)
  | S n =>
      let chain := chain ++ [cluster] in
      r ← read_cluster_from_map c cluster;
      match r with
      | None => mret None
      | Some cluster => collect_chain n c cluster chain
      end
  end.

Definition cache_cluster_chain (c : fat32_context) (initial_cluster : Z) : rdr (option (list Z)) :=
  if (initial_cluster <? 2) || (cluster_limit c <? initial_cluster) then mret None else
  match readable_cluster_limit c with
  | None => mret None
  | Some readable =>
      r ← measure_chain (Z.to_nat (max_clusters c)) c readable initial_cluster 1;
      match r with
      | None => mret None
      | Some chain_length => collect_chain (Z.to_nat chain_length) c initial_cluster []
      end
  end.

(** ** Files *)
Definition block_bytes (c : fat32_context) : Z := sectors_per_cluster c * bytes_per_sector c.
Definition cluster_base (c : fat32_context) (cluster : Z) : Z :=
  (data_start_lba c + (cluster - 2) * sectors_per_cluster c) * bytes_per_sector c.

Fixpoint chain_loop (fuel : nat) (c : fat32_context) (chain : list Z) (loc count progress : Z) (got : list Z)
    : rdr (option (list Z)) :=
  match fuel with
  | O => mret None
  | S fuel =>
      if progress <? count then
        let block := u64 (loc + progress) / block_bytes c in
        match chain.[block] with
        | None => mret None
        | Some cluster =>
            if cluster <? 2 then mret None else
            let chunk := count - progress in
            let offset := u64 (loc + progress) mod block_bytes c in
            let chunk := if block_bytes c - offset <? chunk then block_bytes c - offset else chunk in
            r ← vread (cluster_base c cluster + offset) chunk;
            match r with
            | None => mret None
            | Some bs => chain_loop fuel c chain loc count (progress + chunk) (got ++ bs)
            end
        end
      else mret (Some got)
  end.

Definition read_cluster_chain (c : fat32_context) (chain : list Z) (loc count : Z) : rdr (option (list Z)) :=
  chain_loop (S (Z.to_nat count)) c chain loc count 0 [].

(** ** Directories: an entry is its 32 bytes *)
Definition file_name_and_ext (e : list Z) : list Z := take 11 e.
Definition attribute (e : list Z) : Z := field e 11 1.
Definition cluster_num_high (e : list Z) : Z := field e 20 2.
Definition cluster_num_low (e : list Z) : Z := field e 26 2.
Definition file_size_bytes (e : list Z) : Z := field e 28 4.
Definition sequence_number (e : list Z) : Z := field e 0 1.
Definition name1 (e : list Z) : list Z := take 10 (drop 1 e).
Definition name2 (e : list Z) : list Z := take 12 (drop 14 e).
Definition name3 (e : list Z) : list Z := take 4 (drop 28 e).

(** The low bytes of 16-bit characters. *)
Fixpoint low_bytes (s : list Z) : list Z :=
  match s with c :: _ :: s => c :: low_bytes s | _ => [] end.

(** [fat32_lfncpy]: what is behind the end of the buffer is dropped. *)
Definition fat32_lfncpy (destination : list Z) (dest_offset : Z) (source : list Z) : list Z :=
  let o := Z.to_nat dest_offset in
  take (length destination) (take o destination ++ low_bytes source ++ drop (o + length (low_bytes source)) destination).

(** The name in the form of a short entry. *)
Fixpoint to_8_3 (src : list Z) (j : Z) (ext : bool) (dest : list Z) : option (list Z) :=
  match src with
  | [] => Some dest
  | c :: src =>
      if c =? 46 then if ext then None else to_8_3 src 8 true dest
      else if (11 <=? j) || ((8 <=? j) && negb ext) then None
      else dest ← dest.[j <- toupper c]; to_8_3 src (j + 1) ext dest
  end.
Definition fat32_filename_to_8_3 (src : list Z) : option (list Z) := to_8_3 src 0 false (replicate 11 32).

(** Without the spaces at the end. *)
Definition trim_spaces (s : list Z) : list Z := reverse (drop_spaces (reverse s)).

(** A C string in a buffer. *)
Fixpoint c_string (s : list Z) : list Z :=
  match s with [] => [] | c :: s => if c =? 0 then [] else c :: c_string s end.

(** The comparison [strcmpfn]. *)
Definition same_name (case_insensitive_fopen : bool) (a b : list Z) : bool :=
  if case_insensitive_fopen then bool_decide (map tolower a = map tolower b) else bool_decide (a = b).

(** The buffer for a long name and the number expected next. *)
Record lfn := Lfn { current_lfn : list Z; lfn_expected : Z }.
Definition no_lfn : lfn := Lfn (replicate (Z.to_nat FAT32_LFN_MAX_FILENAME_LENGTH) 0) 0.

(** An entry of a long name: its place in the buffer, and the whole name once
    the last of its entries was seen. *)
Definition lfn_entry (l : lfn) (e : list Z) : lfn * option (list Z) :=
  if field e 0 1 =? 0xE5 then (Lfn (current_lfn l) 0, None) else
  let seq_num := Z.land (sequence_number e) 31 in
  let l := if negb (Z.land (sequence_number e) 64 =? 0) then Lfn (map (λ _, 32) (current_lfn l)) seq_num else l in
  if (seq_num =? 0) || negb (seq_num =? lfn_expected l) then (Lfn (current_lfn l) 0, None) else
  let expected := lfn_expected l - 1 in
  let lfn_index := (seq_num - 1) * 13 in
  if FAT32_LFN_MAX_ENTRIES * 13 <=? lfn_index then (Lfn (current_lfn l) 0, None) else
  let b := fat32_lfncpy (current_lfn l) lfn_index (name1 e) in
  let b := fat32_lfncpy b (lfn_index + 5) (name2 e) in
  let b := fat32_lfncpy b (lfn_index + 11) (name3 e) in
  if negb (seq_num =? 1) then (Lfn b expected, None) else
  let name := trim_spaces (take 260 b) in
  (Lfn (name ++ 0 :: drop (S (length name)) b) expected, Some (c_string name)).

(** The entries from here on; an answer is a whole entry. *)
Fixpoint find_entry (ci : bool) (name : list Z) (l : lfn) (entries : list (list Z)) : option (list Z) :=
  match entries with
  | [] => None
  | e :: entries =>
      if field e 0 1 =? 0 then None else
      let '(l, long) := if attribute e =? FAT32_LFN_ATTRIBUTE then lfn_entry l e else (l, None) in
      if (if long is Some n then same_name ci n name else false) then
        match entries with
        | [] => None
        | sfn :: _ =>
            if (field sfn 0 1 =? 0) || (field sfn 0 1 =? 0xE5) || (attribute sfn =? FAT32_LFN_ATTRIBUTE) then None else Some sfn
        end
      else if negb (Z.land (attribute e) 8 =? 0) then find_entry ci name l entries
      else match fat32_filename_to_8_3 name with
           | Some fn => if bool_decide (file_name_and_ext e = fn) then Some e else find_entry ci name l entries
           | None => find_entry ci name l entries
           end
  end.

(** The label: the name of the first label entry. *)
Fixpoint find_label (entries : list (list Z)) : option (list Z) :=
  match entries with
  | [] => None
  | e :: entries =>
      if field e 0 1 =? 0 then None
      else if negb (attribute e =? FAT32_ATTRIBUTE_VOLLABEL) then find_label entries
      else Some (c_string (trim_spaces (file_name_and_ext e)))
  end.

Fixpoint entries_of (n : nat) (bs : list Z) : list (list Z) :=
  match n with O => [] | S n => take 32 bs :: entries_of n (drop 32 bs) end.

Definition MAX_DIRECTORY : Z := 256 * 1024 * 1024.

(** Where a directory starts: none is the root of FAT12 and FAT16. *)
Definition entry_cluster (c : fat32_context) (e : list Z) : Z :=
  if decide (type c = FAT32) then Z.lor (cluster_num_low e) (Z.shiftl (cluster_num_high e) 16) else cluster_num_low e.

(** All entries of a directory, those of the rest of the buffer being zeros. *)
Definition read_directory (c : fat32_context) (directory : option Z) : rdr (option (list (list Z))) :=
  match directory with
  | Some cluster =>
      r ← cache_cluster_chain c cluster;
      match r with
      | None => mret None
      | Some chain =>
          match mul64 (len chain) (block_bytes c) with
          | None => mret None
          | Some alloc_size =>
              if MAX_DIRECTORY <? alloc_size then mret None else
              r ← read_cluster_chain c chain 0 alloc_size;
              mret (bs ← r; Some (entries_of (Z.to_nat (alloc_size / 32)) bs))
          end
      end
  | None =>
      match div_roundup (root_entries c * 32) (block_bytes c) with
      | None => mret None
      | Some dir_chain_len =>
          match mul64 dir_chain_len (block_bytes c) with
          | None => mret None
          | Some alloc_size =>
              if MAX_DIRECTORY <? alloc_size then mret None else
              r ← vread (root_start c * bytes_per_sector c) (root_entries c * 32);
              mret (bs ← r; Some (entries_of (Z.to_nat (alloc_size / 32)) (bs ++ replicate (Z.to_nat (alloc_size - len bs)) 0)))
          end
      end
  end.

Definition fat32_open_in (c : fat32_context) (ci : bool) (directory : option Z) (name : list Z) : rdr (option (list Z)) :=
  r ← read_directory c directory;
  mret (entries ← r; find_entry ci name no_lfn entries).

(** The root: its cluster, or none where it has a place of its own. *)
Definition root_of (c : fat32_context) : option Z :=
  if decide (type c = FAT32) then Some (root_directory_cluster c) else None.

Definition fat32_get_label (part_sectors : Z) : rdr (option (list Z)) :=
  r ← fat32_init_context part_sectors;
  match r with
  | None => mret None
  | Some c => r ← read_directory c (root_of c); mret (entries ← r; find_label entries)
  end.

(** ** Paths *)

(** A part of at most [n] characters and, behind a slash, the rest. *)
Fixpoint next_part (n : nat) (path : list Z) : option (list Z * option (list Z)) :=
  match n with
  | O => None
  | S n =>
      match path with
      | [] => Some ([], None)
      | c :: path =>
          if c =? 47 then Some ([], Some path) else
          '(part, rest) ← next_part n path; Some (c :: part, rest)
      end
  end.

Record fat32_file_handle := FatFile {
  context : fat32_context;
  first_cluster : Z;
  size_bytes : Z;
  cluster_chain : list Z;
}.

Fixpoint open_path (fuel : nat) (c : fat32_context) (ci : bool) (directory : option Z) (path : list Z)
    : rdr (option fat32_file_handle) :=
  match fuel with
  | O => mret None
  | S fuel =>
      match next_part (Z.to_nat (FAT32_LFN_MAX_FILENAME_LENGTH - 1)) path with
      | None => mret None
      | Some (part, rest) =>
          r ← fat32_open_in c ci directory part;
          match r with
          | None => mret None
          | Some file =>
              match rest with
              | Some path =>
                  if Z.land (attribute file) FAT32_ATTRIBUTE_SUBDIRECTORY =? 0 then mret None
                  else open_path fuel c ci (Some (entry_cluster c file)) path
              | None =>
                  let first := entry_cluster c file in
                  chain ← cache_cluster_chain c first;
                  let chain := default [] chain in
                  let size := file_size_bytes file in
                  mret (if len chain * block_bytes c <? size then None else Some (FatFile c first size chain))
              end
          end
      end
  end.

Fixpoint skip_slashes (path : list Z) : list Z :=
  match path with c :: p => if c =? 47 then skip_slashes p else path | [] => [] end.

(** Every part but the last is followed by a slash. *)
Definition fat32_open (part_sectors : Z) (ci : bool) (path : list Z) : rdr (option fat32_file_handle) :=
  r ← fat32_init_context part_sectors;
  match r with
  | None => mret None
  | Some c => let path := skip_slashes path in open_path (S (length path)) c ci (root_of c) path
  end.

(** None is the panic over a chain that cannot be read. *)
Definition fat32_read (f : fat32_file_handle) (loc count : Z) : rdr (option (list Z)) :=
  read_cluster_chain (context f) (cluster_chain f) loc count.
