(* ===== verification/FatChain.v ===== *)
(** The chains of a FAT file system: the code finds exactly the finite chains
    inside the medium, and reads of a chain are reads of its clusters put
    together. *)
From S2P Require Import Prelude Libc Outcome Volume VolumeProofs Part PartProofs Reader Fat.
From stdpp Require Import strings.
Open Scope list_scope.
Open Scope Z_scope.

(** What [fat32_init_context] makes sure of. *)
Record context_ok (c : fat32_context) : Prop := {
  cx_bytes : 512 ≤ bytes_per_sector c ≤ 4096;
  cx_cluster : 1 ≤ sectors_per_cluster c ≤ 128;
  cx_fat : 0 ≤ sectors_per_fat c;
  cx_data : 0 ≤ data_start_lba c < 2 ^ 32;
  cx_root : 0 ≤ root_start c < 2 ^ 32;
  cx_entries : 0 ≤ root_entries c < 2 ^ 16;
  cx_align : bytes_per_sector c mod 512 = 0;
}.

Lemma field_range b o n : is_bytes b → 0 ≤ field b o n < 2 ^ (8 * Z.of_nat n).
Proof.
  intros Hb. unfold field. assert (is_bytes (take n (drop o b))) as Ht by (by apply Forall_take, Forall_drop).
  pose proof (le_val_range _ Ht) as [H0 H1]. split; [done|]. eapply Z.lt_le_trans; [done|]. apply Z.pow_le_mono_r; [lia|].
  unfold len. rewrite length_take. lia.
Qed.

Lemma read_bpb_ok ps bpb c : is_bytes bpb → read_bpb ps bpb = Some c → context_ok c ∧ part_sectors c = ps.
Proof.
  intros Hb. pose proof (λ o n, field_range bpb o n Hb) as F. unfold read_bpb.
  destruct (bpb_signature bpb); cbn [negb]; [|done].
  case_bool_decide as Hcl; cbn [negb]; [|done]. case_bool_decide as Hbs; cbn [negb]; [|done].
  destruct (_ || _); [done|]. destruct (Z.eqb_spec (field bpb 14 2) 0); [done|]. destruct (_ <=? _); [done|].
  set (t := if _ <? 4085 then _ else _). set (spf := if decide (t = FAT32) then _ else _).
  assert (0 ≤ spf) as Hspf by (unfold spf; destruct (decide _); apply F). clearbody t. clearbody spf.
  destruct (spf =? 0); [done|]. destruct (_ && _); [done|].
  set (rs := field bpb 14 2 + _). assert (0 ≤ rs) as Hrs by (pose proof (F 14 2)%nat; pose proof (F 16 1)%nat; unfold rs; nia).
  clearbody rs. destruct (Z.ltb_spec (2 ^ 32 - 1) rs); [done|]. set (root_size := div_roundup _ _).
  assert (∀ x, root_size = Some x → 0 ≤ x) as Hsz.
  { unfold root_size, div_roundup. intros x. destruct (add64 _ _) as [s|] eqn:Hs; cbn [mbind option_bind]; [apply add64_Some in Hs as [-> _]|done].
    intros [= <-]. pose proof (F 17 2)%nat. rewrite !elem_of_cons in Hbs. destruct Hbs as [Hbs|[Hbs|[Hbs|[Hbs|Hbs%elem_of_nil]]]]; [..|done]; rewrite Hbs; apply Z.div_pos; lia. }
  destruct root_size as [sz|]; cbn [mbind option_bind]; [|done]. specialize (Hsz _ eq_refl).
  set (ds := if decide (t = FAT32) then rs else rs + sz). assert (0 ≤ ds) by (unfold ds; destruct (decide _); lia). clearbody ds.
  destruct (Z.ltb_spec (2 ^ 32 - 1) ds); [done|]. intros [= <-]. split; [|done]. split; cbn.
  - rewrite !elem_of_cons in Hbs. destruct Hbs as [Hbs|[Hbs|[Hbs|[Hbs|Hbs%elem_of_nil]]]]; [..|done]; lia.
  - rewrite !elem_of_cons in Hcl. clear -Hcl. repeat (destruct Hcl as [Hcl|Hcl]; [lia|]). by apply elem_of_nil in Hcl.
  - done.
  - lia.
  - lia.
  - apply (F 17 2)%nat.
  - rewrite !elem_of_cons in Hbs. destruct Hbs as [->|[->|[->|[->|Hbs%elem_of_nil]]]]; done.
Qed.

Section chain.
Context (rd : Z → Z → option (list Z)) `{Hrd : !coherent rd} (c : fat32_context) (Hc : context_ok c).

#[using="Hrd"]
Lemma init_context_ok ps : evals rd (fat32_init_context ps) = Some c → context_ok c ∧ part_sectors c = ps.
Proof.
  unfold fat32_init_context. rewrite evals_bind, evals_read. destruct (rd 0 512) as [bs|] eqn:Hr; [|done].
  cbn. intros Hb. by eapply read_bpb_ok; [by eapply coherent_bytes|].
Qed.

(** ** The chain of a cluster *)
Notation next cl := (evals rd (read_cluster_from_map c cl)).
Notation limit := (cluster_limit c).

Inductive chain : Z → list Z → Prop :=
  | chain_last cl n : next cl = Some n → n < 2 ∨ limit < n → chain cl [cl]
  | chain_cons cl n l : next cl = Some n → 2 ≤ n ≤ limit → chain n l → chain cl (cl :: l).

Lemma chain_unique cl l k : chain cl l → chain cl k → l = k.
Proof.
  intros Hl. revert k. induction Hl as [cl n Hn Hs|cl n l Hn Hs Hl IH]; intros k Hk.
  - inversion Hk as [? n' Hn'|? n' l' Hn' ? Hl']; subst; [done|]. rewrite Hn in Hn'. injection Hn' as <-. lia.
  - inversion Hk as [? n' Hn'|? n' l' Hn' ? Hl']; subst; rewrite Hn in Hn'; injection Hn' as <-; [lia|]. f_equal. by apply IH.
Qed.

(** From each of its clusters goes the rest of it. *)
Lemma chain_suffix cl l x : chain cl l → x ∈ l → ∃ k, chain x k ∧ k `suffix_of` l.
Proof.
  induction 1 as [cl n Hn Hs|cl n l Hn Hs Hl IH]; intros Hx.
  - apply list_elem_of_singleton in Hx as ->. eexists. split; [by eapply chain_last|done].
  - apply elem_of_cons in Hx as [->|Hx].
    + eexists. split; [by eapply chain_cons|done].
    + destruct (IH Hx) as (k & Hk & Hsuf). exists k. split; [done|by apply suffix_cons_r].
Qed.

Lemma chain_nodup cl l : chain cl l → NoDup l.
Proof.
  induction 1 as [cl n Hn Hs|cl n l Hn Hs Hl IH]; [apply NoDup_singleton|]. apply NoDup_cons. split; [|done]. intros Hin.
  destruct (chain_suffix n l cl Hl Hin) as (k & Hk & Hsuf%suffix_length).
  rewrite (chain_unique cl k (cl :: l) Hk) in Hsuf; [cbn in Hsuf; lia|by eapply chain_cons].
Qed.

Lemma chain_in cl l x : chain cl l → 2 ≤ cl ≤ limit → x ∈ l → 2 ≤ x ≤ limit.
Proof.
  induction 1 as [cl n Hn Hs|cl n l Hn Hs Hl IH]; intros Hcl Hx.
  - by apply list_elem_of_singleton in Hx as ->.
  - apply elem_of_cons in Hx as [->|Hx]; [done|by apply IH].
Qed.

(** A cluster with an entry in the table. *)
Lemma next_entry cl n : 0 ≤ cl → next cl = Some n → cl < fat_entries c.
Proof.
  intros Hcl. unfold read_cluster_from_map, fat_entries.
  assert (0 ≤ fat_size c) by (unfold fat_size; destruct Hc; nia). destruct (type c).
  - destruct (Z.ltb_spec (fat_size c) (cl + cl / 2 + 2)); [done|]. intros _. pose proof (Z.div_mod cl 2 ltac:(done)).
    pose proof (Z.mod_pos_bound cl 2 ltac:(done)). assert (cl + 1 ≤ fat_size c * 2 / 3); [|lia]. apply Z.div_le_lower_bound; lia.
  - destruct (Z.ltb_spec (fat_size c) (cl * 2 + 2)); [done|]. intros _.
    assert (cl + 1 ≤ fat_size c / 2); [|lia]. apply Z.div_le_lower_bound; lia.
  - destruct (Z.ltb_spec (fat_size c) (cl * 4 + 4)); [done|]. intros _.
    assert (cl + 1 ≤ fat_size c / 4); [|lia]. apply Z.div_le_lower_bound; lia.
Qed.

Lemma chain_entries cl l x : chain cl l → 2 ≤ cl ≤ limit → x ∈ l → x < fat_entries c.
Proof.
  induction 1 as [cl n Hn Hs|cl n l Hn Hs Hl IH]; intros Hcl Hx.
  - apply list_elem_of_singleton in Hx as ->. apply (next_entry _ n); [lia|done].
  - apply elem_of_cons in Hx as [->|Hx]; [apply (next_entry _ n); [lia|done]|by apply IH].
Qed.

(** Distinct numbers in a range are no more than it has. *)
Lemma nodup_range (l : list Z) lo hi : NoDup l → (∀ x, x ∈ l → lo ≤ x < hi) → lo ≤ hi → len l ≤ hi - lo.
Proof.
  intros Hd Hin Hle. assert (length l ≤ length (seqZ lo (hi - lo)))%nat as Hn.
  { apply submseteq_length, NoDup_submseteq; [done|]. intros x Hx. apply elem_of_seqZ. specialize (Hin _ Hx). lia. }
  rewrite length_seqZ in Hn. unfold len. lia.
Qed.

(** What the code allows, no finite chain exceeds, its own maximum apart. *)
Lemma chain_bound cl l : chain cl l → 2 ≤ cl ≤ limit → len l ≤ FAT32_MAX_CHAIN_LENGTH → len l ≤ max_clusters c.
Proof.
  intros Hl Hcl Hmax. pose proof (chain_nodup _ _ Hl) as Hd.
  assert (len l ≤ limit - 1) as H1.
  { replace (limit - 1) with (limit + 1 - 2) by lia. apply nodup_range; [done| |lia]. intros x Hx. pose proof (chain_in _ _ _ Hl Hcl Hx). lia. }
  assert (len l ≤ fat_entries c) as H2.
  { assert (∃ n, next cl = Some n) as (n & Hn) by (inversion Hl; eauto). pose proof (next_entry cl n ltac:(lia) Hn).
    replace (fat_entries c) with (fat_entries c - 0) by lia. apply nodup_range; [done| |lia]. intros x Hx.
    pose proof (chain_in _ _ _ Hl Hcl Hx). pose proof (chain_entries _ _ _ Hl Hcl Hx). lia. }
  unfold max_clusters. cbv zeta. destruct (FAT32_MAX_CHAIN_LENGTH <? limit - 1); destruct (_ <? _); lia.
Qed.

Lemma max_clusters_le : max_clusters c ≤ FAT32_MAX_CHAIN_LENGTH.
Proof.
  unfold max_clusters. cbv zeta. set (n := if FAT32_MAX_CHAIN_LENGTH <? limit - 1 then _ else _).
  assert (n ≤ FAT32_MAX_CHAIN_LENGTH) by (unfold n; destruct (Z.ltb_spec FAT32_MAX_CHAIN_LENGTH (limit - 1)); lia).
  destruct (Z.ltb_spec (fat_entries c) n); lia.
Qed.

Lemma measure_sound n readable cl k m : evals rd (measure_chain n c readable cl k) = Some m →
  ∃ l, chain cl l ∧ m = k + len l - 1 ∧ Forall (λ x, x ≤ readable) l ∧ (length l ≤ n)%nat.
Proof.
  revert cl k. induction n as [|n IH]; intros cl k; cbn [measure_chain]; [done|].
  destruct (Z.ltb_spec readable cl); [done|]. rewrite evals_bind. destruct (next cl) as [x|] eqn:Hx; [|done].
  destruct (_ || _) eqn:Hend.
  - intros [= <-]. exists [cl]. apply orb_true_iff in Hend. split; [apply (chain_last _ x); [done|lia]|]. change (len [cl]) with 1.
    split; [lia|]. split; [by repeat constructor|cbn; lia].
  - intros (l & Hl & -> & Hle & Hn)%IH. apply orb_false_iff in Hend. exists (cl :: l). split; [apply (chain_cons _ x); [done|lia|done]|].
    rewrite len_cons. split; [lia|]. split; [by constructor|cbn; lia].
Qed.

Lemma measure_complete n readable cl k l : chain cl l → Forall (λ x, x ≤ readable) l → (length l ≤ n)%nat →
  evals rd (measure_chain n c readable cl k) = Some (k + len l - 1).
Proof.
  intros Hl. revert n k. induction Hl as [cl x Hx Hs|cl x l Hx Hs Hl IH]; intros n k Hle Hn; (destruct n as [|n]; cbn in Hn; [lia|]);
    apply Forall_cons in Hle as [Hcl Hle]; cbn [measure_chain]; rewrite (proj2 (Z.ltb_ge _ _)) by lia; rewrite evals_bind, Hx.
  - rewrite (proj2 (orb_true_iff _ _)) by lia. change (len [cl]) with 1. cbn. f_equal. lia.
  - rewrite (proj2 (orb_false_iff _ _)) by lia. rewrite IH by (done || lia). rewrite len_cons. f_equal. lia.
Qed.

Lemma collect_complete cl l acc : chain cl l → evals rd (collect_chain (length l) c cl acc) = Some (acc ++ l).
Proof.
  intros Hl. revert acc. induction Hl as [cl x Hx Hs|cl x l Hx Hs Hl IH]; intros acc; cbn [length collect_chain]; rewrite evals_bind, Hx; [done|].
  rewrite IH, <- app_assoc. done.
Qed.

(** A chain that ends, in the part of the medium the volume has. *)
Definition good_chain (cl : Z) (l : list Z) : Prop :=
  2 ≤ cl ≤ limit ∧ chain cl l ∧ len l ≤ FAT32_MAX_CHAIN_LENGTH ∧
  ∃ readable, readable_cluster_limit c = Some readable ∧ Forall (λ x, x ≤ readable) l.

Lemma good_chain_ok cl l : evals rd (cache_cluster_chain c cl) = Some l ↔ good_chain cl l.
Proof.
  unfold good_chain, cache_cluster_chain. destruct ((cl <? 2) || (limit <? cl)) eqn:Hcl.
  { apply orb_true_iff in Hcl. split; [done|]. intros (Hr & _). lia. }
  apply orb_false_iff in Hcl. assert (2 ≤ cl ≤ limit) as Hin by lia.
  destruct (readable_cluster_limit c) as [readable|]; [|split; [done|]; by intros (_ & _ & _ & r & ? & _)].
  rewrite evals_bind. destruct (evals rd (measure_chain _ _ _ _ _)) as [m|] eqn:Hm.
  - apply measure_sound in Hm as (k & Hk & -> & Hle & Hn). replace (Z.to_nat (1 + len k - 1)) with (length k) by (unfold len; lia).
    rewrite (collect_complete cl k [] Hk). split.
    + intros [= <-]. split; [done|]. split; [done|]. split; [|by exists readable].
      pose proof max_clusters_le. unfold len. assert (0 ≤ FAT32_MAX_CHAIN_LENGTH) by done. lia.
    + intros (_ & Hl & _ & _). cbn. f_equal. by apply (chain_unique cl).
  - split; [done|]. intros (_ & Hl & Hmax & r & [= <-] & Hle). rewrite (measure_complete _ _ cl 1 l) in Hm; [done|done|done|].
    pose proof (chain_bound cl l Hl Hin Hmax). unfold len in *. lia.
Qed.

(** ** Reading a chain *)
Notation B := (block_bytes c).

Definition cluster_bytes (cl : Z) : option (list Z) := rd (cluster_base c cl) B.
Definition chain_bytes (l : list Z) : option (list Z) := bss ← mapM cluster_bytes l; Some (concat bss).

Lemma block_range : 512 ≤ B ≤ 524288.
Proof. unfold block_bytes. destruct Hc. nia. Qed.

Lemma limit_range : 2 ≤ limit < 2 ^ 28.
Proof. unfold cluster_limit. destruct (type c); lia. Qed.

Lemma base_range cl : 2 ≤ cl ≤ limit → 0 ≤ cluster_base c cl < 2 ^ 50.
Proof.
  intros Hcl. pose proof limit_range. unfold cluster_base. destruct Hc as [? ? _ ? _ _ _].
  assert (0 ≤ (cl - 2) * sectors_per_cluster c ≤ 2 ^ 28 * 128) by (split; [apply Z.mul_nonneg_nonneg; lia|apply Z.mul_le_mono_nonneg; lia]).
  split; [apply Z.mul_nonneg_nonneg; lia|]. eapply Z.le_lt_trans; [apply (Z.mul_le_mono_nonneg _ (2 ^ 36) _ 4096); lia|lia].
Qed.

Lemma chain_bytes_cons cl l bs : chain_bytes (cl :: l) = Some bs →
  ∃ b bs', cluster_bytes cl = Some b ∧ chain_bytes l = Some bs' ∧ bs = b ++ bs' ∧ len b = B.
Proof.
  unfold chain_bytes. cbn [mapM]. destruct (cluster_bytes cl) as [b|] eqn:Hb; cbn [mbind option_bind]; [|done].
  destruct (mapM cluster_bytes l) as [bss|] eqn:Hl; cbn [mbind option_bind]; [|done]. intros [= <-]. exists b, (concat bss).
  do 3 (split; [done|]). unfold cluster_bytes in Hb. eapply coherent_len; [|done]. pose proof block_range. lia.
Qed.

Lemma chain_bytes_len l bs : chain_bytes l = Some bs → len bs = len l * B.
Proof.
  revert bs. induction l as [|cl l IH]; intros bs; [by intros [= <-]|]. intros (b & bs' & _ & H & -> & Hb)%chain_bytes_cons.
  rewrite len_app, len_cons, (IH bs') by done. lia.
Qed.

(** The part of a block is in the bytes of the chain. *)
Lemma chain_bytes_block l bs k o n cl : Forall (λ x, 2 ≤ x ≤ limit) l → chain_bytes l = Some bs → l.[k] = Some cl →
  0 ≤ o → 0 < n → o + n ≤ B → rd (cluster_base c cl + o) n = slice bs (k * B + o) n.
Proof.
  revert bs k. induction l as [|x l IH]; intros bs k Hin Hbs Hk Ho Hn Hon; [by apply arr_get_Some_lt in Hk as [? ?%Z.lt_nge]|].
  pose proof block_range as HB. apply Forall_cons in Hin as [Hx Hin].
  destruct (chain_bytes_cons _ _ _ Hbs) as (b & bs' & Hb & Hbs' & -> & Hlb).
  pose proof (arr_get_Some_lt _ _ _ Hk) as Hlt. destruct (decide (k = 0)) as [->|Hne].
  - cbn in Hk. injection Hk as ->. rewrite Z.mul_0_l, Z.add_0_l. rewrite slice_app_l by lia. unfold cluster_bytes in Hb.
    pose proof (base_range cl Hx). apply (coherent_part _ B); [lia|lia|lia|lia|done|lia|done].
  - assert (l.[k - 1] = Some cl) as Hk'.
    { unfold arr_get in *. rewrite decide_True in Hk by lia. rewrite decide_True by lia.
      by replace (Z.to_nat k) with (S (Z.to_nat (k - 1))) in Hk by lia. }
    rewrite (slice_app_r b bs') by nia. rewrite (IH bs' (k - 1)) by done. f_equal. rewrite Hlb. lia.
Qed.

Lemma chain_loop_ok fuel l bs loc count progress got : Forall (λ x, 2 ≤ x ≤ limit) l → chain_bytes l = Some bs →
  0 ≤ loc → 0 ≤ progress ≤ count → loc + count ≤ len bs → len bs < 2 ^ 64 → slice bs loc progress = Some got →
  count - progress < Z.of_nat fuel → evals rd (chain_loop fuel c l loc count progress got) = slice bs loc count.
Proof.
  intros Hin Hbs Hloc. pose proof block_range as HB. revert progress got.
  induction fuel as [|fuel IH]; intros progress got Hp Hlc Hl64 Hgot Hf; [lia|]. cbn [chain_loop].
  destruct (Z.ltb_spec progress count).
  2: { assert (progress = count) as -> by lia. by rewrite Hgot. }
  rewrite u64_id by lia. set (p := loc + progress) in *. pose proof (Z.div_mod p B ltac:(lia)) as Hdm. pose proof (Z.mod_pos_bound p B ltac:(lia)).
  assert (0 ≤ p / B) by (apply Z.div_pos; lia). pose proof (chain_bytes_len l bs Hbs) as Hlen.
  assert (p / B < len l) by (apply Z.div_lt_upper_bound; lia).
  destruct (arr_get_lt l (p / B) ltac:(lia)) as (cl & Hcl). rewrite Hcl.
  assert (2 ≤ cl ≤ limit) as Hclr.
  { rewrite Forall_lookup in Hin. unfold arr_get in Hcl. rewrite decide_True in Hcl by lia. by apply (Hin (Z.to_nat (p / B))). }
  rewrite (proj2 (Z.ltb_ge cl 2)) by lia. cbv zeta.
  set (chunk := if B - p mod B <? count - progress then B - p mod B else count - progress).
  assert (0 < chunk ≤ count - progress ∧ p mod B + chunk ≤ B) as [Hch Hfit].
  { unfold chunk. destruct (Z.ltb_spec (B - p mod B) (count - progress)); lia. }
  rewrite evals_bind, evals_read. rewrite (chain_bytes_block l bs (p / B)) by (done || lia).
  replace (p / B * B + p mod B) with p by lia.
  destruct (slice_app bs loc progress chunk ltac:(lia) ltac:(lia) Hloc ltac:(lia)) as (a & b & Ha & Hb & Hab).
  assert (a = got) as -> by congruence. fold p in Hb. rewrite Hb. apply IH; [lia|done|done|done|lia].
Qed.

Lemma read_chain_ok l bs loc count : Forall (λ x, 2 ≤ x ≤ limit) l → chain_bytes l = Some bs → 0 ≤ loc → 0 ≤ count →
  loc + count ≤ len bs → len bs < 2 ^ 64 → evals rd (read_cluster_chain c l loc count) = slice bs loc count.
Proof.
  intros Hin Hbs Hloc Hcount Hl H64. unfold read_cluster_chain. apply chain_loop_ok; try done; try lia.
  apply slice_nil. lia.
Qed.

Lemma good_chain_in cl l : good_chain cl l → Forall (λ x, 2 ≤ x ≤ cluster_limit c) l.
Proof.
  intros (Hcl & Hl & _). apply List.Forall_forall. intros x Hx. eapply chain_in; [done|done|by apply list_elem_of_In].
Qed.

Lemma good_chain_read cl l bs loc count : good_chain cl l → chain_bytes l = Some bs → 0 ≤ loc → 0 ≤ count → loc + count ≤ len bs →
  evals rd (read_cluster_chain c l loc count) = slice bs loc count.
Proof.
  intros Hl Hbs Hloc Hcount Hend. eapply read_chain_ok; [by eapply good_chain_in|done|done|done|done|].
  rewrite (chain_bytes_len l bs Hbs). destruct Hl as (_ & _ & Hmax & _). pose proof block_range.
  change FAT32_MAX_CHAIN_LENGTH with 16777216 in Hmax. pose proof (len_nonneg l). nia.
Qed.

End chain.


(** A table with a chain of two clusters and a circle. *)
Definition chain_reads (p n : Z) : option (list Z) :=
  slice ([0xF8; 0xFF; 0xFF; 0xFF; 3; 0; 0xFF; 0xFF; 5; 0; 4; 0] ++ replicate 2036 0) (p - 512) n.
Definition chain_context : fat32_context := Fat 16 FAT16 512 1 1 1 0 1 1 3 0 16 2 1.

