(* ===== verification/FatDir.v ===== *)
(** Directories of a FAT file system: a file is found by the name it was
    stored with, long or short, and only the first one with it. *)
From S2P Require Import Prelude Libc Outcome Config Volume Part FatChain Fat.
From stdpp Require Import strings.
Open Scope list_scope.
Open Scope Z_scope.

(** ** What is stored *)

(** The 16-bit characters of a long name: a zero and 0xFFFF fill the last
    entry. *)
Definition ucs2 (us : list Z) : list Z := concat (map (le_bytes 2) us).
Definition name_units (n : list Z) : list Z :=
  n ++ if len n mod 13 =? 0 then [] else 0 :: replicate (Z.to_nat (12 - len n mod 13)) 0xFFFF.

(** Entry [seq] of a long name; the one stored first is marked. *)
Definition long_entry (first : bool) (seq : Z) (us : list Z) (sum : Z) : list Z :=
  (if first then seq + 64 else seq) :: ucs2 (take 5 us) ++ [FAT32_LFN_ATTRIBUTE; 0; sum] ++ ucs2 (take 6 (drop 5 us)) ++ [0; 0] ++
  ucs2 (drop 11 us).
Fixpoint long_entries (k : nat) (first : bool) (us : list Z) (sum : Z) : list (list Z) :=
  match k with
  | O => []
  | S k' => long_entry first (Z.of_nat k) (take 13 (drop (13 * k') us)) sum :: long_entries k' false us sum
  end.

(** An entry that is not for a file, or a file: its long name, the checksum
    kept with that, its short entry, and what the file is. *)
Inductive slot (A : Type) :=
  | Skip (e : list Z)
  | Child (long : option (list Z)) (sum : Z) (e : list Z) (a : A).
Arguments Skip {A} e.
Arguments Child {A} long sum e a.

Definition encode {A} (s : slot A) : list (list Z) :=
  match s with
  | Skip e => [e]
  | Child (Some n) sum e _ => long_entries (Z.to_nat (len (name_units n) / 13)) true (name_units n) sum ++ [e]
  | Child None _ e _ => [e]
  end.

Definition label_entry (e : list Z) : bool := negb (Z.land (attribute e) FAT32_ATTRIBUTE_VOLLABEL =? 0).

(** A short entry in use. *)
Definition in_use (e : list Z) : bool :=
  negb (field e 0 1 =? 0) && negb (field e 0 1 =? 0xE5) && negb (attribute e =? FAT32_LFN_ATTRIBUTE).
Definition long_ok (n : list Z) : bool :=
  (1 <=? len n) && (len n <=? 260) && forallb (λ x, (1 <=? x) && (x <? 256)) n && negb (bool_decide (last n = Some 32)).

(** What is passed over is deleted, a label, or the directory itself or the
    one above it. *)
Definition slot_ok {A} (s : slot A) : bool :=
  match s with
  | Skip e => (1 <=? len e) && ((field e 0 1 =? 0xE5) || in_use e && (label_entry e || (field e 0 1 =? 46)))
  | Child long _ e _ => in_use e && match long with Some n => long_ok n | None => true end
  end.

(** ** What is found *)
Definition name_matches (ci : bool) (name : list Z) (long : option (list Z)) (e : list Z) : bool :=
  match long with Some n => same_name ci n name | None => false end ||
  negb (label_entry e) && bool_decide (fat32_filename_to_8_3 name = Some (file_name_and_ext e)).

Fixpoint find_child {A} (ci : bool) (name : list Z) (d : list (slot A)) : option (list Z * A) :=
  match d with
  | [] => None
  | Skip _ :: d => find_child ci name d
  | Child long _ e a :: d => if name_matches ci name long e then Some (e, a) else find_child ci name d
  end.

(** No file's short name starts with the mark of a deleted one. *)
Definition name_ok (name : list Z) : bool := negb (bool_decide (head name = Some 0xE5)).

(** ** Names of eight and three *)
Lemma to_8_3_ok src j ext dest fn : to_8_3 src j ext dest = Some fn → 0 ≤ j → Forall (λ x, x ≠ 46) dest →
  Forall (λ x, x ≠ 46) fn ∧ (1 ≤ j → head fn = head dest).
Proof.
  revert j ext dest. induction src as [|c src IH]; intros j ext dest; cbn [to_8_3]; [by intros [= ->]|].
  destruct (Z.eqb_spec c 46) as [->|Hc].
  - destruct ext; [done|]. intros H Hj Hd. destruct (IH _ _ _ H ltac:(done) Hd) as [H1 H2]. split; [done|]. intros _. by apply H2.
  - destruct (_ || _); [done|]. destruct (dest.[j <- toupper c]) as [dest'|] eqn:Hs; cbn [mbind option_bind]; [|done]. intros H Hj Hd.
    apply arr_set_Some in Hs as [Hr ->]. destruct (IH _ _ _ H ltac:(lia)) as [H1 H2].
    { apply Forall_insert; [done|]. unfold toupper. destruct (_ && _) eqn:Hlow; [apply andb_true_iff in Hlow; lia|done]. }
    split; [done|]. intros Hj1. rewrite H2 by lia. replace (Z.to_nat j) with (S (Z.to_nat (j - 1))) by lia. by destruct dest.
Qed.

(** The first character in a short form is never one of those. *)
Lemma short_form_head name fn : fat32_filename_to_8_3 name = Some fn → name_ok name = true → ∃ x fn', fn = x :: fn' ∧ x ≠ 46 ∧ x ≠ 0xE5.
Proof.
  unfold fat32_filename_to_8_3, name_ok. intros H Hn. apply negb_true_iff, bool_decide_eq_false in Hn.
  assert (Forall (λ x, x ≠ 46) (replicate 11 32)) as H46 by (by apply Forall_replicate).
  destruct (to_8_3_ok _ _ _ _ _ H ltac:(done) H46) as [Hall _].
  assert (∃ x, head fn = Some x ∧ x ≠ 0xE5) as (x & Hx & Hne).
  2: { destruct fn as [|y fn]; [done|]. injection Hx as ->. apply Forall_cons in Hall as [? _]. by exists x, fn. }
  destruct name as [|c name]; cbn in H; [injection H as <-; by exists 32|].
  destruct (Z.eqb_spec c 46) as [->|Hc].
  - apply to_8_3_ok in H as [_ H]; [|done|done]. rewrite H by done. by exists 32.
  - cbn in H. apply to_8_3_ok in H as [_ H]; [|done|].
    + rewrite H by done. exists (toupper c). split; [done|]. assert (c ≠ 0xE5) by (intros ->; by apply Hn). unfold toupper.
      destruct (_ && _) eqn:Hlow; [apply andb_true_iff in Hlow; lia|done].
    + constructor; [|by repeat constructor]. unfold toupper. destruct (_ && _) eqn:Hlow; [apply andb_true_iff in Hlow; lia|done].
Qed.

Lemma field_head e : 1 ≤ len e → ∃ x e', e = x :: e' ∧ field e 0 1 = x.
Proof. destruct e as [|x e]; intros H; [by cbn in H|]. exists x, e. split; [done|]. change (x + 256 * 0 = x). lia. Qed.

(** ** Long names *)
Lemma length_ucs2 us : length (ucs2 us) = (2 * length us)%nat.
Proof. unfold ucs2. induction us as [|u us IH]; [done|]. cbn [map concat length]. rewrite length_app, IH, length_le_bytes. lia. Qed.

Lemma low_bytes_ucs2 us : low_bytes (ucs2 us) = map (λ u, u mod 256) us.
Proof. 
  unfold ucs2. induction us as [|u us IH]; [done|].
  change (u mod 256 :: low_bytes (concat (map (le_bytes 2) us)) = map (λ u, u mod 256) (u :: us)). by rewrite IH.
Qed.

Lemma lfncpy_ok a m b src : length m = length (low_bytes src) → fat32_lfncpy (a ++ m ++ b) (len a) src = a ++ low_bytes src ++ b.
Proof.
  intros Hm. unfold fat32_lfncpy, len. rewrite Nat2Z.id. rewrite take_app_length.
  rewrite <- Hm, drop_app_add, drop_app_length. apply take_ge. rewrite !length_app. lia.
Qed.

Lemma land_seq s : 1 ≤ s ≤ 20 → Z.land s 31 = s ∧ Z.land s 64 = 0 ∧ Z.land (s + 64) 31 = s ∧ Z.land (s + 64) 64 = 64.
Proof.
  intros Hs. assert (s ∈ seqZ 1 20) as Hin by (apply elem_of_seqZ; lia). apply list_elem_of_In in Hin. revert s Hs Hin.
  assert (Forall (λ s, Z.land s 31 = s ∧ Z.land s 64 = 0 ∧ Z.land (s + 64) 31 = s ∧ Z.land (s + 64) 64 = 64) (seqZ 1 20)) as Hall; [|intros s _ Hin; by apply (proj1 (List.Forall_forall _ _) Hall)].
  cbn.
  repeat (constructor; [done|]). constructor.
Qed.

Record long_entry_reads (e : list Z) (seq : Z) (us : list Z) : Prop := {
  le_first : field e 0 1 = seq;
  le_attr : attribute e = FAT32_LFN_ATTRIBUTE;
  le_name1 : low_bytes (name1 e) = map (λ u, u mod 256) (take 5 us);
  le_name2 : low_bytes (name2 e) = map (λ u, u mod 256) (take 6 (drop 5 us));
  le_name3 : low_bytes (name3 e) = map (λ u, u mod 256) (drop 11 us);
}.

Lemma long_entry_ok first seq us sum : length us = 13%nat → long_entry_reads (long_entry first seq us sum) (if first then seq + 64 else seq) us.
Proof.
  intros H. do 13 (destruct us as [|? us]; [done|]). destruct us; [|done].
  split; unfold field, attribute, field, long_entry; [cbn; lia|done|done|done|done].
Qed.

Notation low := (map (λ u, u mod 256)).

Lemma split_13 {A} (m : list A) : length m = 13%nat → ∃ m1 m2 m3, m = m1 ++ m2 ++ m3 ∧
  length m1 = 5%nat ∧ length m2 = 6%nat ∧ length m3 = 2%nat ∧ m1 = take 5 m ∧ m2 = take 6 (drop 5 m) ∧ m3 = drop 11 m.
Proof.
  intros Hm. exists (take 5 m), (take 6 (drop 5 m)), (drop 11 m). rewrite !length_take, !length_drop. split; [|split_and!; lia || done].
  do 13 (destruct m as [|? m]; [done|]). by destruct m.
Qed.

(** One more entry of a long name, the part [m] of the buffer being its own. *)
Lemma lfn_entry_ok l e (first : bool) seq us a m b : long_entry_reads e (if first then seq + 64 else seq) us → length us = 13%nat → 1 ≤ seq ≤ 20 →
  (if first then map (λ _, 32) (current_lfn l) else current_lfn l) = a ++ m ++ b → len a = 13 * (seq - 1) → length m = 13%nat →
  (first = false → lfn_expected l = seq) →
  lfn_entry l e = let buf := a ++ low us ++ b in
    if seq =? 1 then (let name := trim_spaces (take 260 buf) in Lfn (name ++ 0 :: drop (S (length name)) buf) (seq - 1), Some (c_string (trim_spaces (take 260 buf))))
    else (Lfn buf (seq - 1), None).
Proof.
  intros [Hf _ H1 H2 H3] Hus Hseq Hbuf Ha Hm Hexp. destruct (land_seq seq Hseq) as (L1 & L2 & L3 & L4).
  unfold lfn_entry. unfold sequence_number. rewrite Hf.
  set (l1 := if negb (Z.land (if first then seq + 64 else seq) 64 =? 0) then _ else l).
  assert (Z.land (if first then seq + 64 else seq) 31 = seq) as Hl31 by (by destruct first).
  assert (l1 = Lfn (a ++ m ++ b) seq) as ->.
  { unfold l1. rewrite Hl31. destruct first; [rewrite L4|rewrite L2]; cbn [negb Z.eqb]; [by rewrite Hbuf|].
    rewrite <- Hbuf. rewrite <- (Hexp eq_refl). by destruct l. }
  rewrite (proj2 (Z.eqb_neq _ 0xE5)) by (destruct first; lia). cbv zeta. rewrite Hl31. cbn [lfn_expected current_lfn].
  rewrite Z.eqb_refl, (proj2 (Z.eqb_neq seq 0)) by lia. cbn [negb orb].
  replace ((seq - 1) * 13) with (len a) by lia. change (FAT32_LFN_MAX_ENTRIES * 13) with 260. rewrite (proj2 (Z.leb_gt _ _)) by lia.
  destruct (split_13 m Hm) as (m1 & m2 & m3 & -> & N1 & N2 & N3 & _). destruct (split_13 us Hus) as (u1 & u2 & u3 & Hu & U1 & U2 & U3 & E1 & E2 & E3).
  rewrite <- E1 in H1. rewrite <- E2 in H2. rewrite <- E3 in H3. clear E1 E2 E3.
  rewrite <- !app_assoc. rewrite lfncpy_ok by (rewrite H1, length_map; lia). rewrite H1.
  replace (len a + 5) with (len (a ++ low u1)) by (rewrite len_app; unfold len; rewrite length_map; lia).
  rewrite (app_assoc a (low u1)), lfncpy_ok by (rewrite H2, length_map; lia). rewrite H2.
  replace (len a + 11) with (len ((a ++ low u1) ++ low u2)) by (rewrite !len_app; unfold len; rewrite !length_map; lia).
  rewrite (app_assoc (a ++ low u1)), lfncpy_ok by (rewrite H3, length_map; lia). rewrite H3.
  rewrite Hu, !map_app, <- !app_assoc. by destruct (Z.eqb_spec seq 1).
Qed.

Lemma length_trim s : (length (trim_spaces s) ≤ length s)%nat.
Proof.
  unfold trim_spaces. rewrite length_reverse. rewrite <- (length_reverse s). induction (reverse s) as [|x t IH]; [done|].
  cbn [drop_spaces]. destruct (x =? 32); cbn [length]; lia.
Qed.

Lemma trim_app s n : trim_spaces (s ++ replicate n 32) = trim_spaces s.
Proof.
  unfold trim_spaces. rewrite reverse_app, reverse_replicate. f_equal. induction n as [|n IH]; [done|]. exact IH.
Qed.

Lemma trim_id s : last s ≠ Some 32 → trim_spaces s = s.
Proof.
  intros Hl. unfold trim_spaces. destruct s as [|y s] using rev_ind; [done|]. rewrite last_snoc in Hl. rewrite reverse_snoc. cbn [drop_spaces].
  destruct (Z.eqb_spec y 32) as [->|]; [done|]. by rewrite reverse_cons, reverse_involutive.
Qed.

(** A look-up goes through the entries of a long name; [rest] starts with the
    short entry. *)
Definition long_found (e : list Z) : option (list Z) :=
  if (field e 0 1 =? 0) || (field e 0 1 =? 0xE5) || (attribute e =? FAT32_LFN_ATTRIBUTE) then None else Some e.

Lemma find_long ci s us sum e rest K : length us = (13 * K)%nat → (K ≤ 20)%nat → ∀ k (first : bool) l, (1 ≤ k ≤ K)%nat →
  (if first then map (λ _, 32) (current_lfn l) else current_lfn l) =
    replicate (13 * k) 32 ++ low (drop (13 * k) us) ++ replicate (261 - 13 * K) 32 →
  (first = false → lfn_expected l = Z.of_nat k) →
  ∃ l', length (current_lfn l') = 261%nat ∧
    find_entry ci s l (long_entries k first us sum ++ e :: rest) =
    if same_name ci (c_string (trim_spaces (low us))) s then long_found e else find_entry ci s l' (e :: rest).
Proof.
  intros Hus HK. induction k as [|k IH]; intros first l Hk Hbuf Hexp; [lia|]. cbn [long_entries app]. set (u := take 13 (drop (13 * k) us)).
  assert (length u = 13%nat) as Hu by (unfold u; rewrite length_take, length_drop; lia).
  pose proof (long_entry_ok first (Z.of_nat (S k)) u sum Hu) as Hle. set (e0 := long_entry _ _ _ _) in *. clearbody e0.
  assert (Z.land FAT32_LFN_ATTRIBUTE 8 = 8) as Hlab by done.
  cbn [find_entry]. rewrite (le_first _ _ _ Hle), (le_attr _ _ _ Hle). rewrite (proj2 (Z.eqb_neq _ 0)) by (destruct first; lia).
  rewrite Z.eqb_refl, Hlab.
  assert (drop (13 * k) us = u ++ drop (13 * S k) us) as Hdrop.
  { unfold u. replace (13 * S k)%nat with (13 * k + 13)%nat by lia. rewrite <- drop_drop. symmetry. apply take_drop. }
  rewrite (lfn_entry_ok l e0 first (Z.of_nat (S k)) u (replicate (13 * k) 32) (replicate 13 32) (low (drop (13 * S k) us) ++ replicate (261 - 13 * K) 32));
    [|done|done|lia| |unfold len; rewrite length_replicate; lia|done|done].
  2: { rewrite Hbuf, (app_assoc (replicate (13 * k) 32)), <- replicate_add. do 2 f_equal. lia. }
  cbv zeta. rewrite (app_assoc (low u)), <- map_app, <- Hdrop. destruct (Z.eqb_spec (Z.of_nat (S k)) 1) as [H1|H1].
  - assert (k = 0%nat) as -> by lia. change (13 * 0)%nat with 0%nat. rewrite drop_0. cbn [replicate app].
    replace (261 - 13 * K)%nat with (260 - 13 * K + 1)%nat by lia.
    assert (take 260 (low us ++ replicate (260 - 13 * K + 1) 32) = low us ++ replicate (260 - 13 * K) 32) as Htake.
    { rewrite replicate_add, app_assoc. apply take_app_length'. rewrite length_app, length_map, length_replicate. lia. }
    rewrite Htake, trim_app. set (nm := trim_spaces (low us)).
    assert (length nm ≤ 13 * K)%nat by (unfold nm; etrans; [apply length_trim|]; rewrite length_map; lia).
    eexists (Lfn _ _). split; [|cbn [negb Z.eqb]; destruct (same_name ci (c_string nm) s); reflexivity].
    cbn [current_lfn]. rewrite length_app. cbn [length]. rewrite length_drop, length_app, length_map, length_replicate. lia.
  - cbn [negb Z.eqb]. apply IH; [lia|done|]. intros _. cbn [lfn_expected]. lia.
Qed.

Lemma long_name_read n : long_ok n = true → 
  length (name_units n) = (13 * Z.to_nat (len (name_units n) / 13))%nat ∧ (1 ≤ Z.to_nat (len (name_units n) / 13) ≤ 20)%nat ∧
  c_string (trim_spaces (low (name_units n))) = n.
Proof.
  unfold long_ok. rewrite !andb_true_iff, negb_true_iff, bool_decide_eq_false, forallb_forall. intros [[[H1 H2] Hb] Hlast].
  assert (low n = n ∧ c_string n = n ∧ ∀ t, c_string (n ++ 0 :: t) = n) as (Hlow & Hc & Hc0).
  { clear H1 H2 Hlast. induction n as [|x n IH]; [done|]. destruct IH as (I1 & I2 & I3); [by intros y Hy; apply Hb; right|].
    specialize (Hb x (or_introl eq_refl)). cbn [map c_string app]. rewrite (proj2 (Z.eqb_neq x 0)) by lia. rewrite Z.mod_small by lia.
    split; [by f_equal|]. split; [by f_equal|]. intros t. f_equal. apply I3. }
  pose proof (Z.div_mod (len n) 13 ltac:(done)). pose proof (Z.mod_pos_bound (len n) 13 ltac:(done)). unfold name_units.
  destruct (Z.eqb_spec (len n mod 13) 0) as [Hm|Hm].
  - rewrite app_nil_r. split; [unfold len in *; lia|]. split; [lia|]. by rewrite Hlow, trim_id, Hc.
  - set (t := 0 :: replicate (Z.to_nat (12 - len n mod 13)) 0xFFFF).
    assert (len (n ++ t) = 13 * (len n / 13 + 1)) as Hlen.
    { rewrite len_app. unfold t. rewrite len_cons, len_replicate. lia. }
    rewrite Hlen. rewrite (Z.mul_comm 13), Z.div_mul by done. split; [unfold len in *; lia|]. split; [lia|].
    assert (low t = 0 :: replicate (Z.to_nat (12 - len n mod 13)) 255) as Ht.
    { unfold t. cbn [map]. f_equal. clear. generalize (Z.to_nat (12 - len n mod 13)) as k. induction k as [|k IH]; [done|]. cbn [replicate map]. by rewrite IH. }
    rewrite map_app, Hlow, Ht. rewrite trim_id; [apply Hc0|]. rewrite last_app. cbn [last]. destruct (Z.to_nat (12 - len n mod 13)) as [|k]; [done|].
    assert (last (0 :: replicate (S k) 255) = Some 255) as ->; [|done]. clear. change (last (255 :: replicate k 255) = Some 255).
    induction k as [|k IH]; [done|]. exact IH.
Qed.

Lemma short_miss {B} name e (x y : B) : name_ok name = true → 1 ≤ len e → field e 0 1 = 46 ∨ field e 0 1 = 0xE5 →
  match fat32_filename_to_8_3 name with Some fn => if bool_decide (file_name_and_ext e = fn) then x else y | None => y end = y.
Proof.
  intros Hn He Hf. destruct (fat32_filename_to_8_3 name) as [fn|] eqn:Hfn; [|done].
  destruct (short_form_head _ _ Hfn Hn) as (z & fn' & -> & H1 & H2). destruct (field_head e He) as (w & e' & -> & Hw).
  rewrite bool_decide_eq_false_2; [done|]. intros [= -> _]. lia.
Qed.

Definition ends (rest : list (list Z)) : Prop := match rest with [] => True | e :: _ => field e 0 1 = 0 end.

Lemma find_slots {A} ci name (d : list (slot A)) rest l : forallb slot_ok d = true → name_ok name = true → ends rest →
  length (current_lfn l) = 261%nat → find_entry ci name l (concat (map encode d) ++ rest) = fst <$> find_child ci name d.
Proof.
  intros Hd Hn Hrest. revert l. induction d as [|s d IH]; intros l Hl.
  { cbn. destruct rest as [|e rest]; [done|]. cbn in *. by rewrite Hrest. }
  cbn [forallb] in Hd. apply andb_true_iff in Hd as [Hs Hd]. specialize (IH Hd). destruct s as [e|long sum e a]; cbn [map concat find_child].
  - cbn [encode app find_entry]. unfold slot_ok in Hs. apply andb_true_iff in Hs as [He Hs]. apply Z.leb_le in He.
    apply orb_true_iff in Hs as [Hs%Z.eqb_eq|Hs].
    + rewrite Hs. cbn [Z.eqb]. destruct (Z.eqb_spec (attribute e) FAT32_LFN_ATTRIBUTE) as [Ha|Ha].
      * unfold lfn_entry. rewrite Hs. change (0xE5 =? 0xE5) with true. cbv iota beta. rewrite Ha. by apply IH.
      * cbv iota beta. destruct (negb _); [by apply IH|]. rewrite short_miss by (done || by right). by apply IH.
    + apply andb_true_iff in Hs as [Hu Hs]. unfold in_use in Hu. rewrite !andb_true_iff, !negb_true_iff in Hu. destruct Hu as [[Hu1 Hu2] Hu3].
      rewrite Hu1, Hu3. cbv iota beta. apply orb_true_iff in Hs as [Hs|Hs%Z.eqb_eq].
      * unfold label_entry in Hs. change FAT32_ATTRIBUTE_VOLLABEL with 8 in Hs. rewrite Hs. by apply IH.
      * destruct (negb _); [by apply IH|]. rewrite short_miss by (done || by left). by apply IH.
  - unfold slot_ok in Hs. apply andb_true_iff in Hs as [Hu Hlong].
    assert (∀ l, length (current_lfn l) = 261%nat → find_entry ci name l (e :: concat (map encode d) ++ rest) =
      if negb (label_entry e) && bool_decide (fat32_filename_to_8_3 name = Some (file_name_and_ext e)) then Some e else fst <$> find_child ci name d) as Hshort.
    { intros k Hk. unfold in_use in Hu. rewrite !andb_true_iff, !negb_true_iff in Hu. destruct Hu as [[Hu1 Hu2] Hu3].
      cbn [find_entry]. rewrite Hu1, Hu3. cbv iota beta. unfold label_entry. destruct (negb (Z.land (attribute e) FAT32_ATTRIBUTE_VOLLABEL =? 0)) eqn:Hlab;
        change FAT32_ATTRIBUTE_VOLLABEL with 8 in Hlab; rewrite Hlab; cbn [negb andb]; [by apply IH|].
      destruct (fat32_filename_to_8_3 name) as [fn|]; [|rewrite bool_decide_eq_false_2 by done; by apply IH].
      case_bool_decide as Hf; [by rewrite bool_decide_eq_true_2 by congruence|]. rewrite bool_decide_eq_false_2 by congruence. by apply IH. }
    destruct long as [n|]; cbn [encode].
    + destruct (long_name_read n Hlong) as (Hlen & HK & Hname). set (K := Z.to_nat (len (name_units n) / 13)) in *.
      rewrite <- !app_assoc. cbn [app].
      destruct (find_long ci name (name_units n) sum e (concat (map encode d) ++ rest) K Hlen ltac:(lia) K true l) as (l' & Hl' & ->); [lia| |done|].
      { rewrite drop_ge by lia. cbn [map app]. rewrite <- replicate_add. replace (13 * K + (261 - 13 * K))%nat with (length (current_lfn l)) by lia.
        clear. induction (current_lfn l) as [|x t IHt]; [done|]. cbn. by f_equal. }
      rewrite Hname. unfold name_matches, long_found. destruct (same_name ci n name); cbn [orb].
      * unfold in_use in Hu. rewrite !andb_true_iff, !negb_true_iff in Hu. destruct Hu as [[-> ->] ->]. done.
      * rewrite Hshort by done. by destruct (negb _ && _).
    + cbn [app]. unfold name_matches. cbn [orb]. rewrite Hshort by done. by destruct (negb _ && _).
Qed.


Definition short_name (name : string) : list Z := lit name ++ [0x20] ++ replicate 20 0.
Definition example_slots : list (slot Z) :=
  [Child (Some (lit "thirteen char")) 1 (short_name "THIRTE~1   ") 1; Skip (0xE5 :: replicate 31 0);
   Child (Some (lit "a name that takes three entries.conf")) 2 (short_name "ANAMET~1CON") 2; Child None 0 (short_name "README  TXT") 3].


(** A deleted file is found by a name that starts with the mark, and the label
    of a volume may be one that was deleted. *)
Example fat_finds_deleted :
  find_entry false (0xE5 :: lit "ile.txt") no_lfn [0xE5 :: drop 1 (short_name "FILE    TXT")] = Some (0xE5 :: drop 1 (short_name "FILE    TXT")).
Proof. vm_compute. reflexivity. Qed.

Example fat_label_deleted :
  find_label [0xE5 :: drop 1 (lit "OLD        " ++ [0x08] ++ replicate 20 0); lit "NEW        " ++ [0x08] ++ replicate 20 0] = Some (0xE5 :: lit "LD").
Proof. vm_compute. reflexivity. Qed.
