(* ===== verification/FatProofs.v ===== *)
(** A FAT file system is a tree of files: a path opens what the tree has there,
    and reads of it are parts of its data. *)
From S2P Require Import Prelude Libc Outcome Volume VolumeProofs Part PartProofs Reader Fat FatChain FatDir.
From stdpp Require Import strings.
Open Scope list_scope.
Open Scope Z_scope.

(** ** The tree *)
Unset Elimination Schemes.
Inductive node :=
  | File (data : list Z)
  | Dir (d : list (slot node)).
Set Elimination Schemes.

Section tree.
Context (rd : Z → Z → option (list Z)) (c : fat32_context).

(** A file without data needs no cluster. *)
Definition data_at (cl : Z) (data : list Z) : Prop :=
  data = [] ∨ ∃ l bs, good_chain rd c cl l ∧ chain_bytes rd c l = Some (data ++ bs).

(** The bytes of a directory; none is the root of FAT12 and FAT16. *)
Definition directory_bytes (loc : option Z) (bs : list Z) : Prop :=
  match loc with
  | Some cl => ∃ l, good_chain rd c cl l ∧ chain_bytes rd c l = Some bs ∧ len bs ≤ MAX_DIRECTORY
  | None => rd (root_start c * bytes_per_sector c) (root_entries c * 32) = Some bs
  end.

Inductive stored : list Z → node → Prop :=
  | stored_file e data :
      Z.land (attribute e) FAT32_ATTRIBUTE_SUBDIRECTORY = 0 → file_size_bytes e = len data →
      data_at (entry_cluster c e) data → stored e (File data)
  | stored_dir e d :
      Z.land (attribute e) FAT32_ATTRIBUTE_SUBDIRECTORY ≠ 0 → file_size_bytes e = 0 →
      directory (Some (entry_cluster c e)) d → stored e (Dir d)
with directory : option Z → list (slot node) → Prop :=
  | directory_intro loc d rest :
      directory_bytes loc (concat (concat (map encode d) ++ rest)) → Forall (λ e, length e = 32%nat) (concat (map encode d) ++ rest) →
      ends rest → forallb slot_ok d = true → (∀ long sum e a, In (Child long sum e a) d → stored e a) → directory loc d.
End tree.

(** The parts of a path, and what it is for. *)
Fixpoint split_path (p : list Z) : list (list Z) :=
  match p with
  | [] => [[]]
  | c :: p => if c =? 47 then [] :: split_path p else match split_path p with s :: r => (c :: s) :: r | [] => [] end
  end.

Fixpoint resolve (ci : bool) (d : list (slot node)) (parts : list (list Z)) : option (list Z * node) :=
  match parts with
  | [] => None
  | name :: parts =>
      match find_child ci name d with
      | Some (e, a) => match parts with [] => Some (e, a) | _ => match a with Dir d => resolve ci d parts | File _ => None end end
      | None => None
      end
  end.

(** No part is too long for the buffer. *)
Definition parts_fit (parts : list (list Z)) : bool := forallb (λ s, len s <? FAT32_LFN_MAX_FILENAME_LENGTH - 1) parts.
Definition lookup_path (ci : bool) (d : list (slot node)) (path : list Z) : option node :=
  let parts := split_path (skip_slashes path) in
  if parts_fit parts then snd <$> resolve ci d parts else None.

(** ** Paths *)
Lemma split_path_nonempty p : split_path p ≠ [].
Proof. induction p as [|c p IH]; cbn; [done|]. destruct (c =? 47); [done|]. by destruct (split_path p). Qed.

Lemma split_path_length p : (length (split_path p) ≤ S (length p))%nat.
Proof. induction p as [|c p IH]; cbn; [lia|]. destruct (c =? 47); cbn; [lia|]. destruct (split_path p); cbn in *; lia. Qed.

Lemma next_part_ok n p s r : split_path p = s :: r →
  if (Z.of_nat n <=? len s) then next_part n p = None
  else match r with [] => next_part n p = Some (s, None) | _ => ∃ p', next_part n p = Some (s, Some p') ∧ split_path p' = r end.
Proof.
  revert n s. induction p as [|c p IH]; intros n s; cbn [split_path].
  { intros [= <- <-]. destruct n as [|n]; [done|]. by rewrite (proj2 (Z.leb_gt _ _)) by (rewrite len_nil; lia). }
  destruct (Z.eqb_spec c 47) as [->|Hc].
  { intros [= <- <-]. destruct n as [|n]; [done|]. rewrite (proj2 (Z.leb_gt _ _)) by (rewrite len_nil; lia). cbn [next_part Z.eqb].
    pose proof (split_path_nonempty p). destruct (split_path p) eqn:Hp; [done|]. exists p. done. }
  destruct (split_path p) as [|s' r'] eqn:Hp; [done|]. intros [= <- <-]. destruct n as [|n].
  { rewrite (proj2 (Z.leb_le _ _)); [done|]. apply len_nonneg. }
  specialize (IH n s' eq_refl). cbn [next_part]. rewrite (proj2 (Z.eqb_neq _ _) Hc). rewrite len_cons.
  destruct (Z.leb_spec (Z.of_nat n) (len s')); destruct (Z.leb_spec (Z.of_nat (S n)) (1 + len s')); try lia.
  - by rewrite IH.
  - destruct r' as [|s'' r'']; [by rewrite IH|]. destruct IH as (p' & -> & Hp'). by exists p'.
Qed.

(** ** Directories *)
Lemma entries_of_app es rest : Forall (λ e, length e = 32%nat) es → entries_of (length es) (concat es ++ rest) = es.
Proof.
  induction 1 as [|e es He Hes IH]; [done|]. cbn [length entries_of concat]. rewrite <- app_assoc.
  rewrite <- He at 1. rewrite take_app_length. f_equal. rewrite <- He. by rewrite drop_app_length.
Qed.

Lemma length_concat_32 {A} (es : list (list A)) : Forall (λ e, length e = 32%nat) es → length (concat es) = (32 * length es)%nat.
Proof. induction 1 as [|e es He Hes IH]; [done|]. cbn [concat length]. rewrite length_app. lia. Qed.

Section proofs.
Context (rd : Z → Z → option (list Z)) `{Hrd : !coherent rd} (c : fat32_context) (Hc : context_ok c).
Notation B := (block_bytes c).

Lemma block_entries : ∃ k, B = 32 * k ∧ 16 ≤ k.
Proof.
  pose proof (block_range c Hc). destruct Hc as [_ _ _ _ _ _ Ha]. pose proof (Z.div_mod (bytes_per_sector c) 512 ltac:(done)) as Hd.
  rewrite Ha in Hd. exists (sectors_per_cluster c * (16 * (bytes_per_sector c / 512))).
  assert (B = 32 * (sectors_per_cluster c * (16 * (bytes_per_sector c / 512)))) as Heq; [|split; [done|lia]].
  unfold block_bytes. rewrite Hd at 1. ring.
Qed.

Lemma mul64_lt a b : a * b < 2 ^ 64 → mul64 a b = Some (a * b).
Proof. unfold mul64. by intros ->%Z.ltb_lt. Qed.

(** What is read of a directory ends as what is stored does. *)
Lemma read_directory_ok loc es rest : directory_bytes rd c loc (concat (es ++ rest)) → Forall (λ e, length e = 32%nat) (es ++ rest) → ends rest →
  ∃ rest', evals rd (read_directory c loc) = Some (es ++ rest') ∧ ends rest'.
Proof.
  intros Hd H32 He. set (bs := concat (es ++ rest)) in *. pose proof (length_concat_32 _ H32) as Hlen. fold bs in Hlen.
  destruct block_entries as (k & HB & Hk). destruct loc as [cl|]; cbn [directory_bytes read_directory] in *.
  - destruct Hd as (l & Hl & Hbs & Hmax). rewrite evals_bind, (proj2 (good_chain_ok rd c Hc cl l) Hl).
    pose proof (chain_bytes_len rd c Hc l bs Hbs) as Hlb. change MAX_DIRECTORY with 268435456 in *. rewrite mul64_lt by lia.
    rewrite (proj2 (Z.ltb_ge _ _)) by lia. pose proof (len_nonneg bs). rewrite <- Hlb, evals_bind, (good_chain_read rd c Hc cl l bs) by (done || lia).
    rewrite slice_all. cbn. exists rest. split; [|done]. replace (Z.to_nat (len bs / 32)) with (length (es ++ rest)).
    + rewrite <- (app_nil_r bs). unfold bs. f_equal. by rewrite entries_of_app.
    + unfold len. rewrite Hlen, Nat2Z.inj_mul, Z.mul_comm, Z.div_mul by done. lia.
  - assert (len bs = root_entries c * 32) as Hlb by (destruct Hc; eapply coherent_len; [|done]; lia).
    unfold div_roundup. assert (0 ≤ root_entries c < 2 ^ 16) as Hre by (destruct Hc; done). pose proof (block_range c Hc).
    rewrite add64_lt by lia. cbn [mbind option_bind]. set (n := (root_entries c * 32 + (B - 1)) / B).
    assert (root_entries c * 32 ≤ n * B < root_entries c * 32 + B) as Hn.
    { pose proof (Z.div_mod (root_entries c * 32 + (B - 1)) B ltac:(lia)). pose proof (Z.mod_pos_bound (root_entries c * 32 + (B - 1)) B ltac:(lia)). unfold n. lia. }
    rewrite mul64_lt by lia. change MAX_DIRECTORY with 268435456. rewrite (proj2 (Z.ltb_ge _ _)) by lia.
    rewrite evals_bind, evals_read, Hd. cbn. set (m := Z.to_nat (n * k - root_entries c)).
    assert (n * B = 32 * (n * k)) as HnB by (rewrite HB; ring).
    assert (Z.to_nat (n * B - len bs) = 32 * m)%nat as -> by lia.
    exists (rest ++ replicate m (replicate 32 0)). split.
    + assert (Forall (λ e, length e = 32%nat) (replicate m (replicate 32 0))) as Hz by (apply Forall_replicate; by rewrite length_replicate).
      assert (replicate (32 * m) 0 = concat (replicate m (replicate 32 0))) as ->.
      { clear. induction m as [|m IH]; [done|]. replace (32 * S m)%nat with (32 + 32 * m)%nat by lia. rewrite replicate_add. cbn [replicate concat]. by rewrite IH. }
      unfold bs. rewrite <- concat_app, <- (app_nil_r (concat _)). rewrite app_assoc. f_equal.
      replace (Z.to_nat (n * B / 32)) with (length ((es ++ rest) ++ replicate m (replicate 32 0))).
      * apply entries_of_app. by apply Forall_app.
      * rewrite HnB, (Z.mul_comm 32), Z.div_mul by done. rewrite length_app, length_replicate. unfold len in Hlb. lia.
    + destruct rest as [|e rest]; [|done]. by destruct m.
Qed.

Lemma open_in_ok ci loc d name : directory rd c loc d → name_ok name = true →
  evals rd (fat32_open_in c ci loc name) = fst <$> find_child ci name d.
Proof.
  intros [loc' d' rest Hd H32 He Hs _] Hn. destruct (read_directory_ok loc' (concat (map encode d')) rest Hd H32 He) as (rest' & Hr & He').
  unfold fat32_open_in. rewrite evals_bind, Hr. cbn. by apply find_slots.
Qed.

Lemma find_child_stored ci loc d name e a : directory rd c loc d → find_child ci name d = Some (e, a) → stored rd c e a.
Proof.
  intros [loc' d' rest _ _ _ _ Hch] Hf. assert (∃ long sum, In (Child long sum e a) d') as (long & sum & Hin); [|by eapply Hch].
  clear Hch. induction d' as [|[e'|long sum e' a'] d' IH]; cbn in Hf; [done| |].
  - destruct (IH Hf) as (long & sum & Hin). exists long, sum. by right.
  - destruct (name_matches ci name long e'); [injection Hf as -> ->; exists long, sum; by left|].
    destruct (IH Hf) as (long' & sum' & Hin). exists long', sum'. by right.
Qed.

(** ** Files *)

(** What opening gives for what is there.  A directory opens as an empty file. *)
Definition opened (n : option node) (h : option fat32_file_handle) : Prop :=
  match n with
  | None => h = None
  | Some n =>
      let data := match n with File data => data | Dir _ => [] end in
      ∃ f, h = Some f ∧ size_bytes f = len data ∧
        ∀ loc count, 0 ≤ loc → 0 ≤ count → loc + count ≤ len data → evals rd (fat32_read f loc count) = slice data loc count
  end.

Lemma stored_opened e n : stored rd c e n →
  opened (Some n) (let chain := default [] (evals rd (cache_cluster_chain c (entry_cluster c e))) in
    if len chain * B <? file_size_bytes e then None else Some (FatFile c (entry_cluster c e) (file_size_bytes e) chain)).
Proof.
  pose proof (block_range c Hc) as HB. assert (∀ cl chain size, size = 0 → ∃ f,
    (if len chain * B <? size then None else Some (FatFile c cl size chain)) = Some f ∧ size_bytes f = len (@nil Z) ∧
    ∀ loc count, 0 ≤ loc → 0 ≤ count → loc + count ≤ len (@nil Z) → evals rd (fat32_read f loc count) = slice [] loc count) as Hempty.
  { intros cl chain size ->. rewrite (proj2 (Z.ltb_ge _ _)) by (pose proof (len_nonneg chain); nia). eexists. split; [done|]. split; [done|].
    intros loc count Hl Hn Hsum. change (len []) with 0 in Hsum. assert (loc = 0) as -> by lia. assert (count = 0) as -> by lia. done. }
  intros [e' data Ha Hsz [->|(l & bs & Hl & Hbs)]|e' d Ha Hsz _]; cbv beta iota zeta delta [opened];
    [by apply Hempty| |by apply Hempty].
  rewrite (proj2 (good_chain_ok rd c Hc _ l) Hl). cbn [default]. change (id l) with l. pose proof (chain_bytes_len rd c Hc l _ Hbs) as Hlen.
  rewrite len_app in Hlen. pose proof (len_nonneg bs). rewrite Hsz, (proj2 (Z.ltb_ge _ _)) by lia. eexists. split; [done|]. split; [done|].
  intros loc count Hloc Hcount Hend. unfold fat32_read. cbn [context cluster_chain].
  rewrite (good_chain_read rd c Hc _ l (data ++ bs)) by (done || rewrite len_app; lia). by apply slice_app_l.
Qed.

Lemma stored_dir_attr e n : stored rd c e n → match n with File _ => Z.land (attribute e) FAT32_ATTRIBUTE_SUBDIRECTORY = 0
  | Dir d => Z.land (attribute e) FAT32_ATTRIBUTE_SUBDIRECTORY ≠ 0 ∧ directory rd c (Some (entry_cluster c e)) d end.
Proof. by intros []. Qed.

Lemma open_path_ok ci fuel loc d path : directory rd c loc d → Forall (λ s, name_ok s = true) (split_path path) →
  (length (split_path path) ≤ fuel)%nat →
  opened (if parts_fit (split_path path) then snd <$> resolve ci d (split_path path) else None) (evals rd (open_path fuel c ci loc path)).
Proof.
  revert loc d path. induction fuel as [|fuel IH]; intros loc d path Hd Hn Hf.
  { pose proof (split_path_nonempty path). destruct (split_path path); [done|cbn in Hf; lia]. }
  destruct (split_path path) as [|s r] eqn:Hs; [by apply split_path_nonempty in Hs|].
  pose proof (next_part_ok (Z.to_nat (FAT32_LFN_MAX_FILENAME_LENGTH - 1)) path s r Hs) as Hp. cbn [open_path].
  change (Z.of_nat (Z.to_nat (FAT32_LFN_MAX_FILENAME_LENGTH - 1))) with 260 in Hp. cbn [parts_fit forallb]. change (FAT32_LFN_MAX_FILENAME_LENGTH - 1) with 260 in *.
  apply Forall_cons in Hn as [Hn Hnr]. destruct (Z.leb_spec 260 (len s)) as [Hlong|Hlong].
  { rewrite Hp, (proj2 (Z.ltb_ge _ _)) by lia. done. }
  rewrite (proj2 (Z.ltb_lt _ _)) by lia. cbn [andb resolve]. pose proof (open_in_ok ci loc d s Hd Hn) as Hopen. destruct r as [|s' r].
  - rewrite Hp, evals_bind, Hopen. cbn [forallb]. destruct (find_child ci s d) as [[e n]|] eqn:Hfind; [|done]. cbn [fmap option_fmap option_map fst snd].
    rewrite evals_bind. cbn [evals mret rdr_ret]. apply stored_opened. by eapply find_child_stored.
  - destruct Hp as (p' & Hp & Hp'). rewrite Hp, evals_bind, Hopen. change (forallb _ (s' :: r)) with (parts_fit (s' :: r)). destruct (find_child ci s d) as [[e n]|] eqn:Hfind; cbn [fmap option_fmap option_map fst snd].
    2: { by destruct (parts_fit _). }
    pose proof (stored_dir_attr e n (find_child_stored ci loc d s e n Hd Hfind)) as Ha. destruct n as [data|d'].
    + rewrite Ha. cbn [Z.eqb]. by destruct (parts_fit _).
    + destruct Ha as [Ha Hd']. rewrite (proj2 (Z.eqb_neq _ _) Ha). rewrite <- Hp'. apply IH; [done|by rewrite Hp'|rewrite Hp'; cbn in *; lia].
Qed.
End proofs.

(** Opening a path in a tree. *)
Lemma fat_open_ok rd `{Hrd : !coherent rd} ps c ci d path : evals rd (fat32_init_context ps) = Some c → directory rd c (root_of c) d →
  Forall (λ s, name_ok s = true) (split_path (skip_slashes path)) →
  opened rd (lookup_path ci d path) (evals rd (fat32_open ps ci path)).
Proof.
  intros Hi Hd Hn. destruct (init_context_ok rd c ps Hi) as [Hc _]. unfold fat32_open. rewrite evals_bind, Hi.
  unfold lookup_path. cbv zeta. apply (open_path_ok rd c Hc); [done|done|apply split_path_length].
Qed.


(** ** A volume of 16 sectors: a directory [boot] with a file of a long name
    over two clusters, and an empty file. *)
Definition zeros (n : nat) : list Z := replicate n 0.
Definition short_entry (name : string) (attr cluster size : Z) : list Z :=
  lit name ++ [attr] ++ zeros 8 ++ zeros 2 ++ zeros 4 ++ le_bytes 2 cluster ++ le_bytes 4 size.
Definition pad (n : nat) (l : list Z) : list Z := l ++ zeros (n - length l).

Definition cfg_data : list Z := map (λ i, i mod 251) (seqZ 0 530).
Definition boot_slots : list (slot node) :=
  [Skip (short_entry ".          " 0x10 2 0); Skip (short_entry "..         " 0x10 0 0);
   Child (Some (lit "limine boot file.conf")) 77 (short_entry "LIMINE~1CON" 0x20 4 530) (File cfg_data)].
Definition root_slots : list (slot node) :=
  [Skip (short_entry "DISK       " 0x08 0 0); Skip (0xE5 :: drop 1 (short_entry "BOOT       " 0x10 9 0));
   Child None 0 (short_entry "EMPTY   TXT" 0x20 0 0) (File []);
   Child None 0 (short_entry "BOOT       " 0x10 2 0) (Dir boot_slots)].

Definition fat_boot_record : list Z :=
  pad 0x36 (zeros 11 ++ le_bytes 2 512 ++ [1] ++ le_bytes 2 1 ++ [1] ++ le_bytes 2 16 ++ le_bytes 2 16 ++ [0xF8] ++ le_bytes 2 1) ++ lit "FAT12   ".
Definition fat_table : list Z := [0xF8; 0xFF; 0xFF; 0xFF; 0x0F; 0x00; 5; 0xF0; 0xFF].
Definition root_bytes : list Z := concat (concat (map encode root_slots)).
Definition boot_bytes : list Z := concat (concat (map encode boot_slots)).
Definition fat_sector (n : Z) : list Z :=
  match n with
  | 0 => fat_boot_record | 1 => fat_table | 2 => root_bytes | 3 => boot_bytes
  | 5 => take 512 cfg_data | 6 => drop 512 cfg_data | _ => []
  end.
Definition fat_disk (d p : Z) : Z := u8 (default 0 (fat_sector (p / 512)).[p mod 512]).
Definition fat_volume : volume := Vol 0x80 4 false 512 None None 0 16.
Notation fat_int13 := (drive_int13 fat_disk 16).

Lemma fat_known : known fat_int13 fat_disk fat_volume.
Proof. split; [split; try done; [by right|apply drive_firmware]|by split|done]. Qed.

Notation fat_reads := (reads fat_int13 fat_disk fat_volume).
Definition fat_context : fat32_context := Fat 16 FAT12 512 1 1 1 0 1 1 3 0 16 2 1.

Lemma fat_context_read : evals fat_reads (fat32_init_context 16) = Some fat_context.
Proof. vm_compute. reflexivity. Qed.

Lemma cfg_at : data_at fat_reads fat_context 4 cfg_data.
Proof.
  right. exists [4; 5], (zeros 494). split; [|vm_compute; reflexivity]. split; [by vm_compute|]. split; [|split; [by vm_compute|]].
  - eapply (chain_cons _ _ _ 5); [vm_compute; reflexivity|by vm_compute|]. eapply (chain_last _ _ _ 0xFFF); [vm_compute; reflexivity|by right; vm_compute].
  - exists 14. split; [vm_compute; reflexivity|]. by repeat constructor; vm_compute.
Qed.

Lemma boot_directory : directory fat_reads fat_context (Some 2) boot_slots.
Proof.
  apply (directory_intro _ _ _ _ (replicate 11 (zeros 32))); [| |by vm_compute|vm_compute; reflexivity|].
  - exists [2]. split; [|split; [vm_compute; reflexivity|by vm_compute]]. split; [by vm_compute|]. split; [|split; [by vm_compute|]].
    + eapply (chain_last _ _ _ 0xFFF); [vm_compute; reflexivity|by right; vm_compute].
    + exists 14. split; [vm_compute; reflexivity|]. by repeat constructor; vm_compute.
  - vm_compute. repeat constructor.
  - intros long sum e a. cbn [In boot_slots]. intros [?|[?|[[= <- <- <- <-]|[]]]]; [done|done|].
    apply stored_file; [vm_compute; reflexivity|vm_compute; reflexivity|]. exact cfg_at.
Qed.

Lemma root_directory : directory fat_reads fat_context None root_slots.
Proof.
  apply (directory_intro _ _ _ _ (replicate 12 (zeros 32))); [vm_compute; reflexivity|vm_compute; repeat constructor|by vm_compute|vm_compute; reflexivity|].
  intros long sum e a. cbn [In root_slots]. intros [?|[?|[[= <- <- <- <-]|[[= <- <- <- <-]|[]]]]]; [done|done| |].
  - apply stored_file; [vm_compute; reflexivity|vm_compute; reflexivity|by left].
  - apply stored_dir; [by vm_compute|vm_compute; reflexivity|]. exact boot_directory.
Qed.

