(* ===== verification/Iso9660.v ===== *)
(** The ISO 9660 file system, [limine/common/fs/iso9660.s2.c]: the primary
    volume descriptor, directories with Rock Ridge names, files of several
    extents.

    A directory is its bytes and an entry its offset in them; an access outside
    the directory is [Wild].  Functions that read the volume and may panic are
    programs with an outcome, put together by [ ←! ]. *)
From S2P Require Import Prelude Libc Outcome Volume Part Fat.
From stdpp Require Import strings.
Open Scope list_scope.
Open Scope Z_scope.

(** What comes after an outcome. *)
Definition after {A B} (f : A → rdr (out B)) (o : out A) : rdr (out B) :=
  match o with Ret a => f a | Panic msg => Done (Panic msg) | Wild => Done Wild end.
Notation "x ←! p ; q" := (p ≫= after (λ x : _, q)) (at level 20, p at level 100, q at level 200, only parsing).

Definition ISO9660_SECTOR_SIZE : Z := 2048.
Definition ISO9660_FLAG_DIRECTORY : Z := 0x02.
Definition ISO9660_FLAG_MULTI_EXTENT : Z := 0x80.
Definition ISO9660_FIRST_VOLUME_DESCRIPTOR : Z := 0x10.
Definition ROCK_RIDGE_MAX_FILENAME : Z := 255.
Definition ISO9660_MAX_EXTENT_COUNT : Z := 65536.
Definition ISO9660_MAX_VOLUME_DESCRIPTORS : Z := 256.
Definition ISO9660_MAX_DIR_SIZE : Z := 64 * 1024 * 1024.

Record iso9660_extent := Extent { LBA : Z; e_size : Z }.
Record iso9660_file_handle := IsoFile { total_size : Z; extents : list iso9660_extent }.

(** The size of [struct iso9660_directory_entry] and its fields. *)
Definition ENTRY_SIZE : Z := 33.
Definition entry_field (d : list Z) (e o n : Z) : out Z := bs ← lift (slice d (e + o) n); Ret (le_val bs).
Definition iso_length (d : list Z) (e : Z) : out Z := entry_field d e 0 1.
Definition extent_little (d : list Z) (e : Z) : out Z := entry_field d e 2 4.
Definition extent_size_little (d : list Z) (e : Z) : out Z := entry_field d e 10 4.
Definition flags (d : list Z) (e : Z) : out Z := entry_field d e 25 1.
Definition filename_size (d : list Z) (e : Z) : out Z := entry_field d e 32 1.

(** ** The primary volume descriptor *)
Fixpoint find_PVD (n : nat) (lba : Z) : rdr (option (list Z)) :=
  match n with
  | O => mret None
  | S n =>
      r ← vread (lba * ISO9660_SECTOR_SIZE) 2048;
      match r with
      | None => mret None
      | Some desc =>
          let type := field desc 0 1 in
          if type =? 1 then mret (if field desc 6 1 =? 1 then Some desc else None)
          else if type =? 255 then mret None
          else find_PVD n (lba + 1)
      end
  end.
Definition iso9660_find_PVD : rdr (option (list Z)) :=
  find_PVD (Z.to_nat ISO9660_MAX_VOLUME_DESCRIPTORS) ISO9660_FIRST_VOLUME_DESCRIPTOR.

Definition bad_dir_size (size : Z) : bool :=
  (size =? 0) || (ISO9660_MAX_DIR_SIZE <? size) || negb (size mod ISO9660_SECTOR_SIZE =? 0).

(** The root directory; its entry is at 156 in the descriptor. *)
Definition iso9660_cache_root : rdr (out (option (list Z))) :=
  r ← iso9660_find_PVD;
  match r with
  | None => mret (Ret None)
  | Some pv =>
      let root_size := field pv 166 4 in
      if bad_dir_size root_size then mret (Panic "ISO9660: Invalid root directory size") else
      r ← vread (field pv 158 4 * ISO9660_SECTOR_SIZE) root_size;
      mret (match r with None => Panic "ISO9660: failed to read root directory" | Some root => Ret (Some root) end)
  end.

(** [context] is the root of the volume when it is kept already. *)
Definition iso9660_get_context (context : option (list Z)) : rdr (out (option (list Z))) :=
  match context with Some root => mret (Ret (Some root)) | None => iso9660_cache_root end.

(** ** Names *)

(** The Rock Ridge fields from [area] on, [area_len] bytes; the name so far and
    whether there was one. *)
Fixpoint rock_ridge (fuel : nat) (limit : Z) (d : list Z) (area area_len : Z) (name : list Z) (found_nm : bool) : out (bool * list Z) :=
  match fuel with
  | O => Wild
  | S fuel =>
      if area_len <? 4 then Ret (found_nm, name) else
      version ← get d (area + 3);
      if negb (version =? 1) then Ret (found_nm, name) else
      l ← get d (area + 2);
      if (area_len <? l) || (l =? 0) then Ret (found_nm, name) else
      s0 ← get d area;
      s1 ← get d (area + 1);
      if (s0 =? 78) && (s1 =? 77) && (5 <=? l) then
        let frag_len := l - 5 in
        if limit <=? len name + frag_len then Panic "iso9660: Filename size exceeded" else
        frag ← lift (slice d (area + 5) frag_len);
        fl ← get d (area + 4);
        if Z.land fl 1 =? 0 then Ret (true, name ++ frag)
        else rock_ridge fuel limit d (area + l) (area_len - l) (name ++ frag) true
      else rock_ridge fuel limit d (area + l) (area_len - l) name found_nm
  end.

(** The name of the standard, without its version, from character [j] on. *)
Fixpoint iso_name (n : nat) (d : list Z) (at_ j name_len : Z) (name : list Z) : out (list Z) :=
  match n with
  | O => Ret name
  | S n =>
      if name_len <=? j then Ret name else
      c ← get d (at_ + j);
      if c =? 59 then Ret name else
      stop ← (if (c =? 46) && (j + 1 <? name_len) then c' ← get d (at_ + (j + 1)); Ret (c' =? 59) else Ret false);
      if stop : bool then Ret name else iso_name n d at_ (j + 1) name_len (name ++ [c])
  end.

(** Whether the name is one of Rock Ridge, and the name. *)
Definition load_name (limit : Z) (d : list Z) (entry : Z) : out (bool * list Z) :=
  length ← iso_length d entry;
  fs ← filename_size d entry;
  '(found_nm, name) ←
    (if length <? ENTRY_SIZE + fs then Ret (false, []) else
     let sysarea := entry + ENTRY_SIZE + fs in
     let sysarea_len := length - ENTRY_SIZE - fs in
     if Z.land fs 1 =? 0 then
       if sysarea_len =? 0 then Ret (false, [])
       else rock_ridge 256 limit d (sysarea + 1) (sysarea_len - 1) [] false
     else rock_ridge 256 limit d sysarea sysarea_len [] false);
  if found_nm : bool then Ret (true, c_string name) else
  if limit <=? fs then Panic "iso9660: Filename size exceeded" else
  let name_len := if length <? ENTRY_SIZE + fs then (if length <=? ENTRY_SIZE then 0 else length - ENTRY_SIZE) else fs in
  name ← iso_name (Z.to_nat name_len) d (entry + ENTRY_SIZE) 0 name_len [];
  Ret (false, c_string name).

(** ** Directories *)
Definition next_sector (o : Z) : Z := (o + 1 + (ISO9660_SECTOR_SIZE - 1)) / ISO9660_SECTOR_SIZE * ISO9660_SECTOR_SIZE.

(** The buffer is at the start of a page. *)
Definition iso9660_next_entry (d : list Z) (current : Z) : out (option Z) :=
  l ← iso_length d current;
  if l =? 0 then
    let o := next_sector current in
    if len d <=? o then Ret None else
    l ← iso_length d o; Ret (if l =? 0 then None else Some o)
  else
  let next := current + l in
  if len d <=? next then Ret None else
  nl ← iso_length d next;
  entry ← (if nl =? 0 then
             let o := next_sector next in
             if len d <=? o then Ret None else
             l ← iso_length d o; Ret (if l =? 0 then None else Some o)
           else Ret (Some next));
  match entry with
  | None => Ret None
  | Some e =>
      l ← iso_length d e;
      Ret (if (l <? ENTRY_SIZE) || (len d - e <? l) then None else Some e)
  end.

(** From [buffer] on; [size] bytes are left. *)
Fixpoint find_loop (fuel : nat) (ci : bool) (d : list Z) (buffer size : Z) (filename : list Z) : out (option Z) :=
  match fuel with
  | O => Wild
  | S fuel =>
      if size =? 0 then Ret None else
      l ← iso_length d buffer;
      if l =? 0 then
        if size <=? ISO9660_SECTOR_SIZE then Ret None else
        let aligned := size - size mod ISO9660_SECTOR_SIZE in
        if size =? aligned then find_loop fuel ci d (buffer + ISO9660_SECTOR_SIZE) (size - ISO9660_SECTOR_SIZE) filename
        else find_loop fuel ci d (buffer + (size - aligned)) aligned filename
      else if size <? l then Ret None
      else if l <? ENTRY_SIZE then Ret None
      else
        '(rr, name) ← load_name 256 d buffer;
        if same_name (negb (rr && negb ci)) filename name then Ret (Some buffer)
        else find_loop fuel ci d (buffer + l) (size - l) filename
  end.
Definition iso9660_find (ci : bool) (d : list Z) (filename : list Z) : out (option Z) :=
  find_loop (S (length d)) ci d 0 (len d) filename.

(** ** Files *)

(** How many extents there are from entry [e] on, and their size. *)
Fixpoint count_extents (n : nat) (d : list Z) (base_name : list Z) (e extent_count total : Z) : out (Z * Z) :=
  match n with
  | O => Ret (extent_count, total)
  | S n =>
      fl ← flags d e;
      if Z.land fl ISO9660_FLAG_MULTI_EXTENT =? 0 then Ret (extent_count, total) else
      next ← iso9660_next_entry d e;
      match next with
      | None => Ret (extent_count, total)
      | Some next =>
          '(_, next_name) ← load_name 256 d next;
          if bool_decide (base_name = []) || negb (bool_decide (base_name = next_name)) then Ret (extent_count, total) else
          size ← extent_size_little d next;
          count_extents n d base_name next (extent_count + 1) (total + size)
      end
  end.

(** The extents of [n] entries; those that are missing stay zero. *)
Fixpoint fill_extents (n : nat) (d : list Z) (e : Z) : out (list iso9660_extent) :=
  match n with
  | O => Ret []
  | S n =>
      lba ← extent_little d e;
      size ← extent_size_little d e;
      rest ← (match n with
              | O => Ret []
              | S _ =>
                  next ← iso9660_next_entry d e;
                  match next with
                  | None => Ret (replicate n (Extent 0 0))
                  | Some next => fill_extents n d next
                  end
              end);
      Ret (Extent lba size :: rest)
  end.

Definition collect_extents (d : list Z) (entry : Z) : out iso9660_file_handle :=
  size ← extent_size_little d entry;
  '(_, base_name) ← load_name 256 d entry;
  '(extent_count, total) ← count_extents (Z.to_nat (ISO9660_MAX_EXTENT_COUNT - 1)) d base_name entry 1 size;
  es ← fill_extents (Z.to_nat extent_count) d entry;
  Ret (IsoFile total es).

(** The part in front of the next slash and what is from there on; none is the
    panic over its length. *)
Fixpoint component (n : nat) (path : list Z) : option (list Z * list Z) :=
  match path with
  | [] => Some ([], [])
  | c :: p =>
      if c =? 47 then Some ([], path) else
      match n with
      | O => None
      | S n => '(name, rest) ← component n p; Some (c :: name, rest)
      end
  end.

Fixpoint iso_walk (fuel : nat) (ci : bool) (current : list Z) (path : list Z) : rdr (out (option iso9660_file_handle)) :=
  match fuel with
  | O => mret Wild
  | S fuel =>
      let path := skip_slashes path in
      if bool_decide (path = []) then mret (Ret None) else
      match component (Z.to_nat (ROCK_RIDGE_MAX_FILENAME - 1)) path with
      | None => mret (Panic "iso9660: Path component exceeds maximum length")
      | Some (filename, path) =>
          entry ←! mret (iso9660_find ci current filename);
          match entry with
          | None => mret (Ret None)
          | Some entry =>
              next_sect ←! mret (extent_little current entry);
              next_size ←! mret (extent_size_little current entry);
              fl ←! mret (flags current entry);
              match path with
              | [] => h ←! mret (collect_extents current entry); mret (Ret (Some h))
              | _ :: path =>
                  if Z.land fl ISO9660_FLAG_DIRECTORY =? 0 then mret (Ret None) else
                  if bad_dir_size next_size then mret (Ret None) else
                  r ← vread (next_sect * ISO9660_SECTOR_SIZE) next_size;
                  match r with
                  | None => mret (Ret None)
                  | Some directory => iso_walk fuel ci directory path
                  end
              end
          end
      end
  end.

(** The handle, and the root when it is kept from now on. *)
Definition iso9660_open (context : option (list Z)) (ci : bool) (path : list Z) : rdr (out (option iso9660_file_handle * option (list Z))) :=
  r ← vread (ISO9660_FIRST_VOLUME_DESCRIPTOR * ISO9660_SECTOR_SIZE + 1) 5;
  match r with
  | None => mret (Ret (None, context))
  | Some buf =>
      if negb (bool_decide (buf = lit "CD001")) then mret (Ret (None, context)) else
      root ←! iso9660_get_context context;
      match root with
      | None => mret (Ret (None, context))
      | Some root => h ←! iso_walk (S (length path)) ci root path; mret (Ret (h, Some root))
      end
  end.

(** The extents from here on, the first of which starts at [extent_start]. *)
Fixpoint read_extents (es : list iso9660_extent) (extent_start loc count : Z) (got : list Z) : rdr (out (list Z)) :=
  match es with
  | [] => mret (if 0 <? count then Panic "iso9660: read beyond end of file" else Ret got)
  | e :: es =>
      if count <=? 0 then mret (Ret got) else
      let extent_end := extent_start + e_size e in
      if loc <? extent_end then
        let offset_in_extent := if extent_start <? loc then loc - extent_start else 0 in
        let bytes_available := e_size e - offset_in_extent in
        let to_read := if count <? bytes_available then count else bytes_available in
        r ← vread (LBA e * ISO9660_SECTOR_SIZE + offset_in_extent) to_read;
        match r with
        | None => mret (Panic "iso9660: failed to read file data")
        | Some bs => read_extents es extent_end (loc + to_read) (count - to_read) (got ++ bs)
        end
      else read_extents es extent_end loc count got
  end.
Definition iso9660_read (f : iso9660_file_handle) (loc count : Z) : rdr (out (list Z)) := read_extents (extents f) 0 loc count [].
