(* ===== verification/IsoSafe.v ===== *)
(** Opening a path on an ISO 9660 volume ends and stays inside the directories
    it reads, whatever they hold. *)
From S2P Require Import Prelude Libc Outcome Volume VolumeProofs Part PartProofs Reader Fat FatChain Iso9660.
From stdpp Require Import strings.
Open Scope list_scope.
Open Scope Z_scope.

(** An entry with all its bytes in the directory. *)
Definition entry_in (d : list Z) (e : Z) : Prop := ∃ l, d.[e] = Some l ∧ ENTRY_SIZE ≤ l ∧ e + l ≤ len d.

Section directory.
Context (d : list Z) (Hd : is_bytes d).

Lemma entry_field_safe e o n : 0 ≤ e + o → 0 ≤ n → e + o + n ≤ len d → safe (entry_field d e o n) (λ x, 0 ≤ x < 2 ^ (8 * n)).
Proof.
  intros He Hn Hl. unfold entry_field. rewrite slice_lt by lia. cbn [lift mbind out_bind safe].
  assert (is_bytes (take (Z.to_nat n) (drop (Z.to_nat (e + o)) d))) as Hb by (by apply Forall_take, Forall_drop).
  pose proof (le_val_range _ Hb) as Hr. unfold len in *. rewrite length_take, length_drop in Hr.
  replace (Z.of_nat (Z.to_nat n `min` (length d - Z.to_nat (e + o)))) with n in Hr by lia. done.
Qed.

Lemma iso_length_get e : 0 ≤ e < len d → ∃ l, d.[e] = Some l ∧ iso_length d e = Ret l ∧ 0 ≤ l < 256.
Proof.
  intros He. destruct (arr_get_lt d e He) as (l & Hl). exists l. split; [done|].
  pose proof (is_bytes_get d e l Hd Hl) as Hw. split; [|done]. unfold iso_length, entry_field. rewrite Z.add_0_r, slice_lt by lia. cbn [lift mbind out_bind].
  unfold arr_get in Hl. rewrite decide_True in Hl by lia. change (Z.to_nat 1) with 1%nat. rewrite (drop_S _ _ _ Hl).
  change (Ret (l + 256 * 0) = Ret l). f_equal. lia.
Qed.

Lemma entry_range e : entry_in d e → 0 ≤ e ∧ e + ENTRY_SIZE ≤ len d ∧ ∃ l, iso_length d e = Ret l ∧ d.[e] = Some l ∧ ENTRY_SIZE ≤ l < 256 ∧ e + l ≤ len d.
Proof.
  intros (l & Hl & H1 & H2). pose proof (arr_get_Some_lt _ _ _ Hl). destruct (iso_length_get e ltac:(lia)) as (l' & Hl' & He & ?).
  assert (l' = l) as -> by congruence. split; [lia|]. split; [lia|]. exists l. split; [done|]. split; [done|]. lia.
Qed.

(** ** Names *)
Lemma rock_ridge_safe fuel limit area area_len name found : 0 ≤ area → 0 ≤ area_len → area + area_len ≤ len d → area_len < Z.of_nat fuel →
  len name < limit → safe (rock_ridge fuel limit d area area_len name found) (λ '(_, name), len name < limit).
Proof.
  revert area area_len name found. induction fuel as [|fuel IH]; intros area area_len name found Ha Hl Hsum Hf Hn; [lia|]. cbn [rock_ridge].
  destruct (Z.ltb_spec area_len 4); [done|]. apply safe_bind_get; [lia|]. intros v _. destruct (negb _); [done|].
  apply safe_bind_get; [lia|]. intros l Hlb. pose proof (is_bytes_get _ _ _ Hd Hlb) as [Hl0 _]. destruct ((area_len <? l) || (l =? 0)) eqn:Hbad; [done|].
  apply orb_false_iff in Hbad as [H1%Z.ltb_ge H2%Z.eqb_neq]. apply safe_bind_get; [lia|]. intros s0 _. apply safe_bind_get; [lia|]. intros s1 _.
  destruct (_ && _) eqn:Hnm; [|apply IH; lia]. apply andb_true_iff in Hnm as [_ Hnm%Z.leb_le]. cbv zeta.
  destruct (Z.leb_spec limit (len name + (l - 5))); [done|]. rewrite slice_lt by lia. cbn [lift mbind out_bind].
  set (frag := take _ _). assert (len (name ++ frag) < limit) as Hfrag.
  { rewrite len_app. unfold frag, len in *. rewrite length_take, length_drop. lia. }
  clearbody frag. apply safe_bind_get; [lia|]. intros fl _. destruct (_ =? 0); [done|]. apply IH; lia.
Qed.

Lemma iso_name_safe n at_ j name_len name : 0 ≤ at_ → 0 ≤ j → at_ + name_len ≤ len d → safe (iso_name n d at_ j name_len name) (λ _, True).
Proof.
  intros Ha. revert j name. induction n as [|n IH]; intros j name Hj Hl; cbn [iso_name]; [done|]. destruct (Z.leb_spec name_len j); [done|].
  apply safe_bind_get; [lia|]. intros c _. destruct (c =? 59); [done|].
  apply (safe_bind _ _ (λ _, True)).
  - destruct ((c =? 46) && (j + 1 <? name_len)) eqn:Hs; [|done]. apply andb_true_iff in Hs as [_ Hs%Z.ltb_lt]. apply safe_bind_get; [lia|]. done.
  - intros [|] _; [done|]. apply IH; lia.
Qed.

Lemma load_name_safe limit e : entry_in d e → 0 < limit → safe (load_name limit d e) (λ _, True).
Proof.
  intros (He & Hr & l & Hlen & _ & Hl & Hend)%entry_range Hlim. unfold load_name. rewrite Hlen. cbn [mbind out_bind].
  unfold ENTRY_SIZE in *. eapply safe_bind; [apply entry_field_safe; lia|]. cbv beta. intros fs Hfs. change (8 * 1) with 8 in Hfs.
  eapply (safe_bind _ _ (λ _, True)).
  - destruct (Z.ltb_spec l (33 + fs)); [done|]. cbv zeta. destruct (_ =? 0).
    + destruct (Z.eqb_spec (l - 33 - fs) 0); [done|]. eapply safe_weaken; [apply rock_ridge_safe; try lia; exact Hlim|]. by intros [].
    + eapply safe_weaken; [apply rock_ridge_safe; try lia; exact Hlim|]. by intros [].
  - intros [found name] _. destruct found; [done|]. destruct (Z.leb_spec limit fs); [done|].
    eapply safe_bind; [apply iso_name_safe; try lia|done].
    destruct (Z.ltb_spec l (33 + fs)); [|lia]. destruct (Z.leb_spec l 33); lia.
Qed.

(** ** Going through a directory *)
Lemma next_sector_gt o : 0 ≤ o → o < next_sector o.
Proof.
  intros Ho. unfold next_sector. change ISO9660_SECTOR_SIZE with 2048.
  pose proof (Z.div_mod (o + 1 + (2048 - 1)) 2048 ltac:(done)). pose proof (Z.mod_pos_bound (o + 1 + (2048 - 1)) 2048 ltac:(done)). lia.
Qed.

Lemma next_entry_safe e : entry_in d e → safe (iso9660_next_entry d e) (λ r, match r with Some e' => entry_in d e' | None => True end).
Proof.
  intros (He & Hr & l & Hlen & _ & Hl & Hend)%entry_range. unfold iso9660_next_entry. rewrite Hlen. cbn [mbind out_bind]. unfold ENTRY_SIZE in *.
  rewrite (proj2 (Z.eqb_neq _ _)) by lia. destruct (Z.leb_spec (len d) (e + l)); [done|].
  destruct (iso_length_get (e + l) ltac:(lia)) as (nl & _ & -> & _). cbn [mbind out_bind].
  apply (safe_bind _ _ (λ r, match r with Some e' => 0 ≤ e' < len d | None => True end)).
  - destruct (nl =? 0); [|cbn [safe]; lia]. pose proof (next_sector_gt (e + l) ltac:(lia)). destruct (Z.leb_spec (len d) (next_sector (e + l))); [done|].
    destruct (iso_length_get (next_sector (e + l)) ltac:(lia)) as (l2 & _ & -> & _). cbn [mbind out_bind]. destruct (l2 =? 0); cbn [safe]; [done|lia].
  - intros [e'|] He'; [|done]. destruct (iso_length_get e' He') as (l2 & Hg & -> & _). cbn [mbind out_bind]. destruct (_ || _) eqn:Hbad; cbn [safe]; [done|].
    apply orb_false_iff in Hbad as [H1%Z.ltb_ge H2%Z.ltb_ge]. exists l2. split; [done|]. split; [done|lia].
Qed.

Lemma find_loop_safe fuel ci buffer size filename : 0 ≤ buffer → 0 ≤ size < Z.of_nat fuel → buffer + size = len d →
  safe (find_loop fuel ci d buffer size filename) (λ r, match r with Some e => entry_in d e | None => True end).
Proof.
  revert buffer size. induction fuel as [|fuel IH]; intros buffer size Hb Hs Hsum; [lia|]. cbn [find_loop].
  destruct (Z.eqb_spec size 0); [done|]. destruct (iso_length_get buffer ltac:(lia)) as (l & Hl & -> & Hlr). cbn [mbind out_bind].
  destruct (Z.eqb_spec l 0).
  - change ISO9660_SECTOR_SIZE with 2048. destruct (Z.leb_spec size 2048); [done|]. pose proof (Z.mod_pos_bound size 2048 ltac:(done)).
    cbv zeta. destruct (Z.eqb_spec size (size - size mod 2048)); apply IH; lia.
  - destruct (Z.ltb_spec size l); [done|]. destruct (Z.ltb_spec l ENTRY_SIZE); [done|].
    assert (entry_in d buffer) as Hin by (exists l; split; [done|lia]).
    eapply safe_bind; [by apply load_name_safe|]. intros [rr name] _. destruct (same_name _ _ _); [done|]. apply IH; lia.
Qed.

Lemma iso_find_safe ci filename : safe (iso9660_find ci d filename) (λ r, match r with Some e => entry_in d e | None => True end).
Proof. apply find_loop_safe; unfold len; lia. Qed.

(** ** Extents *)
Definition extents_size (es : list iso9660_extent) : Z := foldr (λ x s, e_size x + s) 0 es.

Definition extent_ok (x : iso9660_extent) : Prop := is_word 32 (LBA x) ∧ is_word 32 (e_size x).

Lemma field_32_safe e o : entry_in d e → 0 ≤ o → o + 4 ≤ ENTRY_SIZE → safe (entry_field d e o 4) (is_word 32).
Proof. intros (He & Hr & _)%entry_range Ho Ho'. apply (entry_field_safe e o 4); lia. Qed.

(** The second pass finds as many entries as the first one, with its total. *)
Lemma extents_safe n e base extent_count total : entry_in d e →
  safe (count_extents n d base e extent_count total) (λ '(c, t), extent_count ≤ c ≤ extent_count + Z.of_nat n ∧ ∀ k, k = Z.to_nat (c - extent_count) →
    safe (fill_extents (S k) d e) (λ es, length es = S k ∧ Forall extent_ok es ∧
      ∀ x, extent_size_little d e = Ret x → t = total - x + extents_size es)).
Proof.
  revert e extent_count total. induction n as [|n IH]; intros e extent_count total He; cbn [count_extents].
  all: assert (∀ k, k = Z.to_nat (extent_count - extent_count) → safe (fill_extents (S k) d e) (λ es, length es = S k ∧ Forall extent_ok es ∧
      ∀ x, extent_size_little d e = Ret x → total = total - x + extents_size es)) as Hone by
    (intros k ->; replace (Z.to_nat (extent_count - extent_count)) with 0%nat by lia; cbn [fill_extents]; unfold extent_little, extent_size_little;
     (eapply safe_bind; [apply field_32_safe; unfold ENTRY_SIZE; done || lia|]); cbv beta; intros lba Hlba;
     pose proof (field_32_safe e 10 He ltac:(lia) ltac:(done)) as Hsz; destruct (entry_field d e 10 4) as [sz| |]; [|done|done];
     cbn; split; [done|]; (split; [constructor; [by split|constructor]|]); intros x [= <-]; lia).
  { cbn [safe]. split; [lia|]. exact Hone. }
  destruct (entry_range e He) as (He0 & Her & _). eapply safe_bind; [apply (entry_field_safe e 25 1); unfold ENTRY_SIZE in *; lia|]. cbv beta. intros fl _.
  destruct (_ =? 0); [cbn [safe]; split; [lia|exact Hone]|]. pose proof (next_entry_safe e He) as Hnext.
  destruct (iso9660_next_entry d e) as [[e'|]| |] eqn:Hne; cbn [mbind out_bind]; [|cbn [safe]; split; [lia|exact Hone]|done|done]. cbn [safe] in Hnext.
  eapply safe_bind; [by apply load_name_safe|]. intros [rr nm] _. destruct (_ || _); [cbn [safe]; split; [lia|exact Hone]|].
  pose proof (field_32_safe e' 10 Hnext ltac:(lia) ltac:(done)) as Hsz. unfold extent_size_little at 1.
  destruct (entry_field d e' 10 4) as [sz| |] eqn:Hszeq; [|done|done]. cbn [mbind out_bind].
  eapply safe_weaken; [by apply IH|]. cbv beta. intros [c t] [Hc Ht]. split; [lia|]. intros k Hk. specialize (Ht (Nat.pred k) ltac:(lia)).
  destruct k as [|k]; [lia|]. cbn [Nat.pred] in Ht. cbn [fill_extents]. unfold extent_little, extent_size_little at 1.
  eapply safe_bind; [apply field_32_safe; unfold ENTRY_SIZE; done || lia|]. cbv beta. intros lba Hlba.
  pose proof (field_32_safe e 10 He ltac:(lia) ltac:(done)) as Hsz0. unfold extent_size_little. destruct (entry_field d e 10 4) as [sz0| |]; [|done|done].
  cbn [mbind out_bind]. rewrite Hne. cbn [mbind out_bind]. cbn [fill_extents] in Ht. eapply safe_bind; [exact Ht|]. cbv beta. intros es (Hes & Hok & Htot).
  cbn [safe]. split; [cbn; lia|]. split; [by constructor|]. intros x [= <-]. cbn [extents_size foldr e_size]. specialize (Htot sz Hszeq). fold (extents_size es). lia.
Qed.

Lemma collect_safe e : entry_in d e → safe (collect_extents d e) (λ f, total_size f = extents_size (extents f) ∧ Forall extent_ok (extents f)).
Proof.
  intros He. unfold collect_extents. pose proof (field_32_safe e 10 He ltac:(lia) ltac:(done)) as Hsz. unfold extent_size_little.
  destruct (entry_field d e 10 4) as [sz| |] eqn:Hs; [|done|done]. cbn [mbind out_bind].
  eapply safe_bind; [by apply load_name_safe|]. intros [rr nm] _. eapply safe_bind; [by apply extents_safe|]. cbv beta. intros [c t] [Hc Ht].
  specialize (Ht (Z.to_nat (c - 1)) eq_refl). replace (S (Z.to_nat (c - 1))) with (Z.to_nat c) in Ht by lia.
  eapply safe_bind; [exact Ht|]. cbv beta. intros es (_ & Hok & Htot). cbn [safe total_size extents]. split; [|done]. rewrite (Htot sz Hs). lia.
Qed.
End directory.

Section volume.
Context (rd : Z → Z → option (list Z)) `{Hrd : !coherent rd}.

Definition handle_ok (f : iso9660_file_handle) : Prop := total_size f = extents_size (extents f) ∧ Forall extent_ok (extents f).

(** A program whose outcome comes first. *)
Lemma evals_after {A B} (p : rdr (out A)) (f : A → rdr (out B)) (P : A → Prop) (Q : B → Prop) :
  safe (evals rd p) P → (∀ a, P a → safe (evals rd (f a)) Q) → safe (evals rd (p ≫= after f)) Q.
Proof. intros Hp Hf. rewrite evals_bind. destruct (evals rd p); [by apply Hf|done|done]. Qed.

Lemma component_length n path name rest : component n path = Some (name, rest) → path ≠ [] → head path ≠ Some 47 → (length rest < length path)%nat.
Proof.
  intros Hc Hne Hh. assert (∀ n path name rest, component n path = Some (name, rest) → (length rest ≤ length path)%nat) as Hle.
  { clear. intros n path. revert n. induction path as [|c path IH]; intros n name rest; [by destruct n; intros [= <- <-]|].
    destruct n as [|n]; cbn [component]; (destruct (c =? 47); [by intros [= <- <-]|]); [done|].
    destruct (component n path) as [[name' rest']|] eqn:Hc; cbn [mbind option_bind]; [|done]. intros [= <- <-]. specialize (IH _ _ _ Hc). cbn [length]. lia. }
  destruct path as [|c path]; [done|]. assert (c ≠ 47) as Hc47 by (intros ->; by apply Hh).
  destruct n as [|n]; cbn [component] in Hc; rewrite (proj2 (Z.eqb_neq _ _) Hc47) in Hc; [done|].
  destruct (component n path) as [[name' rest']|] eqn:Hc'; cbn [mbind option_bind] in Hc; [|done]. injection Hc as <- <-. specialize (Hle _ _ _ _ Hc').
  cbn [length]. lia.
Qed.

Lemma skip_slashes_head path : head (skip_slashes path) ≠ Some 47.
Proof. induction path as [|c path IH]; cbn; [done|]. destruct (Z.eqb_spec c 47); [done|]. cbn. congruence. Qed.

Lemma skip_slashes_length path : (length (skip_slashes path) ≤ length path)%nat.
Proof. induction path as [|c path IH]; cbn; [done|]. destruct (c =? 47); cbn; lia. Qed.

Lemma walk_safe fuel ci d path : is_bytes d → (length path < fuel)%nat →
  safe (evals rd (iso_walk fuel ci d path)) (λ h, match h with Some f => handle_ok f | None => True end).
Proof.
  revert d path. induction fuel as [|fuel IH]; intros d path Hd Hf; [lia|]. cbn [iso_walk].
  pose proof (skip_slashes_head path) as Hh. pose proof (skip_slashes_length path). set (p := skip_slashes path) in *. clearbody p.
  case_bool_decide as Hp; [done|]. destruct (component _ p) as [[filename rest]|] eqn:Hc; [|done].
  pose proof (component_length _ _ _ _ Hc Hp Hh) as Hlen.
  eapply evals_after; [apply (iso_find_safe d Hd)|]. intros [e|] He; [|done]. pose proof (entry_range d Hd e He) as (He0 & Her & _). unfold ENTRY_SIZE in Her.
  eapply evals_after; [apply (field_32_safe d Hd e 2 He); unfold ENTRY_SIZE; lia|]. intros ns Hns.
  eapply evals_after; [apply (field_32_safe d Hd e 10 He); unfold ENTRY_SIZE; lia|]. intros size Hsize.
  eapply evals_after; [apply (entry_field_safe d Hd e 25 1); lia|]. intros fl _. destruct rest as [|c rest].
  - eapply evals_after; [by apply collect_safe|]. intros f Hok. exact Hok.
  - destruct (_ =? 0); [done|]. destruct (bad_dir_size size); [done|]. rewrite evals_bind, evals_read.
    destruct (rd _ size) as [d'|] eqn:Hr; [|done]. apply IH; [by eapply coherent_bytes|]. cbn [length] in Hlen. lia.
Qed.

Lemma cache_root_safe : safe (evals rd iso9660_cache_root) (λ r, match r with Some root => is_bytes root | None => True end).
Proof.
  unfold iso9660_cache_root. rewrite evals_bind. destruct (evals rd iso9660_find_PVD) as [pv|]; [|done]. cbv zeta. destruct (bad_dir_size _); [done|].
  rewrite evals_bind, evals_read. destruct (rd _ _) as [root|] eqn:Hr; [|done]. cbn. by eapply coherent_bytes.
Qed.

Lemma iso_open_ok context ci path : match context with Some root => is_bytes root | None => True end →
  safe (evals rd (iso9660_open context ci path)) (λ '(h, context'),
    match h with Some f => handle_ok f | None => True end ∧ match context' with Some root => is_bytes root | None => True end).
Proof.
  intros Hctx. unfold iso9660_open. rewrite evals_bind, evals_read. destruct (rd _ _) as [buf|]; [|done]. case_bool_decide; [|done]. cbn [negb].
  eapply (evals_after _ _ (λ r, match r with Some root => is_bytes root | None => True end)).
  - unfold iso9660_get_context. destruct context; [done|apply cache_root_safe].
  - intros [root|] Hroot; [|done]. eapply evals_after; [apply (walk_safe _ ci root path Hroot); lia|]. intros h Hok. done.
Qed.

(** ** Reading a file *)

(** The bytes of an extent, and of a file. *)
Definition extent_bytes (x : iso9660_extent) : option (list Z) := rd (LBA x * ISO9660_SECTOR_SIZE) (e_size x).
Definition file_bytes (es : list iso9660_extent) : option (list Z) := bss ← mapM extent_bytes es; Some (concat bss).

Lemma file_bytes_cons x es bs : extent_ok x → file_bytes (x :: es) = Some bs →
  ∃ b bs', rd (LBA x * ISO9660_SECTOR_SIZE) (e_size x) = Some b ∧ file_bytes es = Some bs' ∧ bs = b ++ bs' ∧ len b = e_size x.
Proof.
  intros [_ Hsz]. unfold file_bytes. cbn [mapM]. destruct (extent_bytes x) as [b|] eqn:Hb; cbn [mbind option_bind]; [|done].
  destruct (mapM extent_bytes es) as [bss|] eqn:Hl; cbn [mbind option_bind]; [|done]. intros [= <-]. exists b, (concat bss).
  do 3 (split; [done|]). unfold is_word in Hsz. eapply coherent_len; [|done]. lia.
Qed.

Lemma file_bytes_len es bs : Forall extent_ok es → file_bytes es = Some bs → len bs = extents_size es.
Proof.
  intros Hok. revert bs. induction Hok as [|x es Hx Hok IH]; intros bs; [by intros [= <-]|].
  intros (b & bs' & _ & H & -> & Hb)%file_bytes_cons; [|done]. rewrite len_app, (IH bs' H), Hb. done.
Qed.

(** What is left of a read when [start] bytes of the file are passed. *)
Lemma read_extents_ok es bs start loc count got : Forall extent_ok es → file_bytes es = Some bs → 0 ≤ start → 0 ≤ count →
  start ≤ loc → loc + count ≤ start + len bs →
  ∃ r, slice bs (loc - start) count = Some r ∧ evals rd (read_extents es start loc count got) = Ret (got ++ r).
Proof.
  intros Hok. revert bs start loc count got. induction Hok as [|x es Hx Hok IH]; intros bs start loc count got Hbs Hs Hc Hl He.
  { assert (bs = []) as Hnil by (by injection Hbs as <-). subst bs. rewrite len_nil in He. assert (count = 0) as -> by lia. clear Hc. exists []. split; [apply slice_nil; unfold len in *; cbn [length] in *; lia|].
    cbn. by rewrite app_nil_r. }
  cbn [read_extents]. destruct (Z.leb_spec count 0).
  { assert (count = 0) as -> by lia. exists []. split; [apply slice_nil; lia|]. cbn. by rewrite app_nil_r. }
  destruct (file_bytes_cons x es bs Hx Hbs) as (b & bs' & Hb & Hbs' & -> & Hlb). rewrite len_app in He. pose proof (len_nonneg bs').
  destruct Hx as [Hlba Hsz]. unfold is_word in *. destruct (Z.ltb_spec loc (start + e_size x)) as [Hin|Hout]; cbv zeta.
  - set (o := loc - start) in *. assert ((if start <? loc then o else 0) = o) as -> by (unfold o; destruct (Z.ltb_spec start loc); lia).
    set (n := if count <? e_size x - o then count else e_size x - o).
    assert (0 < n ≤ count ∧ o + n ≤ e_size x ∧ (n = count ∨ o + n = e_size x)) as (Hn & Hon & Hfull) by (unfold n; destruct (Z.ltb_spec count (e_size x - o)); lia).
    clearbody n. rewrite evals_bind, evals_read.
    assert (rd (LBA x * ISO9660_SECTOR_SIZE + o) n = slice b o n) as -> by (change ISO9660_SECTOR_SIZE with 2048 in *; eapply (coherent_part _ (e_size x)); [lia|lia|lia|lia|lia|lia|done]).
    rewrite <- (slice_app_l b bs') by lia.
    destruct (slice_app (b ++ bs') o n (count - n)) as (p & q & Hp & Hq & Hpq); [lia|lia|lia|rewrite len_app; lia|]. rewrite Hp.
    destruct Hfull as [->|Hfull].
    + replace (count + (count - count)) with count in Hpq by lia. rewrite Z.sub_diag in *.
      destruct (IH bs' (start + e_size x) (start + e_size x) 0 (got ++ p) Hbs') as (r & Hr & _); [lia|lia|lia|lia|].
      exists p. split; [exact Hp|]. destruct es; cbn; by rewrite ?app_nil_r.
    + destruct (IH bs' (start + e_size x) (loc + n) (count - n) (got ++ p) Hbs') as (r & Hr & ->); [lia|lia|lia|lia|].
      exists (p ++ r). rewrite app_assoc. split; [|done].
      rewrite (slice_app_r b bs') in Hq by lia. replace (o + n - len b) with (loc + n - (start + e_size x)) in Hq by lia.
      replace count with (n + (count - n)) by lia. congruence.
  - destruct (IH bs' (start + e_size x) loc count got Hbs') as (r & Hr & ->); [lia|lia|lia|lia|]. exists r. split; [|done].
    rewrite (slice_app_r b bs') by lia. rewrite <- Hr. f_equal. lia.
Qed.

Lemma iso_read_ok f bs loc count : handle_ok f → file_bytes (extents f) = Some bs → 0 ≤ loc → 0 ≤ count → loc + count ≤ total_size f →
  ∃ r, slice bs loc count = Some r ∧ evals rd (iso9660_read f loc count) = Ret r.
Proof.
  intros [Ht Hok] Hbs Hl Hc He. destruct (read_extents_ok (extents f) bs 0 loc count [] Hok Hbs) as (r & Hr & Hread); [lia|lia|lia| |].
  - rewrite (file_bytes_len _ _ Hok Hbs). lia.
  - exists r. rewrite Z.sub_0_r in Hr. done.
Qed.
End volume.
