(* ===== verification/IsoTree.v ===== *)
(** An ISO 9660 volume is a tree of files: a path opens what the tree has
    there, over as many extents as it has, and reads are parts of its data. *)
From S2P Require Import Prelude Libc Outcome Volume VolumeProofs Part PartProofs Reader Fat FatProofs Iso9660 IsoSafe.
From stdpp Require Import strings.
Open Scope list_scope.
Open Scope Z_scope.

(** ** Records

    A record is an entry by itself; its length is in its first byte. *)
Definition rec_ok (r : list Z) : bool := (ENTRY_SIZE <=? len r) && bool_decide (head r = Some (len r)) && forallb (λ x, (0 <=? x) && (x <? 256)) r.
Definition rec_name (r : list Z) : out (bool * list Z) := load_name 256 r 0.
Definition rec_extent (r : list Z) : iso9660_extent := Extent (field r 2 4) (field r 10 4).
Definition rec_flags (r : list Z) : Z := field r 25 1.

(** The records of a directory from an offset on: one behind the other, the
    rest of a sector zeros where the next one does not fit. *)
Inductive layout (d : list Z) : Z → list (list Z) → Prop :=
  | layout_end o : 0 ≤ o → (∀ i, o ≤ i < len d → d.[i] = Some 0) → o ≤ len d → layout d o []
  | layout_rec o r rs : slice d o (len r) = Some r → rec_ok r = true → layout d (o + len r) rs → layout d o (r :: rs)
  | layout_pad o r rs : d.[o] = Some 0 → slice d (next_sector o) (len r) = Some r → rec_ok r = true → layout d (next_sector o + len r) rs →
      layout d o (r :: rs).

Definition at_rec (d : list Z) (e : Z) (r : list Z) (rs : list (list Z)) : Prop :=
  slice d e (len r) = Some r ∧ rec_ok r = true ∧ layout d (e + len r) rs.

(** The first record of a name, and those behind it. *)
Definition name_is (ci : bool) (name : list Z) (n : bool * list Z) : bool := same_name (negb (fst n && negb ci)) name (snd n).
Fixpoint find_rec (ci : bool) (name : list Z) (rs : list (list Z)) : option (list Z * list (list Z)) :=
  match rs with
  | [] => None
  | r :: rs => match rec_name r with Ret n => if name_is ci name n then Some (r, rs) else find_rec ci name rs | _ => None end
  end.

(** ** An entry of a directory is its record *)
Lemma rec_ok_len r : rec_ok r = true → ENTRY_SIZE ≤ len r < 256 ∧ is_bytes r ∧ r.[0] = Some (len r).
Proof.
  unfold rec_ok. rewrite !andb_true_iff, Z.leb_le, bool_decide_eq_true, forallb_forall. intros [[Hl Hh] Hb].
  assert (is_bytes r) as Hbytes by (apply List.Forall_forall; intros x Hx; specialize (Hb x Hx); unfold is_word; lia).
  destruct r as [|x r]; [done|]. injection Hh as Hx. split; [|split; [done|by rewrite <- Hx]].
  apply Forall_cons in Hbytes as [[? ?] _]. lia.
Qed.

Section middle.
Context (a r b : list Z).
Notation d := (a ++ r ++ b).

Lemma get_mid i : 0 ≤ i < len r → get d (len a + i) = get r i.
Proof.
  intros Hi. unfold get. rewrite arr_get_app_r by lia. replace (len a + i - len a) with i by lia. by rewrite arr_get_app_l by lia.
Qed.

Lemma slice_inside i n : 0 ≤ i → 0 ≤ n → i + n ≤ len r → slice d (len a + i) n = slice r i n.
Proof.
  intros Hi Hn Hl. rewrite slice_app_r by lia. replace (len a + i - len a) with i by lia. by rewrite slice_app_l by lia.
Qed.

Lemma entry_field_mid o n : 0 ≤ o → 0 ≤ n → o + n ≤ len r → entry_field d (len a) o n = entry_field r 0 o n.
Proof. intros Ho Hn Hl. unfold entry_field. by rewrite slice_inside. Qed.

Lemma rock_ridge_mid fuel limit area area_len name found : is_bytes r → 0 ≤ area → 0 ≤ area_len → area + area_len ≤ len r →
  rock_ridge fuel limit d (len a + area) area_len name found = rock_ridge fuel limit r area area_len name found.
Proof.
  intros Hb. revert area area_len name found. induction fuel as [|fuel IH]; intros area area_len name found Ha Hl Hsum; [done|]. cbn [rock_ridge].
  destruct (Z.ltb_spec area_len 4); [done|]. rewrite <- !Z.add_assoc, (get_mid (area + 3)), (get_mid (area + 2)) by lia.
  destruct (get r (area + 3)) as [v| |]; [|done|done]. cbn [mbind out_bind]. destruct (negb _); [done|].
  destruct (arr_get_lt r (area + 2) ltac:(lia)) as (l & Hlb). pose proof (is_bytes_get _ _ _ Hb Hlb) as [Hl0 _]. assert (get r (area + 2) = Ret l) as -> by (unfold get; by rewrite Hlb). cbn [mbind out_bind].
  destruct ((area_len <? l) || (l =? 0)) eqn:Hbad; [done|]. apply orb_false_iff in Hbad as [H1%Z.ltb_ge H2%Z.eqb_neq]. rewrite (get_mid area), (get_mid (area + 1)) by lia.
  destruct (get r area) as [s0| |]; [|done|done]. cbn [mbind out_bind]. destruct (get r (area + 1)) as [s1| |]; [|done|done]. cbn [mbind out_bind].
  destruct (_ && _) eqn:Hnm; [|by rewrite <- !Z.add_assoc, IH by lia]. apply andb_true_iff in Hnm as [_ Hnm%Z.leb_le]. cbv zeta. destruct (_ <=? _); [done|].
  rewrite <- ?Z.add_assoc, slice_inside, (get_mid (area + 4)) by lia. rewrite slice_lt by lia. cbn [lift mbind out_bind]. destruct (get r (area + 4)) as [fl| |]; [|done|done]. cbn [mbind out_bind].
  destruct (_ =? 0); [done|]. by rewrite <- ?Z.add_assoc, IH by lia.
Qed.

Lemma iso_name_mid n at_ j name_len name : 0 ≤ at_ → 0 ≤ j → at_ + name_len ≤ len r →
  iso_name n d (len a + at_) j name_len name = iso_name n r at_ j name_len name.
Proof.
  intros Ha. revert j name. induction n as [|n IH]; intros j name Hj Hl; cbn [iso_name]; [done|]. destruct (Z.leb_spec name_len j); [done|].
  replace (len a + at_ + j) with (len a + (at_ + j)) by lia. rewrite (get_mid (at_ + j)) by lia. destruct (get r (at_ + j)) as [c| |]; [|done|done]. cbn [mbind out_bind]. destruct (c =? 59); [done|].
  destruct ((c =? 46) && (j + 1 <? name_len)) eqn:Hs.
  - apply andb_true_iff in Hs as [_ Hs%Z.ltb_lt]. replace (len a + at_ + (j + 1)) with (len a + (at_ + (j + 1))) by lia. rewrite (get_mid (at_ + (j + 1))) by lia. destruct (get r (at_ + (j + 1))) as [c'| |]; [|done|done].
    cbn [mbind out_bind]. destruct (c' =? 59); [done|]. apply IH; lia.
  - cbn [mbind out_bind]. apply IH; lia.
Qed.

Lemma load_name_mid : rec_ok r = true → load_name 256 d (len a) = rec_name r.
Proof.
  intros Hr. destruct (rec_ok_len r Hr) as (Hl & Hb & Hh). unfold rec_name, load_name, iso_length, filename_size. unfold ENTRY_SIZE in *.
  rewrite !entry_field_mid by lia. destruct (iso_length_get r Hb 0 ltac:(lia)) as (l & Hl0 & Hlen & _). assert (l = len r) as -> by congruence.
  unfold iso_length in Hlen. rewrite Hlen. cbn [mbind out_bind]. pose proof (entry_field_safe r Hb 0 32 1 ltac:(lia) ltac:(lia) ltac:(lia)) as Hfs.
  destruct (entry_field r 0 32 1) as [fs| |]; [|done|done]. cbn [safe] in Hfs. cbn [mbind out_bind]. change (8 * 1) with 8 in Hfs. cbv zeta.
  assert ((if len r <? 33 + fs then Ret (false, []) else
      if Z.land fs 1 =? 0 then if len r - 33 - fs =? 0 then Ret (false, []) else rock_ridge 256 256 d (len a + 33 + fs + 1) (len r - 33 - fs - 1) [] false
      else rock_ridge 256 256 d (len a + 33 + fs) (len r - 33 - fs) [] false) =
    (if len r <? 33 + fs then Ret (false, []) else
      if Z.land fs 1 =? 0 then if len r - 33 - fs =? 0 then Ret (false, []) else rock_ridge 256 256 r (0 + 33 + fs + 1) (len r - 33 - fs - 1) [] false
      else rock_ridge 256 256 r (0 + 33 + fs) (len r - 33 - fs) [] false)) as ->.
  { destruct (Z.ltb_spec (len r) (33 + fs)); [done|]. destruct (_ =? 0).
    - destruct (Z.eqb_spec (len r - 33 - fs) 0); [done|]. rewrite <- !Z.add_assoc. apply rock_ridge_mid; (done || lia).
    - rewrite <- !Z.add_assoc. apply rock_ridge_mid; (done || lia). }
  match goal with |- mbind ?f ?m = _ => destruct m as [[found name]| |]; [|done|done] end. cbn [mbind out_bind]. destruct found; [done|]. destruct (_ <=? fs); [done|].
  rewrite iso_name_mid by (destruct (Z.ltb_spec (len r) (33 + fs)); try (destruct (Z.leb_spec (len r) 33)); lia). done.
Qed.
End middle.

Lemma slice_split (d : list Z) e n r : slice d e n = Some r → ∃ a b, d = a ++ r ++ b ∧ len a = e ∧ len r = n.
Proof.
  intros (He & Hn & Hl & ->)%slice_Some. exists (take (Z.to_nat e) d), (drop (Z.to_nat n) (drop (Z.to_nat e) d)).
  split; [by rewrite !take_drop|]. unfold len in *. rewrite !length_take, length_drop. lia.
Qed.

Lemma at_rec_name d e r rs : at_rec d e r rs → load_name 256 d e = rec_name r.
Proof. intros (Hs & Hr & _). destruct (slice_split d e _ r Hs) as (a & b & -> & <- & _). by apply load_name_mid. Qed.

Lemma at_rec_field d e r rs o n : at_rec d e r rs → o + n ≤ 33 → 0 ≤ o → 0 ≤ n → entry_field d e o n = Ret (field r (Z.to_nat o) (Z.to_nat n)).
Proof.
  intros (Hs & Hr & _) Hon Ho Hn. destruct (rec_ok_len r Hr) as ([Hl _] & _). unfold ENTRY_SIZE in Hl.
  destruct (slice_split d e _ r Hs) as (a & b & -> & <- & _). rewrite entry_field_mid by lia. unfold entry_field, field. by rewrite slice_lt by lia.
Qed.

Lemma at_rec_length d e r rs : at_rec d e r rs → iso_length d e = Ret (len r) ∧ 33 ≤ len r < 256 ∧ 0 ≤ e ∧ e + len r ≤ len d.
Proof.
  intros (Hs & Hr & _). destruct (rec_ok_len r Hr) as (Hl & Hb & Hh). unfold ENTRY_SIZE in Hl. apply slice_Some in Hs as Hs'. destruct Hs' as (He & _ & Hend & _).
  split; [|done]. destruct (slice_split d e _ r Hs) as (a & b & -> & <- & _). unfold iso_length. rewrite entry_field_mid by lia.
  destruct (iso_length_get r Hb 0 ltac:(lia)) as (l & Hl0 & Hlen & _). unfold iso_length in Hlen. rewrite Hlen. congruence.
Qed.

Lemma byte_length d e : d.[e] = Some 0 → iso_length d e = Ret 0.
Proof.
  intros Hg. pose proof (arr_get_Some_lt _ _ _ Hg). unfold iso_length, entry_field. rewrite Z.add_0_r, slice_lt by lia. cbn [lift mbind out_bind].
  unfold arr_get in Hg. rewrite decide_True in Hg by lia. by rewrite (drop_S _ _ _ Hg).
Qed.

(** ** Going through the records *)
Lemma find_zeros fuel ci d o name : 0 ≤ o ≤ len d → (∀ i, o ≤ i < len d → d.[i] = Some 0) → len d - o < Z.of_nat fuel →
  find_loop fuel ci d o (len d - o) name = Ret None.
Proof.
  revert o. induction fuel as [|fuel IH]; intros o Ho Hz Hf; [lia|]. cbn [find_loop]. destruct (Z.eqb_spec (len d - o) 0); [done|].
  rewrite byte_length by (apply Hz; lia). cbn [mbind out_bind Z.eqb]. change ISO9660_SECTOR_SIZE with 2048. destruct (Z.leb_spec (len d - o) 2048); [done|].
  pose proof (Z.mod_pos_bound (len d - o) 2048 ltac:(done)). cbv zeta. destruct (Z.eqb_spec (len d - o) (len d - o - (len d - o) mod 2048)).
  - replace (len d - o - 2048) with (len d - (o + 2048)) by lia. apply IH; [lia| |lia]. intros i Hi. apply Hz. lia.
  - set (k := (len d - o) mod 2048) in *. replace (o + (len d - o - (len d - o - k))) with (o + k) by lia.
    replace (len d - o - k) with (len d - (o + k)) by lia. apply IH; [lia| |lia]. intros i Hi. apply Hz. lia.
Qed.

(** Every name can be read. *)
Definition named (r : list Z) : Prop := ∃ n, rec_name r = Ret n.

Lemma find_layout fuel ci d o rs name : len d mod ISO9660_SECTOR_SIZE = 0 → layout d o rs → Forall named rs → len d - o < Z.of_nat fuel →
  match find_rec ci name rs with
  | None => find_loop fuel ci d o (len d - o) name = Ret None
  | Some (r, rs') => ∃ e, find_loop fuel ci d o (len d - o) name = Ret (Some e) ∧ at_rec d e r rs'
  end.
Proof.
  intros Hd. change ISO9660_SECTOR_SIZE with 2048 in Hd. revert o rs. induction fuel as [|fuel IH]; intros o rs Hl Hn Hf.
  { exfalso. assert (o ≤ len d); [|lia]. destruct Hl as [o _ _ H|o r rs (_ & _ & H & _)%slice_Some _ _|o r rs H%arr_get_Some_lt _ _ _]; [done|pose proof (len_nonneg r); lia|lia]. }
  destruct Hl as [o H0 Hz Ho|o r rs Hs Hr Hl|o r rs H0 Hs Hr Hl].
  - apply find_zeros; [lia|done|done].
  - assert (at_rec d o r rs) as Hat by done. destruct (at_rec_length d o r rs Hat) as (Hlen & Hr1 & Ho & Hend).
    apply Forall_cons in Hn as [(n & Hn) Hns]. cbn [find_rec find_loop]. rewrite Hn. rewrite (proj2 (Z.eqb_neq _ 0)), Hlen by lia. cbn [mbind out_bind].
    rewrite (proj2 (Z.eqb_neq _ 0)) by lia. rewrite (proj2 (Z.ltb_ge _ (len r))) by lia. unfold ENTRY_SIZE. rewrite (proj2 (Z.ltb_ge (len r) 33)) by lia.
    rewrite (at_rec_name d o r rs Hat), Hn. cbn [mbind out_bind]. destruct n as [rr nm]. change (same_name (negb (rr && negb ci)) name nm) with (name_is ci name (rr, nm)).
    destruct (name_is ci name (rr, nm)); [by exists o|]. replace (len d - o - len r) with (len d - (o + len r)) by lia. apply IH; [done|done|lia].
  - pose proof (arr_get_Some_lt _ _ _ H0) as Ho. pose proof Hs as (Hs1 & _ & Hs2 & _)%slice_Some. destruct (rec_ok_len r Hr) as ([Hr1 _] & _). unfold ENTRY_SIZE in Hr1.
    assert (next_sector o = o + 2048 - o mod 2048) as Hnext.
    { unfold next_sector. change ISO9660_SECTOR_SIZE with 2048. replace (o + 1 + (2048 - 1)) with (o + 1 * 2048) by lia. rewrite Z.div_add by done.
      pose proof (Z.div_mod o 2048 ltac:(done)). lia. }
    pose proof (Z.mod_pos_bound o 2048 ltac:(done)). pose proof (Z.div_mod o 2048 ltac:(done)). pose proof (Z.div_mod (len d) 2048 ltac:(done)).
    assert ((len d - o) mod 2048 = if o mod 2048 =? 0 then 0 else 2048 - o mod 2048) as Hmod.
    { destruct (Z.eqb_spec (o mod 2048) 0); symmetry.
      - apply (Z.mod_unique _ _ (len d / 2048 - o / 2048)); lia.
      - apply (Z.mod_unique _ _ (len d / 2048 - o / 2048 - 1)); lia. }
    specialize (IH (next_sector o) (r :: rs) (layout_rec d _ r rs Hs Hr Hl) Hn ltac:(lia)). cbn [find_loop]. rewrite (proj2 (Z.eqb_neq _ 0)) by lia.
    rewrite (byte_length d o H0). cbn [mbind out_bind Z.eqb]. change ISO9660_SECTOR_SIZE with 2048. rewrite (proj2 (Z.leb_gt _ _)) by lia. cbv zeta. rewrite Hmod.
    destruct (Z.eqb_spec (o mod 2048) 0) as [Hal|Hal].
    + rewrite Z.sub_0_r, Z.eqb_refl. replace (o + 2048) with (next_sector o) by lia. replace (len d - o - 2048) with (len d - next_sector o) by lia. exact IH.
    + rewrite (proj2 (Z.eqb_neq _ _)) by lia. replace (o + (len d - o - (len d - o - (2048 - o mod 2048)))) with (next_sector o) by lia.
      replace (len d - o - (2048 - o mod 2048)) with (len d - next_sector o) by lia. exact IH.
Qed.

Lemma next_layout d e r rs : at_rec d e r rs →
  match rs with
  | [] => iso9660_next_entry d e = Ret None
  | r2 :: rs2 => ∃ e2, iso9660_next_entry d e = Ret (Some e2) ∧ at_rec d e2 r2 rs2
  end.
Proof.
  intros Hat. destruct (at_rec_length d e r rs Hat) as (Hlen & Hr & He & Hend). destruct Hat as (_ & _ & Hl). unfold iso9660_next_entry. rewrite Hlen.
  cbn [mbind out_bind]. rewrite (proj2 (Z.eqb_neq _ 0)) by lia. remember (e + len r) as o eqn:Ho.
  destruct Hl as [o H0 Hz Hle|o r2 rs Hs Hr2 Hl|o r2 rs H0 Hs Hr2 Hl].
  - destruct (Z.leb_spec (len d) o); [done|]. rewrite (byte_length d o) by (apply Hz; lia). cbn [mbind out_bind Z.eqb]. pose proof (next_sector_gt o ltac:(lia)).
    destruct (Z.leb_spec (len d) (next_sector o)); [done|]. by rewrite byte_length by (apply Hz; lia).
  - assert (at_rec d o r2 rs) as Hat by done. destruct (at_rec_length d o r2 rs Hat) as (Hlen2 & Hr2' & Ho2 & Hend2).
    rewrite (proj2 (Z.leb_gt _ _)), Hlen2 by lia. cbn [mbind out_bind]. rewrite (proj2 (Z.eqb_neq _ 0)) by lia. cbn [mbind out_bind]. rewrite Hlen2. cbn [mbind out_bind].
    unfold ENTRY_SIZE. rewrite (proj2 (Z.ltb_ge _ 33)), (proj2 (Z.ltb_ge _ (len r2))) by lia. by exists o.
  - assert (at_rec d (next_sector o) r2 rs) as Hat by done. destruct (at_rec_length d _ r2 rs Hat) as (Hlen2 & Hr2' & Ho2 & Hend2).
    pose proof (arr_get_Some_lt _ _ _ H0). rewrite (proj2 (Z.leb_gt _ _)), (byte_length d o H0) by lia. cbn [mbind out_bind Z.eqb].
    rewrite (proj2 (Z.leb_gt _ _)), Hlen2 by lia. cbn [mbind out_bind]. rewrite (proj2 (Z.eqb_neq _ 0)) by lia. cbn [mbind out_bind]. rewrite Hlen2. cbn [mbind out_bind].
    unfold ENTRY_SIZE. rewrite (proj2 (Z.ltb_ge _ 33)), (proj2 (Z.ltb_ge _ (len r2))) by lia. by exists (next_sector o).
Qed.

(** ** Files of several extents *)
Definition more_follows (r : list Z) : bool := negb (Z.land (rec_flags r) ISO9660_FLAG_MULTI_EXTENT =? 0).

(** The records of one file: all but the last say that more follow, and they
    have one name. *)
Fixpoint chained (rs : list (list Z)) : bool :=
  match rs with
  | [] => false
  | [r] => negb (more_follows r)
  | r :: rs => more_follows r && chained rs
  end.
Definition group (n : bool * list Z) (rs : list (list Z)) : Prop :=
  chained rs = true ∧ Forall (λ r, rec_name r = Ret n) rs ∧ snd n ≠ [] ∧ len rs ≤ ISO9660_MAX_EXTENT_COUNT.

Definition sizes (rs : list (list Z)) : Z := extents_size (map rec_extent rs).

Lemma count_layout d nm k tl : ∀ e r rs c t, at_rec d e r (tl ++ rs) → chained (r :: tl) = true → Forall (λ r, ∃ rr, rec_name r = Ret (rr, nm)) tl →
  nm ≠ [] → (length tl ≤ k)%nat → count_extents k d nm e c t = Ret (c + len tl, t + sizes tl).
Proof.
  intros e r rs c t Hat Hch Hnm Hne Hk. revert k e r c t Hat Hch Hk. induction Hnm as [|r2 tl (rr & Hrr) Hnm IH]; intros k e r c t Hat Hch Hk.
  - change (len []) with 0. change (sizes []) with 0. rewrite !Z.add_0_r. destruct k as [|k]; [done|]. cbn [count_extents]. unfold flags.
    rewrite (at_rec_field d e r _ 25 1 Hat) by lia. cbn [mbind out_bind]. cbn [chained] in Hch. unfold more_follows, rec_flags in Hch. rewrite negb_involutive in Hch.
    change (Z.to_nat 25) with 25%nat. change (Z.to_nat 1) with 1%nat. by rewrite Hch.
  - destruct k as [|k]; [cbn in Hk; lia|]. cbn [count_extents]. unfold flags. rewrite (at_rec_field d e r _ 25 1 Hat) by lia. cbn [mbind out_bind].
    change (chained (r :: r2 :: tl)) with (more_follows r && chained (r2 :: tl)) in Hch. apply andb_true_iff in Hch as [Hm Hch].
    unfold more_follows, rec_flags in Hm. apply negb_true_iff in Hm. change (Z.to_nat 25) with 25%nat. change (Z.to_nat 1) with 1%nat. rewrite Hm.
    destruct (next_layout d e r _ Hat) as (e2 & -> & Hat2). cbn [mbind out_bind]. rewrite (at_rec_name _ _ _ _ Hat2), Hrr. cbn [mbind out_bind].
    rewrite (bool_decide_eq_false_2 (nm = [])), bool_decide_eq_true_2 by done. cbn [orb negb]. unfold extent_size_little.
    rewrite (at_rec_field d e2 r2 _ 10 4 Hat2) by lia. cbn [mbind out_bind]. rewrite (IH k e2 r2 _ _ Hat2 Hch) by (cbn in Hk; lia). rewrite len_cons. unfold sizes. cbn [map extents_size foldr rec_extent e_size].
    fold (extents_size (map rec_extent tl)). change (Z.to_nat 10) with 10%nat. change (Z.to_nat 4) with 4%nat. f_equal. f_equal; lia.
Qed.

Lemma fill_layout d tl : ∀ e r rs, at_rec d e r (tl ++ rs) → fill_extents (S (length tl)) d e = Ret (map rec_extent (r :: tl)).
Proof.
  induction tl as [|r2 tl IH]; intros e r rs Hat; cbn [fill_extents length]; unfold extent_little, extent_size_little;
    rewrite (at_rec_field d e r _ 2 4 Hat), (at_rec_field d e r _ 10 4 Hat) by lia; cbn [mbind out_bind]; [done|].
  destruct (next_layout d e r _ Hat) as (e2 & -> & Hat2). cbn [mbind out_bind]. specialize (IH e2 r2 rs Hat2).
  change (fill_extents (S (length tl)) d e2 = Ret (map rec_extent (r2 :: tl))) in IH. cbn [fill_extents] in IH. unfold extent_little, extent_size_little in IH. rewrite IH. done.
Qed.

Lemma collect_layout d e n r tl rs : at_rec d e r (tl ++ rs) → group n (r :: tl) →
  collect_extents d e = Ret (IsoFile (sizes (r :: tl)) (map rec_extent (r :: tl))).
Proof.
  intros Hat (Hch & Hnm & Hne & Hlen). destruct n as [rr nm]. apply Forall_cons in Hnm as [Hr Hnm]. unfold collect_extents, extent_size_little.
  rewrite (at_rec_field d e r _ 10 4 Hat) by lia. cbn [mbind out_bind]. rewrite (at_rec_name _ _ _ _ Hat), Hr. cbn [mbind out_bind].
  rewrite len_cons in Hlen. rewrite (count_layout d nm _ tl e r rs 1 _ Hat Hch); [|by eapply Forall_impl; [exact Hnm|]; intros r2 ?; exists rr|done|].
  2: { change ISO9660_MAX_EXTENT_COUNT with 65536 in *. unfold len in Hlen. lia. }
  cbn [mbind out_bind]. replace (Z.to_nat (1 + len tl)) with (S (length tl)) by (unfold len; lia). rewrite (fill_layout d tl e r rs Hat). cbn [mbind out_bind]. done.
Qed.

(** ** The tree *)
Inductive islot (A : Type) :=
  | ISkip (r : list Z)
  | IChild (rs : list (list Z)) (a : A).
Arguments ISkip {A} r.
Arguments IChild {A} rs a.

Definition records {A} (s : islot A) : list (list Z) := match s with ISkip r => [r] | IChild rs _ => rs end.

(** The directory itself and the one above have names of one byte, 0 and 1. *)
Definition islot_ok {A} (s : islot A) : Prop :=
  match s with
  | ISkip r => ∃ rr, rec_name r = Ret (rr, []) ∨ rec_name r = Ret (rr, [1])
  | IChild rs _ => ∃ n, group n rs
  end.

Fixpoint find_ichild {A} (ci : bool) (name : list Z) (d : list (islot A)) : option (list (list Z) * A) :=
  match d with
  | [] => None
  | IChild (r :: tl) a :: d =>
      match rec_name r with Ret n => if name_is ci name n then Some (r :: tl, a) else find_ichild ci name d | _ => None end
  | _ :: d => find_ichild ci name d
  end.

Unset Elimination Schemes.
Inductive inode :=
  | IFile (data : list Z)
  | IDir (data : list Z) (d : list (islot inode)).
Set Elimination Schemes.
Definition node_data (n : inode) : list Z := match n with IFile data | IDir data _ => data end.

Section tree.
Context (rd : Z → Z → option (list Z)).

Definition is_subdirectory (r : list Z) : bool := negb (Z.land (rec_flags r) ISO9660_FLAG_DIRECTORY =? 0).

Inductive istored : list (list Z) → inode → Prop :=
  | istored_file r tl data :
      is_subdirectory r = false → file_bytes rd (map rec_extent (r :: tl)) = Some data → istored (r :: tl) (IFile data)
  | istored_dir r data d :
      is_subdirectory r = true → bad_dir_size (e_size (rec_extent r)) = false →
      rd (LBA (rec_extent r) * ISO9660_SECTOR_SIZE) (e_size (rec_extent r)) = Some data → idirectory data d → istored [r] (IDir data d)
with idirectory : list Z → list (islot inode) → Prop :=
  | idirectory_intro data d :
      len data mod ISO9660_SECTOR_SIZE = 0 → layout data 0 (concat (map records d)) → (∀ s, In s d → islot_ok s) →
      (∀ rs a, In (IChild rs a) d → istored rs a) → idirectory data d.
End tree.

(** What a path is for, by its parts between slashes; empty ones count only at
    the end. *)
Fixpoint iresolve (ci : bool) (d : list (islot inode)) (parts : list (list Z)) : option inode :=
  match parts with
  | [] => None
  | name :: parts =>
      if bool_decide (name = []) then iresolve ci d parts else
      match find_ichild ci name d with
      | None => None
      | Some (_, n) => match parts with [] => Some n | _ => match n with IDir _ d => iresolve ci d parts | IFile _ => None end end
      end
  end.

(** No part is too long, which panics, or the name of the directory above. *)
Definition iname_ok (name : list Z) : bool := (len name <? ROCK_RIDGE_MAX_FILENAME) && negb (bool_decide (name = [1])).

(** ** Paths *)
Lemma same_name_nil ci name : name ≠ [] → same_name ci name [] = false.
Proof. intros Hn. unfold same_name. destruct ci; apply bool_decide_eq_false_2; [|done]. by destruct name. Qed.

Lemma same_name_one ci name : name ≠ [1] → same_name ci name [1] = false.
Proof.
  intros Hn. unfold same_name. destruct ci; apply bool_decide_eq_false_2; [|done]. destruct name as [|c [|c' name]]; [done| |done]. cbn. intros [= Hc].
  apply Hn. f_equal. revert Hc. unfold tolower. destruct (_ && _) eqn:Hup; [|done]. apply andb_true_iff in Hup. lia.
Qed.

Lemma find_flat {A} ci name (d : list (islot A)) : (∀ s, In s d → islot_ok s) → iname_ok name = true → name ≠ [] →
  Forall named (concat (map records d)) ∧
  match find_ichild ci name d with
  | None => find_rec ci name (concat (map records d)) = None
  | Some (rs, a) => In (IChild rs a) d ∧ ∃ r tl rest n, rs = r :: tl ∧ group n rs ∧ find_rec ci name (concat (map records d)) = Some (r, tl ++ rest)
  end.
Proof.
  intros Hd Hn Hne. apply andb_true_iff in Hn as [_ Hn%negb_true_iff%bool_decide_eq_false]. induction d as [|s d IH]; [done|].
  destruct IH as [Hnm IH]; [by intros s' Hs'; apply Hd; right|]. specialize (Hd s (or_introl eq_refl)). destruct s as [r|rs a]; cbn [map concat records app find_ichild].
  - destruct Hd as (rr & Hr). split; [constructor; [destruct Hr as [Hr|Hr]; by eexists|done]|]. cbn [find_rec].
    assert (match rec_name r with Ret n => if name_is ci name n then Some (r, concat (map records d)) else find_rec ci name (concat (map records d)) | _ => None end =
      find_rec ci name (concat (map records d))) as ->.
    { destruct Hr as [-> | ->]; unfold name_is; cbn [fst snd]; [by rewrite same_name_nil|by rewrite same_name_one]. }
    destruct (find_ichild ci name d) as [[rs a]|]; [|done]. destruct IH as [Hin IH]. split; [by right|done].
  - destruct Hd as (n & Hg). pose proof Hg as (Hch & Hrs & Hne' & Hlen). split; [apply Forall_app; split; [by eapply Forall_impl; [exact Hrs|]; intros r ?; exists n|done]|].
    destruct rs as [|r tl]; [done|]. pose proof Hrs as Hrs'. apply Forall_cons in Hrs' as [Hr Htl]. rewrite Hr. cbn [app find_rec]. rewrite Hr. destruct (name_is ci name n) eqn:Hm.
    + split; [by left|]. exists r, tl, (concat (map records d)), n. done.
    + assert (find_rec ci name (tl ++ concat (map records d)) = find_rec ci name (concat (map records d))) as ->.
      { clear -Htl Hm. induction Htl as [|r2 tl Hr2 Htl IHt]; [done|]. cbn [app find_rec]. by rewrite Hr2, Hm. }
      destruct (find_ichild ci name d) as [[rs a']|]; [|done]. destruct IH as [Hin IH]. split; [by right|done].
Qed.

Lemma component_ok n p s r : split_path p = s :: r → (length s ≤ n)%nat →
  ∃ p', component n p = Some (s, p') ∧ match r with [] => p' = [] | _ => ∃ q, p' = 47 :: q ∧ split_path q = r end.
Proof.
  revert n s. induction p as [|c p IH]; intros n s; cbn [split_path].
  { intros [= <- <-] _. exists []. by destruct n. }
  destruct (Z.eqb_spec c 47) as [->|Hc].
  { intros [= <- <-] _. exists (47 :: p). split; [by destruct n|]. pose proof (split_path_nonempty p). destruct (split_path p) eqn:Hp; [done|]. by exists p. }
  destruct (split_path p) as [|s' r'] eqn:Hp; [done|]. intros [= <- <-] Hn. destruct n as [|n]; [cbn in Hn; lia|].
  destruct (IH n s' eq_refl) as (p' & Hp' & Hr); [cbn in Hn; lia|]. exists p'. cbn [component]. rewrite (proj2 (Z.eqb_neq _ _) Hc), Hp'. done.
Qed.

Lemma iresolve_skip ci d path : iresolve ci d (split_path (skip_slashes path)) = iresolve ci d (split_path path).
Proof. induction path as [|c path IH]; [done|]. cbn [skip_slashes split_path]. destruct (Z.eqb_spec c 47) as [->|Hc]; [by rewrite IH|]. cbn [split_path]. by rewrite (proj2 (Z.eqb_neq _ _) Hc). Qed.

Lemma skip_parts (P : list Z → Prop) path : Forall P (split_path path) → Forall P (split_path (skip_slashes path)).
Proof.
  induction path as [|c path IH]; [done|]. cbn [skip_slashes split_path]. destruct (Z.eqb_spec c 47) as [->|Hc].
  - intros Hf. apply IH. by inversion Hf.
  - cbn [split_path]. by rewrite (proj2 (Z.eqb_neq _ _) Hc).
Qed.

(** ** Opening a path *)
Section proofs.
Context (rd : Z → Z → option (list Z)) `{Hrd : !coherent rd}.

Definition iopened (n : option inode) (h : option iso9660_file_handle) : Prop :=
  match n, h with
  | None, None => True
  | Some n, Some f => handle_ok f ∧ file_bytes rd (extents f) = Some (node_data n)
  | _, _ => False
  end.

Lemma at_rec_entry d e r rs : at_rec d e r rs → entry_in d e.
Proof.
  intros Hat. destruct (at_rec_length d e r rs Hat) as (_ & Hl & He & Hend). destruct Hat as (Hs & Hr & _). destruct (rec_ok_len r Hr) as (_ & _ & Hh).
  exists (len r). split; [|unfold ENTRY_SIZE; lia]. destruct (slice_split d e _ r Hs) as (a & b & -> & <- & _). rewrite arr_get_app_r by lia.
  rewrite Z.sub_diag. by rewrite arr_get_app_l by lia.
Qed.

Lemma stored_data rs n : istored rd rs n → file_bytes rd (map rec_extent rs) = Some (node_data n).
Proof.
  intros [r tl data _ Hd|r data d _ _ Hd _]; [done|]. unfold file_bytes, extent_bytes. cbn [map mapM]. rewrite Hd. cbn. by rewrite app_nil_r.
Qed.

Lemma walk_ok fuel ci data d path : is_bytes data → idirectory rd data d → Forall (λ s, iname_ok s = true) (split_path path) → (length path < fuel)%nat →
  ∃ h, evals rd (iso_walk fuel ci data path) = Ret h ∧ iopened (iresolve ci d (split_path path)) h.
Proof.
  revert data d path. induction fuel as [|fuel IH]; intros data d path Hb Hdir Hn Hf; [lia|]. cbn [iso_walk]. rewrite <- iresolve_skip.
  apply skip_parts in Hn. pose proof (skip_slashes_head path) as Hh. pose proof (skip_slashes_length path). set (p := skip_slashes path) in *. clearbody p.
  case_bool_decide as Hp; [subst p; by exists None|]. destruct Hdir as [data d Hal Hlay Hok Hch].
  destruct (split_path p) as [|s r] eqn:Hs; [by apply split_path_nonempty in Hs|]. apply Forall_cons in Hn as [Hns Hnr].
  assert (s ≠ []) as Hne. { intros ->. destruct p as [|c p]; [done|]. cbn [split_path] in Hs. destruct (Z.eqb_spec c 47) as [->|]; [by apply Hh|]. by destruct (split_path p). }
  pose proof Hns as Hlen. apply andb_true_iff in Hlen as [Hlen%Z.ltb_lt _]. unfold ROCK_RIDGE_MAX_FILENAME in *.
  destruct (component_ok (Z.to_nat (255 - 1)) p s r Hs) as (p' & Hc & Hr); [unfold len in Hlen; lia|]. rewrite Hc.
  pose proof (component_length _ _ _ _ Hc Hp Hh) as Hplen. cbn [iresolve]. rewrite (bool_decide_eq_false_2 _ Hne).
  destruct (find_flat ci s d Hok Hns Hne) as [Hnamed Hfind]. pose proof (find_layout (S (length data)) ci data 0 _ s Hal Hlay Hnamed) as Hloop.
  rewrite Z.sub_0_r in Hloop. specialize (Hloop ltac:(unfold len; lia)). rewrite evals_bind. cbn [evals mret rdr_ret]. unfold iso9660_find.
  destruct (find_ichild ci s d) as [[rs n]|].
  2: { rewrite Hfind in Hloop. rewrite Hloop. by exists None. }
  destruct Hfind as (Hin & r0 & tl & rest & nm & -> & Hg & Hfind). rewrite Hfind in Hloop. destruct Hloop as (e & -> & Hat). cbn [after].
  pose proof (Hch _ _ Hin) as Hst. rewrite !evals_bind. cbn [evals mret rdr_ret]. unfold extent_little, extent_size_little, flags.
  rewrite (at_rec_field data e r0 _ 2 4 Hat), (at_rec_field data e r0 _ 10 4 Hat), (at_rec_field data e r0 _ 25 1 Hat) by lia. cbn [after].
  rewrite !evals_bind. cbn [evals mret rdr_ret after]. rewrite !evals_bind. cbn [evals mret rdr_ret after].
  destruct r as [|s' r].
  - subst p'. rewrite evals_bind. cbn [evals mret rdr_ret]. pose proof (collect_safe data Hb e (at_rec_entry _ _ _ _ Hat)) as Hsafe.
    rewrite (collect_layout data e nm r0 tl rest Hat Hg) in *. cbn [after evals mret rdr_ret]. eexists. split; [done|]. split; [exact Hsafe|].
    cbn [extents]. by apply stored_data.
  - destruct Hr as (q & -> & Hq). change (Z.to_nat 25) with 25%nat. change (Z.to_nat 1) with 1%nat. change (field r0 25 1) with (rec_flags r0).
    inversion Hst as [r0' tl' data' Hsub Hdata|r0' data' d' Hsub Hsz Hrdd Hdir']; subst; unfold is_subdirectory in Hsub.
    + apply negb_false_iff in Hsub. rewrite Hsub. by exists None.
    + apply negb_true_iff in Hsub. rewrite Hsub. change (field r0 (Z.to_nat 10) (Z.to_nat 4)) with (e_size (rec_extent r0)). rewrite Hsz.
      rewrite evals_bind, evals_read. change (field r0 (Z.to_nat 2) (Z.to_nat 4)) with (LBA (rec_extent r0)). rewrite Hrdd.
      rewrite <- Hq. apply IH; [by eapply coherent_bytes|done|by rewrite Hq|cbn [length] in Hplen; lia].
Qed.

Lemma iso_tree_ok context ci root d path : rd (ISO9660_FIRST_VOLUME_DESCRIPTOR * ISO9660_SECTOR_SIZE + 1) 5 = Some (lit "CD001") →
  evals rd iso9660_cache_root = Ret (Some root) → idirectory rd root d → context = None ∨ context = Some root →
  Forall (λ s, iname_ok s = true) (split_path path) →
  ∃ h, evals rd (iso9660_open context ci path) = Ret (h, Some root) ∧ iopened (iresolve ci d (split_path path)) h.
Proof.
  intros Hsig Hroot Hdir Hctx Hn. pose proof (cache_root_safe rd) as Hsafe. rewrite Hroot in Hsafe. cbn [safe] in Hsafe.
  destruct (walk_ok (S (length path)) ci root d path Hsafe Hdir Hn) as (h & Hw & Ho); [lia|]. exists h. split; [|done].
  unfold iso9660_open. rewrite evals_bind, evals_read, Hsig. rewrite bool_decide_eq_true_2 by done. cbn [negb]. rewrite evals_bind.
  assert (evals rd (iso9660_get_context context) = Ret (Some root)) as -> by (by destruct Hctx as [-> | ->]).
  cbn [after]. rewrite evals_bind, Hw. done.
Qed.
End proofs.
