(* ===== verification/IsoNames.v ===== *)
(** The names of ISO 9660 records: those of Rock Ridge, in pieces and among
    other fields, and those of the standard with their version. *)
From S2P Require Import Prelude Libc Outcome Volume Part Reader Fat FatDir Iso9660 IsoSafe IsoTree.
From stdpp Require Import strings.
Open Scope list_scope.
Open Scope Z_scope.

(** ** How names are stored *)
Definition susp_field (s0 s1 : Z) (body : list Z) : list Z := [s0; s1; 4 + len body; 1] ++ body.
Definition nm_field (more : bool) (frag : list Z) : list Z := susp_field 78 77 ((if more then 1 else 0) :: frag).
Fixpoint nm_fields (frags : list (list Z)) : list Z :=
  match frags with
  | [] => []
  | [f] => nm_field false f
  | f :: fs => nm_field true f ++ nm_fields fs
  end.

(** Fields in front of the name: the two bytes of their signature and the rest. *)
Definition other_fields (fs : list (Z * Z * list Z)) : list Z := concat (map (λ '(s0, s1, body), susp_field s0 s1 body) fs).
Definition other_ok (f : Z * Z * list Z) : bool := let '(s0, s1, body) := f in negb ((s0 =? 78) && (s1 =? 77)) && (4 + len body <? 256).

Definition both_endian (n : nat) (x : Z) : list Z := le_bytes n x ++ be_bytes n x.

(** A record: where its extent is, its flags, the name of the standard and the
    fields of the system. *)
Definition iso_record (lba size fl : Z) (isoname susp : list Z) : list Z :=
  let pad := if len isoname mod 2 =? 0 then [0] else [] in
  [ENTRY_SIZE + len isoname + len pad + len susp; 0] ++ both_endian 4 lba ++ both_endian 4 size ++ replicate 7 0 ++ [fl; 0; 0] ++
  both_endian 2 1 ++ [len isoname] ++ isoname ++ pad ++ susp.

(** ** Reading them *)
Lemma len_susp s0 s1 body : len (susp_field s0 s1 body) = 4 + len body.
Proof. unfold susp_field. rewrite len_app. done. Qed.

(** One step of the search over a field at [len a]. *)
Lemma rock_ridge_step fuel limit a s0 s1 body rest area_len name found : 4 + len body ≤ area_len →
  rock_ridge (S fuel) limit (a ++ susp_field s0 s1 body ++ rest) (len a) area_len name found =
  let l := 4 + len body in
  if (s0 =? 78) && (s1 =? 77) && (5 <=? l) then
    if limit <=? len name + (l - 5) then Panic "iso9660: Filename size exceeded" else
    frag ← lift (slice (susp_field s0 s1 body) 5 (l - 5));
    fl ← get (susp_field s0 s1 body) 4;
    if Z.land fl 1 =? 0 then Ret (true, name ++ frag)
    else rock_ridge fuel limit (a ++ susp_field s0 s1 body ++ rest) (len a + l) (area_len - l) (name ++ frag) true
  else rock_ridge fuel limit (a ++ susp_field s0 s1 body ++ rest) (len a + l) (area_len - l) name found.
Proof.
  intros Hl. pose proof (len_nonneg body). pose proof (len_susp s0 s1 body) as Hls. set (f := susp_field s0 s1 body) in *. cbn [rock_ridge].
  rewrite (proj2 (Z.ltb_ge _ 4)) by lia. rewrite (get_mid a f rest 3), (get_mid a f rest 2), (get_mid a f rest 1) by lia.
  assert (get (a ++ f ++ rest) (len a) = get f 0) as ->.
  { pose proof (get_mid a f rest 0) as Hg. rewrite Z.add_0_r in Hg. apply Hg. lia. }
  change (get f 3) with (Ret 1). change (get f 2) with (Ret (4 + len body)). change (get f 1) with (Ret s1). change (get f 0) with (Ret s0).
  cbn [mbind out_bind]. change (negb (1 =? 1)) with false. cbv iota. rewrite (proj2 (Z.ltb_ge area_len _)), (proj2 (Z.eqb_neq _ 0)) by lia. cbn [orb].
  cbv zeta. destruct ((s0 =? 78) && (s1 =? 77) && (5 <=? 4 + len body)) eqn:Hnm; [|done].
  apply andb_true_iff in Hnm as [_ Hnm%Z.leb_le]. rewrite (slice_inside a f rest), (get_mid a f rest 4) by lia. done.
Qed.

Lemma susp_body s0 s1 x frag : slice (susp_field s0 s1 (x :: frag)) 5 (len frag) = Some frag.
Proof.
  change (susp_field s0 s1 (x :: frag)) with ([s0; s1; 4 + len (x :: frag); 1; x] ++ frag). rewrite slice_app_r by (done || apply len_nonneg).
  apply slice_all.
Qed.

Lemma nm_step fuel limit a more frag rest area_len name found : 5 + len frag ≤ area_len → len name + len frag < limit →
  rock_ridge (S fuel) limit (a ++ nm_field more frag ++ rest) (len a) area_len name found =
  if more then rock_ridge fuel limit ((a ++ nm_field more frag) ++ rest) (len (a ++ nm_field more frag)) (area_len - (5 + len frag)) (name ++ frag) true
  else Ret (true, name ++ frag).
Proof.
  intros Hl Hlim. pose proof (len_nonneg frag). unfold nm_field. rewrite rock_ridge_step by (rewrite len_cons; lia). cbv zeta. rewrite len_cons. cbn [Z.eqb Pos.eqb andb].
  rewrite (proj2 (Z.leb_le 5 _)) by lia. rewrite (proj2 (Z.leb_gt limit _)) by lia.
  replace (4 + (1 + len frag) - 5) with (len frag) by lia. rewrite susp_body.
  cbn [lift mbind out_bind]. change (get _ 4) with (Ret (if more then 1 else 0)). cbn [mbind out_bind]. destruct more; [|done].
  change (Z.land 1 1 =? 0) with false. cbv iota. rewrite <- app_assoc, len_app, len_susp, len_cons. f_equal; lia.
Qed.

Lemma nm_ok frags : ∀ fuel limit a rest area_len name found, frags ≠ [] → (length frags ≤ fuel)%nat → len (nm_fields frags) ≤ area_len →
  len (name ++ concat frags) < limit →
  rock_ridge fuel limit (a ++ nm_fields frags ++ rest) (len a) area_len name found = Ret (true, name ++ concat frags).
Proof.
  induction frags as [|f frags IH]; intros fuel limit a rest area_len name found Hne Hf Hl Hlim; [done|]. destruct fuel as [|fuel]; [cbn in Hf; lia|].
  cbn [concat] in *. rewrite !len_app in Hlim. pose proof (len_nonneg (concat frags)). destruct frags as [|f2 frags].
  - cbn [nm_fields concat] in *. unfold nm_field in Hl. rewrite len_susp, len_cons in Hl. rewrite nm_step by lia. by rewrite app_nil_r.
  - change (nm_fields (f :: f2 :: frags)) with (nm_field true f ++ nm_fields (f2 :: frags)) in *. rewrite len_app in Hl. unfold nm_field in Hl at 1.
    rewrite len_susp, len_cons in Hl. pose proof (len_nonneg (nm_fields (f2 :: frags))). rewrite <- app_assoc. rewrite nm_step by lia. rewrite IH; [by rewrite app_assoc|done|cbn in *; lia|lia|].
    rewrite !len_app. lia.
Qed.

Lemma others_ok fs : forallb other_ok fs = true → ∀ fuel limit a rest area_len name found, (length fs ≤ fuel)%nat → len (other_fields fs) ≤ area_len →
  rock_ridge fuel limit (a ++ other_fields fs ++ rest) (len a) area_len name found =
  rock_ridge (fuel - length fs) limit ((a ++ other_fields fs) ++ rest) (len (a ++ other_fields fs)) (area_len - len (other_fields fs)) name found.
Proof.
  induction fs as [|[[s0 s1] body] fs IH]; intros Hok fuel limit a rest area_len name found Hf Hl.
  - cbn. rewrite app_nil_r. change (len []) with 0. by rewrite Z.sub_0_r, Nat.sub_0_r.
  - cbn [forallb] in Hok. apply andb_true_iff in Hok as [Ho Hok]. cbn [other_ok] in Ho. apply andb_true_iff in Ho as [Ho _]. apply negb_true_iff in Ho.
    destruct fuel as [|fuel]; [cbn in Hf; lia|]. change (other_fields ((s0, s1, body) :: fs)) with (susp_field s0 s1 body ++ other_fields fs) in *.
    rewrite len_app, len_susp in Hl. pose proof (len_nonneg (other_fields fs)). rewrite <- !app_assoc, rock_ridge_step by lia. cbv zeta. rewrite Ho. cbn [andb].
    pose proof (IH Hok fuel limit (a ++ susp_field s0 s1 body) rest (area_len - (4 + len body)) name found) as IH'.
    rewrite <- !app_assoc in IH'. rewrite len_app, len_susp in IH'. rewrite IH' by (cbn in Hf; lia). cbn [length Nat.sub]. rewrite !len_app, len_susp. f_equal; lia.
Qed.

(** ** A whole record *)
Definition record_head (l lba size fl n : Z) : list Z :=
  [l; 0] ++ both_endian 4 lba ++ both_endian 4 size ++ replicate 7 0 ++ [fl; 0; 0] ++ both_endian 2 1 ++ [n].
Definition name_pad (isoname : list Z) : list Z := if len isoname mod 2 =? 0 then [0] else [].
Definition record_length (isoname susp : list Z) : Z := ENTRY_SIZE + len isoname + len (name_pad isoname) + len susp.

Lemma iso_record_parts lba size fl isoname susp :
  iso_record lba size fl isoname susp =
  record_head (record_length isoname susp) lba size fl (len isoname) ++ isoname ++ name_pad isoname ++ susp.
Proof. unfold iso_record, record_head. by rewrite <- !app_assoc. Qed.

Lemma len_iso_record lba size fl isoname susp : len (iso_record lba size fl isoname susp) = record_length isoname susp.
Proof. rewrite iso_record_parts, !len_app. unfold record_length. change (len (record_head _ _ _ _ _)) with 33. unfold ENTRY_SIZE. lia. Qed.

Record record_good (lba size fl : Z) (isoname susp : list Z) : Prop := {
  rg_lba : is_word 32 lba;
  rg_size : is_word 32 size;
  rg_fl : is_word 8 fl;
  rg_bytes : is_bytes (isoname ++ susp);
  rg_len : record_length isoname susp < 256;
}.

Section record.
Context (lba size fl : Z) (isoname susp : list Z) (Hg : record_good lba size fl isoname susp).
Notation r := (iso_record lba size fl isoname susp).

Lemma record_range : 33 ≤ record_length isoname susp < 256 ∧ 0 ≤ len isoname ∧ 0 ≤ len susp ∧ 0 ≤ len (name_pad isoname) ≤ 1.
Proof.
  destruct Hg as [_ _ _ _ Hl]. pose proof (len_nonneg isoname). pose proof (len_nonneg susp). pose proof (len_nonneg (name_pad isoname)).
  assert (len (name_pad isoname) ≤ 1) by (unfold name_pad; by destruct (_ =? 0)). unfold record_length, ENTRY_SIZE in *. lia.
Qed.

Lemma iso_record_ok : rec_ok r = true.
Proof.
  pose proof record_range as (Hl & Hn & Hs & Hp). destruct Hg as [H1 H2 H3 H4 _]. unfold rec_ok. rewrite len_iso_record, !andb_true_iff, Z.leb_le, bool_decide_eq_true, forallb_forall.
  rewrite iso_record_parts. unfold ENTRY_SIZE. split; [split; [lia|done]|]. apply Forall_app in H4 as [H4 H5].
  assert (is_bytes (record_head (record_length isoname susp) lba size fl (len isoname) ++ isoname ++ name_pad isoname ++ susp)) as Hb.
  { apply Forall_app; split; [|apply Forall_app; split; [done|apply Forall_app; split; [|done]]].
    - assert (∀ n x, is_bytes (be_bytes n x)) as Hbe by (intros; apply Forall_rev, is_bytes_le). pose proof is_bytes_le as Hle.
      unfold record_head, both_endian, is_bytes. rewrite !Forall_app. unfold is_bytes in Hbe, Hle. split_and!; try done.
      + repeat constructor; lia.
      + by apply Forall_replicate.
      + by constructor; [|repeat constructor].
      + constructor; [|constructor]. unfold is_word, record_length, ENTRY_SIZE in *. lia.
    - unfold name_pad. destruct (_ =? 0); by repeat constructor. }
  intros x Hx. apply (proj1 (List.Forall_forall _ _) Hb) in Hx. unfold is_word in Hx. lia.
Qed.

Lemma head_field o n : 0 ≤ o → 0 ≤ n → o + n ≤ 33 →
  entry_field r 0 o n = entry_field (record_head (record_length isoname susp) lba size fl (len isoname)) 0 o n.
Proof. intros Ho Hn Hon. unfold entry_field. rewrite iso_record_parts. rewrite slice_app_l by (change (len (record_head _ _ _ _ _)) with 33; lia). done. Qed.

Lemma iso_record_extent : rec_extent r = Extent lba size ∧ rec_flags r = fl.
Proof.
  destruct Hg as [H1 H2 H3 _ _]. unfold is_word in *. unfold rec_extent, rec_flags, field. rewrite iso_record_parts.
  set (tl := isoname ++ name_pad isoname ++ susp).
  change (take 4 (drop 2 (record_head (record_length isoname susp) lba size fl (len isoname) ++ tl))) with (le_bytes 4 lba).
  change (take 4 (drop 10 (record_head (record_length isoname susp) lba size fl (len isoname) ++ tl))) with (le_bytes 4 size).
  change (take 1 (drop 25 (record_head (record_length isoname susp) lba size fl (len isoname) ++ tl))) with [fl].
  rewrite !le_val_bytes by lia. rewrite !Z.mod_small by lia. split; [done|]. cbn. lia.
Qed.

(** The parts of [load_name] on it. *)
Lemma record_fields : iso_length r 0 = Ret (record_length isoname susp) ∧ filename_size r 0 = Ret (len isoname).
Proof.
  unfold iso_length, filename_size. rewrite !head_field by lia. unfold entry_field. split.
  - change (slice _ (0 + 0) 1) with (Some [record_length isoname susp]). cbn. f_equal. lia.
  - change (slice _ (0 + 32) 1) with (Some [len isoname]). cbn. f_equal. lia.
Qed.

Lemma load_record :
  rec_name r = '(found_nm, name) ← rock_ridge 256 256 r (33 + len isoname + len (name_pad isoname)) (len susp) [] false;
    if found_nm : bool then Ret (true, c_string name) else
    name ← iso_name (Z.to_nat (len isoname)) r 33 0 (len isoname) []; Ret (false, c_string name).
Proof.
  pose proof record_range as (Hl & Hn & Hs & Hp). unfold rec_name, load_name. destruct record_fields as [-> ->]. cbn [mbind out_bind].
  assert (record_length isoname susp = 33 + len isoname + len (name_pad isoname) + len susp) as HL by done. unfold ENTRY_SIZE. cbv zeta.
  rewrite (proj2 (Z.ltb_ge (record_length isoname susp) _)) by lia. rewrite (proj2 (Z.leb_gt 256 _)) by lia.
  assert (Z.land (len isoname) 1 = len isoname mod 2) as Hland by (change 1 with (Z.ones 1); by rewrite Z.land_ones by lia).
  rewrite Hland. assert (len (name_pad isoname) = if len isoname mod 2 =? 0 then 1 else 0) as Hpad by (unfold name_pad; by destruct (_ =? 0)).
  destruct (len isoname mod 2 =? 0).
  - rewrite (proj2 (Z.eqb_neq (record_length isoname susp - 33 - len isoname) 0)) by lia. rewrite Hpad, Z.add_0_l. do 2 f_equal. lia.
  - rewrite Hpad, Z.add_0_l, Z.add_0_r. do 2 f_equal. lia.
Qed.

Lemma record_susp : r = (record_head (record_length isoname susp) lba size fl (len isoname) ++ isoname ++ name_pad isoname) ++ susp ∧
  len (record_head (record_length isoname susp) lba size fl (len isoname) ++ isoname ++ name_pad isoname) = 33 + len isoname + len (name_pad isoname).
Proof. rewrite iso_record_parts, <- !app_assoc, !len_app. split; [done|]. change (len (record_head _ _ _ _ _)) with 33. lia. Qed.
End record.

Lemma c_string_id n : forallb (λ x, negb (x =? 0)) n = true → c_string n = n.
Proof. induction n as [|x n IH]; cbn; [done|]. rewrite andb_true_iff, negb_true_iff. intros [-> Hn]. by rewrite IH. Qed.

Lemma rock_ridge_name lba size fl isoname others frags rest : record_good lba size fl isoname (other_fields others ++ nm_fields frags ++ rest) →
  forallb other_ok others = true → frags ≠ [] → forallb (λ x, negb (x =? 0)) (concat frags) = true →
  rec_name (iso_record lba size fl isoname (other_fields others ++ nm_fields frags ++ rest)) = Ret (true, concat frags).
Proof.
  intros Hg Ho Hne Hz. pose proof (record_range _ _ _ _ _ Hg) as (Hl & Hn & Hs & Hp). rewrite load_record by done.
  destruct (record_susp lba size fl isoname (other_fields others ++ nm_fields frags ++ rest)) as [Hr Ha]. rewrite Hr, <- Ha.
  assert (∀ fs : list (Z * Z * list Z), Z.of_nat (length fs) * 4 ≤ len (other_fields fs)) as Hlo.
  { clear. induction fs as [|[[s0 s1] body] fs IH]; [done|]. change (other_fields ((s0, s1, body) :: fs)) with (susp_field s0 s1 body ++ other_fields fs).
    rewrite len_app, len_susp. cbn [length]. pose proof (len_nonneg body). lia. }
  assert (∀ fs : list (list Z), Z.of_nat (length fs) * 5 + len (concat fs) ≤ len (nm_fields fs)) as Hln.
  { clear. induction fs as [|f fs IH]; [done|]. destruct fs as [|f2 fs].
    - cbn [nm_fields concat length]. unfold nm_field. rewrite app_nil_r, len_susp, len_cons. lia.
    - change (nm_fields (f :: f2 :: fs)) with (nm_field true f ++ nm_fields (f2 :: fs)). unfold nm_field. rewrite len_app, len_susp, len_cons.
      change (concat (f :: f2 :: fs)) with (f ++ concat (f2 :: fs)). rewrite len_app. cbn [length] in *. lia. }
  specialize (Hlo others). specialize (Hln frags). unfold record_length, ENTRY_SIZE in Hl. pose proof (len_nonneg rest). pose proof (len_nonneg (concat frags)). pose proof (len_nonneg (other_fields others)).
  rewrite !len_app in Hl. rewrite others_ok by (done || rewrite ?len_app; lia). rewrite nm_ok by (done || rewrite ?app_nil_l, ?len_app; lia).
  cbn [mbind out_bind app]. by rewrite c_string_id.
Qed.

(** ** Names of the standard *)

(** Up to the version, and without a dot in front of it. *)
Fixpoint without_version (s : list Z) : list Z :=
  match s with
  | [] => []
  | c :: s => if c =? 59 then [] else if (c =? 46) && bool_decide (head s = Some 59) then [] else c :: without_version s
  end.

Lemma iso_name_ok s : ∀ a b n name_len name, (length s ≤ n)%nat →
  ∀ done_, name_len = len done_ + len s →
  iso_name n (a ++ (done_ ++ s) ++ b) (len a) (len done_) name_len name = Ret (name ++ without_version s).
Proof.
  induction s as [|c s IH]; intros a b n name_len name Hn done_ Hl.
  { change (len []) with 0 in Hl. destruct n as [|n]; cbn [iso_name]; [by rewrite app_nil_r|]. rewrite (proj2 (Z.leb_le _ _)) by lia. by rewrite app_nil_r. }
  destruct n as [|n]; [cbn in Hn; lia|]. cbn [iso_name without_version]. rewrite len_cons in Hl. pose proof (len_nonneg s). pose proof (len_nonneg done_).
  rewrite (proj2 (Z.leb_gt _ _)) by lia. rewrite (get_mid a (done_ ++ c :: s) b (len done_)) by (rewrite len_app, len_cons; lia).
  assert (get (done_ ++ c :: s) (len done_) = Ret c) as -> by (unfold get; rewrite arr_get_app_r by lia; by rewrite Z.sub_diag).
  cbn [mbind out_bind]. destruct (c =? 59); [by rewrite app_nil_r|].
  assert ((if (c =? 46) && (len done_ + 1 <? name_len) then c' ← get (a ++ (done_ ++ c :: s) ++ b) (len a + (len done_ + 1)); Ret (c' =? 59) else Ret false) =
    Ret ((c =? 46) && bool_decide (head s = Some 59))) as ->.
  { destruct (c =? 46); [|done]. cbn [andb]. destruct s as [|c' s].
    - rewrite (proj2 (Z.ltb_ge _ _)) by (change (len []) with 0 in Hl; lia). done.
    - rewrite len_cons in *. pose proof (len_nonneg s). rewrite (proj2 (Z.ltb_lt _ _)) by lia. rewrite (get_mid a _ b (len done_ + 1)) by (rewrite len_app, !len_cons; lia).
      assert (get (done_ ++ c :: c' :: s) (len done_ + 1) = Ret c') as ->.
      { unfold get. rewrite arr_get_app_r by lia. by replace (len done_ + 1 - len done_) with 1 by lia. }
      cbn [mbind out_bind head hd_error]. f_equal. destruct (Z.eqb_spec c' 59) as [->|Hc]; symmetry; [by apply bool_decide_eq_true_2|apply bool_decide_eq_false_2; by intros [= ->]]. }
  cbn [mbind out_bind]. destruct (_ && _); [by rewrite app_nil_r|].
  pose proof (IH a b n name_len (name ++ [c]) ltac:(cbn in Hn; lia) (done_ ++ [c])) as IH'. rewrite len_app in IH'. change (len [c]) with 1 in IH'.
  rewrite <- (app_assoc done_ [c] s) in IH'. cbn [app] in IH'. rewrite IH' by lia. by rewrite <- app_assoc.
Qed.

Lemma standard_name lba size fl isoname : record_good lba size fl isoname [] →
  rec_name (iso_record lba size fl isoname []) = Ret (false, c_string (without_version isoname)).
Proof.
  intros Hg. pose proof (record_range _ _ _ _ _ Hg) as (Hl & Hn & Hs & Hp). rewrite load_record by done. change (len []) with 0.
  assert (∀ d area, rock_ridge 256 256 d area 0 [] false = Ret (false, [])) as -> by done. cbn [mbind out_bind].
  rewrite iso_record_parts. pose proof (iso_name_ok isoname (record_head (record_length isoname []) lba size fl (len isoname)) (name_pad isoname ++ [])
    (Z.to_nat (len isoname)) (len isoname) [] ltac:(unfold len; lia) [] ltac:(rewrite len_nil; lia)) as H.
  change (len []) with 0 in H. change (len (record_head _ _ _ _ _)) with 33 in H. cbn [app] in H. rewrite H. done.
Qed.

(** C36: A record is read as it was written: its Rock Ridge name, in however
    many pieces and behind whatever other fields, or without one the name of
    the standard up to its version and the dot in front of that; its extent
    and its flags. *)
Theorem iso_names_correct lba size fl isoname :
  (∀ others frags rest, record_good lba size fl isoname (other_fields others ++ nm_fields frags ++ rest) → forallb other_ok others = true →
    frags ≠ [] → forallb (λ x, negb (x =? 0)) (concat frags) = true →
    rec_name (iso_record lba size fl isoname (other_fields others ++ nm_fields frags ++ rest)) = Ret (true, concat frags)) ∧
  (record_good lba size fl isoname [] → rec_name (iso_record lba size fl isoname []) = Ret (false, c_string (without_version isoname))) ∧
  (∀ susp, record_good lba size fl isoname susp → rec_ok (iso_record lba size fl isoname susp) = true ∧
    rec_extent (iso_record lba size fl isoname susp) = Extent lba size ∧ rec_flags (iso_record lba size fl isoname susp) = fl).
Proof.
  split; [|split].
  - intros others frags rest. apply rock_ridge_name.
  - apply standard_name.
  - intros susp Hg. split; [by apply iso_record_ok|by apply iso_record_extent].
Qed.

Lemma iso_names_correct_witness :
  rec_name (iso_record 20 700 0 (lit "KERNEL_B.IN;1") (other_fields [(82, 82, [9])] ++ nm_fields [lit "kernel-6.1"; lit ".bin"] ++ [])) =
    Ret (true, lit "kernel-6.1.bin") ∧
  rec_name (iso_record 20 700 0 (lit "README.;1") []) = Ret (false, lit "README").
Proof.
  destruct (iso_names_correct 20 700 0 (lit "KERNEL_B.IN;1")) as (H1 & _). destruct (iso_names_correct 20 700 0 (lit "README.;1")) as (_ & H2 & _). split.
  - apply (H1 [(82, 82, [9])] [lit "kernel-6.1"; lit ".bin"] []); [|reflexivity|discriminate|reflexivity]. split; [split; done|split; done|split; done| |reflexivity].
    vm_compute. repeat constructor; discriminate.
  - apply H2. split; [split; done|split; done|split; done| |reflexivity]. vm_compute. repeat constructor; discriminate.
Defined.
