(* ===== verification/IsoProofs.v ===== *)
(** Opening and reading files of an ISO 9660 volume, through the cache of the
    volume. *)
From S2P Require Import Prelude Libc Outcome Volume VolumeProofs Part PartProofs Reader Fat FatProofs Iso9660 IsoSafe IsoTree IsoNames.
From stdpp Require Import strings.
Open Scope list_scope.
Open Scope Z_scope.

(** C12: Whatever an ISO 9660 volume holds, opening a path on it ends with a
    handle, no handle or a panic: no access leaves a directory, and every loop
    over fields, records, sectors and extents ends.  The size of a handle is
    that of its extents, however often the second pass meets what the first
    one counted. *)
Theorem iso_open_safe int13 disk v context ci path :
  (∀ d p, is_word 8 (disk d p)) → known int13 disk v → match context with Some root => is_bytes root | None => True end →
  ∃ o w, run int13 v (iso9660_open context ci path) = Ret (o, w) ∧
    safe o (λ '(h, context'), match h with Some f => total_size f = extents_size (extents f) | None => True end ∧
      match context' with Some root => is_bytes root | None => True end).
Proof.
  intros Hd Hv Hctx. destruct (run_ok int13 disk v (iso9660_open context ci path) Hv) as (w & Hw & _). do 2 eexists. split; [exact Hw|].
  pose proof (reads_coherent int13 disk Hd v (kn_ok _ _ _ Hv) (kn_size _ _ _ Hv)) as Hco.
  eapply safe_weaken; [by apply (iso_open_ok (reads int13 disk v))|]. intros [h c'] [Hh Hc']. split; [|done]. destruct h as [f|]; [|done]. apply Hh.
Qed.

(** C3: On a volume that holds an ISO 9660 file system with a tree of files,
    opening a path finds what the tree has at it, by Rock Ridge or standard
    name in each directory, across sectors that are not filled, whether the
    root was kept from an earlier path or is read now.  The handle has the
    size of all extents of the file, and every read inside it gives that part
    of their bytes put together.  A path that leads nowhere or ends in a slash
    gives no handle. *)
Theorem iso_tree_correct int13 disk v context root d ci path :
  (∀ d p, is_word 8 (disk d p)) → known int13 disk v →
  reads int13 disk v (ISO9660_FIRST_VOLUME_DESCRIPTOR * ISO9660_SECTOR_SIZE + 1) 5 = Some (lit "CD001") →
  evals (reads int13 disk v) iso9660_cache_root = Ret (Some root) → idirectory (reads int13 disk v) root d →
  context = None ∨ context = Some root → Forall (λ s, iname_ok s = true) (split_path path) →
  match iresolve ci d (split_path path) with
  | None => ∃ w, run int13 v (iso9660_open context ci path) = Ret (Ret (None, Some root), w)
  | Some n =>
      ∃ f w, run int13 v (iso9660_open context ci path) = Ret (Ret (Some f, Some root), w) ∧ total_size f = len (node_data n) ∧
        ∀ loc count, 0 ≤ loc → 0 ≤ count → loc + count ≤ len (node_data n) →
          ∃ bs w', slice (node_data n) loc count = Some bs ∧ run int13 w (iso9660_read f loc count) = Ret (Ret bs, w')
  end.
Proof.
  intros Hd Hv Hsig Hroot Hdir Hctx Hn. destruct (run_ok int13 disk v (iso9660_open context ci path) Hv) as (w & Hw & Hs & Hk).
  pose proof (reads_coherent int13 disk Hd v (kn_ok _ _ _ Hv) (kn_size _ _ _ Hv)) as Hco.
  destruct (iso_tree_ok (reads int13 disk v) context ci root d path Hsig Hroot Hdir Hctx Hn) as (h & Ho & Hh). rewrite Hw, Ho.
  destruct (iresolve ci d (split_path path)) as [n|], h as [f|]; try done; [|by exists w]. destruct Hh as [Hok Hbs]. pose proof Hok as [Ht Hx].
  exists f, w. split; [done|]. pose proof (file_bytes_len _ _ _ Hx Hbs) as Hlen. split; [lia|]. intros loc count Hl Hc He.
  destruct (iso_read_ok (reads int13 disk v) f (node_data n) loc count Hok Hbs Hl Hc ltac:(lia)) as (bs & Hsl & Hr).
  destruct (run_ok int13 disk w (iso9660_read f loc count) Hk) as (w' & Hw' & _). exists bs, w'. split; [done|].
  by rewrite Hw', (reads_same int13 disk v w Hs), Hr.
Qed.

(** ** A volume with a directory, and a file of two extents in it *)
Definition rr (name : string) : list Z := nm_fields [lit name].
Definition boot_data : list Z := map (λ i, (i * 7) mod 256) (seqZ 0 300).
Definition tail_data : list Z := map (λ i, (i * 5) mod 256) (seqZ 0 100).
Definition kernel_records : list (list Z) :=
  [iso_record 20 300 0x80 (lit "KERNEL.;1") (rr "kernel"); iso_record 21 100 0 (lit "KERNEL.;1") (rr "kernel")].
Definition iso_boot_slots : list (islot inode) :=
  [ISkip (iso_record 19 2048 2 [0] []); ISkip (iso_record 18 2048 2 [1] []); IChild kernel_records (IFile (boot_data ++ tail_data))].
Definition iso_boot_dir : list Z := pad 2048 (concat (concat (map records iso_boot_slots))).
Definition iso_root_slots : list (islot inode) :=
  [ISkip (iso_record 18 2048 2 [0] []); ISkip (iso_record 18 2048 2 [1] []);
   IChild [iso_record 19 2048 2 (lit "BOOT") []] (IDir iso_boot_dir iso_boot_slots)].
Definition iso_root_dir : list Z := pad 2048 (concat (concat (map records iso_root_slots))).
Definition iso_pvd : list Z := [1] ++ lit "CD001" ++ [1] ++ zeros 149 ++ iso_record 18 2048 2 [0] [].
Definition iso_root_bytes : list Z := concat (concat (map records iso_root_slots)).
Definition iso_boot_bytes : list Z := concat (concat (map records iso_boot_slots)).
Definition iso_sector (n : Z) : list Z :=
  match n with 16 => iso_pvd | 18 => iso_root_bytes | 19 => iso_boot_bytes | 20 => boot_data | 21 => tail_data | _ => [] end.
Definition iso_disk (d p : Z) : Z := u8 (default 0 (iso_sector (p / 2048)).[p mod 2048]).
Definition iso_volume : volume := Vol 0x80 4 false 512 None None 0 88.
Notation iso_int13 := (drive_int13 iso_disk 88).

(** Records at the start of a sector, and zeros. *)
Lemma layout_records rs n : ∀ a, forallb rec_ok rs = true → layout (a ++ concat rs ++ zeros n) (len a) rs.
Proof.
  induction rs as [|r rs IH]; intros a Hr; cbn [concat].
  - rewrite app_nil_l. pose proof (len_nonneg a). apply layout_end; [lia| |rewrite len_app; pose proof (len_nonneg (zeros n)); lia]. intros i Hi. rewrite len_app in Hi. unfold zeros in *. rewrite len_replicate in Hi.
    rewrite arr_get_app_r by lia. unfold arr_get. rewrite decide_True by lia. apply lookup_replicate_2. lia.
  - cbn [forallb] in Hr. apply andb_true_iff in Hr as [Hr Hrs]. rewrite <- app_assoc. pose proof (len_nonneg r). apply layout_rec; [|done|].
    + pose proof (slice_inside a r (concat rs ++ zeros n) 0 (len r) ltac:(lia) ltac:(lia) ltac:(lia)) as Hs. rewrite Z.add_0_r in Hs. rewrite Hs. apply slice_all.
    + specialize (IH (a ++ r) Hrs). rewrite len_app, <- !app_assoc in IH. exact IH.
Qed.

Lemma iso_known : known iso_int13 iso_disk iso_volume.
Proof. split; [split; try done; [by right|apply drive_firmware]|by split|done]. Qed.

Notation iso_reads := (reads iso_int13 iso_disk iso_volume).

Lemma in_slots {A} r1 r2 (rs rs' : list (list Z)) (a a' : A) : In (IChild rs a) [ISkip r1; ISkip r2; IChild rs' a'] → rs = rs' ∧ a = a'.
Proof. intros [?|[?|[[= -> ->]|[]]]]; done. Qed.

Lemma kernel_stored : istored iso_reads kernel_records (IFile (boot_data ++ tail_data)).
Proof. apply istored_file; vm_compute; reflexivity. Qed.

Lemma boot_dir : idirectory iso_reads iso_boot_dir iso_boot_slots.
Proof.
  split; [vm_compute; reflexivity|apply (layout_records _ _ []); vm_compute; reflexivity| |].
  - cbn [In iso_boot_slots]. intros s [<-|[<-|[<-|[]]]].
    + exists false. left. vm_compute. reflexivity.
    + exists false. right. vm_compute. reflexivity.
    + exists (true, lit "kernel"). split; [vm_compute; reflexivity|]. split; [repeat constructor|done].
  - intros rs a [-> ->]%in_slots. exact kernel_stored.
Qed.

Lemma root_dir : idirectory iso_reads iso_root_dir iso_root_slots.
Proof.
  split; [vm_compute; reflexivity|apply (layout_records _ _ []); vm_compute; reflexivity| |].
  - cbn [In iso_root_slots]. intros s [<-|[<-|[<-|[]]]].
    + exists false. left. vm_compute. reflexivity.
    + exists false. right. vm_compute. reflexivity.
    + exists (false, lit "BOOT"). split; [vm_compute; reflexivity|]. split; [repeat constructor|done].
  - intros rs a [-> ->]%in_slots. apply istored_dir; [vm_compute; reflexivity..|exact boot_dir].
Qed.

Lemma iso_tree_correct_witness : ∃ f w,
  run iso_int13 iso_volume (iso9660_open None false (lit "/boot/kernel")) = Ret (Ret (Some f, Some iso_root_dir), w) ∧
  total_size f = len (boot_data ++ tail_data) ∧
  ∀ loc count, 0 ≤ loc → 0 ≤ count → loc + count ≤ len (boot_data ++ tail_data) →
    ∃ bs w', slice (boot_data ++ tail_data) loc count = Some bs ∧ run iso_int13 w (iso9660_read f loc count) = Ret (Ret bs, w').
Proof.
  assert (∀ d p, is_word 8 (iso_disk d p)) as Hd by (intros d p; apply wrap_word; discriminate).
  assert (iso_reads (ISO9660_FIRST_VOLUME_DESCRIPTOR * ISO9660_SECTOR_SIZE + 1) 5 = Some (lit "CD001")) as Hsig by (vm_compute; reflexivity).
  assert (evals iso_reads iso9660_cache_root = Ret (Some iso_root_dir)) as Hroot by (vm_compute; reflexivity).
  assert (Forall (λ s, iname_ok s = true) (split_path (lit "/boot/kernel"))) as Hn.
  { change (split_path (lit "/boot/kernel")) with [[]; lit "boot"; lit "kernel"]. repeat constructor. }
  pose proof (iso_tree_correct iso_int13 iso_disk iso_volume None iso_root_dir iso_root_slots false _ Hd iso_known Hsig Hroot root_dir (or_introl eq_refl) Hn) as H.
  assert (iresolve false iso_root_slots (split_path (lit "/boot/kernel")) = Some (IFile (boot_data ++ tail_data))) as Hl by (vm_compute; reflexivity).
  rewrite Hl in H. exact H.
Defined.

Lemma iso_open_safe_witness : ∃ o w, run iso_int13 iso_volume (iso9660_open None false (lit "/boot/kernel")) = Ret (o, w) ∧
  safe o (λ '(h, context'), match h with Some f => total_size f = extents_size (extents f) | None => True end ∧
    match context' with Some root => is_bytes root | None => True end).
Proof.
  assert (∀ d p, is_word 8 (iso_disk d p)) as Hd by (intros d p; apply wrap_word; discriminate).
  exact (iso_open_safe iso_int13 iso_disk iso_volume None false (lit "/boot/kernel") Hd iso_known I).
Defined.
