(* ===== verification/File.v ===== *)
(** Files, [limine/common/fs/file.s2.c]: opening a path tries ISO 9660 and then
    FAT, reading stays inside the file.

    A volume that stands for the network is left out.  A handle for bytes in
    memory is the bytes; closing frees memory and is left out.  [context] is
    what is kept of the ISO 9660 volume from earlier paths. *)
From S2P Require Import Prelude Libc Outcome Volume VolumeProofs Part PartProofs Reader Fat FatChain FatDir FatProofs Iso9660 IsoSafe IsoTree.
From stdpp Require Import strings.
Open Scope list_scope.
Open Scope Z_scope.

Inductive file_handle :=
  | IsoHandle (f : iso9660_file_handle)
  | FatHandle (f : fat32_file_handle)
  | MemFile (is_high_mem : bool) (data : list Z).

Definition handle_size (h : file_handle) : Z :=
  match h with IsoHandle f => total_size f | FatHandle f => size_bytes f | MemFile _ data => len data end.

Definition fs_get_label (part_sectors : Z) : rdr (option (list Z)) := fat32_get_label part_sectors.

Definition rooted (filename : list Z) : list Z := if bool_decide (head filename = Some 47) then filename else 47 :: filename.

Definition fopen (part_sectors : Z) (context : option (list Z)) (ci : bool) (filename : list Z)
    : rdr (out (option file_handle * option (list Z))) :=
  let filename := rooted filename in
  r ←! iso9660_open context ci filename;
  match r : option iso9660_file_handle * option (list Z) with
  | (Some f, context) => Done (Ret (Some (IsoHandle f), context))
  | (None, context) =>
      h ← fat32_open part_sectors ci filename;
      Done (Ret (option_map FatHandle h, context))
  end.

(** On BIOS the memory above 4 GiB cannot be copied from. *)
Definition fread (fd : file_handle) (loc count : Z) : rdr (out (list Z)) :=
  if (handle_size fd <? loc) || (handle_size fd - loc <? count) then mret (Panic "fread: attempted out of bounds read") else
  match fd with
  | MemFile is_high_mem data =>
      if is_high_mem then mret (Panic "fread: memfile resides above 4 GiB; caller must use load_addr_64 directly")
      else mret (lift (slice data loc count))
  | IsoHandle f => iso9660_read f loc count
  | FatHandle f =>
      r ← fat32_read f loc count;
      mret (match r with Some bs => Ret bs | None => Panic "fat32: cluster chain read failed (corrupted filesystem?)" end)
  end.

(** ** What a file system promises

    [files ok file]: of the paths [ok] accepts, [fopen] opens those that have
    data in [file], and reading is slicing; a read that leaves the file
    panics.  [context] may be empty or what an earlier path left. *)
Class serves (rd : Z → Z → option (list Z)) (part_sectors : Z) (root : option (list Z)) (ci : bool) (ok : list Z → bool)
    (file : list Z → option (list Z)) : Prop :=
  serves_open context path : context = None ∨ context = root → ok path = true →
    ∃ h, evals rd (fopen part_sectors context ci path) = Ret (h, root) ∧
      match file path, h with
      | None, None => True
      | Some data, Some fd => handle_size fd = len data ∧
          ∀ loc count, 0 ≤ loc → 0 ≤ count → evals rd (fread fd loc count) =
            match slice data loc count with Some bs => Ret bs | None => Panic "fread: attempted out of bounds read" end
      | _, _ => False
      end.

(** A read is inside the file exactly if there is such a slice. *)
Lemma fread_bounds {A} (data : list A) size loc count : size = len data → 0 ≤ loc → 0 ≤ count →
  (size <? loc) || (size - loc <? count) = if slice data loc count is Some _ then false else true.
Proof.
  intros -> Hl Hc. unfold slice. case_decide as H; [apply orb_false_iff; lia|]. apply orb_true_iff. lia.
Qed.

Section serves.
Context (rd : Z → Z → option (list Z)) `{Hrd : !coherent rd} (ci : bool).

Definition fat_path_ok (path : list Z) : bool := forallb name_ok (split_path (skip_slashes path)).
Definition fat_file (d : list (slot node)) (path : list Z) : option (list Z) :=
  (λ n, match n with File data => data | Dir _ => [] end) <$> lookup_path ci d path.

Lemma skip_rooted path : skip_slashes (rooted path) = skip_slashes path.
Proof. unfold rooted. case_bool_decide; done. Qed.

(** FAT, where there is no signature of ISO 9660. *)
#[export] Instance fat_serves ps c d : evals rd (fat32_init_context ps) = Some c → directory rd c (root_of c) d →
  rd (ISO9660_FIRST_VOLUME_DESCRIPTOR * ISO9660_SECTOR_SIZE + 1) 5 ≠ Some (lit "CD001") →
  serves rd ps None ci fat_path_ok (fat_file d).
Proof.
  intros Hi Hd Hsig context path Hctx Hok. assert (context = None) as -> by (by destruct Hctx).
  assert (evals rd (iso9660_open None ci (rooted path)) = Ret (None, None)) as Hiso.
  { unfold iso9660_open. rewrite evals_bind, evals_read. destruct (rd _ 5) as [buf|]; [|done]. rewrite bool_decide_eq_false_2; [done|congruence]. }
  assert (Forall (λ s, name_ok s = true) (split_path (skip_slashes (rooted path)))) as Hn.
  { rewrite skip_rooted. unfold fat_path_ok in Hok. apply List.Forall_forall. by apply forallb_forall. }
  pose proof (fat_open_ok rd ps c ci d (rooted path) Hi Hd Hn) as Ho. unfold fopen. cbv zeta. rewrite evals_bind, Hiso. cbn [after]. rewrite evals_bind.
  assert (lookup_path ci d (rooted path) = lookup_path ci d path) as Hl by (unfold lookup_path; by rewrite skip_rooted). rewrite Hl in Ho.
  eexists. split; [done|]. unfold fat_file. destruct (lookup_path ci d path) as [n|]; cbn [fmap option_fmap option_map].
  - destruct Ho as (f & -> & Hsz & Hr). cbn [fmap option_fmap option_map handle_size]. split; [done|]. intros loc count Hloc Hcount.
    unfold fread. cbn [handle_size]. rewrite (fread_bounds _ _ _ _ Hsz Hloc Hcount).
    destruct (slice _ loc count) as [bs|] eqn:Hs; [|done]. rewrite evals_bind, Hr, Hs; [done|done|done|]. by apply slice_Some in Hs as (_ & _ & ? & _).
  - unfold opened in Ho. by rewrite Ho.
Qed.

Definition iso_path_ok (path : list Z) : bool := forallb iname_ok (split_path path).
Definition iso_file (d : list (islot inode)) (path : list Z) : option (list Z) := node_data <$> iresolve ci d (split_path path).

Lemma rooted_parts path d : iresolve ci d (split_path (rooted path)) = iresolve ci d (split_path path).
Proof. unfold rooted. case_bool_decide; done. Qed.

(** ISO 9660, where no FAT answers what it does not have. *)
#[export] Instance iso_serves ps root d : rd (ISO9660_FIRST_VOLUME_DESCRIPTOR * ISO9660_SECTOR_SIZE + 1) 5 = Some (lit "CD001") →
  evals rd iso9660_cache_root = Ret (Some root) → idirectory rd root d → evals rd (fat32_init_context ps) = None →
  serves rd ps (Some root) ci iso_path_ok (iso_file d).
Proof.
  intros Hsig Hroot Hd Hfat context path Hctx Hok.
  assert (Forall (λ s, iname_ok s = true) (split_path (rooted path))) as Hn.
  { assert (Forall (λ s, iname_ok s = true) (split_path path)) by (apply List.Forall_forall; by apply forallb_forall).
    unfold rooted. case_bool_decide; [done|]. by constructor. }
  destruct (iso_tree_ok rd context ci root d (rooted path) Hsig Hroot Hd Hctx Hn) as (h & Ho & Hh). rewrite rooted_parts in Hh.
  unfold fopen. cbv zeta. rewrite evals_bind, Ho. cbn [after]. unfold iso_file. destruct (iresolve ci d (split_path path)) as [n|], h as [f|]; try done; cbn [fmap option_fmap option_map].
  - eexists. split; [done|]. cbn [handle_size]. destruct Hh as [Hf Hbs]. pose proof Hf as [Ht Hx]. pose proof (file_bytes_len rd _ _ Hx Hbs) as Hlen.
    assert (total_size f = len (node_data n)) as Hsz by lia. split; [done|]. intros loc count Hloc Hcount. unfold fread. cbn [handle_size].
    rewrite (fread_bounds _ _ _ _ Hsz Hloc Hcount). destruct (slice _ loc count) as [bs|] eqn:Hs; [|done].
    apply slice_Some in Hs as Hs'. destruct (iso_read_ok rd f (node_data n) loc count Hf Hbs Hloc Hcount ltac:(lia)) as (r & Hr & ->). congruence.
  - exists None. split; [|done]. rewrite evals_bind. unfold fat32_open. by rewrite evals_bind, Hfat.
Qed.
End serves.

(** Paths are opened and files read one after the other: each access is a path
    and a range. *)
Definition access (part_sectors : Z) (context : option (list Z)) (ci : bool) (path : list Z) (loc count : Z)
    : rdr (out (option (list Z) * option (list Z))) :=
  r ←! fopen part_sectors context ci path;
  match r : option file_handle * option (list Z) with
  | (None, context) => Done (Ret (None, context))
  | (Some fd, context) => bs ←! fread fd loc count; Done (Ret (Some bs, context))
  end.

Fixpoint accesses int13 (v : volume) (context : option (list Z)) (ci : bool) (reqs : list (list Z * Z * Z)) : out (list (option (list Z))) :=
  match reqs with
  | [] => Ret []
  | (path, loc, count) :: reqs =>
      '(o, v) ← run int13 v (access (sect_count v) context ci path loc count);
      '(bs, context) ← o;
      rs ← accesses int13 v context ci reqs;
      Ret (bs :: rs)
  end.


