(* ===== verification/Elf.v ===== *)
(** Executables in the ELF format, [limine/common/lib/elf.c]: 64-bit kernels
    loaded where the allocator has room and relocated, 32-bit and 64-bit
    kernels put together for [elsewhere], and sections looked up by name.

    A file is its bytes; an access outside of it, or one that is not aligned to
    the size of what is accessed, is [Wild], and so is an [int] product that
    overflows.  What differs between the processors is in a record. *)
From S2P Require Import Prelude Libc Outcome Pmm Elsewhere.
From stdpp Require Import strings.
Open Scope list_scope.
Open Scope Z_scope.

Definition ET_EXEC : Z := 2.
Definition ET_DYN : Z := 3.
Definition PT_LOAD : Z := 1.
Definition PT_DYNAMIC : Z := 2.
Definition DT_NULL : Z := 0x0.
Definition DT_NEEDED : Z := 0x1.
Definition DT_PLTRELSZ : Z := 0x2.
Definition DT_STRTAB : Z := 0x5.
Definition DT_SYMTAB : Z := 0x6.
Definition DT_RELA : Z := 0x7.
Definition DT_RELASZ : Z := 0x8.
Definition DT_RELAENT : Z := 0x9.
Definition DT_SYMENT : Z := 0xb.
Definition DT_PLTREL : Z := 0x14.
Definition DT_JMPREL : Z := 0x17.
Definition DT_RELRSZ : Z := 0x23.
Definition DT_RELR : Z := 0x24.
Definition DT_RELRENT : Z := 0x25.
Definition ARCH_X86_64 : Z := 0x3e.
Definition ARCH_X86_32 : Z := 0x03.
Definition ARCH_AARCH64 : Z := 0xb7.
Definition ARCH_RISCV : Z := 0xf3.
Definition ARCH_LOONGARCH : Z := 0x102.
Definition BITS_LE : Z := 1.
Definition ELFCLASS32 : Z := 1.
Definition ELFCLASS64 : Z := 2.
Definition SHN_UNDEF : Z := 0.
Definition STB_WEAK : Z := 2.
Definition R_INTERNAL_RELR : Z := 0xfffffff0.
Definition EI_CLASS : Z := 4.
Definition EI_DATA : Z := 5.
Definition FIXED_HIGHER_HALF_OFFSET_64 : Z := 0xffffffff80000000.
Definition ELF_PF_X : Z := 1.
Definition ELF_PF_W : Z := 2.
Definition ELF_PF_R : Z := 4.
Definition MEM_RANGE_X : Z := 1.
Definition MEM_RANGE_W : Z := 2.
Definition MEM_RANGE_R : Z := 4.

(** What the loader is compiled for; some have no [GLOB_DAT], one adds the
    addend to it. *)
Record elf_arch := Arch {
  machine_id : Z;
  class_checked : bool;
  R_NONE : Z;
  R_RELATIVE : Z;
  R_GLOB_DAT : option Z;
  R_JUMP_SLOT : Z;
  R_64 : Z;
  slot_addend : bool;
}.
Definition x86_64 : elf_arch := Arch ARCH_X86_64 false 0 8 (Some 6) 7 1 false.
Definition aarch64 : elf_arch := Arch ARCH_AARCH64 false 0 0x403 (Some 0x401) 0x402 0x101 true.
Definition riscv64 : elf_arch := Arch ARCH_RISCV true 0 3 None 5 2 false.
Definition loongarch64 : elf_arch := Arch ARCH_LOONGARCH true 0 3 None 5 2 false.

(** ** The structures of the file *)

(** A field of [n] bytes at offset [o]. *)
Definition fld (elf : list Z) (o n : Z) : out Z :=
  if o mod n =? 0 then bs ← lift (slice elf o n); Ret (le_val bs) else Wild.

(** The product of two [uint16_t], which is an [int]. *)
Definition imul (a b : Z) : out Z := if a * b <? 2 ^ 31 then Ret (a * b) else Wild.

Record elf_hdr := Hdr {
  h_type : Z; h_machine : Z; h_entry : Z; phoff : Z; shoff : Z;
  phdr_size : Z; ph_num : Z; shdr_size : Z; sh_num : Z; shstrndx : Z;
}.
Definition elf64_hdr (elf : list Z) : out elf_hdr :=
  ty ← fld elf 16 2; machine ← fld elf 18 2; entry ← fld elf 24 8; phoff ← fld elf 32 8; shoff ← fld elf 40 8;
  phdr_size ← fld elf 54 2; ph_num ← fld elf 56 2; shdr_size ← fld elf 58 2; sh_num ← fld elf 60 2; shstrndx ← fld elf 62 2;
  Ret (Hdr ty machine entry phoff shoff phdr_size ph_num shdr_size sh_num shstrndx).
Definition elf32_hdr (elf : list Z) : out elf_hdr :=
  ty ← fld elf 16 2; machine ← fld elf 18 2; entry ← fld elf 24 4; phoff ← fld elf 28 4; shoff ← fld elf 32 4;
  phdr_size ← fld elf 42 2; ph_num ← fld elf 44 2; shdr_size ← fld elf 46 2; sh_num ← fld elf 48 2; shstrndx ← fld elf 50 2;
  Ret (Hdr ty machine entry phoff shoff phdr_size ph_num shdr_size sh_num shstrndx).

Record elf_phdr := Phdr {
  p_type : Z; p_flags : Z; p_offset : Z; p_vaddr : Z; p_paddr : Z; p_filesz : Z; p_memsz : Z; p_align : Z;
}.
Definition elf64_phdr (elf : list Z) (o : Z) : out elf_phdr :=
  ty ← fld elf o 4; flags ← fld elf (o + 4) 4; offset ← fld elf (o + 8) 8; vaddr ← fld elf (o + 16) 8;
  paddr ← fld elf (o + 24) 8; filesz ← fld elf (o + 32) 8; memsz ← fld elf (o + 40) 8; align ← fld elf (o + 48) 8;
  Ret (Phdr ty flags offset vaddr paddr filesz memsz align).
Definition elf32_phdr (elf : list Z) (o : Z) : out elf_phdr :=
  ty ← fld elf o 4; offset ← fld elf (o + 4) 4; vaddr ← fld elf (o + 8) 4; paddr ← fld elf (o + 12) 4;
  filesz ← fld elf (o + 16) 4; memsz ← fld elf (o + 20) 4; flags ← fld elf (o + 24) 4; align ← fld elf (o + 28) 4;
  Ret (Phdr ty flags offset vaddr paddr filesz memsz align).

Record elf64_shdr := Shdr { sh_name : Z; sh_addr : Z; sh_offset : Z; sh_size : Z }.
Definition elf64_shdr_at (elf : list Z) (o : Z) : out elf64_shdr :=
  name ← fld elf o 4; addr ← fld elf (o + 16) 8; offset ← fld elf (o + 24) 8; size ← fld elf (o + 32) 8;
  Ret (Shdr name addr offset size).

Record elf64_sym := Sym { st_name : Z; st_info : Z; st_shndx : Z; st_value : Z }.
Definition elf64_sym_at (elf : list Z) (o : Z) : out elf64_sym :=
  name ← fld elf o 4; info ← fld elf (o + 4) 1; shndx ← fld elf (o + 6) 2; value ← fld elf (o + 8) 8;
  Ret (Sym name info shndx value).

Record elf64_rela := Rela { r_addr : Z; r_info : Z; r_symbol : Z; r_addend : Z }.
Definition elf64_rela_at (elf : list Z) (o : Z) : out elf64_rela :=
  addr ← fld elf o 8; info ← fld elf (o + 8) 4; symbol ← fld elf (o + 12) 4; addend ← fld elf (o + 16) 8;
  Ret (Rela addr info symbol addend).

(** Entry [i] of a table with a stride of 16 bits, [i] of 16 bits as well. *)
Definition table_entry {A} (at_ : list Z → Z → out A) (elf : list Z) (off stride i : Z) : out A :=
  o ← imul i stride; at_ elf (u64 (off + o)).

(** ** Identification *)
Definition magic : list Z := [127; 69; 76; 70; 0].

Definition elf32_validate (elf : list Z) (h : elf_hdr) : out unit :=
  c ← lift (strncmp elf magic 4);
  if negb (c =? 0) then Panic "elf: Not a valid ELF file." else
  d ← get elf EI_DATA;
  if negb (d =? BITS_LE) then Panic "elf: Not a Little-endian ELF file." else
  if negb (h_machine h =? ARCH_X86_32) then Panic "elf: Not an IA-32 ELF file." else
  if negb (phoff h mod 4 =? 0) || negb (phdr_size h mod 4 =? 0) || negb (shoff h mod 4 =? 0) || negb (shdr_size h mod 4 =? 0)
  then Panic "elf: Header table is not naturally aligned in the file" else Ret tt.

Definition elf64_validate (A : elf_arch) (elf : list Z) (h : elf_hdr) : out unit :=
  c ← lift (strncmp elf magic 4);
  if negb (c =? 0) then Panic "elf: Not a valid ELF file." else
  d ← get elf EI_DATA;
  if negb (d =? BITS_LE) then Panic "elf: Not a Little-endian ELF file." else
  k ← get elf EI_CLASS;
  if negb (h_machine h =? machine_id A) || (class_checked A && negb (k =? ELFCLASS64)) then Panic "elf: Not an ELF file of this machine." else
  if negb (phoff h mod 8 =? 0) || negb (phdr_size h mod 8 =? 0) || negb (shoff h mod 8 =? 0) || negb (shdr_size h mod 8 =? 0)
  then Panic "elf: Header table is not naturally aligned in the file" else Ret tt.

Definition elf_bits (elf : list Z) : out Z :=
  if len elf <? 64 then Ret (-1) else
  h ← elf64_hdr elf;
  c ← lift (strncmp elf magic 4);
  if negb (c =? 0) then Ret (-1) else
  k ← get elf EI_CLASS;
  let m := h_machine h in
  Ret (if (m =? ARCH_X86_64) || (m =? ARCH_AARCH64) then 64
       else if (m =? ARCH_RISCV) || (m =? ARCH_LOONGARCH) then
         if k =? ELFCLASS64 then 64 else if k =? ELFCLASS32 then 32 else -1
       else if m =? ARCH_X86_32 then 32 else -1).

Record elf_section_hdr_info := SectionInfo { section_entry_size : Z; str_section_idx : Z; num : Z; section_offset : Z }.
Definition section_hdr_info (elf : list Z) (h : elf_hdr) : elf_section_hdr_info :=
  match add64 (sh_num h * shdr_size h) (shoff h) with
  | None => SectionInfo 0 0 0 0
  | Some e => if len elf <? e then SectionInfo 0 0 0 0 else SectionInfo (shdr_size h) (shstrndx h) (sh_num h) (shoff h)
  end.
Definition elf64_section_hdr_info (A : elf_arch) (elf : list Z) : out elf_section_hdr_info :=
  h ← elf64_hdr elf; _ ← elf64_validate A elf h; Ret (section_hdr_info elf h).
Definition elf32_section_hdr_info (elf : list Z) : out elf_section_hdr_info :=
  h ← elf32_hdr elf; _ ← elf32_validate elf h; Ret (section_hdr_info elf h).

(** ** Program headers *)
Definition phdr64 (elf : list Z) (h : elf_hdr) (i : Z) : out elf_phdr := table_entry elf64_phdr elf (phoff h) (phdr_size h) i.

(** One step for each header. *)
Fixpoint for_phdrs {S} (at_ : Z → out elf_phdr) (body : elf_phdr → S → out S) (n : nat) (i : Z) (s : S) : out S :=
  match n with
  | O => Ret s
  | Datatypes.S n => p ← at_ i; s ← body p s; for_phdrs at_ body n (i + 1) s
  end.

Definition check_phdr_size (h : elf_hdr) : out unit :=
  if phdr_size h <? 56 then Panic "elf: phdr_size < sizeof(struct elf64_phdr)" else Ret tt.

Definition loadable (p : elf_phdr) : bool := (p_type p =? PT_LOAD) && negb (p_memsz p =? 0).

(** The index is a [size_t] here. *)
Fixpoint find_dynamic (elf : list Z) (h : elf_hdr) (n : nat) (i : Z) : out bool :=
  match n with
  | O => Panic "elf: ELF file type is ET_DYN, but PT_DYNAMIC segment missing"
  | S n =>
      p ← elf64_phdr elf (u64 (phoff h + i * phdr_size h));
      if negb (p_type p =? PT_DYNAMIC) then find_dynamic elf h n (i + 1)
      else if p_filesz p =? 0 then Panic "elf: ELF file type is ET_DYN, but PT_DYNAMIC segment has 0 size"
      else Ret true
  end.
Definition elf64_is_relocatable (elf : list Z) (h : elf_hdr) : out bool :=
  _ ← check_phdr_size h;
  if negb (h_type h =? ET_DYN) then Ret false else find_dynamic elf h (Z.to_nat (ph_num h)) 0.

(** The offset in the file and how far the segment goes on from there. *)
Fixpoint translate_loop (elf : list Z) (h : elf_hdr) (offset size_hint : Z) (n : nat) (i : Z) : out (option (Z * Z)) :=
  match n with
  | O => Ret None
  | S n =>
      p ← phdr64 elf h i;
      match add64 (p_vaddr p) (p_filesz p) with
      | None => translate_loop elf h offset size_hint n (i + 1)
      | Some seg_end =>
          if (p_vaddr p <=? offset) && (offset <? seg_end) then
            Ret (match add64 (p_offset p) (p_filesz p) with
                 | None => None
                 | Some e =>
                     if len elf <? e then None else
                     let seg_size := p_filesz p - (offset - p_vaddr p) in
                     let offset := u64 (offset - p_vaddr p + p_offset p) in
                     match add64 offset size_hint with
                     | None => None
                     | Some e => if len elf <? e then None else Some (offset, seg_size)
                     end
                 end)
          else translate_loop elf h offset size_hint n (i + 1)
      end
  end.
Definition elf64_translate_vaddr (elf : list Z) (h : elf_hdr) (offset size_hint : Z) : out (option (Z * Z)) :=
  translate_loop elf h offset size_hint (Z.to_nat (ph_num h)) 0.

(** ** The relocations of a file *)
Definition elf64_add_relocation_count (count add : Z) : out Z :=
  if SIZE_MAX - count <? add then Panic "elf: relocation count overflow" else Ret (count + add).

Record dynamic := Dyn {
  rela_offset : Z; rela_size : Z; rela_ent : Z; relr_offset : Z; relr_size : Z; relr_ent : Z;
  symtab_offset : Z; symtab_ent : Z; strtab_offset : Z; dt_pltrel : Z; dt_pltrelsz : Z; dt_jmprel : Z;
}.
Definition no_dynamic : dynamic := Dyn 0 0 0 0 0 0 0 0 0 0 0 0.

(** One entry; none at the end of the table. *)
Definition dyn_entry (d : dynamic) (tag v : Z) : out (option dynamic) :=
  let '(Dyn ra rs re lo ls le so se st pt ps pj) := d in
  if tag =? DT_RELA then Ret (Some (Dyn v rs re lo ls le so se st pt ps pj))
  else if tag =? DT_RELAENT then Ret (Some (Dyn ra rs v lo ls le so se st pt ps pj))
  else if tag =? DT_RELASZ then Ret (Some (Dyn ra v re lo ls le so se st pt ps pj))
  else if tag =? DT_RELR then Ret (Some (Dyn ra rs re v ls le so se st pt ps pj))
  else if tag =? DT_RELRENT then Ret (Some (Dyn ra rs re lo ls v so se st pt ps pj))
  else if tag =? DT_RELRSZ then Ret (Some (Dyn ra rs re lo v le so se st pt ps pj))
  else if tag =? DT_SYMTAB then Ret (Some (Dyn ra rs re lo ls le v se st pt ps pj))
  else if tag =? DT_STRTAB then Ret (Some (Dyn ra rs re lo ls le so se v pt ps pj))
  else if tag =? DT_SYMENT then
    if v <? 24 then Panic "elf: symtab_ent < sizeof(struct elf64_sym)" else Ret (Some (Dyn ra rs re lo ls le so v st pt ps pj))
  else if tag =? DT_PLTREL then Ret (Some (Dyn ra rs re lo ls le so se st v ps pj))
  else if tag =? DT_PLTRELSZ then Ret (Some (Dyn ra rs re lo ls le so se st pt v pj))
  else if tag =? DT_JMPREL then Ret (Some (Dyn ra rs re lo ls le so se st pt ps v))
  else if tag =? DT_NEEDED then Panic "elf: ELF file attempts to load a dynamically linked library"
  else if tag =? DT_NULL then Ret None
  else Ret (Some d).

Fixpoint dyn_loop (elf : list Z) (o : Z) (n : nat) (d : dynamic) : out dynamic :=
  match n with
  | O => Ret d
  | S n =>
      tag ← fld elf o 8; v ← fld elf (o + 8) 8; r ← dyn_entry d tag v;
      match r with None => Ret d | Some d => dyn_loop elf (o + 16) n d end
  end.

(** The first [PT_DYNAMIC] segment; none if it is not one. *)
Fixpoint read_dynamic (elf : list Z) (h : elf_hdr) (n : nat) (i : Z) : out (option dynamic) :=
  match n with
  | O => Ret (Some no_dynamic)
  | S n =>
      p ← phdr64 elf h i;
      if negb (p_type p =? PT_DYNAMIC) then read_dynamic elf h n (i + 1) else
      match add64 (p_offset p) (p_filesz p) with
      | None => Ret None
      | Some e =>
          if len elf <? e then Ret None else
          if negb (p_offset p mod 8 =? 0) then Ret None else
          d ← dyn_loop elf (p_offset p) (Z.to_nat (p_filesz p / 16)) no_dynamic; Ret (Some d)
      end
  end.

(** A table with its address made an offset. *)
Definition translate_table (elf : list Z) (h : elf_hdr) (addr size_hint : Z) (msg : string) : out (Z * Z) :=
  r ← elf64_translate_vaddr elf h addr size_hint;
  match r with None => Panic msg | Some r => Ret r end.

(** [DT_RELR]: a word is an address, or a map of the 63 words that follow. *)
Fixpoint popcount (n : nat) (x : Z) : Z :=
  match n with O => 0 | S n => x mod 2 + popcount n (x / 2) end.

Fixpoint count_relr (elf : list Z) (o : Z) (n : nat) (count : Z) : out Z :=
  match n with
  | O => Ret count
  | S n =>
      entry ← fld elf o 8;
      count ← elf64_add_relocation_count count (if entry mod 2 =? 0 then 1 else popcount 64 entry - 1);
      count_relr elf (o + 8) n count
  end.

Fixpoint relr_bits (fuel : nat) (max where_ entry j : Z) (acc : list Z) : out (list Z) :=
  match fuel with
  | O => Wild
  | S fuel =>
      let entry := entry / 2 in
      if entry =? 0 then Ret acc else
      acc ← (if entry mod 2 =? 0 then Ret acc else put max acc (u64 (where_ + j * 8)));
      relr_bits fuel max where_ entry (j + 1) acc
  end.

Fixpoint decode_relr (elf : list Z) (o : Z) (n : nat) (max where_ : Z) (acc : list Z) : out (list Z) :=
  match n with
  | O => Ret acc
  | S n =>
      entry ← fld elf o 8;
      if entry mod 2 =? 0 then
        acc ← put max acc entry; decode_relr elf (o + 8) n max (u64 (entry + 8)) acc
      else
        acc ← relr_bits 64 max where_ entry 0 acc; decode_relr elf (o + 8) n max (u64 (where_ + 63 * 8)) acc
  end.

(** An entry of the array of relocations: one that was made for [DT_RELR], or
    one in the file. *)
Inductive reloc :=
  | Relr (addr : Z)
  | InFile (offset : Z).

Definition reloc_at (elf : list Z) (r : reloc) : out elf64_rela :=
  match r with
  | Relr addr => Ret (Rela addr R_INTERNAL_RELR 0 0)
  | InFile o => elf64_rela_at elf o
  end.

Record elf64_reloc_state := RelocState {
  relocs : list reloc; relocs_i : Z; relocs_addr : Z; relr_pool : Z; relr_count : Z;
  st_symtab_offset : Z; st_symtab_ent : Z; st_symtab_size : Z; st_strtab_offset : Z; st_strtab_size : Z;
}.

(** Memory or a panic. *)
Definition mem_op {A} (m : option A) : out A := match m with Some a => Ret a | None => Panic "pmm: Out of memory" end.

(** The tables found in the file; the size where a table goes on to the end of
    its segment. *)
Record tables := Tables { t_dyn : dynamic; t_symtab_size : Z; t_strtab_size : Z }.

Definition locate_tables (elf : list Z) (h : elf_hdr) (d : dynamic) : out tables :=
  if negb (rela_ent d =? 0) && (rela_ent d <? 24) then Panic "elf: rela_ent < sizeof(struct elf64_rela)" else
  rela ← (if negb (rela_offset d =? 0) then '(o, _) ← translate_table elf h (rela_offset d) (rela_size d) "elf: RELA vaddr translation failed or out of bounds"; Ret o
          else if negb (rela_size d =? 0) then Panic "elf: DT_RELASZ without DT_RELA" else Ret 0);
  relr ← (if negb (relr_offset d =? 0) then '(o, _) ← translate_table elf h (relr_offset d) (relr_size d) "elf: RELR vaddr translation failed or out of bounds"; Ret o
          else if negb (relr_size d =? 0) then Panic "elf: DT_RELRSZ without DT_RELR" else Ret 0);
  '(symtab, symtab_size) ← (if negb (symtab_offset d =? 0) then translate_table elf h (symtab_offset d) 0 "elf: SYMTAB vaddr translation failed or out of bounds" else Ret (0, 0));
  '(strtab, strtab_size) ← (if negb (strtab_offset d =? 0) then translate_table elf h (strtab_offset d) 0 "elf: STRTAB vaddr translation failed or out of bounds" else Ret (0, 0));
  jmprel ← (if negb (dt_jmprel d =? 0) then '(o, _) ← translate_table elf h (dt_jmprel d) (dt_pltrelsz d) "elf: JMPREL vaddr translation failed or out of bounds"; Ret o
            else if negb (dt_pltrelsz d =? 0) then Panic "elf: DT_PLTRELSZ without DT_JMPREL" else Ret 0);
  if negb (rela mod 8 =? 0) || negb (rela_ent d mod 8 =? 0) || negb (relr mod 8 =? 0)
     || negb (symtab mod 8 =? 0) || negb (symtab_ent d mod 8 =? 0) || negb (jmprel mod 8 =? 0)
  then Panic "elf: Dynamic table is not naturally aligned in the file" else
  Ret (Tables (Dyn rela (rela_size d) (rela_ent d) relr (relr_size d) (relr_ent d) symtab (symtab_ent d) strtab (dt_pltrel d) (dt_pltrelsz d) jmprel)
         symtab_size strtab_size).

(** The two counts: of [DT_RELR], and of all. *)
Definition count_relocations (elf : list Z) (d : dynamic) : out (Z * Z) :=
  relr_n ← (if relr_size d =? 0 then Ret 0 else
            if negb (relr_ent d =? 8) then Panic "elf: relr_ent != 8" else
            count_relr elf (relr_offset d) (Z.to_nat (relr_size d / relr_ent d)) 0);
  n ← (if rela_size d =? 0 then Ret relr_n else
       if rela_ent d =? 0 then Panic "elf: rela_size != 0 but rela_ent == 0" else
       if negb (rela_size d mod rela_ent d =? 0) then Panic "elf: rela_size not a multiple of rela_ent" else
       elf64_add_relocation_count relr_n (rela_size d / rela_ent d));
  n ← (if dt_pltrelsz d =? 0 then Ret n else
       if negb (dt_pltrel d =? DT_RELA) then Panic "elf: dt_pltrel != DT_RELA" else
       if rela_ent d =? 0 then Panic "elf: dt_pltrelsz != 0 but rela_ent == 0" else
       if negb (dt_pltrelsz d mod rela_ent d =? 0) then Panic "elf: dt_pltrelsz not a multiple of rela_ent" else
       elf64_add_relocation_count n (dt_pltrelsz d / rela_ent d));
  Ret (relr_n, n).

(** Behind what is in the array come the entries of a table in the file. *)
Fixpoint rela_loop (fuel : nat) (base offset size ent max : Z) (acc : list reloc) : out (list reloc) :=
  match fuel with
  | O => Wild
  | S fuel =>
      if size <=? offset then Ret acc else
      if max <=? len acc then Wild else
      rela_loop fuel base (u64 (offset + ent)) size ent max (acc ++ [InFile (base + offset)])
  end.
Definition rela_table (base size ent max : Z) (acc : list reloc) : out (list reloc) :=
  if size =? 0 then Ret acc else rela_loop (S (Z.to_nat (size / ent))) base 0 size ent max acc.

(** What is not filled of the zeroed entries for [DT_RELR] keeps address 0. *)
Definition collect_relocations (elf : list Z) (d : dynamic) (relr_n n : Z) : out (list reloc) :=
  addrs ← (if relr_size d =? 0 then Ret [] else decode_relr elf (relr_offset d) (Z.to_nat (relr_size d / relr_ent d)) relr_n 0 []);
  rs ← rela_table (rela_offset d) (rela_size d) (rela_ent d) n
         (map Relr addrs ++ replicate (Z.to_nat (relr_n - len addrs)) (Relr 0));
  rela_table (dt_jmprel d) (dt_pltrelsz d) (rela_ent d) n rs.

Definition elf64_prepare_relocations (elf : list Z) (h : elf_hdr) (s : pmm_state) : out (option elf64_reloc_state * pmm_state) :=
  _ ← check_phdr_size h;
  match (m ← mul64 (ph_num h) (phdr_size h); add64 (phoff h) m) with
  | None => Ret (None, s)
  | Some e =>
      if len elf <? e then Ret (None, s) else
      d ← read_dynamic elf h (Z.to_nat (ph_num h)) 0;
      match d with
      | None => Ret (None, s)
      | Some d =>
          t ← locate_tables elf h d;
          let d := t_dyn t in
          '(relr_n, n) ← count_relocations elf d;
          '(relocs_addr, s) ← mem_op (ext_mem_alloc_counted s n 8);
          '(pool, s) ← (if negb (relr_size d =? 0) && negb (relr_n =? 0) then mem_op (ext_mem_alloc_counted s relr_n 24) else Ret (0, s));
          rs ← collect_relocations elf d relr_n n;
          Ret (Some (RelocState rs n relocs_addr pool relr_n (symtab_offset d) (symtab_ent d) (t_symtab_size t) (strtab_offset d) (t_strtab_size t)), s)
      end
  end.

Definition elf64_free_relocations (st : elf64_reloc_state) (s : pmm_state) : out pmm_state :=
  s ← mem_op (pmm_free s (relr_pool st) (u64 (relr_count st * 24)));
  mem_op (pmm_free s (relocs_addr st) (u64 (relocs_i st * 8))).

(** ** Relocating a segment in memory *)
Definition write_bytes (f : Z → Z) (a : Z) (bs : list Z) : Z → Z :=
  λ x, if (a <=? x) && (x <? a + len bs) then peek bs (x - a) else f x.
Definition reloc_load (f : Z → Z) (p : Z) : Z := le_val (map (λ i, f (p + i)) (seqZ 0 8)).
Definition reloc_store (f : Z → Z) (p v : Z) : Z → Z := write_bytes f p (le_bytes 8 v).

(** The value of the symbol of a relocation; none for a weak one that is not
    there. *)
Definition reloc_symbol (elf : list Z) (st : elf64_reloc_state) (symbol : Z) : out (option Z) :=
  if (st_symtab_offset st =? 0) || (st_symtab_ent st =? 0) then Panic "elf: Relocation requires symbol table but none present" else
  if st_symtab_size st =? 0 then Panic "elf: Symtab vaddr translation failed" else
  match mul64 (st_symtab_ent st) symbol with
  | None => Panic "elf: Symbol offset overflow"
  | Some sym_offset =>
      if (st_symtab_size st <? 24) || (st_symtab_size st - 24 <? sym_offset) then Panic "elf: Symbol index out of bounds" else
      s ← elf64_sym_at elf (u64 (st_symtab_offset st + sym_offset));
      if st_shndx s =? SHN_UNDEF then
        if Z.shiftr (st_info s) 4 =? STB_WEAK then Ret None
        else if st_strtab_size st =? 0 then Panic "elf: Strtab vaddr translation failed"
        else if st_strtab_size st <=? st_name s then Panic "elf: Symbol name offset out of bounds"
        else Panic "elf: Unresolved symbol"
      else Ret (Some (st_value s))
  end.

(** What a relocation stores where [old] is; none if nothing. *)
Definition reloc_value (A : elf_arch) (elf : list Z) (st : elf64_reloc_state) (slide : Z) (r : elf64_rela) (old : Z) : out (option Z) :=
  let info := r_info r in
  if info =? R_NONE A then Ret None
  else if info =? R_RELATIVE A then Ret (Some (u64 (slide + r_addend r)))
  else if info =? R_INTERNAL_RELR then Ret (Some (u64 (old + slide)))
  else if match R_GLOB_DAT A with Some g => info =? g | None => false end || (info =? R_JUMP_SLOT A) then
    v ← reloc_symbol elf st (r_symbol r);
    Ret (Some (match v with
               | None => 0
               | Some v => if slot_addend A then u64 (u64 (slide + v) + r_addend r) else u64 (slide + v)
               end))
  else if info =? R_64 A then
    v ← reloc_symbol elf st (r_symbol r);
    Ret (Some (match v with None => 0 | Some v => u64 (slide + v + r_addend r) end))
  else Panic "elf: Unknown relocation type".

Definition reloc_inside (vaddr size addr : Z) : bool := (vaddr <=? addr) && negb (size <? 8) && (addr <=? u64 (vaddr + size - 8)).

Fixpoint apply_loop (A : elf_arch) (elf : list Z) (st : elf64_reloc_state) (buffer vaddr size slide : Z) (rs : list reloc) (f : Z → Z) : out (Z → Z) :=
  match rs with
  | [] => Ret f
  | r :: rs =>
      r ← reloc_at elf r;
      if reloc_inside vaddr size (r_addr r) then
        let ptr := buffer + (r_addr r - vaddr) in
        v ← reloc_value A elf st slide r (reloc_load f ptr);
        apply_loop A elf st buffer vaddr size slide rs (match v with None => f | Some v => reloc_store f ptr v end)
      else apply_loop A elf st buffer vaddr size slide rs f
  end.
Definition elf64_apply_relocations (A : elf_arch) (st : elf64_reloc_state) (elf : list Z) (buffer vaddr size slide : Z) (s : pmm_state) : out pmm_state :=
  f ← apply_loop A elf st buffer vaddr size slide (relocs st) (mem s); Ret (set_mem s f).

(** [memcpy] from the file. *)
Definition copy_in (elf : list Z) (dst src n : Z) (s : pmm_state) : out pmm_state :=
  bs ← lift (slice elf src n); Ret (set_mem s (write_bytes (mem s) dst bs)).

(** ** A section, by name *)
Definition shdr64 (elf : list Z) (h : elf_hdr) (i : Z) : out elf64_shdr := table_entry elf64_shdr_at elf (shoff h) (shdr_size h) i.

(** The section a name is the name of. *)
Fixpoint find_section (elf : list Z) (h : elf_hdr) (strtab : elf64_shdr) (name : list Z) (n : nat) (i : Z) : out (option elf64_shdr) :=
  match n with
  | O => Ret None
  | S n =>
      section ← shdr64 elf h i;
      if sh_size strtab <=? sh_name section then find_section elf h strtab name n (i + 1) else
      let s := drop (Z.to_nat (sh_offset strtab + sh_name section)) elf in
      nul ← lift (memchr s 0 (sh_size strtab - sh_name section));
      match nul with
      | None => find_section elf h strtab name n (i + 1)
      | Some _ =>
          c ← lift (strcmp s name);
          if c =? 0 then Ret (Some section) else find_section elf h strtab name n (i + 1)
      end
  end.

(** The answer is false or the address the section is at; [limit] 0 asks for
    memory. *)
Definition elf64_load_section (A : elf_arch) (elf : list Z) (buffer : Z) (name : list Z) (limit slide : Z) (s : pmm_state) : out (option Z * pmm_state) :=
  h ← elf64_hdr elf;
  _ ← elf64_validate A elf h;
  if sh_num h =? 0 then Ret (None, s) else
  if shdr_size h <? 64 then Panic "elf: shdr_size < sizeof(struct elf64_shdr)" else
  if sh_num h <=? shstrndx h then Ret (None, s) else
  match (m ← mul64 (sh_num h) (shdr_size h); add64 (shoff h) m) with
  | None => Ret (None, s)
  | Some e =>
      if len elf <? e then Ret (None, s) else
      shstrtab ← shdr64 elf h (shstrndx h);
      if (len elf <=? sh_offset shstrtab) || (len elf - sh_offset shstrtab <? sh_size shstrtab) then Ret (None, s) else
      r ← find_section elf h shstrtab name (Z.to_nat (sh_num h)) 0;
      match r with
      | None => Ret (None, s)
      | Some section =>
          if (len elf <=? sh_offset section) || (len elf - sh_offset section <? sh_size section) then Ret (None, s) else
          '(buffer, limit, s) ← (if limit =? 0 then '(b, s) ← mem_op (ext_mem_alloc s (sh_size section)); Ret (b, sh_size section, s) else Ret (buffer, limit, s));
          if limit <? sh_size section then Ret (None, s) else
          s ← copy_in elf buffer (sh_offset section) (sh_size section) s;
          '(st, s) ← elf64_prepare_relocations elf h s;
          match st with
          | None => Ret (None, s)
          | Some st =>
              s ← elf64_apply_relocations A st elf buffer (sh_addr section) (sh_size section) slide s;
              s ← elf64_free_relocations st s;
              Ret (Some buffer, s)
          end
      end
  end.

(** ** Loading *)
Record mem_range := Range { r_base : Z; r_len : Z; permissions : Z }.

(** The largest alignment, of those that are powers of two. *)
Definition power_of_two (a : Z) : bool := Z.land a (u64 (a - 1)) =? 0.

Definition elf64_max_align (elf : list Z) (h : elf_hdr) : out Z :=
  _ ← check_phdr_size h;
  '(ret, loadable_n) ← for_phdrs (phdr64 elf h) (λ p '(ret, k),
      if negb (loadable p) then Ret (ret, k) else
      if (1 <? p_align p) && negb (power_of_two (p_align p)) then Panic "elf: p_align is not a power of 2" else
      Ret (if ret <? p_align p then p_align p else ret, k + 1)) (Z.to_nat (ph_num h)) 0 (0, 0);
  if loadable_n =? 0 then Panic "elf: Executable has no loadable segments" else
  Ret (if ret <? 4096 then 4096 else ret).

(** A segment is left out of the ranges below the higher half, unless the
    kernel is relocatable. *)
Definition ranged (is_reloc : bool) (p : elf_phdr) : bool :=
  loadable p && negb ((p_vaddr p <? FIXED_HIGHER_HALF_OFFSET_64) && negb is_reloc).

Definition phdr_permissions (p : elf_phdr) : Z :=
  let perm flag bit := if Z.land (p_flags p) flag =? 0 then 0 else bit in
  Z.lor (Z.lor (perm ELF_PF_X MEM_RANGE_X) (perm ELF_PF_W MEM_RANGE_W)) (perm ELF_PF_R MEM_RANGE_R).

Definition range_of (slide : Z) (p : elf_phdr) : out mem_range :=
  let load_addr := u64 (p_vaddr p + slide) in
  match add64 load_addr (p_memsz p) with
  | None => Panic "elf: p_vaddr + p_memsz overflow in PHDR"
  | Some this_top =>
      let base := align_down64 load_addr 4096 in
      match align_up64 this_top 4096 with
      | None => Panic "elf: Alignment overflow"
      | Some top => Ret (Range base (u64 (top - base)) (phdr_permissions p))
      end
  end.

Definition elf64_get_ranges (elf : list Z) (h : elf_hdr) (slide : Z) (s : pmm_state) : out (list mem_range * pmm_state) :=
  _ ← check_phdr_size h;
  is_reloc ← elf64_is_relocatable elf h;
  n ← for_phdrs (phdr64 elf h) (λ p n, Ret (if ranged is_reloc p then n + 1 else n)) (Z.to_nat (ph_num h)) 0 0;
  if n =? 0 then Panic "elf: No higher half PHDRs exist" else
  '(_, s) ← mem_op (ext_mem_alloc_counted s n 24);
  rs ← for_phdrs (phdr64 elf h) (λ p rs,
      if ranged is_reloc p then r ← range_of slide p; if n <=? len rs then Wild else Ret (rs ++ [r]) else Ret rs) (Z.to_nat (ph_num h)) 0 [];
  Ret (rs, s).

(** What the first pass over the segments finds. *)
Record layout := Layout {
  lower_to_higher : bool; higher_half : bool; min_vaddr : Z; max_vaddr : Z; prev_top : Z; prev_rounded_top : Z; prev_flags : Z;
}.

Definition layout_step (is_reloc want_ranges : bool) (p : elf_phdr) (l : layout) : out layout :=
  if negb (loadable p) then Ret l else
  '(lower, higher) ←
    (if p_vaddr p <? FIXED_HIGHER_HALF_OFFSET_64 then
       if negb is_reloc then Panic "elf: Lower half PHDRs are not allowed" else
       if higher_half l then Panic "elf: Mix of lower and higher half PHDRs in relocatable kernel" else Ret (true, higher_half l)
     else if lower_to_higher l then Panic "elf: Mix of lower and higher half PHDRs in relocatable kernel" else Ret (lower_to_higher l, true));
  match add64 (p_vaddr p) (p_memsz p) with
  | None => Panic "elf: p_vaddr + p_memsz overflow in PHDR"
  | Some phdr_end =>
      if p_vaddr p <? prev_top l then Panic "elf: Attempted to load ELF file with overlapping or out of order PHDRs" else
      let rounded_base := align_down64 (p_vaddr p) 4096 in
      if want_ranges && (rounded_base <? prev_rounded_top l) && negb (Z.land (p_flags p) 7 =? prev_flags l)
      then Panic "elf: Attempted to load ELF file with PHDRs with different permissions sharing the same memory page." else
      match align_up64 phdr_end 4096 with
      | None => Panic "elf: PHDR alignment overflow"
      | Some rounded =>
          Ret (Layout lower higher
                 (if p_vaddr p <? min_vaddr l then p_vaddr p else min_vaddr l)
                 (if max_vaddr l <? phdr_end then phdr_end else max_vaddr l)
                 phdr_end rounded (Z.land (p_flags p) 7))
      end
  end.

Definition elf_layout (elf : list Z) (h : elf_hdr) (is_reloc want_ranges : bool) : out layout :=
  for_phdrs (phdr64 elf h) (layout_step is_reloc want_ranges) (Z.to_nat (ph_num h)) 0 (Layout false false SIZE_MAX 0 0 0 0).

(** The place of the kernel in the upper two gigabytes; [rnd] are the numbers
    of [safe_rand32]. *)
Definition max_simulated_tries : nat := Z.to_nat 0x10000.
Fixpoint random_slide (n : nat) (rnd : nat → Z) (k : nat) (max_align lower virtual_base image_size : Z) : out Z :=
  match n with
  | O => Panic "elf: Image wants to load too high"
  | S n =>
      let slide := u64 (Z.land (rnd k) (u64 (Z.lnot (max_align - 1))) + lower) in
      if u64 (virtual_base + slide + image_size) <? FIXED_HIGHER_HALF_OFFSET_64
      then random_slide n rnd (S k) max_align lower virtual_base image_size else Ret slide
  end.

(** A segment to its place, then the relocations in it; the size of the part
    of the last one that is not in the file. *)
Definition load_segment (A : elf_arch) (elf : list Z) (st : elf64_reloc_state) (physical_base virtual_base max_vaddr slide : Z)
    (p : elf_phdr) (x : Z * pmm_state) : out (Z * pmm_state) :=
  let '(bss_size, s) := x in
  if negb (loadable p) then Ret (bss_size, s) else
  if p_memsz p <? p_filesz p then Panic "elf: p_filesz > p_memsz" else
  match add64 (p_offset p) (p_filesz p) with
  | None => Panic "elf: p_offset + p_filesz overflow"
  | Some offset_end =>
      if len elf <? offset_end then Panic "elf: p_offset + p_filesz exceeds file size" else
      let load_addr := u64 (physical_base + u64 (p_vaddr p - virtual_base)) in
      match add64 load_addr (p_memsz p) with
      | None => Panic "elf: load_addr + p_memsz overflow"
      | Some _ =>
          s ← copy_in elf load_addr (p_offset p) (p_filesz p) s;
          let bss_size := if u64 (p_vaddr p + p_memsz p) =? max_vaddr then p_memsz p - p_filesz p else bss_size in
          s ← elf64_apply_relocations A st elf load_addr (p_vaddr p) (p_memsz p) slide s;
          Ret (bss_size, s)
      end
  end.

Record loaded := Loaded {
  entry_point : Z; l_slide : Z; physical_base : Z; virtual_base : Z; image_size : Z; image_size_before_bss : Z;
  is_reloc : bool; l_ranges : option (list mem_range);
}.

Definition elf64_load (A : elf_arch) (rnd : nat → Z) (elf : list Z) (alloc_type : Z) (kaslr want_reloc want_ranges : bool) (s : pmm_state) : out (loaded * pmm_state) :=
  h ← elf64_hdr elf;
  _ ← elf64_validate A elf h;
  if negb (h_type h =? ET_EXEC) && negb (h_type h =? ET_DYN) then Panic "elf: ELF file not of type ET_EXEC nor ET_DYN" else
  _ ← check_phdr_size h;
  match (m ← mul64 (ph_num h) (phdr_size h); add64 m (phoff h)) with
  | None => Panic "elf: Program header table size overflow"
  | Some table_end =>
      if len elf <? table_end then Panic "elf: Program header table extends beyond file bounds" else
      relocatable ← elf64_is_relocatable elf h;
      let is_reloc := want_reloc && relocatable in
      max_align ← elf64_max_align elf h;
      l ← elf_layout elf h is_reloc want_ranges;
      if min_vaddr l =? SIZE_MAX then Panic "elf: No usable PHDRs exist" else
      let min_v := align_down64 (min_vaddr l) 4096 in
      let lower := if lower_to_higher l then u64 (FIXED_HIGHER_HALF_OFFSET_64 - min_v) else 0 in
      let size := max_vaddr l - min_v in
      '(phys, s) ← mem_op (ext_mem_alloc_type_aligned s size alloc_type max_align);
      slide ← (if is_reloc && kaslr then random_slide max_simulated_tries rnd 0 max_align lower min_v size else Ret lower);
      '(st, s) ← elf64_prepare_relocations elf h s;
      match st with
      | None => Panic "elf: Failed to apply relocations"
      | Some st =>
          '(bss_size, s) ← for_phdrs (phdr64 elf h) (load_segment A elf st phys min_v (max_vaddr l) slide) (Z.to_nat (ph_num h)) 0 (0, s);
          s ← elf64_free_relocations st s;
          '(ranges, s) ← (if want_ranges then '(rs, s) ← elf64_get_ranges elf h slide s; Ret (Some rs, s) else Ret (None, s));
          Ret (Loaded (u64 (h_entry h + slide)) slide phys (u64 (min_v + slide)) size (u64 (size - bss_size)) is_reloc ranges, s)
      end
  end.

(** ** Loading for [elsewhere]

    The two widths differ in the headers and in the width of the sum that says
    whether the entry is in a segment. *)
Definition extent_step (p : elf_phdr) (x : Z * Z * bool) : out (Z * Z * bool) :=
  let '(min_paddr, max_paddr, has_loadable) := x in
  if negb (loadable p) then Ret x else
  match add64 (p_paddr p) (p_memsz p) with
  | None => Panic "elf: p_paddr + p_memsz overflow"
  | Some top => Ret (if p_paddr p <? min_paddr then p_paddr p else min_paddr, if max_paddr <? top then top else max_paddr, true)
  end.

Definition place_segment (width : Z) (elf : list Z) (buffer min_paddr : Z) (p : elf_phdr) (x : Z * bool * pmm_state) : out (Z * bool * pmm_state) :=
  let '(entry, adjusted, s) := x in
  if negb (loadable p) then Ret x else
  if p_memsz p <? p_filesz p then Panic "elf: p_filesz > p_memsz" else
  match add64 (p_offset p) (p_filesz p) with
  | None => Panic "elf: p_offset + p_filesz overflow"
  | Some offset_end =>
      if len elf <? offset_end then Panic "elf: p_offset + p_filesz exceeds file size" else
      s ← copy_in elf (buffer + (p_paddr p - min_paddr)) (p_offset p) (p_filesz p) s;
      let top := p_vaddr p + p_memsz p in
      if negb adjusted && (p_vaddr p <=? entry) && (top <? 2 ^ width) && (entry <? top)
      then Ret (u64 (entry - p_vaddr p + p_paddr p), true, s) else Ret (entry, adjusted, s)
  end.

(** The entry point, the range and where its record is. *)
Definition load_elsewhere (width : Z) (h : elf_hdr) (at_ : Z → out elf_phdr) (elf : list Z) (max_image_size : Z) (s : pmm_state)
  : out (Z * elsewhere_range * Z * pmm_state) :=
  if negb (h_type h =? ET_EXEC) && negb (h_type h =? ET_DYN) then Panic "elf: ELF file not of type ET_EXEC nor ET_DYN" else
  if phdr_size h <? (if width =? 32 then 32 else 56) then Panic "elf: phdr_size < sizeof(struct phdr)" else
  if (len elf <? phoff h) || (len elf - phoff h <? ph_num h * phdr_size h) then Panic "elf: Program header table extends beyond file bounds" else
  let n := Z.to_nat (ph_num h) in
  '(min_paddr, max_paddr, has_loadable) ← for_phdrs at_ extent_step n 0 (SIZE_MAX, 0, false);
  if negb has_loadable then Panic "elf: No loadable segments" else
  let image_size := max_paddr - min_paddr in
  if max_image_size <? image_size then Panic "elf: Image extent exceeds the load limit" else
  if SIZE_MAX <? image_size then Panic "elf: Image size exceeds address space" else
  '(buffer, s) ← mem_op (ext_mem_alloc s image_size);
  '(ranges, s) ← mem_op (ext_mem_alloc s 24);
  '(entry, _, s) ← for_phdrs at_ (place_segment width elf buffer min_paddr) n 0 (h_entry h, false, s);
  Ret (entry, ER buffer min_paddr image_size, ranges, s).

Definition elf32_load_elsewhere (elf : list Z) (max_image_size : Z) (s : pmm_state) : out (Z * elsewhere_range * Z * pmm_state) :=
  h ← elf32_hdr elf; _ ← elf32_validate elf h;
  load_elsewhere 32 h (table_entry elf32_phdr elf (phoff h) (phdr_size h)) elf max_image_size s.
Definition elf64_load_elsewhere (A : elf_arch) (elf : list Z) (max_image_size : Z) (s : pmm_state) : out (Z * elsewhere_range * Z * pmm_state) :=
  h ← elf64_hdr elf; _ ← elf64_validate A elf h;
  load_elsewhere 64 h (phdr64 elf h) elf max_image_size s.
