(* ===== verification/ElfTables.v ===== *)
(** Reading the tables of an ELF file never leaves it, and gives what is
    stored there. *)
From S2P Require Import Prelude Libc LibcProofs Outcome Pmm PmmAlloc PmmUse Elsewhere Elf.
From stdpp Require Import strings.
Open Scope list_scope.
Open Scope Z_scope.

Section file.
Context (elf : list Z) (Hbytes : is_bytes elf) (Hlen : 64 ≤ len elf < 2 ^ 31).

Lemma fld_ok o n : 0 ≤ o → 0 < n → o mod n = 0 → o + n ≤ len elf → gives (fld elf o n) (λ x, 0 ≤ x < 2 ^ (8 * n)).
Proof.
  intros Ho Hn Hm Hl. unfold fld. rewrite Hm. cbn [Z.eqb]. rewrite slice_lt by lia. cbn [lift mbind out_bind]. apply gives_ret.
  assert (is_bytes (take (Z.to_nat n) (drop (Z.to_nat o) elf))) as Hb by (by apply Forall_take, Forall_drop).
  pose proof (le_val_range _ Hb) as Hr. unfold len in *. rewrite length_take, length_drop in Hr.
  replace (Z.of_nat (Z.to_nat n `min` (length elf - Z.to_nat o))) with n in Hr by lia. done.
Qed.

Lemma mod_add_mul o k n : 0 < n → o mod n = 0 → k mod n = 0 → (o + k) mod n = 0.
Proof. intros Hn Ho Hk. rewrite Z.add_mod, Ho, Hk by lia. by rewrite Z.mod_0_l by lia. Qed.

Lemma mod_of_multiple x a b : 0 < a → 0 < b → x mod (a * b) = 0 → x mod a = 0.
Proof. intros Ha Hb Hx. apply Z.mod_divide in Hx as [k ->]; [|lia]. rewrite (Z.mul_comm a b), Z.mul_assoc. apply Z.mod_mul. lia. Qed.

Lemma mod8_4 x : x mod 8 = 0 → x mod 4 = 0.
Proof. apply (mod_of_multiple x 4 2); lia. Qed.
Lemma mod8_2 x : x mod 8 = 0 → x mod 2 = 0.
Proof. apply (mod_of_multiple x 2 4); lia. Qed.

(** Words of a structure that is aligned to eight. *)
Lemma fld_in o k n : 0 ≤ o → 0 ≤ k → 0 < n → o mod 8 = 0 → k mod n = 0 → 8 mod n = 0 → o + k + n ≤ len elf → gives (fld elf (o + k) n) (λ x, 0 ≤ x < 2 ^ (8 * n)).
Proof.
  intros Ho Hk Hn Hom Hkm H8 Hl. apply fld_ok; [lia|done| |done]. apply mod_add_mul; [done| |done].
  apply Z.mod_divide in H8 as [q Hq]; [|lia]. assert (0 < q) by nia. apply (mod_of_multiple o n q); [done|done|]. by rewrite Z.mul_comm, <- Hq.
Qed.

Ltac field := eapply gives_bind; [first [apply fld_in; [lia|lia|lia|done|done|done|lia]|apply fld_ok; [lia|lia|done|lia]]|]; intros.
Ltac fields := repeat field; apply gives_ret; cbv beta in *; change (8 * 1) with 8 in *; change (8 * 2) with 16 in *; change (8 * 4) with 32 in *; change (8 * 8) with 64 in *.

Record hdr_ok (h : elf_hdr) : Prop := {
  ho_type : 0 ≤ h_type h < 2 ^ 16; ho_machine : 0 ≤ h_machine h < 2 ^ 16; ho_entry : 0 ≤ h_entry h < 2 ^ 64;
  ho_phoff : 0 ≤ phoff h < 2 ^ 64; ho_shoff : 0 ≤ shoff h < 2 ^ 64; ho_phsize : 0 ≤ phdr_size h < 2 ^ 16; ho_phnum : 0 ≤ ph_num h < 2 ^ 16;
  ho_shsize : 0 ≤ shdr_size h < 2 ^ 16; ho_shnum : 0 ≤ sh_num h < 2 ^ 16; ho_shstrndx : 0 ≤ shstrndx h < 2 ^ 16;
}.

Lemma elf64_hdr_ok : gives (elf64_hdr elf) hdr_ok.
Proof. unfold elf64_hdr. fields. split; cbn; lia. Qed.

Lemma elf32_hdr_ok : gives (elf32_hdr elf) (λ h, hdr_ok h ∧ h_entry h < 2 ^ 32 ∧ phoff h < 2 ^ 32).
Proof. unfold elf32_hdr. fields. split; [split; cbn; lia|cbn; lia]. Qed.

Record phdr_ok (w : Z) (p : elf_phdr) : Prop := {
  po_type : 0 ≤ p_type p < 2 ^ 32; po_flags : 0 ≤ p_flags p < 2 ^ 32; po_offset : 0 ≤ p_offset p < 2 ^ w; po_vaddr : 0 ≤ p_vaddr p < 2 ^ w;
  po_paddr : 0 ≤ p_paddr p < 2 ^ w; po_filesz : 0 ≤ p_filesz p < 2 ^ w; po_memsz : 0 ≤ p_memsz p < 2 ^ w; po_align : 0 ≤ p_align p < 2 ^ w;
}.

Lemma elf64_phdr_ok o : 0 ≤ o → o mod 8 = 0 → o + 56 ≤ len elf → gives (elf64_phdr elf o) (phdr_ok 64).
Proof. intros Ho Hm Hl. unfold elf64_phdr. pose proof (mod8_4 o Hm). fields. split; cbn; lia. Qed.

Lemma fld4_in o k : 0 ≤ o → 0 ≤ k → o mod 4 = 0 → k mod 4 = 0 → o + k + 4 ≤ len elf → gives (fld elf (o + k) 4) (λ x, 0 ≤ x < 2 ^ 32).
Proof. intros Ho Hk Hom Hkm Hl. apply (fld_ok (o + k) 4); [lia|lia|by apply mod_add_mul|lia]. Qed.

Lemma elf32_phdr_ok o : 0 ≤ o → o mod 4 = 0 → o + 32 ≤ len elf → gives (elf32_phdr elf o) (phdr_ok 32).
Proof.
  intros Ho Hm Hl. unfold elf32_phdr. eapply gives_bind; [apply fld_ok; [lia|lia|done|lia]|]. intros.
  repeat (eapply gives_bind; [apply fld4_in; [lia|lia|done|done|lia]|]; intros). apply gives_ret. cbv beta in *. split; cbn; lia.
Qed.

Record shdr_ok (p : elf64_shdr) : Prop := {
  so_name : 0 ≤ sh_name p < 2 ^ 32; so_addr : 0 ≤ sh_addr p < 2 ^ 64; so_offset : 0 ≤ sh_offset p < 2 ^ 64; so_size : 0 ≤ sh_size p < 2 ^ 64;
}.
Lemma elf64_shdr_ok o : 0 ≤ o → o mod 8 = 0 → o + 64 ≤ len elf → gives (elf64_shdr_at elf o) shdr_ok.
Proof. intros Ho Hm Hl. unfold elf64_shdr_at. pose proof (mod8_4 o Hm). fields. split; cbn; lia. Qed.

Lemma elf64_sym_ok o : 0 ≤ o → o mod 8 = 0 → o + 24 ≤ len elf → gives (elf64_sym_at elf o) (λ s, 0 ≤ st_value s < 2 ^ 64).
Proof. intros Ho Hm Hl. unfold elf64_sym_at. pose proof (mod8_4 o Hm). fields. cbn; lia. Qed.

Record rela_ok (r : elf64_rela) : Prop := {
  ro_addr : 0 ≤ r_addr r < 2 ^ 64; ro_info : 0 ≤ r_info r < 2 ^ 32; ro_symbol : 0 ≤ r_symbol r < 2 ^ 32; ro_addend : 0 ≤ r_addend r < 2 ^ 64;
}.
Lemma elf64_rela_ok o : 0 ≤ o → o mod 8 = 0 → o + 24 ≤ len elf → gives (elf64_rela_at elf o) rela_ok.
Proof. intros Ho Hm Hl. unfold elf64_rela_at. pose proof (mod8_4 o Hm). fields. split; cbn; lia. Qed.

(** ** Tables *)
Lemma table_entry_ok {A} (at_ : list Z → Z → out A) (P : A → Prop) (al size off stride n i : Z) :
  0 < al → (∀ o, 0 ≤ o → o mod al = 0 → o + size ≤ len elf → gives (at_ elf o) P) → 0 ≤ off → off mod al = 0 → stride mod al = 0 → 0 < size ≤ stride →
  off + n * stride ≤ len elf → 0 ≤ i < n → gives (table_entry at_ elf off stride i) P.
Proof.
  intros Hal Hat Hoff Hom Hsm Hs Htop Hi. unfold table_entry, imul. assert (i * stride + stride ≤ n * stride) by nia.
  rewrite (proj2 (Z.ltb_lt (i * stride) (2 ^ 31))) by lia. cbn [mbind out_bind]. rewrite u64_id by nia. apply Hat; [nia| |lia].
  apply mod_add_mul; [done|done|]. rewrite Z.mul_mod, Hsm by lia. rewrite Z.mul_0_r. apply Z.mod_0_l. lia.
Qed.

(** A table read as a list. *)
Definition table {A} (at_ : Z → out A) (n : Z) (l : list A) : Prop := len l = n ∧ ∀ i x, l.[i] = Some x → at_ i = Ret x.

Lemma table_exists {A} (at_ : Z → out A) (P : A → Prop) n : 0 ≤ n → (∀ i, 0 ≤ i < n → gives (at_ i) P) → ∃ l, table at_ n l ∧ Forall P l.
Proof.
  intros Hn Hat. assert (∀ k : nat, Z.of_nat k ≤ n → ∃ l, table at_ (Z.of_nat k) l ∧ Forall P l) as Hk.
  { induction k as [|k IH]; intros Hk.
    - exists []. split; [|done]. split; [done|]. intros i x Hx. apply arr_get_Some_lt in Hx.
      unfold len in Hx. cbn [length] in Hx. lia.
    - destruct IH as (l & [Hl Hget] & HP); [lia|]. destruct (Hat (Z.of_nat k)) as (x & Hx & HPx); [lia|]. exists (l ++ [x]). split.
      + split; [len_lia|]. intros i y Hy. destruct (Z.lt_ge_cases i (len l)).
        * rewrite arr_get_app_l in Hy by done. by apply Hget.
        * pose proof (arr_get_Some_lt _ _ _ Hy) as Hi. rewrite len_app in Hi. change (len [x]) with 1 in Hi. assert (i = len l) as -> by lia.
          rewrite arr_get_app_r, Z.sub_diag in Hy by done. injection Hy as <-. by rewrite Hl.
      + apply Forall_app. split; [done|by apply Forall_singleton]. }
  destruct (Hk (Z.to_nat n)) as (l & Hl & HP); [lia|]. exists l. by rewrite Z2Nat.id in Hl by lia.
Qed.

Lemma table_for_phdrs {S} (at_ : Z → out elf_phdr) (body : elf_phdr → S → out S) ps n s : table at_ n ps →
  for_phdrs at_ body (Z.to_nat n) 0 s = foldl (λ m p, m ≫= body p) (Ret s) ps.
Proof.
  intros [Hl Hget]. rewrite <- Hl. clear n Hl.
  enough (∀ done, (∀ k x, ps !! k = Some x → at_ (done + Z.of_nat k) = Ret x) →
    for_phdrs at_ body (length ps) done s = foldl (λ m p, m ≫= body p) (Ret s) ps) as H.
  { unfold len. rewrite Nat2Z.id. apply (H 0). intros k x Hx. rewrite Z.add_0_l. apply Hget. by rewrite arr_get_lookup. }
  clear Hget. revert s. induction ps as [|p ps IH]; intros s i Hat; [done|]. cbn [length for_phdrs foldl]. specialize (Hat 0%nat p eq_refl) as Hp. rewrite Z.add_0_r in Hp. rewrite Hp.
  cbn [mbind out_bind]. destruct (body p s) as [s'|msg|] eqn:Hb; cbn [mbind out_bind].
  - apply IH. intros k x Hk. rewrite <- (Hat (Datatypes.S k) x Hk). f_equal. lia.
  - clear. by induction ps.
  - clear. by induction ps.
Qed.
(** ** The program headers *)
Section headers.
Context (h : elf_hdr) (Hh : hdr_ok h) (Hphoff : phoff h mod 8 = 0) (Hphsize : phdr_size h mod 8 = 0) (Hsize : 56 ≤ phdr_size h)
  (Htable : phoff h + ph_num h * phdr_size h ≤ len elf).

Lemma phdr64_ok i : 0 ≤ i < ph_num h → gives (phdr64 elf h i) (phdr_ok 64).
Proof.
  intros Hi. destruct Hh. unfold phdr64. apply (table_entry_ok elf64_phdr (phdr_ok 64) 8 56 (phoff h) (phdr_size h) (ph_num h) i); try lia; try done.
  intros o Ho Hm Hl. by apply elf64_phdr_ok.
Qed.

Lemma headers_exist : ∃ ps, table (phdr64 elf h) (ph_num h) ps ∧ Forall (phdr_ok 64) ps.
Proof. apply table_exists; [apply Hh|apply phdr64_ok]. Qed.

Lemma find_dynamic_safe n i : 0 ≤ i → i + Z.of_nat n ≤ ph_num h → safe (find_dynamic elf h n i) (λ b, b = true).
Proof.
  revert i. induction n as [|n IH]; intros i Hi Hn; cbn [find_dynamic]; [done|]. destruct Hh. assert (i * phdr_size h + phdr_size h ≤ ph_num h * phdr_size h) by nia.
  eapply safe_gives_bind; [apply elf64_phdr_ok; rewrite u64_id by nia; [nia| |lia]|].
  - apply mod_add_mul; [lia|done|]. rewrite Z.mul_mod, Hphsize by lia. rewrite Z.mul_0_r. done.
  - intros p _. destruct (negb _); [apply IH; lia|]. by destruct (p_filesz p =? 0).
Qed.

Lemma check_phdr_size_ok : check_phdr_size h = Ret tt.
Proof. unfold check_phdr_size. by rewrite (proj2 (Z.ltb_ge _ _)). Qed.

Lemma is_relocatable_safe : safe (elf64_is_relocatable elf h) (λ b, b = (h_type h =? ET_DYN)).
Proof.
  unfold elf64_is_relocatable. rewrite check_phdr_size_ok. cbn [mbind out_bind]. destruct (h_type h =? ET_DYN); cbn [negb]; [|done].
  apply find_dynamic_safe; [lia|]. destruct Hh. lia.
Qed.

(** A translated address is inside the file with all of its segment. *)
Definition translated (size_hint : Z) (r : Z * Z) : Prop := 0 ≤ r.1 ∧ 0 < r.2 ∧ r.1 + r.2 ≤ len elf ∧ r.1 + size_hint ≤ len elf.

Lemma translate_loop_ok offset size_hint n i : 0 ≤ offset → 0 ≤ size_hint → 0 ≤ i → i + Z.of_nat n ≤ ph_num h →
  gives (translate_loop elf h offset size_hint n i) (λ r, match r with Some r => translated size_hint r | None => True end).
Proof.
  intros Ho Hs. revert i. induction n as [|n IH]; intros i Hi Hn; cbn [translate_loop]; [by apply gives_ret|]. destruct (phdr64_ok i ltac:(lia)) as (p & -> & Hp). cbn [mbind out_bind].
  destruct Hp. destruct (add64 (p_vaddr p) (p_filesz p)) as [seg_end|] eqn:Hse; [apply add64_Some in Hse as [-> Hse]|apply IH; lia].
  destruct (Z.leb_spec (p_vaddr p) offset); cbn [andb]; [|apply IH; lia]. destruct (Z.ltb_spec offset (p_vaddr p + p_filesz p)); [|apply IH; lia].
  apply gives_ret. destruct (add64 (p_offset p) (p_filesz p)) as [e|] eqn:He; [apply add64_Some in He as [-> He]|done]. destruct (Z.ltb_spec (len elf) (p_offset p + p_filesz p)); [done|].
  rewrite u64_id by lia. destruct (add64 _ size_hint) as [e|] eqn:He2; [apply add64_Some in He2 as [-> He2]|done]. destruct (Z.ltb_spec (len elf) (offset - p_vaddr p + p_offset p + size_hint)); [done|].
  unfold translated. cbn [fst snd]. lia.
Qed.

Lemma translate_table_safe addr size_hint msg : 0 ≤ addr → 0 ≤ size_hint → safe (translate_table elf h addr size_hint msg) (translated size_hint).
Proof.
  intros Ha Hs. unfold translate_table, elf64_translate_vaddr. destruct Hh. eapply safe_gives_bind; [apply translate_loop_ok; lia|]. intros [r|]; done.
Qed.

(** ** The dynamic table *)
Record dyn_ok (d : dynamic) : Prop := {
  do_rela : 0 ≤ rela_offset d < 2 ^ 64; do_relasz : 0 ≤ rela_size d < 2 ^ 64; do_relaent : 0 ≤ rela_ent d < 2 ^ 64;
  do_relr : 0 ≤ relr_offset d < 2 ^ 64; do_relrsz : 0 ≤ relr_size d < 2 ^ 64; do_relrent : 0 ≤ relr_ent d < 2 ^ 64;
  do_symtab : 0 ≤ symtab_offset d < 2 ^ 64; do_syment : 0 ≤ symtab_ent d < 2 ^ 64; do_strtab : 0 ≤ strtab_offset d < 2 ^ 64;
  do_pltrel : 0 ≤ dt_pltrel d < 2 ^ 64; do_pltrelsz : 0 ≤ dt_pltrelsz d < 2 ^ 64; do_jmprel : 0 ≤ dt_jmprel d < 2 ^ 64;
}.

Lemma dyn_entry_safe d tag v : dyn_ok d → 0 ≤ v < 2 ^ 64 → safe (dyn_entry d tag v) (λ r, match r with Some d => dyn_ok d | None => True end).
Proof.
  intros Hd Hv. pose proof Hd as Hd'. destruct d as [ra rs re lo ls le so se st pt ps pj]. destruct Hd. cbn in *. unfold dyn_entry.
  repeat (match goal with |- safe (if ?b then _ else _) _ => destruct b end; [first [exact I|split; cbn; assumption|idtac]|]); first [exact Hd'|split; cbn; assumption].
Qed.

Lemma dyn_loop_safe n o d : 0 ≤ o → o mod 8 = 0 → o + 16 * Z.of_nat n ≤ len elf → dyn_ok d → safe (dyn_loop elf o n d) dyn_ok.
Proof.
  revert o d. induction n as [|n IH]; intros o d Ho Hm Hl Hd; cbn [dyn_loop]; [done|]. eapply safe_gives_bind; [apply fld_ok; [lia|lia|done|lia]|]. intros tag _.
  eapply safe_gives_bind; [apply (fld_in o 8 8); [lia|lia|lia|done|done|done|lia]|]. intros v Hv. change (8 * 8) with 64 in Hv.
  eapply safe_bind; [by apply dyn_entry_safe|]. intros [d'|] Hd'; [|done]. apply IH; [lia| |lia|done]. by apply mod_add_mul.
Qed.

Lemma read_dynamic_safe n i : 0 ≤ i → i + Z.of_nat n ≤ ph_num h → safe (read_dynamic elf h n i) (λ r, match r with Some d => dyn_ok d | None => True end).
Proof.
  revert i. induction n as [|n IH]; intros i Hi Hn; cbn [read_dynamic]; [split; cbn; lia|]. destruct (phdr64_ok i ltac:(lia)) as (p & -> & Hp). cbn [mbind out_bind].
  destruct Hp. destruct (negb (p_type p =? PT_DYNAMIC)); [apply IH; lia|]. destruct (add64 (p_offset p) (p_filesz p)) as [e|] eqn:He; [apply add64_Some in He as [-> He]|done].
  destruct (Z.ltb_spec (len elf) (p_offset p + p_filesz p)); [done|]. destruct (Z.eqb_spec (p_offset p mod 8) 0) as [Hm|]; cbn [negb]; [|done].
  eapply safe_bind; [apply dyn_loop_safe; [lia|done| |split; cbn; lia]|].
  - pose proof (Z.div_mod (p_filesz p) 16 ltac:(lia)). pose proof (Z.mod_pos_bound (p_filesz p) 16). lia.
  - intros d Hd. exact Hd.
Qed.

(** The tables once they are found: all of each is in the file and aligned. *)
Record tables_ok (t : tables) : Prop := {
  to_dyn : dyn_ok (t_dyn t);
  to_rela : rela_offset (t_dyn t) + rela_size (t_dyn t) ≤ len elf;
  to_relr : relr_offset (t_dyn t) + relr_size (t_dyn t) ≤ len elf;
  to_jmprel : dt_jmprel (t_dyn t) + dt_pltrelsz (t_dyn t) ≤ len elf;
  to_symtab : 0 ≤ t_symtab_size t ∧ symtab_offset (t_dyn t) + t_symtab_size t ≤ len elf;
  to_strtab : 0 ≤ t_strtab_size t;
  to_rela_al : rela_offset (t_dyn t) mod 8 = 0; to_ent_al : rela_ent (t_dyn t) mod 8 = 0; to_relr_al : relr_offset (t_dyn t) mod 8 = 0;
  to_symtab_al : symtab_offset (t_dyn t) mod 8 = 0; to_syment_al : symtab_ent (t_dyn t) mod 8 = 0; to_jmprel_al : dt_jmprel (t_dyn t) mod 8 = 0;
  to_ent : rela_ent (t_dyn t) = 0 ∨ 24 ≤ rela_ent (t_dyn t);
}.

(** A table that is there is translated; one that is not has no size. *)
Lemma table_or_none_safe addr size msg msg' : 0 ≤ addr → 0 ≤ size →
  safe (if negb (addr =? 0) then '(o, _) ← translate_table elf h addr size msg; Ret o else if negb (size =? 0) then Panic msg' else Ret 0) (λ o, 0 ≤ o ≤ len elf ∧ o + size ≤ len elf).
Proof.
  intros Ha Hs. destruct (addr =? 0); cbn [negb].
  - destruct (Z.eqb_spec size 0) as [->|]; cbn [negb]; [cbn; lia|done].
  - eapply safe_bind; [by apply translate_table_safe|]. intros [o k] (H1 & H2 & H3 & H4). cbn in *. lia.
Qed.

Lemma symbol_table_safe addr msg : 0 ≤ addr → safe (if negb (addr =? 0) then translate_table elf h addr 0 msg else Ret (0, 0)) (λ '(o, n), 0 ≤ o ∧ 0 ≤ n ∧ o + n ≤ len elf).
Proof.
  intros Ha. destruct (addr =? 0); cbn [negb]; [cbn; lia|]. eapply safe_weaken; [by apply translate_table_safe|]. intros [o n] (H1 & H2 & H3 & H4). cbn in *. lia.
Qed.

Lemma locate_tables_safe d : dyn_ok d → safe (locate_tables elf h d) tables_ok.
Proof.
  intros [? ? ? ? ? ? ? ? ? ? ? ?]. unfold locate_tables. destruct (negb (rela_ent d =? 0) && (rela_ent d <? 24)) eqn:Hent; [done|]. apply andb_false_iff in Hent.
  eapply safe_bind; [apply table_or_none_safe; lia|]. intros rela Hrela. eapply safe_bind; [apply table_or_none_safe; lia|]. intros relr Hrelr.
  eapply safe_bind; [apply symbol_table_safe; lia|]. intros [symtab symtab_size] Hsymtab. eapply safe_bind; [apply symbol_table_safe; lia|]. intros [strtab strtab_size] Hstrtab.
  eapply safe_bind; [apply table_or_none_safe; lia|]. intros jmprel Hjmprel. cbv beta in *.
  destruct (_ || negb (jmprel mod 8 =? 0)) eqn:Hal; [done|]. rewrite !orb_false_iff, !negb_false_iff, !Z.eqb_eq in Hal. destruct Hal as [[[[[? ?] ?] ?] ?] ?].
  cbn [safe]. split; cbn [t_dyn t_symtab_size t_strtab_size rela_offset rela_size rela_ent relr_offset relr_size relr_ent symtab_offset symtab_ent strtab_offset dt_pltrel dt_pltrelsz dt_jmprel];
    try lia; try done. split; cbn; lia.
Qed.
End headers.
End file.
