(* ===== verification/ElfReloc.v ===== *)
(** The relocations of an ELF file: collecting them from its tables, the
    packed ones among them, and applying them to memory. *)
From S2P Require Import Prelude Libc LibcProofs Outcome Pmm PmmAlloc PmmUse Elsewhere Elf ElfTables.
From stdpp Require Import strings.
Open Scope list_scope.
Open Scope Z_scope.

(** ** Packed relative relocations *)

(** The addresses of the bits of a map that are set, from bit [j] on. *)
Fixpoint map_bits (n : nat) (where_ x j : Z) : list Z :=
  match n with
  | O => []
  | S n => (if x mod 2 =? 0 then [] else [u64 (where_ + j * 8)]) ++ map_bits n where_ (x / 2) (j + 1)
  end.

Fixpoint relr_addrs (where_ : Z) (ws : list Z) : list Z :=
  match ws with
  | [] => []
  | w :: ws => if w mod 2 =? 0 then w :: relr_addrs (u64 (w + 8)) ws else map_bits 63 where_ (w / 2) 0 ++ relr_addrs (u64 (where_ + 63 * 8)) ws
  end.

Lemma map_bits_0 n where_ j : map_bits n where_ 0 j = [].
Proof. revert j. induction n as [|n IH]; intros j; [done|]. cbn [map_bits]. by rewrite Z.mod_0_l, Z.div_0_l, IH by lia. Qed.

Lemma len_map_bits n where_ x j : len (map_bits n where_ x j) = popcount n x.
Proof.
  revert x j. induction n as [|n IH]; intros x j; [done|]. cbn [map_bits popcount]. rewrite len_app, IH. pose proof (Z.mod_pos_bound x 2 ltac:(lia)).
  destruct (Z.eqb_spec (x mod 2) 0); [rewrite len_nil|rewrite len_cons, len_nil]; lia.
Qed.

Lemma len_relr_addrs where_ where' ws : len (relr_addrs where_ ws) = len (relr_addrs where' ws).
Proof.
  revert where_ where'. induction ws as [|w ws IH]; intros where_ where'; [done|]. cbn [relr_addrs]. destruct (w mod 2 =? 0); [by rewrite !len_cons|].
  rewrite !len_app, !len_map_bits. f_equal. apply IH.
Qed.

Lemma relr_bits_S fuel max where_ entry j acc : relr_bits (S fuel) max where_ entry j acc =
  (if entry / 2 =? 0 then Ret acc else
   acc ← (if entry / 2 mod 2 =? 0 then Ret acc else put max acc (u64 (where_ + j * 8)));
   relr_bits fuel max where_ (entry / 2) (j + 1) acc).
Proof. done. Qed.

Lemma relr_bits_ok n max where_ entry j acc : 0 ≤ entry → entry / 2 < 2 ^ Z.of_nat n → len acc + len (map_bits n where_ (entry / 2) j) ≤ max →
  relr_bits (S n) max where_ entry j acc = Ret (acc ++ map_bits n where_ (entry / 2) j).
Proof.
  revert entry j acc. induction n as [|n IH]; intros entry j acc He Hlt Hmax; rewrite relr_bits_S.
  - change (2 ^ Z.of_nat 0) with 1 in Hlt. pose proof (Z.div_pos entry 2 He ltac:(lia)). by rewrite (proj2 (Z.eqb_eq (entry / 2) 0)), app_nil_r by lia.
  - pose proof (Z.div_pos entry 2 He ltac:(lia)). destruct (Z.eqb_spec (entry / 2) 0) as [->|Hz]; [by rewrite map_bits_0, app_nil_r|]. cbn [map_bits] in Hmax |- *.
    assert (entry / 2 / 2 < 2 ^ Z.of_nat n).
    { rewrite Nat2Z.inj_succ, Z.pow_succ_r in Hlt by lia. apply Z.div_lt_upper_bound; lia. }
    rewrite len_app in Hmax. destruct (entry / 2 mod 2 =? 0).
    + cbn [mbind out_bind app]. apply IH; [done|done|]. change (len []) with 0 in Hmax. lia.
    + unfold put. rewrite len_cons, len_nil in Hmax. rewrite (proj2 (Z.ltb_lt (len acc) max)) by (pose proof (len_nonneg (map_bits n where_ (entry / 2 / 2) (j + 1))); lia).
      cbn [mbind out_bind app]. rewrite IH; [by rewrite <- app_assoc|done|done|]. rewrite len_app, len_cons, len_nil. lia.
Qed.

(** A table of words in the file. *)
Definition words_at (elf : list Z) (o : Z) (ws : list Z) : Prop := ∀ k w, ws !! k = Some w → fld elf (o + 8 * Z.of_nat k) 8 = Ret w ∧ 0 ≤ w < 2 ^ 64.

Lemma words_at_cons elf o w ws : words_at elf o (w :: ws) → fld elf o 8 = Ret w ∧ 0 ≤ w < 2 ^ 64 ∧ words_at elf (o + 8) ws.
Proof.
  intros Hw. destruct (Hw 0%nat w eq_refl) as [H1 H2]. rewrite Z.mul_0_r, Z.add_0_r in H1. split_and!; [done|lia|lia|].
  intros k x Hk. rewrite <- Z.add_assoc. replace (8 + 8 * Z.of_nat k) with (8 * Z.of_nat (S k)) by lia. by apply Hw.
Qed.

Lemma words_exist elf o n : is_bytes elf → 64 ≤ len elf < 2 ^ 31 → 0 ≤ o → o mod 8 = 0 → o + 8 * Z.of_nat n ≤ len elf → ∃ ws, length ws = n ∧ words_at elf o ws.
Proof.
  intros Hb Hlen. revert o. induction n as [|n IH]; intros o Ho Hm Hl.
  - exists []. split; [done|]. by intros k w Hk.
  - destruct (fld_ok elf Hb Hlen o 8 Ho ltac:(lia) Hm ltac:(lia)) as (w & Hw & Hr). destruct (IH (o + 8)) as (ws & Hwl & Hws); [lia|by apply mod_add_mul|lia|].
    exists (w :: ws). split; [cbn; lia|]. intros [|k] x Hx; cbn in Hx.
    + injection Hx as <-. by rewrite Z.mul_0_r, Z.add_0_r.
    + replace (o + 8 * Z.of_nat (S k)) with (o + 8 + 8 * Z.of_nat k) by lia. by apply Hws.
Qed.

Lemma popcount_odd w : w mod 2 ≠ 0 → popcount 64 w - 1 = popcount 63 (w / 2).
Proof. intros Hw. change (popcount 64 w) with (w mod 2 + popcount 63 (w / 2)). pose proof (Z.mod_pos_bound w 2 ltac:(lia)). lia. Qed.

Lemma count_relr_safe elf o ws count : words_at elf o ws → 0 ≤ count ≤ SIZE_MAX → safe (count_relr elf o (length ws) count) (λ c, c = count + len (relr_addrs 0 ws) ∧ c ≤ SIZE_MAX).
Proof.
  revert o count. induction ws as [|w ws IH]; intros o count Hw Hc; [unfold len; cbn; lia|]. apply words_at_cons in Hw as (Hf & Hr & Hw). cbn [length count_relr]. rewrite Hf. cbn [mbind out_bind].
  set (add := if w mod 2 =? 0 then 1 else popcount 64 w - 1).
  assert (0 ≤ add ∧ len (relr_addrs 0 (w :: ws)) = add + len (relr_addrs 0 ws)) as [Hadd Hlen].
  { unfold add. cbn [relr_addrs]. destruct (Z.eqb_spec (w mod 2) 0).
    - rewrite len_cons, (len_relr_addrs _ 0). lia.
    - rewrite popcount_odd, len_app, len_map_bits, (len_relr_addrs _ 0) by done. rewrite <- (len_map_bits 63 0 (w / 2) 0). pose proof (len_nonneg (map_bits 63 0 (w / 2) 0)). lia. }
  unfold elf64_add_relocation_count. destruct (Z.ltb_spec (SIZE_MAX - count) add); [done|]. cbn [mbind out_bind]. eapply safe_weaken; [apply IH; [done|lia]|]. cbv beta. lia.
Qed.

Lemma decode_relr_ok elf o ws max where_ acc : words_at elf o ws → len acc + len (relr_addrs where_ ws) ≤ max →
  decode_relr elf o (length ws) max where_ acc = Ret (acc ++ relr_addrs where_ ws).
Proof.
  revert o where_ acc. induction ws as [|w ws IH]; intros o where_ acc Hw Hmax; [cbn; by rewrite app_nil_r|]. apply words_at_cons in Hw as (Hf & Hr & Hw).
  cbn [length decode_relr relr_addrs] in *. rewrite Hf. cbn [mbind out_bind]. destruct (w mod 2 =? 0).
  - rewrite len_cons in Hmax. pose proof (len_nonneg (relr_addrs (u64 (w + 8)) ws)). unfold put. rewrite (proj2 (Z.ltb_lt (len acc) max)) by lia. cbn [mbind out_bind].
    rewrite IH; [by rewrite <- app_assoc|done|]. rewrite len_app, len_cons, len_nil. lia.
  - rewrite len_app in Hmax. pose proof (len_nonneg (relr_addrs (u64 (where_ + 63 * 8)) ws)). rewrite (relr_bits_ok 63 max); [|lia| |lia].
    + cbn [mbind out_bind]. rewrite IH; [by rewrite <- app_assoc|done|]. rewrite len_app. lia.
    + apply Z.div_lt_upper_bound; [lia|]. change (2 * 2 ^ Z.of_nat 63) with (2 ^ 64). lia.
Qed.

(** *** The packing a linker does *)

(** The map of the addresses at the front of a list that are in the [n] words
    from word [j] of [base] on. *)
Fixpoint pack_bits (n : nat) (base j : Z) (addrs : list Z) : Z * list Z :=
  match n, addrs with
  | O, _ | _, [] => (0, addrs)
  | S n, a :: rest =>
      if a =? u64 (base + j * 8) then let '(x, rest) := pack_bits n base (j + 1) rest in (2 * x + 1, rest)
      else let '(x, rest) := pack_bits n base (j + 1) addrs in (2 * x, rest)
  end.

Fixpoint pack_maps (fuel : nat) (base : Z) (addrs : list Z) : list Z * list Z :=
  match fuel with
  | O => ([], addrs)
  | S fuel =>
      let '(x, rest) := pack_bits 63 base 0 addrs in
      if x =? 0 then ([], addrs) else let '(ws, rest) := pack_maps fuel (u64 (base + 63 * 8)) rest in ((2 * x + 1) :: ws, rest)
  end.

Fixpoint pack_relr (fuel : nat) (addrs : list Z) : list Z :=
  match fuel, addrs with
  | S fuel, a :: rest => let '(ws, rest) := pack_maps (length rest) (u64 (a + 8)) rest in a :: ws ++ pack_relr fuel rest
  | _, _ => []
  end.
Definition relr_pack (addrs : list Z) : list Z := pack_relr (length addrs) addrs.

Lemma pack_bits_ok n base j addrs x rest : pack_bits n base j addrs = (x, rest) →
  0 ≤ x < 2 ^ Z.of_nat n ∧ addrs = map_bits n base x j ++ rest ∧ (length rest ≤ length addrs)%nat ∧ (x = 0 → rest = addrs).
Proof.
  revert j addrs x rest. induction n as [|n IH]; intros j addrs x rest; cbn [pack_bits map_bits]; [intros [= <- <-]; cbn; split_and!; (done || lia)|].
  assert (0 < 2 ^ Z.of_nat n) by lia. rewrite Nat2Z.inj_succ, Z.pow_succ_r by lia. destruct addrs as [|a addrs]; [intros [= <- <-]; rewrite Z.mod_0_l, Z.div_0_l, map_bits_0 by lia; cbn; split_and!; (done || lia)|].
  destruct (Z.eqb_spec a (u64 (base + j * 8))) as [->|Hne].
  - destruct (pack_bits n base (j + 1) addrs) as [y r] eqn:Hp. intros [= <- <-]. apply IH in Hp as (H1 & H2 & H3 & H4).
    replace ((2 * y + 1) mod 2) with 1 by (rewrite Z.add_comm, Z.mul_comm, Z.mod_add; done). replace ((2 * y + 1) / 2) with y by (rewrite Z.add_comm, Z.mul_comm, Z.div_add; done).
    cbn [Z.eqb app]. split_and!; [lia|lia|by rewrite <- H2|cbn; lia|lia].
  - destruct (pack_bits n base (j + 1) (a :: addrs)) as [y r] eqn:Hp. intros [= <- <-]. apply IH in Hp as (H1 & H2 & H3 & H4).
    replace ((2 * y) mod 2) with 0 by (rewrite Z.mul_comm, Z.mod_mul; done). replace (2 * y / 2) with y by (rewrite Z.mul_comm, Z.div_mul; done).
    cbn [Z.eqb app]. split_and!; [lia|lia|done|done|]. intros. apply H4. lia.
Qed.

Lemma pack_maps_ok fuel base addrs ws rest tail : pack_maps fuel base addrs = (ws, rest) → (∀ b, relr_addrs b tail = rest) →
  relr_addrs base (ws ++ tail) = addrs ∧ (length rest ≤ length addrs)%nat ∧ Forall (is_word 64) ws ∧ (length ws + length rest ≤ length addrs)%nat.
Proof.
  revert base addrs ws rest. induction fuel as [|fuel IH]; intros base addrs ws rest; cbn [pack_maps]; [intros [= <- <-] Ht; cbn; rewrite Ht; split_and!; (done || lia)|].
  destruct (pack_bits 63 base 0 addrs) as [x r] eqn:Hp. apply pack_bits_ok in Hp as (H1 & H2 & H3 & H4). destruct (Z.eqb_spec x 0) as [->|Hx]; [intros [= <- <-] Ht; cbn; rewrite Ht; split_and!; (done || lia)|].
  destruct (pack_maps fuel (u64 (base + 63 * 8)) r) as [ws' r'] eqn:Hm. intros [= <- <-] Ht. destruct (IH _ _ _ _ Hm Ht) as (G1 & G2 & G3 & G4).
  assert (length r < length addrs)%nat as Hlt.
  { destruct (decide (length r = length addrs)) as [Heq|]; [|lia]. exfalso. rewrite H2, length_app in Heq. assert (len (map_bits 63 base x 0) = 0) as Hz by (unfold len; lia).
    rewrite len_map_bits in Hz. assert (∀ n y, 0 ≤ y < 2 ^ Z.of_nat n → 0 ≤ popcount n y ∧ (popcount n y = 0 → y = 0)) as Hpop.
    { clear. induction n as [|n IH]; intros y Hy; [cbn in *; lia|]. rewrite Nat2Z.inj_succ, Z.pow_succ_r in Hy by lia. cbn [popcount]. pose proof (Z.mod_pos_bound y 2 ltac:(lia)). pose proof (Z.div_mod y 2 ltac:(lia)).
      destruct (IH (y / 2)) as [? ?]; lia. }
    apply Hx. by apply (Hpop 63%nat x). }
  change (2 ^ Z.of_nat 63) with (2 ^ 63) in H1. split_and!.
  - cbn [app relr_addrs]. replace ((2 * x + 1) mod 2) with 1 by (rewrite Z.add_comm, Z.mul_comm, Z.mod_add; done).
    replace ((2 * x + 1) / 2) with x by (rewrite Z.add_comm, Z.mul_comm, Z.div_add; done). cbn [Z.eqb]. by rewrite G1, <- H2.
  - lia.
  - constructor; [unfold is_word; lia|done].
  - cbn. lia.
Qed.

Lemma pack_relr_ok fuel addrs b : (length addrs ≤ fuel)%nat → Forall (λ a, is_word 64 a ∧ a mod 2 = 0) addrs →
  relr_addrs b (pack_relr fuel addrs) = addrs ∧ Forall (is_word 64) (pack_relr fuel addrs) ∧ (length (pack_relr fuel addrs) ≤ length addrs)%nat.
Proof.
  revert addrs b. induction fuel as [|fuel IH]; intros [|a addrs] b Hf Ha; cbn [pack_relr]; try done; [cbn in Hf; lia|].
  apply Forall_cons in Ha as [[Haw Hae] Ha]. cbn [length] in Hf. destruct (pack_maps (length addrs) (u64 (a + 8)) addrs) as [ws rest] eqn:Hm.
  assert (∃ taken, addrs = taken ++ rest) as [taken Htk].
  { clear -Hm. revert Hm. generalize (length addrs) (u64 (a + 8)). intros f base. revert base addrs ws. induction f as [|f IH]; intros base addrs ws; cbn [pack_maps]; [intros [= <- <-]; by exists []|].
    destruct (pack_bits 63 base 0 addrs) as [x r] eqn:Hp. apply pack_bits_ok in Hp as (_ & H2 & _). destruct (x =? 0); [intros [= <- <-]; by exists []|].
    destruct (pack_maps f (u64 (base + 63 * 8)) r) as [ws' r'] eqn:Hm. intros [= <- <-]. destruct (IH _ _ _ Hm) as [t ->]. rewrite H2. eexists. by rewrite app_assoc. }
  assert (Forall (λ a, is_word 64 a ∧ a mod 2 = 0) rest) as Hrest by (rewrite Htk, Forall_app in Ha; apply Ha).
  assert (length rest ≤ fuel)%nat as Hrf. { rewrite Htk, length_app in Hf. lia. }
  destruct (pack_maps_ok _ _ _ _ _ (pack_relr fuel rest) Hm) as (H1 & H2 & H3 & H4); [intros b'; by apply IH|]. destruct (IH rest 0 Hrf Hrest) as (_ & G2 & G3).
  cbn [relr_addrs]. rewrite Hae. cbn [Z.eqb]. rewrite H1. split_and!; [done| |cbn; rewrite length_app; lia]. constructor; [done|]. by apply Forall_app.
Qed.

(** ** Collecting *)
Definition rela_entries (base size ent : Z) : list reloc := map (λ i, InFile (base + i * ent)) (seqZ 0 (size / ent)).

Lemma rela_loop_ok k fuel base offset size ent max acc : 0 < ent → 0 ≤ offset → size = offset + Z.of_nat k * ent → (k < fuel)%nat → size < 2 ^ 63 → len acc + Z.of_nat k ≤ max →
  rela_loop fuel base offset size ent max acc = Ret (acc ++ map (λ i, InFile (base + offset + i * ent)) (seqZ 0 (Z.of_nat k))).
Proof.
  revert fuel offset acc. induction k as [|k IH]; intros [|fuel] offset acc He Ho Hs Hf Hlt Hmax; try lia; cbn [rela_loop].
  - rewrite (proj2 (Z.leb_le size offset)) by lia. by rewrite app_nil_r.
  - rewrite (proj2 (Z.leb_gt size offset)) by nia. rewrite (proj2 (Z.leb_gt max (len acc))) by lia. rewrite u64_id by nia.
    rewrite IH; [|lia|lia|nia|lia|lia|rewrite len_app, len_cons, len_nil; lia]. f_equal. rewrite <- app_assoc. f_equal. rewrite (seqZ_cons 0 (Z.of_nat (S k))) by lia. cbn [map app]. f_equal; [by rewrite Z.mul_0_l, Z.add_0_r|].
    replace (Z.pred (Z.of_nat (S k))) with (Z.of_nat k) by lia. change (Z.succ 0) with (1 + 0). rewrite <- (fmap_add_seqZ 1 0). change (Z.add 1 <$> seqZ 0 (Z.of_nat k)) with (map (Z.add 1) (seqZ 0 (Z.of_nat k))).
    rewrite map_map. apply map_ext. intros i. f_equal. lia.
Qed.

Lemma rela_table_ok base size ent max acc : 0 ≤ size < 2 ^ 63 → (size = 0 ∨ 0 < ent ∧ size mod ent = 0) → len acc + size / ent ≤ max →
  rela_table base size ent max acc = Ret (acc ++ rela_entries base size ent).
Proof.
  intros Hs Hm Hmax. unfold rela_table, rela_entries. destruct (Z.eqb_spec size 0) as [->|Hz]; [by rewrite Zdiv_0_l, app_nil_r|]. destruct Hm as [|[He Hm]]; [done|].
  pose proof (Z.div_mod size ent ltac:(lia)). assert (0 ≤ size / ent) by (apply Z.div_pos; lia).
  rewrite (rela_loop_ok (Z.to_nat (size / ent))); [|done|lia|lia|lia|lia|lia]. rewrite Z2Nat.id by done. do 2 f_equal. apply map_ext. intros i. f_equal. lia.
Qed.

Section file.
Context (elf : list Z) (Hbytes : is_bytes elf) (Hlen : 64 ≤ len elf < 2 ^ 31).

Record counted (d : dynamic) (relr_n n : Z) (ws : list Z) : Prop := {
  co_words : words_at elf (relr_offset d) ws;
  co_len : relr_size d = 0 ∧ ws = [] ∨ relr_size d ≠ 0 ∧ length ws = Z.to_nat (relr_size d / relr_ent d);
  co_relr : relr_n = len (relr_addrs 0 ws);
  co_all : n = relr_n + rela_size d / rela_ent d + dt_pltrelsz d / rela_ent d;
  co_rela : rela_size d = 0 ∨ 0 < rela_ent d ∧ rela_size d mod rela_ent d = 0;
  co_plt : dt_pltrelsz d = 0 ∨ 0 < rela_ent d ∧ dt_pltrelsz d mod rela_ent d = 0;
}.

(** A table of relocations adds the number of its entries. *)
Lemma count_table_safe n size ent msg msg' (k : Z → out Z) : dt_pltrelsz no_dynamic = 0 → 0 ≤ size → 0 ≤ ent → 0 ≤ n →
  safe (if size =? 0 then Ret n else if ent =? 0 then Panic msg else if negb (size mod ent =? 0) then Panic msg' else elf64_add_relocation_count n (size / ent))
    (λ m, m = n + size / ent ∧ (size = 0 ∨ 0 < ent ∧ size mod ent = 0)).
Proof.
  intros _ Hs He Hn. destruct (Z.eqb_spec size 0) as [->|Hz]; [cbn; rewrite Zdiv_0_l; lia|]. destruct (Z.eqb_spec ent 0); [done|]. destruct (Z.eqb_spec (size mod ent) 0); [|done]. cbn [negb].
  unfold elf64_add_relocation_count. destruct (_ <? _); [done|]. cbn. split; [done|]. right. lia.
Qed.

Lemma count_relocations_safe t : tables_ok elf t → safe (count_relocations elf (t_dyn t)) (λ '(relr_n, n), ∃ ws, counted (t_dyn t) relr_n n ws).
Proof.
  intros [[? ? ? ? ? ? ? ? ? ? ? ?] Hra Hrl Hjm Hsy Hst A1 A2 A3 A4 A5 A6 He]. unfold count_relocations. set (d := t_dyn t) in *.
  apply (safe_bind _ _ (λ relr_n, ∃ ws, words_at elf (relr_offset d) ws ∧ (relr_size d = 0 ∧ ws = [] ∨ relr_size d ≠ 0 ∧ length ws = Z.to_nat (relr_size d / relr_ent d)) ∧ relr_n = len (relr_addrs 0 ws))).
  { destruct (Z.eqb_spec (relr_size d) 0) as [Hz|Hz]; [exists []; split_and!; [by intros k w Hk|by left|done]|]. destruct (Z.eqb_spec (relr_ent d) 8) as [He8|]; cbn [negb]; [|done]. rewrite He8.
    pose proof (Z.div_mod (relr_size d) 8 ltac:(lia)). pose proof (Z.mod_pos_bound (relr_size d) 8).
    destruct (words_exist elf (relr_offset d) (Z.to_nat (relr_size d / 8)) Hbytes Hlen) as (ws & Hwl & Hws); [lia|done|lia|]. rewrite <- Hwl.
    eapply safe_weaken; [apply (count_relr_safe elf _ ws 0 Hws); unfold SIZE_MAX; lia|]. cbv beta. intros c [Hc _]. exists ws. split_and!; [done|right; by rewrite ?He8|lia]. }
  intros relr_n (ws & Hws & Hwl & Hn). pose proof (len_nonneg (relr_addrs 0 ws)).
  eapply safe_bind; [apply count_table_safe; [exact (λ x, Ret x)|done|lia|lia|lia]|]. cbv beta. intros n1 [Hn1 Hr].
  assert (0 ≤ rela_size d / rela_ent d). { destruct Hr as [->|[? _]]; [by rewrite Zdiv_0_l|apply Z.div_pos; lia]. }
  apply (safe_bind _ _ (λ m, m = n1 + dt_pltrelsz d / rela_ent d ∧ (dt_pltrelsz d = 0 ∨ 0 < rela_ent d ∧ dt_pltrelsz d mod rela_ent d = 0))).
  { destruct (Z.eqb_spec (dt_pltrelsz d) 0) as [->|Hz]; [cbn; rewrite Zdiv_0_l; lia|]. destruct (negb (dt_pltrel d =? DT_RELA)); [done|].
    pose proof (count_table_safe n1 (dt_pltrelsz d) (rela_ent d) "elf: dt_pltrelsz != 0 but rela_ent == 0" "elf: dt_pltrelsz not a multiple of rela_ent" (λ x, Ret x) eq_refl ltac:(lia) ltac:(lia) ltac:(lia)) as Hc.
    by rewrite (proj2 (Z.eqb_neq _ _) Hz) in Hc. }
  intros n [Hn' Hp]. exists ws. by split; [..|lia| |].
Qed.

(** All the relocations of a file, in the order they are applied. *)
Definition all_relocs (d : dynamic) (ws : list Z) : list reloc :=
  map Relr (relr_addrs 0 ws) ++ rela_entries (rela_offset d) (rela_size d) (rela_ent d) ++ rela_entries (dt_jmprel d) (dt_pltrelsz d) (rela_ent d).

Lemma len_map {A B} (f : A → B) l : len (map f l) = len l.
Proof. unfold len. by rewrite length_map. Qed.

Lemma len_rela_entries base size ent : (size = 0 ∨ 0 < ent) → 0 ≤ size → len (rela_entries base size ent) = size / ent.
Proof.
  intros He Hs. unfold rela_entries. rewrite len_map. unfold len. rewrite length_seqZ. apply Z2Nat.id. destruct He as [->|He]; [by rewrite Zdiv_0_l|by apply Z.div_pos].
Qed.

Lemma collect_ok t relr_n n ws : tables_ok elf t → counted (t_dyn t) relr_n n ws →
  collect_relocations elf (t_dyn t) relr_n n = Ret (all_relocs (t_dyn t) ws) ∧ n = len (all_relocs (t_dyn t) ws).
Proof.
  intros [[? ? ? ? ? ? ? ? ? ? ? ?] Hra Hrl Hjm Hsy Hst A1 A2 A3 A4 A5 A6 He] [Hws Hwl Hn Hall Hr Hp]. set (d := t_dyn t) in *. unfold collect_relocations.
  assert ((if relr_size d =? 0 then Ret [] else decode_relr elf (relr_offset d) (Z.to_nat (relr_size d / relr_ent d)) relr_n 0 []) = Ret (relr_addrs 0 ws)) as ->.
  { destruct Hwl as [[-> ->]|[Hz Hwl]]; [done|]. rewrite (proj2 (Z.eqb_neq _ _) Hz), <- Hwl. rewrite (decode_relr_ok elf _ ws relr_n 0 [] Hws); [done|]. unfold len in *. cbn [length]. lia. }
  cbn [mbind out_bind]. rewrite Hn, Z.sub_diag. change (replicate (Z.to_nat 0) (Relr 0)) with (@nil reloc). rewrite app_nil_r.
  assert (rela_size d = 0 ∨ 0 < rela_ent d) by (destruct Hr as [|[? _]]; [by left|by right]). assert (dt_pltrelsz d = 0 ∨ 0 < rela_ent d) by (destruct Hp as [|[? _]]; [by left|by right]).
  pose proof (len_rela_entries (rela_offset d) (rela_size d) (rela_ent d) ltac:(done) ltac:(lia)) as L1. pose proof (len_rela_entries (dt_jmprel d) (dt_pltrelsz d) (rela_ent d) ltac:(done) ltac:(lia)) as L2.
  pose proof (len_nonneg (rela_entries (dt_jmprel d) (dt_pltrelsz d) (rela_ent d))).
  rewrite rela_table_ok; [|lia|done|rewrite len_map; lia]. cbn [mbind out_bind]. rewrite rela_table_ok; [|lia|done|rewrite len_app, len_map; lia].
  unfold all_relocs. rewrite !len_app, len_map. split; [by rewrite <- app_assoc|lia].
Qed.

(** Each can be read. *)
Definition readable (r : reloc) : Prop := gives (reloc_at elf r) rela_ok.

Lemma relr_addrs_words where_ ws : Forall (λ w, 0 ≤ w < 2 ^ 64) ws → Forall (λ a, 0 ≤ a < 2 ^ 64) (relr_addrs where_ ws).
Proof.
  assert (∀ n b x j, Forall (λ a, 0 ≤ a < 2 ^ 64) (map_bits n b x j)) as Hbits.
  { induction n as [|n IH]; intros b x j; [done|]. cbn [map_bits]. apply Forall_app. split; [|apply IH]. destruct (_ =? 0); [done|]. apply Forall_singleton. by apply wrap_word. }
  intros Hw. revert where_. induction Hw as [|w ws H Hw IH]; intros where_; [done|]. cbn [relr_addrs]. destruct (_ =? 0); [by constructor|]. apply Forall_app. split; [apply Hbits|apply IH].
Qed.

Lemma rela_entries_readable base size ent : 0 ≤ base → base mod 8 = 0 → ent mod 8 = 0 → (size = 0 ∨ 24 ≤ ent) → 0 ≤ size → base + size ≤ len elf → Forall readable (rela_entries base size ent).
Proof.
  intros Hb Hbm Hem He Hs Hl. unfold rela_entries. apply Forall_map, Forall_forall. intros i Hi%elem_of_seqZ. destruct He as [->|He]; [rewrite Zdiv_0_l in Hi; lia|].
  pose proof (Z.div_mod size ent ltac:(lia)). pose proof (Z.mod_pos_bound size ent ltac:(lia)). unfold readable. cbn [reloc_at]. apply elf64_rela_ok; [done|done|nia| |nia].
  apply mod_add_mul; [lia|done|]. rewrite Z.mul_mod, Hem by lia. by rewrite Z.mul_0_r.
Qed.

Lemma all_relocs_readable t relr_n n ws : tables_ok elf t → counted (t_dyn t) relr_n n ws → Forall readable (all_relocs (t_dyn t) ws).
Proof.
  intros [[? ? ? ? ? ? ? ? ? ? ? ?] Hra Hrl Hjm Hsy Hst A1 A2 A3 A4 A5 A6 He] [Hws Hwl Hn Hall Hr Hp]. unfold all_relocs. rewrite !Forall_app. split_and!.
  - apply Forall_map. assert (Forall (λ w, 0 ≤ w < 2 ^ 64) ws) as Hw. { apply Forall_lookup. intros k w Hk. by apply Hws in Hk as [_ ?]. }
    eapply Forall_impl; [by apply relr_addrs_words|]. cbv beta. intros a Ha. eexists. split; [done|]. split; cbn; unfold R_INTERNAL_RELR; lia.
  - apply rela_entries_readable; (lia || done).
  - apply rela_entries_readable; (lia || done).
Qed.
End file.
