(* ===== verification/ElfImage.v ===== *)
(** Preparing the relocations of an ELF file and applying them: what memory
    holds afterwards is the image of the file. *)
From S2P Require Import Prelude Libc LibcProofs Outcome Pmm PmmAlloc PmmUse Elsewhere Elf ElfTables ElfReloc.
From stdpp Require Import strings.
Open Scope list_scope.
Open Scope Z_scope.

(** A block got since [s0] that is to be given back, or none. *)
Definition scratch (s0 : pmm_state) (b count : Z) : Prop :=
  b = 0 ∨ 0 < b ∧ b mod 4096 = 0 ∧ 0 ≤ count ∧ count + 4096 ≤ 2 ^ 64 - 1 ∧ b + block_size count 4096 < 2 ^ 64 ∧
    ∀ x, b ≤ x < b + block_size count 4096 → type_at (memmap s0) x = Some MEMMAP_USABLE.

Lemma kept_usable s s' k x : kept s s' k → type_at (memmap s') x = Some MEMMAP_USABLE → type_at (memmap s) x = Some MEMMAP_USABLE.
Proof. intros [_ _ _ Ht] Hu. destruct (decide (type_at (memmap s) x = Some MEMMAP_USABLE)); [done|]. rewrite Ht in Hu; done. Qed.

(** Bytes that are not usable memory are as they were. *)
Definition mem_kept (s s' : pmm_state) : Prop := ∀ x, type_at (memmap s) x ≠ Some MEMMAP_USABLE → mem s' x = mem s x.

Definition grows (s s' : pmm_state) (k : Z) : Prop := kept s s' k ∧ mem_kept s s'.

Lemma grows_refl s : pmm_ok s → grows s s 0.
Proof. intros Hok. split; [by apply kept_refl|by intros x Hx]. Qed.

Lemma grows_trans s1 s2 s3 k1 k2 : grows s1 s2 k1 → grows s2 s3 k2 → grows s1 s3 (k1 + k2).
Proof.
  intros [H1 M1] [H2 M2]. split; [by eapply kept_trans|]. intros x Hx. rewrite M2; [by apply M1|]. by rewrite (kept_types _ _ _ H1).
Qed.

(** Memory for [n] elements, and the right to give it back. *)
Lemma alloc_counted_safe s n size : pmm_ok s → len (memmap s) + 5 < memmap_max_entries → allocations_disallowed s = false → 0 ≤ n → 0 ≤ size →
  safe (mem_op (ext_mem_alloc_counted s n size)) (λ '(b, s'), grows s s' 4 ∧ n * size < 2 ^ 64 ∧ scratch s b (n * size)).
Proof.
  intros Hok Hl Hd Hn Hs. unfold ext_mem_alloc_counted. destruct (mul64 n size) as [c|] eqn:Hc; cbn [mbind option_bind mem_op]; [|done]. apply mul64_Some in Hc as [-> Hc].
  assert (0 ≤ n * size) by nia. unfold ext_mem_alloc, ext_mem_alloc_type. destruct (ext_mem_alloc_type_aligned s _ _ 4096) as [[b s']|] eqn:Ha; [|done]. cbn [mem_op safe].
  destruct (alloc_kept s (n * size) MEMMAP_BOOTLOADER_RECLAIMABLE 4096 b s') as (Hk & [H1 H2 H3 H4 H5 H6] & H7 & H8 & H9); try done; [unfold has_room; lia|].
  unfold LIMIT_4G in H2. split_and!; [split; [done|exact H6]|lia|]. destruct (Z.eqb_spec b 0); [by left|]. right. split_and!; (done || lia).
Qed.

Lemma free_grows s0 s k b count : grows s0 s k → len (memmap s) + 1 < memmap_max_entries → allocations_disallowed s0 = false → 0 ≤ k → scratch s0 b count →
  safe (mem_op (pmm_free s b count)) (λ s', grows s0 s' (k + 2) ∧ mem s' = mem s).
Proof.
  intros [Hk Hm] Hl Hd Hk0 [->|(H1 & H2 & H3 & H4 & H5 & H6)].
  - cbn. split; [|done]. split; [|done]. destruct Hk. split; try done. lia.
  - destruct (free_kept s0 s k b count Hk) as (s' & -> & Hs' & Hmem); try done. cbn. split; [|done]. split; [done|]. intros x Hx. rewrite Hmem. by apply Hm.
Qed.

Section file.
Context (elf : list Z) (Hbytes : is_bytes elf) (Hlen : 64 ≤ len elf < 2 ^ 31).

(** What [elf64_prepare_relocations] leaves for applying. *)
Record state_ok (st : elf64_reloc_state) : Prop := {
  sto_relocs : Forall (readable elf) (relocs st);
  sto_symtab : 0 ≤ st_symtab_offset st ∧ 0 ≤ st_symtab_size st ∧ st_symtab_offset st + st_symtab_size st ≤ len elf;
  sto_al : st_symtab_offset st mod 8 = 0 ∧ 0 ≤ st_symtab_ent st ∧ st_symtab_ent st mod 8 = 0;
  sto_count : relocs_i st = len (relocs st) ∧ 0 ≤ relr_count st;
}.

Record scratch_ok (s0 : pmm_state) (st : elf64_reloc_state) : Prop := {
  sc_array : scratch s0 (relocs_addr st) (u64 (relocs_i st * 8));
  sc_pool : scratch s0 (relr_pool st) (u64 (relr_count st * 24));
}.

(** The relocations and the symbols are those of the tables of the file. *)
Definition relocs_of (h : elf_hdr) (st : elf64_reloc_state) : Prop :=
  ∃ d t n m ws, read_dynamic elf h (Z.to_nat (ph_num h)) 0 = Ret (Some d) ∧ locate_tables elf h d = Ret t ∧ counted elf (t_dyn t) n m ws ∧
    relocs st = all_relocs (t_dyn t) ws ∧ st_symtab_offset st = symtab_offset (t_dyn t) ∧ st_symtab_ent st = symtab_ent (t_dyn t) ∧ st_symtab_size st = t_symtab_size t.

Section headers.
Context (h : elf_hdr) (Hh : hdr_ok h) (Hphoff : phoff h mod 8 = 0) (Hphsize : phdr_size h mod 8 = 0).

Lemma safe_ret_bind {A B} (m : out A) (k : A → out B) (Q : B → Prop) : safe m (λ _, True) → (∀ a, m = Ret a → safe (k a) Q) → safe (m ≫= k) Q.
Proof. destruct m; cbn; intros Hm Hk; [by apply Hk|done|done]. Qed.

Lemma safe_inv {A} (m : out A) (Q : A → Prop) a : safe m Q → m = Ret a → Q a.
Proof. intros Hs ->. exact Hs. Qed.

Lemma prepare_safe s : pmm_ok s → len (memmap s) + 9 < memmap_max_entries → allocations_disallowed s = false →
  safe (elf64_prepare_relocations elf h s) (λ '(r, s'), grows s s' 8 ∧ match r with
    | None => True
    | Some st => state_ok st ∧ scratch_ok s st ∧ relocs_of h st
    end).
Proof.
  intros Hok Hl Hd. unfold elf64_prepare_relocations, check_phdr_size. destruct (Z.ltb_spec (phdr_size h) 56) as [|Hsize]; [done|]. cbn [mbind out_bind].
  assert (grows s s 8) as Hs8. { pose proof (grows_refl s Hok) as [Hk ?]. split; [|done]. destruct Hk. split; try done. lia. }
  destruct Hh. unfold mul64. rewrite (proj2 (Z.ltb_lt (ph_num h * phdr_size h) (2 ^ 64))) by nia. cbn [mbind option_bind].
  destruct (add64 (phoff h) _) as [e|] eqn:He; [apply add64_Some in He as [-> He]|done]. destruct (Z.ltb_spec (len elf) (phoff h + ph_num h * phdr_size h)) as [|Htab]; [done|].
  pose proof (read_dynamic_safe elf Hbytes Hlen h Hh Hphoff Hphsize Hsize Htab (Z.to_nat (ph_num h)) 0 ltac:(lia) ltac:(lia)) as Hrd.
  apply safe_ret_bind; [by eapply safe_weaken|]. intros [d|] Hd'; [|done]. pose proof (safe_inv _ _ _ Hrd Hd') as Hdok. cbv beta in Hdok.
  pose proof (locate_tables_safe elf Hbytes Hlen h Hh Hphoff Hphsize Hsize Htab d Hdok) as Hlt. apply safe_ret_bind; [by eapply safe_weaken|]. intros t Ht. pose proof (safe_inv _ _ _ Hlt Ht) as Htok.
  eapply safe_bind; [by apply count_relocations_safe|]. cbv beta. intros [relr_n n] (ws & Hco). pose proof (all_relocs_readable elf Hbytes Hlen t relr_n n ws Htok Hco) as Hread.
  destruct (collect_ok elf Hlen t relr_n n ws Htok Hco) as [Hcol Hn]. assert (0 ≤ relr_n) by (rewrite (co_relr _ _ _ _ _ Hco); apply len_nonneg). pose proof (len_nonneg (all_relocs (t_dyn t) ws)).
  eapply safe_bind; [apply (alloc_counted_safe s n 8 Hok); (done || lia)|]. cbv beta. intros [ra s1] (Hg1 & Hn8 & Hsc1).
  pose proof Hg1 as [[Hok1 Hd1 Hl1 _] _].
  apply (safe_bind _ _ (λ '(pool, s2), grows s s2 8 ∧ scratch s pool (u64 (relr_n * 24)))).
  { destruct (negb (relr_size (t_dyn t) =? 0) && negb (relr_n =? 0)).
    - eapply safe_weaken; [apply (alloc_counted_safe s1 relr_n 24 Hok1); (done || lia || congruence)|]. cbv beta. intros [pool s2] (Hg2 & Hn24 & Hsc2). split; [by apply (grows_trans s s1 s2 4 4)|].
      rewrite u64_id by nia. destruct Hsc2 as [|(G1 & G2 & G3 & G4 & G5 & G6)]; [by left|right]. split_and!; try done. intros x Hx. apply (kept_usable s s1 4); [apply Hg1|by apply G6].
    - cbn. split; [|by left]. destruct Hg1 as [[? ? ? ?] ?]. split; [|done]. split; try done. lia. }
  intros [pool s2] [Hg2 Hsc2]. rewrite Hcol. cbn [mbind out_bind safe]. split; [exact Hg2|]. destruct Htok. split_and!.
  - split; cbn [relocs st_symtab_offset st_symtab_size st_symtab_ent relocs_i relr_count]; [done| | |done]; destruct to_dyn; split_and!; (done || lia).
  - split; cbn [relocs_addr relr_pool relocs_i relr_count]; [|done]. by rewrite u64_id by lia.
  - by exists d, t, relr_n, n, ws.
Qed.
End headers.

Lemma free_relocations_safe s0 s k st : grows s0 s k → len (memmap s) + 3 < memmap_max_entries → len (memmap s0) + k + 3 < memmap_max_entries → allocations_disallowed s0 = false → 0 ≤ k → scratch_ok s0 st →
  safe (elf64_free_relocations st s) (λ s', grows s0 s' (k + 4) ∧ mem s' = mem s).
Proof.
  intros Hg Hl Hl0 Hd Hk [H1 H2]. unfold elf64_free_relocations. eapply safe_bind; [apply (free_grows s0 s k); (done || lia)|]. cbv beta. intros s1 [Hg1 Hm1].
  eapply safe_weaken; [apply (free_grows s0 s1 (k + 2)); try done; [destruct Hg1 as [[_ _ ? _] _]; lia|lia]|]. cbv beta. intros s2 [Hg2 Hm2]. split; [|congruence].
  by replace (k + 4) with (k + 2 + 2) by lia.
Qed.
(** ** Applying *)
Section apply.
Context (A : elf_arch) (st : elf64_reloc_state) (Hst : state_ok st) (slide : Z).

Lemma reloc_symbol_safe symbol : 0 ≤ symbol → safe (reloc_symbol elf st symbol) (λ v, match v with Some v => 0 ≤ v < 2 ^ 64 | None => True end).
Proof.
  intros Hs. destruct Hst as [_ (H1 & H2 & H3) (H4 & H5 & H6) _]. unfold reloc_symbol. destruct (_ || _); [done|]. destruct (_ =? 0); [done|].
  destruct (mul64 _ symbol) as [o|] eqn:Ho; [apply mul64_Some in Ho as [-> Ho]|done]. destruct (Z.ltb_spec (st_symtab_size st) 24); [done|]. cbn [orb].
  destruct (Z.ltb_spec (st_symtab_size st - 24) (st_symtab_ent st * symbol)); [done|]. assert (0 ≤ st_symtab_ent st * symbol) by nia. rewrite u64_id by lia.
  eapply safe_gives_bind; [apply (elf64_sym_ok elf Hbytes Hlen); [lia| |lia]|].
  - apply mod_add_mul; [lia|done|]. rewrite Z.mul_mod, H6 by lia. by rewrite Z.mul_0_l.
  - intros y Hy. destruct (_ =? SHN_UNDEF); [|done]. destruct (_ =? STB_WEAK); [done|]. destruct (_ =? 0); [done|]. by destruct (_ <=? _).
Qed.

Lemma reloc_value_safe r old : rela_ok r → safe (reloc_value A elf st slide r old) (λ v, match v with Some v => 0 ≤ v < 2 ^ 64 | None => True end).
Proof.
  intros [H1 H2 H3 H4]. unfold reloc_value. destruct (_ =? R_NONE A); [done|]. destruct (_ =? R_RELATIVE A); [by apply wrap_word|]. destruct (_ =? R_INTERNAL_RELR); [by apply wrap_word|].
  destruct (_ || _); [|destruct (_ =? R_64 A); [|done]]; (eapply safe_bind; [apply reloc_symbol_safe; lia|]; intros [v|] Hv; [|cbn; lia]).
  - cbn. destruct (slot_addend A); by apply wrap_word.
  - by apply wrap_word.
Qed.

(** The relocations of a list as they are in the file. *)
Definition reads_as (rs : list reloc) (ras : list elf64_rela) : Prop := Forall2 (λ r ra, reloc_at elf r = Ret ra ∧ rela_ok ra) rs ras.

Lemma reads_exist rs : Forall (readable elf) rs → ∃ ras, reads_as rs ras.
Proof. induction 1 as [|r rs (ra & Hra & Hok) _ (ras & Hras)]; [exists []; constructor|]. exists (ra :: ras). constructor; [by split|done]. Qed.

(** One of them on memory, at its address. *)
Definition relocate_at (F : Z → Z) (r : elf64_rela) : Z → Z :=
  match reloc_value A elf st slide r (reloc_load F (r_addr r)) with Ret (Some v) => reloc_store F (r_addr r) v | _ => F end.

(** Those that lie in a piece of memory, in order. *)
Definition relocated (vaddr size : Z) (ras : list elf64_rela) (F : Z → Z) : Z → Z :=
  foldl (λ F r, if reloc_inside vaddr size (r_addr r) then relocate_at F r else F) F ras.

Lemma reloc_inside_spec vaddr size addr : 0 ≤ vaddr → reloc_inside vaddr size addr = true → vaddr ≤ addr ∧ addr + 8 ≤ vaddr + size.
Proof.
  unfold reloc_inside. rewrite !andb_true_iff, negb_true_iff, !Z.leb_le, Z.ltb_ge. intros Hv [[H1 H2] H3].
  assert (u64 (vaddr + size - 8) ≤ vaddr + size - 8) by (apply Z.mod_le; lia). lia.
Qed.

Lemma reloc_inside_eq vaddr size addr : 0 ≤ vaddr → vaddr + size ≤ 2 ^ 64 → reloc_inside vaddr size addr = bool_decide (vaddr ≤ addr ∧ addr + 8 ≤ vaddr + size).
Proof.
  intros Hv Ht. apply eq_true_iff_eq. rewrite bool_decide_eq_true. split; [by apply reloc_inside_spec|]. intros [H1 H2]. unfold reloc_inside.
  rewrite !andb_true_iff, negb_true_iff, !Z.leb_le, Z.ltb_ge, u64_id; lia.
Qed.

Lemma len_le_bytes n x : len (le_bytes n x) = Z.of_nat n.
Proof. unfold len. by rewrite length_le_bytes. Qed.

Lemma reloc_store_eq f p v x : reloc_store f p v x = if decide (p ≤ x < p + 8) then peek (le_bytes 8 v) (x - p) else f x.
Proof.
  unfold reloc_store, write_bytes. rewrite len_le_bytes. change (Z.of_nat 8) with 8. destruct (Z.leb_spec p x), (Z.ltb_spec x (p + 8)); cbn [andb]; case_decide; (done || lia).
Qed.

Lemma reloc_load_ext f g p q : (∀ i, 0 ≤ i < 8 → f (p + i) = g (q + i)) → reloc_load f p = reloc_load g q.
Proof. intros Hfg. unfold reloc_load. f_equal. apply map_ext_in. intros i Hi. apply Hfg. apply list_elem_of_In, elem_of_seqZ in Hi. lia. Qed.

Lemma relocate_at_frame F r x : ¬ (r_addr r ≤ x < r_addr r + 8) → relocate_at F r x = F x.
Proof. intros Hx. unfold relocate_at. destruct (reloc_value _ _ _ _ _ _) as [[v|]| |]; try done. rewrite reloc_store_eq. by rewrite decide_False. Qed.

(** Two memories that agree on a piece still do after a relocation in it. *)
Lemma relocate_at_agree F G r vaddr size : vaddr ≤ r_addr r → r_addr r + 8 ≤ vaddr + size → (∀ x, vaddr ≤ x < vaddr + size → F x = G x) →
  ∀ x, vaddr ≤ x < vaddr + size → relocate_at F r x = relocate_at G r x.
Proof.
  intros H1 H2 HFG x Hx. unfold relocate_at. rewrite (reloc_load_ext F G (r_addr r) (r_addr r)) by (intros i Hi; apply HFG; lia).
  destruct (reloc_value _ _ _ _ _ _) as [[v|]| |]; try by apply HFG. rewrite !reloc_store_eq. case_decide; [done|by apply HFG].
Qed.

Lemma apply_loop_safe rs ras buffer vaddr size f F : reads_as rs ras → 0 ≤ vaddr → (∀ i, 0 ≤ i < size → f (buffer + i) = F (vaddr + i)) →
  safe (apply_loop A elf st buffer vaddr size slide rs f) (λ g,
    (∀ i, 0 ≤ i < size → g (buffer + i) = relocated vaddr size ras F (vaddr + i)) ∧ (∀ x, ¬ (buffer ≤ x < buffer + size) → g x = f x)).
Proof.
  intros Hrs Hv. revert f F. induction Hrs as [|r ra rs ras [Hr Hok] Hrs IH]; intros f F Hfg; [done|]. cbn [apply_loop relocated foldl]. rewrite Hr. cbn [mbind out_bind].
  destruct (reloc_inside vaddr size (r_addr ra)) eqn:Hin; [|by apply IH]. apply reloc_inside_spec in Hin as [H1 H2]; [|done].
  assert (reloc_load f (buffer + (r_addr ra - vaddr)) = reloc_load F (r_addr ra)) as Hload.
  { apply reloc_load_ext. intros i Hi. replace (buffer + (r_addr ra - vaddr) + i) with (buffer + (r_addr ra - vaddr + i)) by lia. rewrite Hfg by lia. f_equal. lia. }
  pose proof (reloc_value_safe ra (reloc_load F (r_addr ra)) Hok) as Hval. unfold relocate_at at 2. rewrite Hload.
  destruct (reloc_value A elf st slide ra (reloc_load F (r_addr ra))) as [v| |]; cbn [mbind out_bind]; [|done|done]. destruct v as [v|]; [|by apply IH].
  eapply safe_weaken; [apply (IH _ (reloc_store F (r_addr ra) v))|].
  - intros i Hi. rewrite !reloc_store_eq. case_decide; case_decide; try lia; [f_equal; lia|by apply Hfg].
  - cbv beta. intros g [Hg Hfr]. split; [done|]. intros x Hx. rewrite Hfr by done. rewrite reloc_store_eq. rewrite decide_False by lia. done.
Qed.

(** ** The image *)

(** The first segment of those loaded that an address is in. *)
Definition seg_has (v : Z) (p : elf_phdr) : bool := (p_vaddr p <=? v) && (v <? p_vaddr p + p_memsz p).
Definition segment_byte (ls : list elf_phdr) (v : Z) : Z :=
  match List.find (seg_has v) ls with
  | Some p => if v <? p_vaddr p + p_filesz p then peek elf (p_offset p + (v - p_vaddr p)) else 0
  | None => 0
  end.

(** All relocations that lie in a segment, in order, whatever the segment. *)
Definition elf_image (ls : list elf_phdr) (ras : list elf64_rela) : Z → Z :=
  foldl (λ F r, if existsb (λ p, reloc_inside (p_vaddr p) (p_memsz p) (r_addr r)) ls then relocate_at F r else F) (segment_byte ls) ras.

(** Segments one after another. *)
Fixpoint laid_out (ls : list elf_phdr) : Prop :=
  match ls with
  | [] => True
  | p :: ls => 0 ≤ p_vaddr p ∧ 0 < p_memsz p ∧ p_vaddr p + p_memsz p < 2 ^ 64 ∧ Forall (λ q, p_vaddr p + p_memsz p ≤ p_vaddr q) ls ∧ laid_out ls
  end.

Lemma laid_out_in ls p : laid_out ls → p ∈ ls → 0 ≤ p_vaddr p ∧ 0 < p_memsz p ∧ p_vaddr p + p_memsz p < 2 ^ 64.
Proof. induction ls as [|q ls IH]; [by intros _ ?%elem_of_nil|]. intros (H1 & H2 & H3 & _ & H4) [->|Hp]%elem_of_cons; [done|by apply IH]. Qed.

Lemma laid_out_apart ls p q : laid_out ls → p ∈ ls → q ∈ ls → p = q ∨ p_vaddr p + p_memsz p ≤ p_vaddr q ∨ p_vaddr q + p_memsz q ≤ p_vaddr p.
Proof.
  induction ls as [|r ls IH]; [by intros _ ?%elem_of_nil|]. intros (_ & _ & _ & Hf & Hl) [->|Hp]%elem_of_cons [->|Hq]%elem_of_cons.
  - by left.
  - right. left. rewrite List.Forall_forall in Hf. by apply Hf, list_elem_of_In.
  - right. right. rewrite List.Forall_forall in Hf. by apply Hf, list_elem_of_In.
  - by apply IH.
Qed.

Lemma seg_has_true v p : seg_has v p = true ↔ p_vaddr p ≤ v < p_vaddr p + p_memsz p.
Proof. unfold seg_has. by rewrite andb_true_iff, Z.leb_le, Z.ltb_lt. Qed.

Lemma segment_byte_in ls p v : laid_out ls → p ∈ ls → p_vaddr p ≤ v < p_vaddr p + p_memsz p →
  segment_byte ls v = if v <? p_vaddr p + p_filesz p then peek elf (p_offset p + (v - p_vaddr p)) else 0.
Proof.
  intros Hl Hp Hv. unfold segment_byte. destruct (List.find (seg_has v) ls) as [q|] eqn:Hf.
  - apply find_some in Hf as [Hq Hqv]. apply list_elem_of_In in Hq. apply seg_has_true in Hqv. destruct (laid_out_apart ls p q Hl Hp Hq) as [->|[?|?]]; [done|lia|lia].
  - apply list_elem_of_In in Hp. pose proof (find_none _ _ Hf p Hp) as Hn. apply seg_has_true in Hv. congruence.
Qed.

(** On one segment the image is what its own relocations make of it. *)
Lemma image_segment ls ras p : laid_out ls → p ∈ ls → ∀ v, p_vaddr p ≤ v < p_vaddr p + p_memsz p →
  elf_image ls ras v = relocated (p_vaddr p) (p_memsz p) ras (segment_byte ls) v.
Proof.
  intros Hl Hp. destruct (laid_out_in ls p Hl Hp) as (Hv0 & _ & _). unfold elf_image, relocated.
  enough (∀ F G, (∀ v, p_vaddr p ≤ v < p_vaddr p + p_memsz p → F v = G v) → ∀ v, p_vaddr p ≤ v < p_vaddr p + p_memsz p →
    foldl (λ F r, if existsb (λ p, reloc_inside (p_vaddr p) (p_memsz p) (r_addr r)) ls then relocate_at F r else F) F ras v =
    foldl (λ F r, if reloc_inside (p_vaddr p) (p_memsz p) (r_addr r) then relocate_at F r else F) G ras v) as H by (intros v Hv; by apply H).
  induction ras as [|r ras IH]; intros F G HFG v Hv; [by apply HFG|]. cbn [foldl]. apply IH; [|done]. clear IH v Hv. intros v Hv.
  destruct (existsb _ ls) eqn:Hex.
  - apply existsb_exists in Hex as (q & Hq & Hin). apply list_elem_of_In in Hq. destruct (laid_out_in ls q Hl Hq) as (Hq0 & _ & _).
    destruct (reloc_inside (p_vaddr p) _ _) eqn:Hp'.
    + apply reloc_inside_spec in Hp' as [??]; [|done]. by apply (relocate_at_agree F G r (p_vaddr p) (p_memsz p)).
    + apply reloc_inside_spec in Hin as [??]; [|done]. destruct (laid_out_apart ls p q Hl Hp Hq) as [Heq|Hap].
      * exfalso. subst q. rewrite reloc_inside_eq in Hp'; [|done|destruct (laid_out_in ls p Hl Hp) as (_ & _ & ?); lia]. by rewrite bool_decide_eq_false in Hp'; apply Hp'.
      * rewrite relocate_at_frame by lia. by apply HFG.
  - assert (reloc_inside (p_vaddr p) (p_memsz p) (r_addr r) = false) as ->; [|by apply HFG]. apply not_true_iff_false. intros Hin. apply not_true_iff_false in Hex. apply Hex, existsb_exists.
    exists p. split; [by apply list_elem_of_In|done].
Qed.

(** Between segments there are zeros. *)
Lemma image_gap ls ras v : laid_out ls → (∀ p, p ∈ ls → ¬ (p_vaddr p ≤ v < p_vaddr p + p_memsz p)) → elf_image ls ras v = 0.
Proof.
  intros Hl Hv. unfold elf_image. assert (segment_byte ls v = 0) as H0.
  { unfold segment_byte. destruct (List.find (seg_has v) ls) as [q|] eqn:Hf; [|done]. apply find_some in Hf as [Hq Hqv]. apply list_elem_of_In in Hq. apply seg_has_true in Hqv. by apply Hv in Hqv. }
  revert H0. generalize (segment_byte ls). induction ras as [|r ras IH]; intros F H0; [done|]. cbn [foldl]. apply IH. destruct (existsb _ ls) eqn:Hex; [|done].
  apply existsb_exists in Hex as (q & Hq & Hin). apply list_elem_of_In in Hq. destruct (laid_out_in ls q Hl Hq) as (Hq0 & _ & _). apply reloc_inside_spec in Hin as [??]; [|done].
  rewrite relocate_at_frame; [done|]. intros ?. apply (Hv q Hq). lia.
Qed.
End apply.
End file.
