(* ===== verification/ElfProofs.v ===== *)
(** Loading a kernel: whatever the file holds, loading it stays inside the file
    and the memory it got, and a kernel that is loaded is the image of its
    file. *)
From S2P Require Import Prelude Libc LibcProofs Outcome Pmm PmmAlloc PmmUse Elsewhere Elf ElfTables ElfReloc ElfImage.
From stdpp Require Import strings.
Open Scope list_scope.
Open Scope Z_scope.

(** ** Passes over the segments *)
Lemma safe_foldl {S} (body : elf_phdr → S → out S) (I : list elf_phdr → S → Prop) ps s : I [] s →
  (∀ front p rest s, ps = front ++ p :: rest → I front s → safe (body p s) (I (front ++ [p]))) → safe (foldl (λ m p, m ≫= body p) (Ret s) ps) (I ps).
Proof.
  intros H0 Hstep. enough (∀ rest front m, ps = front ++ rest → safe m (I front) → safe (foldl (λ m p, m ≫= body p) m rest) (I ps)) as H by by apply (H ps []).
  clear H0. induction rest as [|p rest IH]; intros front m Heq Hm; [by rewrite Heq, app_nil_r|]. cbn [foldl]. apply (IH (front ++ [p])); [by rewrite <- app_assoc|].
  eapply safe_bind; [exact Hm|]. intros t Ht. by apply (Hstep front p rest).
Qed.

Lemma in_middle {A} (front rest ps : list A) p : ps = front ++ p :: rest → p ∈ ps.
Proof. intros ->. apply elem_of_app. right. by left. Qed.

(** The segments that are loaded. *)
Definition segments (ps : list elf_phdr) : list elf_phdr := List.filter loadable ps.

Lemma segments_app ps p : segments (ps ++ [p]) = segments ps ++ (if loadable p then [p] else []).
Proof. unfold segments. rewrite List.filter_app. cbn. by destruct (loadable p). Qed.

Lemma segments_middle front p rest : loadable p = true → segments (front ++ p :: rest) = segments front ++ p :: segments rest.
Proof. intros Hl. unfold segments. rewrite List.filter_app. cbn. by rewrite Hl. Qed.

Lemma segments_in ps p : p ∈ segments ps ↔ p ∈ ps ∧ loadable p = true.
Proof. unfold segments. rewrite !list_elem_of_In. apply List.filter_In. Qed.

Lemma loadable_memsz p w : phdr_ok w p → loadable p = true → 0 < p_memsz p.
Proof. intros [] Hl. unfold loadable in Hl. apply andb_true_iff in Hl as [_ Hl]. apply negb_true_iff, Z.eqb_neq in Hl. lia. Qed.

Lemma laid_out_snoc ls p : laid_out (ls ++ [p]) ↔ laid_out ls ∧ Forall (λ q, p_vaddr q + p_memsz q ≤ p_vaddr p) ls ∧ 0 ≤ p_vaddr p ∧ 0 < p_memsz p ∧ p_vaddr p + p_memsz p < 2 ^ 64.
Proof.
  induction ls as [|q ls IH]; cbn [app laid_out]; [rewrite !Forall_nil; tauto|]. rewrite IH, Forall_app, !Forall_cons, Forall_nil. tauto.
Qed.

Lemma laid_out_middle l1 p l2 : laid_out (l1 ++ p :: l2) → ∀ q, q ∈ l1 → p_vaddr q + p_memsz q ≤ p_vaddr p.
Proof.
  induction l1 as [|o l1 IH]; cbn [app laid_out]; [by intros _ q ?%elem_of_nil|]. rewrite Forall_app, Forall_cons. intros (_ & _ & _ & (_ & Ho & _) & Hl) q [->|Hq]%elem_of_cons; [done|by apply IH].
Qed.

(** ** Powers of two *)
Lemma power_of_two_spec a : 0 < a < 2 ^ 64 → power_of_two a = true → a = 2 ^ Z.log2 a.
Proof.
  unfold power_of_two. intros Ha Hp%Z.eqb_eq. rewrite u64_id in Hp by lia. pose proof (Z.log2_spec a ltac:(lia)) as [H1 H2]. destruct (decide (a = 2 ^ Z.log2 a)); [done|exfalso].
  assert (Z.testbit (Z.land a (a - 1)) (Z.log2 a) = true) as Hb; [|by rewrite Hp, Z.bits_0 in Hb]. pose proof (Z.log2_nonneg a). rewrite Z.land_spec, Z.bit_log2 by lia. cbn [andb].
  assert (Z.log2 (a - 1) = Z.log2 a) as <-; [|apply Z.bit_log2; lia]. apply Z.log2_unique; lia.
Qed.

Lemma power_of_two_le a : 0 < a < 2 ^ 64 → power_of_two a = true → a ≤ 2 ^ 63.
Proof. intros Ha Hp. rewrite (power_of_two_spec a Ha Hp). apply Z.pow_le_mono_r; [lia|]. assert (Z.log2 a < 64); [apply Z.log2_lt_pow2; lia|lia]. Qed.

Lemma power_of_two_mod a b x : 0 < a → a ≤ b → b < 2 ^ 64 → power_of_two a = true → power_of_two b = true → x mod b = 0 → x mod a = 0.
Proof.
  intros Ha Hab Hb Hpa Hpb. rewrite (power_of_two_spec a), (power_of_two_spec b) by (done || lia). intros Hx.
  pose proof (Z.log2_le_mono a b Hab). pose proof (Z.log2_nonneg a). apply (mod_of_multiple x (2 ^ Z.log2 a) (2 ^ (Z.log2 b - Z.log2 a))); [lia|lia|].
  rewrite <- Z.pow_add_r by lia. by replace (Z.log2 a + (Z.log2 b - Z.log2 a)) with (Z.log2 b) by lia.
Qed.

(** ** Pages *)
Definition page_down (x : Z) : Z := x / 4096 * 4096.
Definition page_up (x : Z) : Z := (x + 4095) / 4096 * 4096.

Lemma page_bounds x : page_down x ≤ x < page_down x + 4096 ∧ x ≤ page_up x < x + 4096.
Proof. unfold page_down, page_up. pose proof (Z.div_mod x 4096 ltac:(lia)). pose proof (Z.mod_pos_bound x 4096). pose proof (Z.div_mod (x + 4095) 4096 ltac:(lia)). pose proof (Z.mod_pos_bound (x + 4095) 4096). lia. Qed.

Lemma page_down_mod x : page_down x mod 4096 = 0.
Proof. unfold page_down. by apply Z.mod_mul. Qed.
Lemma page_up_mod x : page_up x mod 4096 = 0.
Proof. unfold page_up. by apply Z.mod_mul. Qed.

Lemma page_down_mono x y : x ≤ y → page_down x ≤ page_down y.
Proof. unfold page_down. intros H. assert (x / 4096 ≤ y / 4096) by (apply Z.div_le_mono; lia). lia. Qed.
Lemma page_up_mono x y : x ≤ y → page_up x ≤ page_up y.
Proof. unfold page_up. intros H. assert ((x + 4095) / 4096 ≤ (y + 4095) / 4096) by (apply Z.div_le_mono; lia). lia. Qed.

Lemma align_down64_page x : 0 ≤ x < 2 ^ 64 → align_down64 x 4096 = page_down x.
Proof. intros Hx. unfold align_down64. pose proof (page_bounds x) as [? _]. unfold page_down in *. pose proof (Z.div_pos x 4096). apply u64_id. lia. Qed.

Lemma align_up64_page x r : 0 ≤ x → align_up64 x 4096 = Some r → r = page_up x ∧ r < 2 ^ 64.
Proof.
  intros Hx. unfold align_up64, div_roundup64. change (u64 (4096 - 1)) with 4095. destruct (add64 x 4095) as [y|] eqn:Hy; cbn [mbind option_bind]; [|done]. apply add64_Some in Hy as [-> Hy].
  intros [= <-]. fold (page_up x). pose proof (page_bounds x). pose proof (Z.div_pos (x + 4095) 4096). assert (page_up x ≤ x + 4095) by (unfold page_up; pose proof (Z.div_mod (x + 4095) 4096 ltac:(lia)); pose proof (Z.mod_pos_bound (x + 4095) 4096); lia).
  assert (0 ≤ page_up x) by lia. rewrite u64_id; lia.
Qed.

(** Segments of one page have the same permissions. *)
Definition same_page (p q : elf_phdr) : Prop := page_down (p_vaddr q) < page_up (p_vaddr p + p_memsz p).
Fixpoint page_flags (ls : list elf_phdr) : Prop :=
  match ls with [] => True | p :: ls => Forall (λ q, same_page p q → Z.land (p_flags p) 7 = Z.land (p_flags q) 7) ls ∧ page_flags ls end.

Lemma page_flags_snoc ls q : page_flags (ls ++ [q]) ↔ page_flags ls ∧ Forall (λ p, same_page p q → Z.land (p_flags p) 7 = Z.land (p_flags q) 7) ls.
Proof. induction ls as [|p ls IH]; cbn [app page_flags]; [rewrite !Forall_nil; tauto|]. rewrite IH, Forall_app, !Forall_cons, Forall_nil. tauto. Qed.

(** It is enough to compare a segment with the one before. *)
Lemma page_flags_next ls p q : laid_out (ls ++ [p]) → page_flags (ls ++ [p]) → p_vaddr p + p_memsz p ≤ p_vaddr q → 0 < p_memsz p →
  (same_page p q → Z.land (p_flags p) 7 = Z.land (p_flags q) 7) → page_flags ((ls ++ [p]) ++ [q]).
Proof.
  intros Hl Hf Hpq Hm Heq. apply page_flags_snoc. split; [done|]. apply laid_out_snoc in Hl as (_ & Hl & _). apply page_flags_snoc in Hf as [_ Hf]. apply Forall_app. split; [|by apply Forall_singleton].
  rewrite List.Forall_forall in Hl, Hf |- *. intros o Ho Hs. specialize (Hl o Ho). specialize (Hf o Ho). cbv beta in Hl, Hf. unfold same_page in *.
  pose proof (page_down_mono (p_vaddr p) (p_vaddr q) ltac:(lia)). pose proof (page_up_mono (p_vaddr o + p_memsz o) (p_vaddr p + p_memsz p) ltac:(lia)). rewrite Hf by lia. apply Heq. lia.
Qed.

Section file.
Context (elf : list Z) (Hbytes : is_bytes elf) (Hlen : 64 ≤ len elf < 2 ^ 31).

Section headers.
Context (h : elf_hdr) (Hh : hdr_ok h) (ps : list elf_phdr) (Hps : table (phdr64 elf h) (ph_num h) ps) (Hok : Forall (phdr_ok 64) ps) (Hsize : 56 ≤ phdr_size h).

Lemma phdr_in p : p ∈ ps → phdr_ok 64 p.
Proof. intros Hp. rewrite List.Forall_forall in Hok. by apply Hok, list_elem_of_In. Qed.

(** The alignment is a power of two, a page or more, and that of every
    segment or more. *)
Record align_ok (a : Z) : Prop := {
  al_range : 4096 ≤ a ≤ 2 ^ 63;
  al_power : power_of_two a = true;
  al_max p : p ∈ segments ps → p_align p ≤ a ∧ (1 < p_align p → power_of_two (p_align p) = true);
}.

Lemma max_align_safe : safe (elf64_max_align elf h) (λ a, align_ok a ∧ segments ps ≠ []).
Proof.
  unfold elf64_max_align. rewrite (check_phdr_size_ok h Hsize). cbn [mbind out_bind]. rewrite (table_for_phdrs _ _ _ _ _ Hps).
  eapply (safe_bind _ _ (λ '(a, k), (a = 0 ∨ a = 1 ∨ 1 < a < 2 ^ 64 ∧ power_of_two a = true) ∧ 0 ≤ k ∧ (k = 0 → segments ps = []) ∧ (0 < k → segments ps ≠ []) ∧
    ∀ p, p ∈ segments ps → p_align p ≤ a ∧ (1 < p_align p → power_of_two (p_align p) = true))).
  - apply (safe_foldl _ (λ front '(a, k), (a = 0 ∨ a = 1 ∨ 1 < a < 2 ^ 64 ∧ power_of_two a = true) ∧ 0 ≤ k ∧ (k = 0 → segments front = []) ∧ (0 < k → segments front ≠ []) ∧
      ∀ p, p ∈ segments front → p_align p ≤ a ∧ (1 < p_align p → power_of_two (p_align p) = true))).
    + split_and!; [by left|lia|done|lia|]. intros p Hp. by apply elem_of_nil in Hp.
    + intros front p rest [a k] Hp%in_middle (H1 & H2 & H3 & H4 & H5). rewrite segments_app. destruct (loadable p) eqn:Hl; cbn [negb].
      2: { cbn. rewrite app_nil_r. by split_and!. }
      pose proof (phdr_in p Hp) as [? ? ? ? ? ? ? ?]. destruct (Z.ltb_spec 1 (p_align p)) as [H1a|H1a]; cbn [andb].
      * destruct (power_of_two (p_align p)) eqn:Hpow; cbn [negb safe]; [|done]. split_and!; [|lia|lia|by destruct (segments front)|].
        -- destruct (Z.ltb_spec a (p_align p)); [right; right; split; [lia|done]|done].
        -- intros q [Hq|Hq]%elem_of_app; [destruct (H5 q Hq); split; [destruct (Z.ltb_spec a (p_align p)); lia|done]|]. apply list_elem_of_singleton in Hq as ->. split; [destruct (Z.ltb_spec a (p_align p)); lia|done].
      * cbn [safe]. split_and!; [|lia|lia|by destruct (segments front)|].
        -- destruct (Z.ltb_spec a (p_align p)); [right; left; lia|done].
        -- intros q [Hq|Hq]%elem_of_app; [destruct (H5 q Hq); split; [destruct (Z.ltb_spec a (p_align p)); lia|done]|]. apply list_elem_of_singleton in Hq as ->. split; [destruct (Z.ltb_spec a (p_align p)); lia|lia].
  - intros [a k] (H1 & H2 & H3 & H4 & H5). destruct (Z.eqb_spec k 0); [done|]. cbn [safe]. split; [|apply H4; lia]. destruct (Z.ltb_spec a 4096).
    + split; [lia|by vm_compute|]. intros p Hp. destruct (H5 p Hp). split; [lia|done].
    + destruct H1 as [->|[->|[H1 Hpow]]]; [lia|lia|]. split; [split; [lia|by apply power_of_two_le; [lia|]]|done|done].
Qed.

(** ** The first pass *)
Record layout_ok (is_reloc want : bool) (ls : list elf_phdr) (l : layout) : Prop := {
  ly_laid : laid_out ls;
  ly_top : 0 ≤ prev_top l < 2 ^ 64;
  ly_max : max_vaddr l = prev_top l;
  ly_inside p : p ∈ ls → min_vaddr l ≤ p_vaddr p ∧ p_vaddr p + p_memsz p ≤ max_vaddr l;
  ly_none : ls = [] → min_vaddr l = SIZE_MAX ∧ max_vaddr l = 0;
  ly_first : ls ≠ [] → ∃ p, p ∈ ls ∧ min_vaddr l = p_vaddr p;
  ly_last : ls ≠ [] → ∃ p, p ∈ ls ∧ max_vaddr l = p_vaddr p + p_memsz p;
  ly_lower : lower_to_higher l = true → is_reloc = true ∧ Forall (λ p, p_vaddr p < FIXED_HIGHER_HALF_OFFSET_64) ls;
  ly_higher : higher_half l = true → ls ≠ [];
  ly_upper : lower_to_higher l = false → Forall (λ p, FIXED_HIGHER_HALF_OFFSET_64 ≤ p_vaddr p) ls;
  ly_not_both : lower_to_higher l = true → higher_half l = false;
  ly_seen : ls ≠ [] → lower_to_higher l = true ∨ higher_half l = true;
  ly_prev : ls = [] ∨ ∃ front q, ls = front ++ [q] ∧ prev_top l = p_vaddr q + p_memsz q ∧ prev_rounded_top l = page_up (prev_top l) ∧ prev_flags l = Z.land (p_flags q) 7;
  ly_pages : want = true → page_flags ls;
}.

Lemma layout_step_safe is_reloc want p front l : p ∈ ps → layout_ok is_reloc want (segments front) l →
  safe (layout_step is_reloc want p l) (layout_ok is_reloc want (segments (front ++ [p]))).
Proof.
  intros Hp Hl. rewrite segments_app. unfold layout_step. destruct (loadable p) eqn:Hload; cbn [negb]; [|cbn; by rewrite app_nil_r].
  pose proof (phdr_in p Hp) as Hpo. pose proof (loadable_memsz p 64 Hpo Hload) as Hm. destruct Hpo. set (ls := segments front) in *. destruct Hl as [H1 H2 H3 H4 H5 H6 H7 H8 H9 H10 H11 H12 H13 H14].
  apply (safe_bind _ _ (λ '(lower, higher), (lower = true ∧ higher = higher_half l ∧ is_reloc = true ∧ higher_half l = false ∧ p_vaddr p < FIXED_HIGHER_HALF_OFFSET_64) ∨
    (lower = false ∧ lower_to_higher l = false ∧ higher = true ∧ FIXED_HIGHER_HALF_OFFSET_64 ≤ p_vaddr p))).
  { destruct (Z.ltb_spec (p_vaddr p) FIXED_HIGHER_HALF_OFFSET_64).
    - destruct is_reloc; cbn [negb]; [|done]. destruct (higher_half l) eqn:Hhh; [done|]. cbn. left. by split_and!.
    - destruct (lower_to_higher l); [done|]. by right. }
  intros [lower higher] Hcase. destruct (add64 _ _) as [e|] eqn:He; [apply add64_Some in He as [-> He]|done]. destruct (Z.ltb_spec (p_vaddr p) (prev_top l)); [done|].
  destruct (want && _ && _) eqn:Hpages; [done|]. destruct (align_up64 _ 4096) as [rounded|] eqn:Hup; [|done]. apply align_up64_page in Hup as [-> _]; [|lia]. cbn [safe].
  rewrite align_down64_page in Hpages by lia.
  assert (∀ q, q ∈ ls → p_vaddr q + p_memsz q ≤ p_vaddr p) as Hbelow by (intros q Hq; destruct (H4 q Hq); lia).
  assert (ls = [] ∨ min_vaddr l ≤ p_vaddr p) as Hmin. { destruct ls as [|q ls']; [by left|right]. destruct (H4 q ltac:(by left)) as [? _]. specialize (Hbelow q ltac:(by left)). destruct (laid_out_in (q :: ls') q H1 ltac:(by left)). lia. }
  assert ((if max_vaddr l <? p_vaddr p + p_memsz p then p_vaddr p + p_memsz p else max_vaddr l) = p_vaddr p + p_memsz p) as Hmax by (rewrite (proj2 (Z.ltb_lt _ _)) by lia; done).
  split; cbn [prev_top max_vaddr min_vaddr lower_to_higher higher_half]; rewrite ?Hmax.
  - apply laid_out_snoc. split_and!; try lia; [done|]. apply List.Forall_forall. intros q Hq. by apply Hbelow, list_elem_of_In.
  - lia.
  - done.
  - intros q [Hq|Hq]%elem_of_app; [|apply list_elem_of_singleton in Hq as ->; destruct (Z.ltb_spec (p_vaddr p) (min_vaddr l)); lia]. destruct (H4 q Hq). specialize (Hbelow q Hq).
    destruct (Z.ltb_spec (p_vaddr p) (min_vaddr l)); [|lia]. destruct Hmin as [->|]; [by apply elem_of_nil in Hq|lia].
  - by destruct ls.
  - intros _. destruct (Z.ltb_spec (p_vaddr p) (min_vaddr l)); [exists p; split; [apply elem_of_app; right; by apply list_elem_of_singleton|done]|].
    destruct (decide (ls = [])) as [Hn|Hn].
    + destruct (H5 Hn) as [Hm' _]. exists p. split; [apply elem_of_app; right; by apply list_elem_of_singleton|]. unfold SIZE_MAX in *. lia.
    + destruct (H6 Hn) as (q & Hq & Hqm). exists q. split; [apply elem_of_app; by left|done].
  - intros _. exists p. split; [apply elem_of_app; right; by apply list_elem_of_singleton|done].
  - intros ->. destruct Hcase as [(_ & _ & Hr & Hhh & Hlow)|(? & _)]; [|done]. split; [done|]. apply Forall_app. split; [|by apply Forall_singleton].
    destruct (decide (ls = [])) as [->|Hn]; [done|]. destruct (H12 Hn) as [Hlo|?]; [by apply H8|congruence].
  - by destruct ls.
  - intros ->. destruct Hcase as [(? & _)|(_ & Hlo & _ & Hup)]; [done|]. apply Forall_app. split; [by apply H10|by apply Forall_singleton].
  - intros ->. destruct Hcase as [(_ & -> & _ & Hhh & _)|(? & _)]; done.
  - intros _. destruct Hcase as [(-> & _)|(_ & _ & -> & _)]; [by left|by right].
  - right. by exists ls, p.
  - intros ->. specialize (H14 eq_refl). destruct H13 as [->|(front' & q & Heq & Hq1 & Hq2 & Hq3)]; [by split|]. rewrite Heq in *. apply page_flags_next; [done|done|lia| |].
    + destruct (laid_out_in _ q H1 ltac:(apply elem_of_app; right; by apply list_elem_of_singleton)). lia.
    + unfold same_page. intros Hs. rewrite <- Hq1, <- Hq2 in Hs. cbn [andb] in Hpages. rewrite (proj2 (Z.ltb_lt _ _) Hs) in Hpages. cbn [andb] in Hpages. apply negb_false_iff, Z.eqb_eq in Hpages. congruence.
Qed.

Lemma layout_safe is_reloc want : safe (elf_layout elf h is_reloc want) (layout_ok is_reloc want (segments ps)).
Proof.
  unfold elf_layout. rewrite (table_for_phdrs _ _ _ _ _ Hps). apply (safe_foldl _ (λ front, layout_ok is_reloc want (segments front))).
  - split; cbn; try done; try lia; [intros ? ?%elem_of_nil; done|by left].
  - intros front p rest l Hp%in_middle Hl. by apply layout_step_safe.
Qed.

(** ** The second pass *)
Section place.
Context (A : elf_arch) (st : elf64_reloc_state) (Hst : state_ok elf st) (ras : list elf64_rela) (Hras : reads_as elf (relocs st) ras) (slide : Z)
  (phys base max size : Z) (Hphys : 0 ≤ phys) (Htop : phys + size ≤ LIMIT_4G) (Hmax : max = base + size) (Hbase : 0 ≤ base)
  (Hlaid : laid_out (segments ps)) (Hin : ∀ p, p ∈ segments ps → base ≤ p_vaddr p ∧ p_vaddr p + p_memsz p ≤ max).
Notation ls := (segments ps).
Notation image := (elf_image elf A st slide ls ras).

(** After the segments in front: they hold their part of the image, and the
    rest is as it was. *)
Record placed_segments (s0 : pmm_state) (front : list elf_phdr) (x : Z * pmm_state) : Prop := {
  pl_state : ∃ f, x.2 = set_mem s0 f;
  pl_image p v : p ∈ segments front → p_vaddr p ≤ v < p_vaddr p + p_memsz p → mem x.2 (phys + (v - base)) = image v;
  pl_rest y : (∀ p, p ∈ segments front → ¬ (p_vaddr p ≤ base + (y - phys) < p_vaddr p + p_memsz p)) → mem x.2 y = mem s0 y;
  pl_sizes p : p ∈ segments front → p_filesz p ≤ p_memsz p ∧ p_offset p + p_filesz p ≤ len elf;
  pl_bss : (∀ p, p ∈ segments front → p_vaddr p + p_memsz p ≠ max) ∧ x.1 = 0 ∨ ∃ p, p ∈ segments front ∧ p_vaddr p + p_memsz p = max ∧ x.1 = p_memsz p - p_filesz p;
}.

Lemma peek_slice src n i : 0 ≤ src → 0 ≤ i < n → src + n ≤ len elf → peek (take (Z.to_nat n) (drop (Z.to_nat src) elf)) i = peek elf (src + i).
Proof.
  intros Hs Hi Hl. unfold peek, arr_get. rewrite !decide_True by lia. rewrite lookup_take_lt by lia. rewrite lookup_drop. do 2 f_equal. lia.
Qed.

Lemma write_bytes_eq f a bs x : write_bytes f a bs x = if decide (a ≤ x < a + len bs) then peek bs (x - a) else f x.
Proof. unfold write_bytes. destruct (Z.leb_spec a x), (Z.ltb_spec x (a + len bs)); cbn [andb]; case_decide; (done || lia). Qed.

Lemma load_segment_safe s0 front p rest x : (∀ y, phys ≤ y < phys + size → mem s0 y = 0) → ps = front ++ p :: rest →
  placed_segments s0 front x → safe (load_segment A elf st phys base max slide p x) (placed_segments s0 (front ++ [p])).
Proof.
  intros Hzero Heq [(f & Hs) Himg Hrest Hsz Hbss]. destruct x as [bss s]. cbn [fst snd] in *. unfold load_segment. destruct (loadable p) eqn:Hload; cbn [negb].
  2: { cbn [safe]. split; rewrite ?segments_app, ?Hload, ?app_nil_r; cbn [fst snd]; try done. by exists f. }
  pose proof (in_middle _ _ _ _ Heq) as Hp. pose proof (phdr_in p Hp) as Hpo. pose proof (loadable_memsz p 64 Hpo Hload) as Hm. destruct Hpo. assert (p ∈ ls) as Hpl by (by apply segments_in).
  destruct (Hin p Hpl) as [Hb1 Hb2]. destruct (laid_out_in _ p Hlaid Hpl) as (_ & _ & Hvt). unfold LIMIT_4G in *.
  destruct (Z.ltb_spec (p_memsz p) (p_filesz p)) as [|Hfm]; [done|]. destruct (add64 (p_offset p) _) as [oe|] eqn:Hoe; [apply add64_Some in Hoe as [-> Hoe]|done].
  destruct (Z.ltb_spec (len elf) (p_offset p + p_filesz p)) as [|Hfile]; [done|]. rewrite (u64_id (p_vaddr p - base)), (u64_id (phys + (p_vaddr p - base))) by lia. rewrite add64_lt by lia.
  unfold copy_in. rewrite slice_lt by lia. cbn [lift mbind out_bind]. set (bs := take (Z.to_nat (p_filesz p)) (drop (Z.to_nat (p_offset p)) elf)). set (a := phys + (p_vaddr p - base)).
  assert (len bs = p_filesz p) as Hbs by (unfold bs, len in *; rewrite length_take, length_drop; lia).
  assert (∀ q, q ∈ segments front → p_vaddr q + p_memsz q ≤ p_vaddr p) as Hapart. { apply (laid_out_middle _ p (segments rest)). rewrite <- segments_middle by done. by rewrite <- Heq. }
  unfold elf64_apply_relocations. cbn [mem set_mem]. rewrite (u64_id (p_vaddr p + p_memsz p)) by lia.
  eapply safe_bind; [apply (safe_bind _ _ (λ g, (∀ i, 0 ≤ i < p_memsz p → g (a + i) = image (p_vaddr p + i)) ∧ ∀ y, ¬ (a ≤ y < a + p_memsz p) → g y = mem s y)
    (λ s', (∃ f, s' = set_mem s0 f) ∧ (∀ i, 0 ≤ i < p_memsz p → mem s' (a + i) = image (p_vaddr p + i)) ∧ ∀ y, ¬ (a ≤ y < a + p_memsz p) → mem s' y = mem s y))|].
  - eapply safe_weaken; [apply (apply_loop_safe elf Hbytes Hlen A st Hst slide (relocs st) ras a (p_vaddr p) (p_memsz p) _ (segment_byte elf ls) Hras); [lia|]|].
    + intros i Hi. rewrite (segment_byte_in elf ls p) by (done || lia). rewrite write_bytes_eq, Hbs. destruct (Z.ltb_spec (p_vaddr p + i) (p_vaddr p + p_filesz p)).
      * rewrite decide_True by lia. replace (a + i - a) with i by lia. unfold bs. rewrite peek_slice by lia. f_equal. lia.
      * rewrite decide_False by lia. rewrite Hrest; [apply Hzero; lia|]. intros q Hq Hv. specialize (Hapart q Hq). lia.
    + cbv beta. intros g [Hg Hfr]. split.
      * intros i Hi. rewrite Hg by done. symmetry. by apply image_segment; [..|lia].
      * intros y Hy. rewrite Hfr by done. rewrite write_bytes_eq, Hbs. by rewrite decide_False by lia.
  - cbv beta. intros g [Hg Hfr]. cbn [safe set_mem mem]. split_and!; [exists g; by rewrite Hs|done|done].
  - cbv beta. intros s' (Hst' & Hg & Hfr). cbn [safe]. split; cbn [fst snd]; [done|..]; rewrite ?segments_app, ?Hload.
    + intros q v [Hq|Hq]%elem_of_app Hv.
      * specialize (Hapart q Hq). rewrite Hfr by lia. by apply (Himg q).
      * apply list_elem_of_singleton in Hq as ->. replace (phys + (v - base)) with (a + (v - p_vaddr p)) by lia. rewrite Hg by lia. f_equal. lia.
    + intros y Hy. rewrite Hfr; [apply Hrest; intros q Hq; apply Hy, elem_of_app; by left|]. intros Hya. apply (Hy p); [apply elem_of_app; right; by apply list_elem_of_singleton|lia].
    + intros q [Hq|Hq]%elem_of_app; [by apply Hsz|]. by apply list_elem_of_singleton in Hq as ->.
    + destruct (Z.eqb_spec (p_vaddr p + p_memsz p) max) as [Hpm|Hpm].
      * right. exists p. split_and!; [apply elem_of_app; right; by apply list_elem_of_singleton|done|done].
      * destruct Hbss as [[Hn Hz]|(q & Hq & Hqm & Hqb)]; [left; split; [|done]|right; exists q; split_and!; [apply elem_of_app; by left|done|done]].
        intros q [Hq|Hq]%elem_of_app; [by apply Hn|]. by apply list_elem_of_singleton in Hq as ->.
Qed.

Lemma load_segments_safe s0 : (∀ y, phys ≤ y < phys + size → mem s0 y = 0) →
  safe (for_phdrs (phdr64 elf h) (load_segment A elf st phys base max slide) (Z.to_nat (ph_num h)) 0 (0, s0)) (placed_segments s0 ps).
Proof.
  intros Hzero. rewrite (table_for_phdrs _ _ _ _ _ Hps). apply (safe_foldl _ (placed_segments s0)).
  - split; cbn [fst snd]; [by exists (mem s0); destruct s0|by intros ? ? ?%elem_of_nil|done|by intros ? ?%elem_of_nil|]. left. split; [by intros ? ?%elem_of_nil|done].
  - intros front p rest x Heq Hx. by apply (load_segment_safe s0 front p rest).
Qed.

(** All of the block holds the image, zeros between segments included. *)
Lemma placed_image s0 x v : (∀ y, phys ≤ y < phys + size → mem s0 y = 0) → placed_segments s0 ps x → base ≤ v < max → mem x.2 (phys + (v - base)) = image v.
Proof.
  intros Hzero [_ Himg Hrest _ _] Hv. destruct (existsb (seg_has v) ls) eqn:Hex.
  - apply existsb_exists in Hex as (p & Hp & Hpv). apply list_elem_of_In in Hp. apply seg_has_true in Hpv. by apply (Himg p).
  - assert (∀ p, p ∈ ls → ¬ (p_vaddr p ≤ v < p_vaddr p + p_memsz p)) as Hgap.
    { intros p Hp Hpv. apply seg_has_true in Hpv. apply not_true_iff_false in Hex. apply Hex, existsb_exists. exists p. split; [by apply list_elem_of_In|done]. }
    rewrite image_gap by done. rewrite Hrest; [apply Hzero; lia|]. intros p Hp. replace (base + (phys + (v - base) - phys)) with v by lia. by apply Hgap.
Qed.
End place.

(** ** The ranges *)
Definition range_covers (slide : Z) (p : elf_phdr) (r : mem_range) : Prop :=
  let a := u64 (p_vaddr p + slide) in
  r_base r mod 4096 = 0 ∧ r_len r mod 4096 = 0 ∧ r_base r ≤ a ∧ a + p_memsz p ≤ r_base r + r_len r ∧
  a < r_base r + 4096 ∧ r_base r + r_len r < a + p_memsz p + 4096 ∧ permissions r = phdr_permissions p.

Lemma range_of_safe slide p : p ∈ ps → safe (range_of slide p) (range_covers slide p).
Proof.
  intros Hp. pose proof (phdr_in p Hp) as []. unfold range_of, range_covers. pose proof (wrap_word 64 (p_vaddr p + slide) ltac:(lia)) as Hw. unfold is_word in Hw. set (a := u64 (p_vaddr p + slide)) in *.
  destruct (add64 a (p_memsz p)) as [top|] eqn:Ht; [apply add64_Some in Ht as [-> Ht]|done]. destruct (align_up64 _ 4096) as [r|] eqn:Hr; [|done]. apply align_up64_page in Hr as [-> Hr]; [|lia].
  rewrite align_down64_page by lia. cbn [safe r_base r_len permissions]. pose proof (page_bounds a). pose proof (page_bounds (a + p_memsz p)). rewrite u64_id.
  - split_and!; try lia; [apply page_down_mod|]. pose proof (page_down_mod a). pose proof (page_up_mod (a + p_memsz p)). rewrite Zminus_mod. by replace (page_up (a + p_memsz p) mod 4096) with 0; replace (page_down a mod 4096) with 0.
  - unfold page_down in *. pose proof (Z.div_pos a 4096). lia.
Qed.

Lemma get_ranges_safe (is_reloc : bool) slide s : phoff h mod 8 = 0 → phdr_size h mod 8 = 0 → phoff h + ph_num h * phdr_size h ≤ len elf →
  is_reloc = (h_type h =? ET_DYN) → pmm_ok s → len (memmap s) + 5 < memmap_max_entries → allocations_disallowed s = false →
  (is_reloc = false → Forall (λ p, FIXED_HIGHER_HALF_OFFSET_64 ≤ p_vaddr p) (segments ps)) →
  safe (elf64_get_ranges elf h slide s) (λ '(rs, s'), grows s s' 4 ∧ Forall2 (range_covers slide) (segments ps) rs).
Proof.
  intros Hpo Hpm Htab Hrel Hpmm Hroom Hd Hup. unfold elf64_get_ranges. rewrite (check_phdr_size_ok h Hsize). cbn [mbind out_bind].
  eapply safe_bind; [by apply is_relocatable_safe|]. cbv beta. intros ? ->. rewrite <- Hrel.
  assert (∀ p, p ∈ ps → ranged is_reloc p = loadable p) as Hranged.
  { intros p Hp. unfold ranged. destruct (loadable p) eqn:Hl; [|done]. cbn [andb]. destruct is_reloc; cbn [negb]; [by rewrite andb_false_r|]. rewrite andb_true_r. specialize (Hup eq_refl).
    rewrite List.Forall_forall in Hup. specialize (Hup p ltac:(apply list_elem_of_In; by apply segments_in)). cbv beta in Hup. by rewrite (proj2 (Z.ltb_ge _ _)). }
  apply (safe_bind _ _ (λ n, n = len (segments ps))).
  { rewrite (table_for_phdrs _ _ _ _ _ Hps). apply (safe_foldl _ (λ front n, n = len (segments front))); [done|]. intros front p rest n Hp%in_middle ->. cbn [safe].
    rewrite segments_app, len_app, Hranged by done. destruct (loadable p); [rewrite len_cons, len_nil|rewrite len_nil]; lia. }
  intros n ->. destruct (_ =? 0); [done|]. eapply safe_bind; [apply (alloc_counted_safe s (len (segments ps)) 24 Hpmm); [done|done|apply len_nonneg|lia]|]. intros [b s'] (Hg & _ & _).
  apply (safe_bind _ _ (λ rs, Forall2 (range_covers slide) (segments ps) rs)); [|intros rs Hrs; by split]. rewrite (table_for_phdrs _ _ _ _ _ Hps).
  apply (safe_foldl _ (λ front rs, Forall2 (range_covers slide) (segments front) rs)); [constructor|]. intros front p rest rs Heq Hrs. pose proof (in_middle _ _ _ _ Heq) as Hp. rewrite Hranged, segments_app by done.
  destruct (loadable p) eqn:Hl; [|cbn; by rewrite app_nil_r]. eapply safe_bind; [by apply range_of_safe|]. intros r Hr.
  assert (len rs < len (segments ps)) as Hlt. { rewrite Heq, segments_middle, len_app, len_cons by done. apply Forall2_length in Hrs. pose proof (len_nonneg (segments rest)). unfold len in *. lia. }
  rewrite (proj2 (Z.leb_gt _ _) Hlt). cbn [safe]. apply Forall2_app; [done|]. constructor; [exact Hr|constructor].
Qed.

(** ** The slide *)
Lemma mask_multiple x a : 0 ≤ x < 2 ^ 32 → 4096 ≤ a ≤ 2 ^ 63 → power_of_two a = true →
  0 ≤ Z.land x (u64 (Z.lnot (a - 1))) < 2 ^ 32 ∧ Z.land x (u64 (Z.lnot (a - 1))) mod a = 0.
Proof.
  intros Hx Ha Hp. assert (u64 (Z.lnot (a - 1)) = 2 ^ 64 - a) as ->. { unfold wrap, Z.lnot. symmetry. apply Z.mod_unique with (q := -1); lia. }
  pose proof (power_of_two_spec a ltac:(lia) Hp) as Hj. pose proof (Z.log2_nonneg a). assert (Z.log2 a < 64) by (apply Z.log2_lt_pow2; lia). set (j := Z.log2 a) in *. clearbody j. subst a. split.
  - assert (0 ≤ Z.land x (2 ^ 64 - 2 ^ j)) by (apply Z.land_nonneg; lia). split; [done|]. destruct (decide (Z.land x (2 ^ 64 - 2 ^ j) = 0)) as [->|Hnz]; [lia|].
    apply Z.log2_lt_pow2; [lia|]. pose proof (Z.log2_land x (2 ^ 64 - 2 ^ j) ltac:(lia) ltac:(lia)). destruct (decide (x = 0)) as [->|]; [by rewrite Z.land_0_l in Hnz|].
    assert (Z.log2 x < 32) by (apply Z.log2_lt_pow2; lia). lia.
  - rewrite <- Z.land_ones by done. rewrite <- Z.land_assoc, Z.land_ones by done. rewrite Zminus_mod, Z.mod_same by lia.
    assert (2 ^ 64 mod 2 ^ j = 0) as ->; [|by rewrite Z.mod_0_l, Z.land_0_r by lia]. apply Z.mod_divide; [lia|]. exists (2 ^ (64 - j)). rewrite <- Z.pow_add_r by lia. f_equal. lia.
Qed.

Lemma random_slide_safe n rnd k a lower base size : (∀ k, 0 ≤ rnd k < 2 ^ 32) → 4096 ≤ a ≤ 2 ^ 63 → power_of_two a = true → 0 ≤ base < 2 ^ 64 → 0 ≤ size ≤ LIMIT_4G →
  (lower = 0 ∧ FIXED_HIGHER_HALF_OFFSET_64 ≤ base ∨ lower = FIXED_HIGHER_HALF_OFFSET_64 - base ∧ base < FIXED_HIGHER_HALF_OFFSET_64) →
  safe (random_slide n rnd k a lower base size) (λ slide, (∃ r, slide = u64 (r + lower) ∧ 0 ≤ r < 2 ^ 32 ∧ r mod a = 0) ∧
    FIXED_HIGHER_HALF_OFFSET_64 ≤ u64 (base + slide) ∧ u64 (base + slide) + size < 2 ^ 64).
Proof.
  intros Hr Ha Hp Hb Hs Hlow. revert k. induction n as [|n IH]; intros k; cbn [random_slide]; [done|]. destruct (Z.ltb_spec (u64 (base + u64 (Z.land (rnd k) (u64 (Z.lnot (a - 1))) + lower) + size)) FIXED_HIGHER_HALF_OFFSET_64) as [|Hge]; [apply IH|].
  cbn [safe]. set (r := Z.land (rnd k) (u64 (Z.lnot (a - 1)))) in *. assert (0 ≤ r < 2 ^ 32 ∧ r mod a = 0) as [Hr0 Hra].
  { unfold r. by apply mask_multiple. }
  split; [by exists r|]. set (y := u64 (base + u64 (r + lower))). assert (u64 (base + u64 (r + lower) + size) = u64 (y + size)) as Hy by (unfold y, wrap; by rewrite Zplus_mod_idemp_l).
  assert (y = u64 (r + (base + lower))) as Hy2. { unfold y, wrap. rewrite Zplus_mod_idemp_r. f_equal. lia. }
  rewrite Hy in Hge. pose proof (wrap_word 64 (base + u64 (r + lower)) ltac:(lia)) as Hyw. fold y in Hyw. unfold is_word, LIMIT_4G, FIXED_HIGHER_HALF_OFFSET_64 in *.
  assert (y + size < 2 ^ 64) as Hlt. { destruct (Z.lt_ge_cases (y + size) (2 ^ 64)); [done|]. unfold wrap in Hge. rewrite <- (Z.mod_unique (y + size) (2 ^ 64) 1 (y + size - 2 ^ 64)) in Hge by lia. lia. }
  split; [|done]. rewrite u64_id in Hge by lia. assert (0xffffffff80000000 ≤ base + lower < 2 ^ 64) as Hbl by lia.
  destruct (Z.lt_ge_cases (r + (base + lower)) (2 ^ 64)); [rewrite Hy2, u64_id by lia; lia|]. exfalso. unfold wrap in Hy2. rewrite <- (Z.mod_unique (r + (base + lower)) (2 ^ 64) 1 (r + (base + lower) - 2 ^ 64)) in Hy2 by lia. lia.
Qed.
End headers.

Lemma magic_compared : ∃ c, strncmp elf magic 4 = Some c.
Proof.
  destruct (strncmp elf magic 4) as [c|] eqn:Hc; [by exists c|exfalso]. clear -Hc Hlen. unfold magic in Hc.
  destruct elf as [|a [|b [|c [|d l]]]]; unfold len in Hlen; cbn [length] in Hlen; try lia. cbn [strncmp] in Hc.
  repeat match type of Hc with (if ?b then _ else _) = _ => destruct b; [discriminate|] end; by destruct l.
Qed.

Lemma elf64_validate_safe A h : safe (elf64_validate A elf h) (λ _, phoff h mod 8 = 0 ∧ phdr_size h mod 8 = 0 ∧ shoff h mod 8 = 0 ∧ shdr_size h mod 8 = 0).
Proof.
  unfold elf64_validate. destruct magic_compared as (c & ->).
  cbn [lift mbind out_bind]. destruct (negb (c =? 0)); [done|]. apply safe_bind_get; [unfold EI_DATA; lia|]. intros d _. destruct (negb _); [done|].
  apply safe_bind_get; [unfold EI_CLASS; lia|]. intros k _. destruct (_ || _); [done|].
  destruct (_ || negb (shdr_size h mod 8 =? 0)) eqn:Hal; [done|]. rewrite !orb_false_iff, !negb_false_iff, !Z.eqb_eq in Hal. cbn. tauto.
Qed.

(** ** A loaded kernel *)

(** What [elf64_load] promises of its result [L]: [ls] are the segments, [base]
    the page the first is in, [ras] the relocations as the file has them. *)
Record loaded_ok (A : elf_arch) (alloc_type : Z) (kaslr want_ranges : bool) (s : pmm_state) (L : loaded) (s' : pmm_state)
    (h : elf_hdr) (ls : list elf_phdr) (base : Z) (st : elf64_reloc_state) (ras : list elf64_rela) : Prop := {
  lo_laid : laid_out ls ∧ ls ≠ [];
  lo_base : 0 ≤ base ∧ base mod 4096 = 0 ∧ ∃ p, p ∈ ls ∧ base = page_down (p_vaddr p);
  lo_inside p : p ∈ ls → base ≤ p_vaddr p ∧ p_vaddr p + p_memsz p ≤ base + image_size L;
  lo_file p : p ∈ ls → p_filesz p ≤ p_memsz p ∧ p_offset p + p_filesz p ≤ len elf;
  lo_block : 0 ≤ physical_base L ∧ physical_base L + image_size L ≤ LIMIT_4G;
  lo_aligned p : p ∈ ls → physical_base L mod 4096 = 0 ∧ (1 < p_align p → physical_base L mod p_align p = 0);
  lo_was_free x : physical_base L ≤ x < physical_base L + image_size L → type_at (memmap s) x = Some MEMMAP_USABLE ∧ type_at (memmap s') x = Some alloc_type;
  lo_image v : base ≤ v < base + image_size L → mem s' (physical_base L + (v - base)) = elf_image elf A st (l_slide L) ls ras v;
  lo_rest x : type_at (memmap s) x ≠ Some MEMMAP_USABLE → mem s' x = mem s x ∧ type_at (memmap s') x = type_at (memmap s) x;
  lo_relocs : relocs_of elf h st ∧ reads_as elf (relocs st) ras;
  lo_addresses : virtual_base L = u64 (base + l_slide L) ∧ entry_point L = u64 (h_entry h + l_slide L);
  lo_fixed : is_reloc L = false → l_slide L = 0 ∧ Forall (λ p, FIXED_HIGHER_HALF_OFFSET_64 ≤ p_vaddr p) ls;
  lo_slide : is_reloc L = true → kaslr = false → l_slide L = 0 ∧ FIXED_HIGHER_HALF_OFFSET_64 ≤ base ∨ virtual_base L = FIXED_HIGHER_HALF_OFFSET_64;
  lo_kaslr : is_reloc L = true → kaslr = true → FIXED_HIGHER_HALF_OFFSET_64 ≤ virtual_base L ∧ virtual_base L + image_size L < 2 ^ 64;
  lo_bss : ∃ p, p ∈ ls ∧ p_vaddr p + p_memsz p = base + image_size L ∧ image_size_before_bss L = p_vaddr p + p_filesz p - base;
  lo_ranges : if want_ranges then ∃ rs, l_ranges L = Some rs ∧ Forall2 (range_covers (l_slide L)) ls rs ∧ page_flags ls else l_ranges L = None;
  lo_state : pmm_ok s';
}.

Lemma elf64_load_ok A rnd alloc_type kaslr want_reloc want_ranges s : (∀ k, 0 ≤ rnd k < 2 ^ 32) → pmm_ok s → allocations_disallowed s = false →
  len (memmap s) + 21 < memmap_max_entries → alloc_type ≠ MEMMAP_USABLE →
  safe (elf64_load A rnd elf alloc_type kaslr want_reloc want_ranges s) (λ '(L, s'), ∃ h ps base st ras,
    elf64_hdr elf = Ret h ∧ table (phdr64 elf h) (ph_num h) ps ∧ loaded_ok A alloc_type kaslr want_ranges s L s' h (segments ps) base st ras).
Proof.
  intros Hrnd Hpmm Hd Hroom Htype. unfold elf64_load. destruct (elf64_hdr_ok elf Hbytes Hlen) as (h & Hhdr & Hh). rewrite Hhdr. cbn [mbind out_bind].
  eapply safe_bind; [apply elf64_validate_safe|]. cbv beta. intros _ (Hpo & Hpm & _). destruct (_ && _); [done|]. unfold check_phdr_size. destruct (Z.ltb_spec (phdr_size h) 56) as [|Hsize]; [done|]. cbn [mbind out_bind].
  pose proof Hh as []. unfold mul64. rewrite (proj2 (Z.ltb_lt (ph_num h * phdr_size h) (2 ^ 64))) by nia. cbn [mbind option_bind]. destruct (add64 _ (phoff h)) as [e|] eqn:He; [apply add64_Some in He as [-> He]|done].
  destruct (Z.ltb_spec (len elf) (ph_num h * phdr_size h + phoff h)) as [|Htab']; [done|]. assert (phoff h + ph_num h * phdr_size h ≤ len elf) as Htab by lia. clear Htab' He.
  destruct (headers_exist elf Hbytes Hlen h Hh Hpo Hpm Hsize Htab) as (ps & Hps & Hok). eapply safe_bind; [by apply is_relocatable_safe|]. cbv beta. intros relocatable ->. set (reloc := want_reloc && (h_type h =? ET_DYN)).
  eapply safe_bind; [by apply (max_align_safe h ps)|]. cbv beta. intros a [[Ha Hpow Hal] Hne]. eapply safe_bind; [by apply (layout_safe h ps Hps Hok)|]. cbv beta. intros l Hl.
  destruct (ly_first _ _ _ _ Hl Hne) as (p0 & Hp0 & Hmin). destruct (ly_last _ _ _ _ Hl Hne) as (p1 & Hp1 & Hmax). pose proof (ly_laid _ _ _ _ Hl) as Hlaid. pose proof (ly_inside _ _ _ _ Hl) as Hinside.
  destruct (laid_out_in _ p0 Hlaid Hp0) as (Hv0 & Hm0 & Ht0). destruct (laid_out_in _ p1 Hlaid Hp1) as (Hv1 & Hm1 & Ht1). rewrite (proj2 (Z.eqb_neq (min_vaddr l) SIZE_MAX)) by (unfold SIZE_MAX; lia).
  set (base := align_down64 (min_vaddr l) 4096). assert (base = page_down (min_vaddr l)) as Hbase by (apply align_down64_page; lia). pose proof (page_bounds (min_vaddr l)) as [Hpb _]. rewrite <- Hbase in Hpb.
  assert (0 ≤ base) as Hb0 by (rewrite Hbase; unfold page_down; pose proof (Z.div_pos (min_vaddr l) 4096); lia). set (size := max_vaddr l - base). destruct (Hinside p0 Hp0) as [_ Hp0max].
  destruct (ext_mem_alloc_type_aligned s size alloc_type a) as [[phys sa]|] eqn:Halloc; [|done]. cbn [mem_op mbind out_bind].
  destruct (alloc_kept s size alloc_type a phys sa Hpmm ltac:(unfold has_room; lia) Hd Htype ltac:(lia) ltac:(lia) Halloc) as (Hka & [G1 G2 G3 G4 G5 G6] & Hbs & Hbsm & Hphysm).
  pose proof Hka as [Hoka Hda Hla Htya]. pose proof (ly_upper _ _ _ _ Hl) as Hupper. pose proof (ly_lower _ _ _ _ Hl) as Hlower. set (lower := if lower_to_higher l then u64 (FIXED_HIGHER_HALF_OFFSET_64 - base) else 0).
  assert (lower = 0 ∧ FIXED_HIGHER_HALF_OFFSET_64 ≤ base ∧ lower_to_higher l = false ∨ lower = FIXED_HIGHER_HALF_OFFSET_64 - base ∧ base < FIXED_HIGHER_HALF_OFFSET_64 ∧ reloc = true) as Hlow.
  { unfold lower. destruct (lower_to_higher l); [right|left].
    - destruct (Hlower eq_refl) as [-> Hf]. rewrite List.Forall_forall in Hf. specialize (Hf p0 ltac:(by apply list_elem_of_In)). cbv beta in Hf. unfold FIXED_HIGHER_HALF_OFFSET_64 in *. rewrite u64_id by lia. split_and!; (done || lia).
    - specialize (Hupper eq_refl). rewrite List.Forall_forall in Hupper. specialize (Hupper p0 ltac:(by apply list_elem_of_In)). cbv beta in Hupper. split_and!; [done| |done].
      rewrite Hbase, Hmin. change FIXED_HIGHER_HALF_OFFSET_64 with (page_down FIXED_HIGHER_HALF_OFFSET_64). by apply page_down_mono. }
  assert (0 ≤ size ≤ LIMIT_4G) as Hsz by lia.
  apply (safe_bind _ _ (λ slide, (reloc && kaslr = false → slide = lower) ∧ (reloc && kaslr = true → FIXED_HIGHER_HALF_OFFSET_64 ≤ u64 (base + slide) ∧ u64 (base + slide) + size < 2 ^ 64))).
  { destruct (reloc && kaslr); [|cbn; by split]. eapply safe_weaken; [apply (random_slide_safe max_simulated_tries rnd 0 a lower base size); (done || lia)|].
    cbv beta. intros slide (_ & ? & ?). by split. }
  intros slide [Hsl1 Hsl2]. eapply safe_bind; [apply (prepare_safe elf Hbytes Hlen h Hh Hpo Hpm sa Hoka); [lia|congruence]|]. cbv beta. intros [[st|] sb] [Hgb Hst]; [|done].
  destruct Hst as (Hst & Hscr & Hrel). destruct (reads_exist elf (relocs st) (sto_relocs _ _ Hst)) as (ras & Hras). pose proof Hgb as [[Hokb Hdb Hlb Htyb] Hmb].
  assert (∀ y, phys ≤ y < phys + size → mem sb y = 0) as Hzero. { intros y Hy. rewrite Hmb; [apply G5; lia|]. rewrite G4 by lia. congruence. }
  eapply safe_bind; [apply (load_segments_safe h ps Hps Hok A st Hst ras Hras slide phys base (max_vaddr l) size); try (done || lia)|].
  { intros p Hp. destruct (Hinside p Hp). lia. }
  intros [bss sc] Hpl. pose proof Hpl as [(f & Hsc) _ _ Hfile Hbss]. cbn [fst snd] in Hsc, Hbss.
  set (sa' := set_mem sa f). assert (grows sa' sc 8) as Hgc. { split; [|by intros x _; subst sc]. subst sc. split; done. }
  assert (len (memmap sc) ≤ len (memmap sa) + 8) by (by subst sc). assert (allocations_disallowed sa' = false) as Hda' by (cbn; congruence).
  eapply safe_bind; [apply (free_relocations_safe sa' sc 8 st Hgc); [lia|cbn; lia|done|lia|by destruct Hscr]|]. cbv beta. intros sd [Hgd Hmd]. pose proof Hgd as [[Hokd Hdd Hld Htyd] _].
  apply (safe_bind _ _ (λ '(ranges, se), grows sd se 4 ∧ if want_ranges then ∃ rs, ranges = Some rs ∧ Forall2 (range_covers slide) (segments ps) rs else ranges = None)).
  { destruct want_ranges.
    - eapply safe_bind; [apply (get_ranges_safe h Hh ps Hps Hok Hsize (h_type h =? ET_DYN) slide sd); try done; [cbn in Hld; lia|cbn in Hdd; congruence|]|].
      + intros Hr. apply Hupper. destruct (lower_to_higher l); [|done]. destruct (Hlower eq_refl) as [Hc _]. unfold reloc in Hc. rewrite Hr, andb_false_r in Hc. done.
      + cbv beta. intros [rs se] [Hg Hrs]. cbn. split; [done|]. by exists rs.
    - cbn. split; [|done]. destruct (grows_refl sd Hokd) as [[? ? ? ?] ?]. split; [|done]. split; try done. lia. }
  intros [ranges se] [Hge Hranges]. pose proof Hge as [[Hoke Hde Hle Htye] Hme]. cbn [safe]. exists h, ps, base, st, ras. split; [done|]. split; [done|].
  assert (∀ x, phys ≤ x < phys + size → type_at (memmap sd) x = Some alloc_type) as Htyd'. { intros x Hx. rewrite Htyd; cbn [sa' set_mem memmap]; rewrite G4 by lia; congruence. }
  split; cbn [Elf.virtual_base Elf.entry_point Elf.l_slide Elf.physical_base Elf.image_size Elf.image_size_before_bss Elf.is_reloc l_ranges].
  - done.
  - split_and!; [done|rewrite Hbase; apply page_down_mod|]. exists p0. split; [done|]. by rewrite Hbase, Hmin.
  - intros p Hp. destruct (Hinside p Hp). unfold size. lia.
  - exact Hfile.
  - lia.
  - intros p Hp. destruct (Hal p Hp) as [Hple Hpp]. split; [apply (power_of_two_mod 4096 a); (done || lia)|]. intros H1. apply (power_of_two_mod (p_align p) a); try (done || lia). by apply Hpp.
  - intros x Hx. split; [apply G3; lia|]. rewrite Htye; rewrite Htyd' by lia; congruence.
  - intros v Hv. rewrite Hme by (rewrite Htyd' by lia; congruence). rewrite Hmd. apply (placed_image ps A st ras slide phys base (max_vaddr l) size ltac:(lia) Hlaid sb (bss, sc) v Hzero Hpl). lia.
  - intros x Hx. assert (¬ (phys ≤ x < phys + size)) as Hxo by (intros ?; apply Hx, G3; lia). assert (type_at (memmap sa) x ≠ Some MEMMAP_USABLE) as Hxa by (by rewrite Htya).
    assert (type_at (memmap sd) x ≠ Some MEMMAP_USABLE) as Hxd by (by rewrite Htyd). split; [|by rewrite Htye, Htyd by done; apply Htya].
    rewrite Hme, Hmd by done. pose proof (pl_rest _ _ _ _ _ _ _ _ _ _ _ Hpl x) as Hr. cbn [snd] in Hr. rewrite Hr; [by rewrite Hmb, G6|]. intros p Hp. destruct (Hinside p Hp). lia.
  - done.
  - done.
  - intros Hr. rewrite Hr in *. cbn [andb] in *. destruct Hlow as [(Hlo & _ & Hll)|(_ & _ & ?)]; [|done]. split; [rewrite <- Hlo; by apply Hsl1|by apply Hupper].
  - intros Hr ->. rewrite Hr in *. cbn [andb] in *. rewrite (Hsl1 eq_refl). destruct Hlow as [(Hlo & Hb & _)|(Hlo & Hb & _)]; [left; by split|right]. rewrite Hlo.
    replace (base + (FIXED_HIGHER_HALF_OFFSET_64 - base)) with FIXED_HIGHER_HALF_OFFSET_64 by lia. done.
  - intros Hr ->. rewrite Hr in *. by apply Hsl2.
  - destruct Hbss as [[Hn _]|(p & Hp & Hpm' & Hpb')]; [by destruct (Hn p1 Hp1)|]. exists p. split; [done|]. destruct (Hinside p Hp). destruct (Hfile p Hp).
    pose proof (phdr_in ps Hok p ltac:(by apply segments_in)) as []. split; [lia|]. rewrite u64_id; lia.
  - destruct want_ranges; [|exact Hranges]. destruct Hranges as (rs & -> & Hrs). exists rs. split_and!; [done|done|]. by apply (ly_pages _ _ _ _ Hl).
  - done.
Qed.
End file.
