(* ===== verification/ElfMore.v ===== *)
(** Kernels put together for [elsewhere], and sections looked up by name. *)
From S2P Require Import Prelude Libc LibcProofs Outcome Pmm PmmAlloc PmmUse Elsewhere ElsewhereProofs Elf ElfTables ElfReloc ElfImage ElfProofs.
From stdpp Require Import strings.
Open Scope list_scope.
Open Scope Z_scope.

(** ** Put together elsewhere *)

(** The byte for an address: that of the last segment that has one for it. *)
Definition physical_byte (elf : list Z) (ls : list elf_phdr) (a : Z) : Z :=
  foldl (λ b p, if decide (p_paddr p ≤ a < p_paddr p + p_filesz p) then peek elf (p_offset p + (a - p_paddr p)) else b) 0 ls.

(** The physical address of the entry point, by the first segment it is in. *)
Definition entry_inside (width entry : Z) (p : elf_phdr) : bool :=
  (p_vaddr p <=? entry) && (p_vaddr p + p_memsz p <? 2 ^ width) && (entry <? p_vaddr p + p_memsz p).
Definition physical_entry (width : Z) (ls : list elf_phdr) (entry : Z) : Z :=
  match List.find (entry_inside width entry) ls with
  | Some p => u64 (entry - p_vaddr p + p_paddr p)
  | None => entry
  end.

Lemma find_app_In {A} (f : A → bool) l1 l2 : List.find f (l1 ++ l2) = match List.find f l1 with Some x => Some x | None => List.find f l2 end.
Proof. induction l1 as [|x l1 IH]; [done|]. cbn. by destruct (f x). Qed.

Section file.
Context (elf : list Z) (Hbytes : is_bytes elf) (Hlen : 64 ≤ len elf < 2 ^ 31).

Section headers.
Context (width : Z) (Hwidth : 0 < width ≤ 64) (h : elf_hdr) (Hh : hdr_ok h) (at_ : Z → out elf_phdr) (ps : list elf_phdr)
  (Hps : phoff h + ph_num h * phdr_size h ≤ len elf → (if width =? 32 then 32 else 56) ≤ phdr_size h → table at_ (ph_num h) ps ∧ Forall (phdr_ok width) ps).

Record extent_ok (ls : list elf_phdr) (lo hi : Z) (some : bool) : Prop := {
  xt_inside p : p ∈ ls → lo ≤ p_paddr p ∧ p_paddr p + p_memsz p ≤ hi;
  xt_some : some = true → ls ≠ [] ∧ 0 ≤ lo ∧ hi < 2 ^ 64 ∧ lo ≤ hi;
  xt_none : some = false → ls = [] ∧ lo = SIZE_MAX ∧ hi = 0;
  xt_low : some = true → ∃ p, p ∈ ls ∧ p_paddr p = lo;
}.

Lemma extent_step_safe p front lo hi some : phdr_ok width p → extent_ok (segments front) lo hi some →
  safe (extent_step p (lo, hi, some)) (λ '(lo, hi, some), extent_ok (segments (front ++ [p])) lo hi some).
Proof.
  intros Hp Hx. rewrite segments_app. unfold extent_step. destruct (loadable p) eqn:Hl; cbn [negb]; [|cbn; by rewrite app_nil_r]. pose proof (loadable_memsz p width Hp Hl). destruct Hp, Hx as [H1 H2 H3 H4].
  assert (2 ^ width ≤ 2 ^ 64) by (apply Z.pow_le_mono_r; lia).
  destruct (add64 (p_paddr p) (p_memsz p)) as [top|] eqn:Ht; [apply add64_Some in Ht as [-> Ht]|done]. cbn [safe]. destruct (Z.ltb_spec (p_paddr p) lo), (Z.ltb_spec hi (p_paddr p + p_memsz p)).
  all: split; [intros q [Hq|Hq]%elem_of_app; [destruct (H1 q Hq); lia|apply list_elem_of_singleton in Hq as ->; lia]|intros _|done|intros _].
  all: try (split_and!; [by destruct (segments front)|destruct some; [destruct (H2 eq_refl); lia|destruct (H3 eq_refl) as (_ & -> & ->); unfold SIZE_MAX in *; lia]..]).
  all: try (exists p; split; [apply elem_of_app; right; by apply list_elem_of_singleton|done]).
  all: destruct some; [destruct (H4 eq_refl) as (q & Hq & Hql); exists q; split; [apply elem_of_app; by left|done]|].
  all: destruct (H3 eq_refl) as (_ & -> & ->); exists p; split; [apply elem_of_app; right; by apply list_elem_of_singleton|unfold SIZE_MAX in *; lia].
Qed.

(** After the segments in front. *)
Record put_together (entry0 buffer lo : Z) (s0 : pmm_state) (front : list elf_phdr) (x : Z * bool * pmm_state) : Prop := {
  pt_state : ∃ f, x.2 = set_mem s0 f;
  pt_entry : if x.1.2 then List.find (entry_inside width entry0) (segments front) ≠ None ∧ x.1.1 = physical_entry width (segments front) entry0
             else List.find (entry_inside width entry0) (segments front) = None ∧ x.1.1 = entry0;
  pt_byte a : 0 ≤ a → lo ≤ a → mem s0 (buffer + (a - lo)) = 0 → mem x.2 (buffer + (a - lo)) = physical_byte elf (segments front) a;
  pt_rest y : (∀ p, p ∈ segments front → ¬ (p_paddr p ≤ lo + (y - buffer) < p_paddr p + p_memsz p)) → mem x.2 y = mem s0 y;
  pt_file p : p ∈ segments front → p_filesz p ≤ p_memsz p ∧ p_offset p + p_filesz p ≤ len elf;
}.

Lemma place_segment_safe entry0 buffer lo s0 front p x : phdr_ok width p → (loadable p = true → lo ≤ p_paddr p) →
  put_together entry0 buffer lo s0 front x → safe (place_segment width elf buffer lo p x) (put_together entry0 buffer lo s0 (front ++ [p])).
Proof.
  intros Hp Hlo Hpt. pose proof Hpt as [(f & Hf) Hen Hby Hre Hfi]. destruct x as [[entry adjusted] s]. cbn [fst snd] in *. unfold place_segment. destruct (loadable p) eqn:Hl; cbn [negb].
  2: { cbn [safe]. split; rewrite ?segments_app, ?Hl, ?app_nil_r; cbn [fst snd]; try done. by exists f. }
  pose proof (loadable_memsz p width Hp Hl). destruct Hp. specialize (Hlo eq_refl). assert (2 ^ width ≤ 2 ^ 64) by (apply Z.pow_le_mono_r; lia).
  destruct (Z.ltb_spec (p_memsz p) (p_filesz p)); [done|]. destruct (add64 (p_offset p) _) as [oe|] eqn:Hoe; [apply add64_Some in Hoe as [-> Hoe]|done].
  destruct (Z.ltb_spec (len elf) (p_offset p + p_filesz p)); [done|]. unfold copy_in. rewrite slice_lt by lia. cbn [lift mbind out_bind].
  set (bs := take (Z.to_nat (p_filesz p)) (drop (Z.to_nat (p_offset p)) elf)). assert (len bs = p_filesz p) as Hbs by (unfold bs, len in *; rewrite length_take, length_drop; lia).
  set (s1 := set_mem s (write_bytes (mem s) (buffer + (p_paddr p - lo)) bs)).
  assert (∀ e b, (if b : bool then List.find (entry_inside width entry0) (segments (front ++ [p])) ≠ None ∧ e = physical_entry width (segments (front ++ [p])) entry0
             else List.find (entry_inside width entry0) (segments (front ++ [p])) = None ∧ e = entry0) → put_together entry0 buffer lo s0 (front ++ [p]) (e, b, s1)) as Hdone.
  { intros e b Heb. split; cbn [fst snd]; [by exists (write_bytes (mem s) (buffer + (p_paddr p - lo)) bs); unfold s1; rewrite Hf|done|..]; rewrite ?segments_app, ?Hl.
    - intros a Ha Hal Hz. unfold s1. cbn [mem set_mem]. rewrite write_bytes_eq, Hbs. unfold physical_byte. rewrite foldl_app. cbn [foldl]. fold (physical_byte elf (segments front) a). repeat case_decide; try lia.
      + replace (buffer + (a - lo) - (buffer + (p_paddr p - lo))) with (a - p_paddr p) by lia. unfold bs. rewrite peek_slice by lia. done.
      + by apply Hby.
    - intros y Hy. unfold s1. cbn [mem set_mem]. rewrite write_bytes_eq, Hbs. rewrite decide_False.
      + apply Hre. intros q Hq. apply Hy, elem_of_app. by left.
      + intros Hyb. apply (Hy p); [apply elem_of_app; right; by apply list_elem_of_singleton|lia].
    - intros q [Hq|Hq]%elem_of_app; [by apply Hfi|]. by apply list_elem_of_singleton in Hq as ->. }
  destruct adjusted; cbn [negb andb].
  - cbn [safe]. apply Hdone. rewrite segments_app, Hl. unfold physical_entry in *. rewrite !find_app_In. destruct Hen as [Hn ->]. by destruct (List.find _ (segments front)).
  - destruct Hen as [Hn ->]. fold (entry_inside width entry0 p). unfold physical_entry in *. destruct (entry_inside width entry0 p) eqn:Hin; cbn [safe]; apply Hdone; rewrite segments_app, Hl; unfold physical_entry;
      rewrite !find_app_In, Hn; cbn; rewrite Hin; done.
Qed.

Record elsewhere_ok (max_image_size : Z) (s s' : pmm_state) (entry : Z) (r : elsewhere_range) : Prop := {
  ew_range : range_sane r ∧ r_length r ≤ max_image_size;
  ew_inside p : p ∈ segments ps → target r ≤ p_paddr p ∧ p_paddr p + p_memsz p ≤ target r + r_length r;
  ew_low : ∃ p, p ∈ segments ps ∧ p_paddr p = target r;
  ew_file p : p ∈ segments ps → p_filesz p ≤ p_memsz p ∧ p_offset p + p_filesz p ≤ len elf;
  ew_block i : 0 ≤ i < r_length r → type_at (memmap s) (elsewhere r + i) = Some MEMMAP_USABLE ∧ type_at (memmap s') (elsewhere r + i) = Some MEMMAP_BOOTLOADER_RECLAIMABLE;
  ew_bytes i : 0 ≤ i < r_length r → mem s' (elsewhere r + i) = physical_byte elf (segments ps) (target r + i);
  ew_entry : entry = physical_entry width (segments ps) (h_entry h);
  ew_rest x : type_at (memmap s) x ≠ Some MEMMAP_USABLE → mem s' x = mem s x ∧ type_at (memmap s') x = type_at (memmap s) x;
  ew_state : pmm_ok s';
}.

Lemma load_elsewhere_ok max_image_size s : pmm_ok s → allocations_disallowed s = false → len (memmap s) + 9 < memmap_max_entries →
  safe (load_elsewhere width h at_ elf max_image_size s) (λ '(entry, r, _, s'), elsewhere_ok max_image_size s s' entry r).
Proof.
  intros Hpmm Hd Hroom. unfold load_elsewhere. destruct (_ && _); [done|]. destruct (Z.ltb_spec (phdr_size h) (if width =? 32 then 32 else 56)) as [|Hsz]; [done|].
  destruct (Z.ltb_spec (len elf) (phoff h)); [done|]. cbn [orb]. destruct (Z.ltb_spec (len elf - phoff h) (ph_num h * phdr_size h)); [done|]. destruct (Hps ltac:(lia) Hsz) as [Htab Hok].
  assert (∀ p, p ∈ ps → phdr_ok width p) as Hpin. { intros p Hp. rewrite List.Forall_forall in Hok. by apply Hok, list_elem_of_In. }
  apply (safe_bind _ _ (λ '(lo, hi, some), extent_ok (segments ps) lo hi some)).
  { rewrite (table_for_phdrs _ _ _ _ _ Htab). apply (safe_foldl _ (λ front '(lo, hi, some), extent_ok (segments front) lo hi some)).
    - split; try done. by intros p ?%elem_of_nil.
    - intros front p rest [[lo hi] some] Hp%in_middle Hx. apply extent_step_safe; [by apply Hpin|done]. }
  intros [[lo hi] some] [Hin Hsome _ Hlow]. destruct some; cbn [negb]; [|done]. destruct (Hsome eq_refl) as (Hne & Hlo & Hhi & Hlohi). specialize (Hlow eq_refl).
  destruct (Z.ltb_spec max_image_size (hi - lo)); [done|]. destruct (Z.ltb_spec SIZE_MAX (hi - lo)); [done|].
  unfold ext_mem_alloc, ext_mem_alloc_type. destruct (ext_mem_alloc_type_aligned s (hi - lo) _ 4096) as [[b sa]|] eqn:Ha; [|done]. cbn [mem_op mbind out_bind].
  destruct (alloc_kept s (hi - lo) MEMMAP_BOOTLOADER_RECLAIMABLE 4096 b sa Hpmm ltac:(unfold has_room; lia) Hd ltac:(done) ltac:(lia) ltac:(lia) Ha) as (Hka & [G1 G2 G3 G4 G5 G6] & Hbs & _). pose proof Hka as [Hoka Hda Hla Htya].
  destruct (ext_mem_alloc_type_aligned sa 24 _ 4096) as [[rb sb]|] eqn:Hb; [|done]. cbn [mem_op mbind out_bind].
  destruct (alloc_kept sa 24 MEMMAP_BOOTLOADER_RECLAIMABLE 4096 rb sb Hoka ltac:(unfold has_room; lia) ltac:(congruence) ltac:(done) ltac:(lia) ltac:(lia) Hb) as (Hkb & [K1 K2 K3 K4 K5 K6] & _). pose proof Hkb as [Hokb Hdb Hlb Htyb].
  assert (∀ i, 0 ≤ i < hi - lo → type_at (memmap sb) (b + i) = Some MEMMAP_BOOTLOADER_RECLAIMABLE ∧ mem sb (b + i) = 0) as Hblk.
  { intros i Hi. rewrite Htyb, K6; rewrite G4 by lia; [|done..]. split; [done|]. apply G5. lia. }
  apply (safe_bind _ _ (put_together (h_entry h) b lo sb ps)).
  { rewrite (table_for_phdrs _ _ _ _ _ Htab). apply (safe_foldl _ (put_together (h_entry h) b lo sb)).
    - split; cbn [fst snd]; try done; [by exists (mem sb); destruct sb|by intros p ?%elem_of_nil].
    - intros front p rest x Hp%in_middle Hx. apply place_segment_safe; [by apply Hpin| |done]. intros Hl. apply Hin. by apply segments_in. }
  intros [[entry adjusted] s'] [(f & Hf) Hen Hby Hre Hfi]. cbn [fst snd] in *. subst s'. cbn [mem set_mem] in *. unfold LIMIT_4G in *. cbn [safe].
  split; cbn [elsewhere target r_length set_mem mem memmap].
  - split; [split_and!; cbn; lia|done].
  - intros p Hp. destruct (Hin p Hp). lia.
  - done.
  - done.
  - intros i Hi. split; [apply G3; lia|by apply Hblk].
  - intros i Hi. replace (b + i) with (b + (lo + i - lo)) by lia. apply Hby; [lia|lia|]. replace (b + (lo + i - lo)) with (b + i) by lia. by apply Hblk.
  - destruct adjusted; [apply Hen|]. destruct Hen as [Hn ->]. unfold physical_entry. by rewrite Hn.
  - intros x Hx. assert (type_at (memmap sa) x ≠ Some MEMMAP_USABLE) by (by rewrite Htya). split; [|by rewrite Htyb, Htya]. rewrite Hre; [by rewrite K6, G6|].
    intros p Hp Hpx. destruct (Hin p Hp). apply Hx. apply G3. lia.
  - done.
Qed.
End headers.

Lemma elf32_validate_safe h : safe (elf32_validate elf h) (λ _, phoff h mod 4 = 0 ∧ phdr_size h mod 4 = 0).
Proof.
  unfold elf32_validate. destruct (magic_compared elf Hlen) as (c & ->). cbn [lift mbind out_bind]. destruct (negb (c =? 0)); [done|].
  apply safe_bind_get; [unfold EI_DATA; lia|]. intros d _. destruct (negb _); [done|]. destruct (negb _); [done|].
  destruct (_ || negb (shdr_size h mod 4 =? 0)) eqn:Hal; [done|]. rewrite !orb_false_iff, !negb_false_iff, !Z.eqb_eq in Hal. cbn. tauto.
Qed.

Lemma elf32_table h : hdr_ok h → phoff h mod 4 = 0 → phdr_size h mod 4 = 0 → phoff h + ph_num h * phdr_size h ≤ len elf → 32 ≤ phdr_size h →
  ∃ ps, table (table_entry elf32_phdr elf (phoff h) (phdr_size h)) (ph_num h) ps ∧ Forall (phdr_ok 32) ps.
Proof.
  intros Hh Ho Hs Ht Hsz. destruct Hh. apply table_exists; [lia|]. intros i Hi. apply (table_entry_ok elf Hlen elf32_phdr (phdr_ok 32) 4 32 (phoff h) (phdr_size h) (ph_num h) i); try lia; try done.
  intros o Hoo Hm Hl. by apply elf32_phdr_ok.
Qed.

(** What both promise. *)
Definition elsewhere_result (width max_image_size : Z) (at_ : elf_hdr → Z → out elf_phdr) (hdr : out elf_hdr) (s : pmm_state) (x : Z * elsewhere_range * Z * pmm_state) : Prop :=
  let '(entry, r, _, s') := x in ∃ h ps, hdr = Ret h ∧ table (at_ h) (ph_num h) ps ∧ elsewhere_ok width h ps max_image_size s s' entry r.

Lemma elf32_load_elsewhere_ok max_image_size s : pmm_ok s → allocations_disallowed s = false → len (memmap s) + 9 < memmap_max_entries →
  safe (elf32_load_elsewhere elf max_image_size s) (elsewhere_result 32 max_image_size (λ h, table_entry elf32_phdr elf (phoff h) (phdr_size h)) (elf32_hdr elf) s).
Proof.
  intros Hpmm Hd Hroom. unfold elf32_load_elsewhere. destruct (elf32_hdr_ok elf Hbytes Hlen) as (h & Hhdr & Hh & _). rewrite Hhdr. cbn [mbind out_bind].
  eapply safe_bind; [apply elf32_validate_safe|]. cbv beta. intros _ [Ho Hs].
  destruct (decide (phoff h + ph_num h * phdr_size h ≤ len elf ∧ 32 ≤ phdr_size h)) as [[Ht Hsz]|Hno].
  - destruct (elf32_table h Hh Ho Hs Ht Hsz) as (ps & Htab & Hok). eapply safe_weaken; [apply (load_elsewhere_ok 32 ltac:(lia) h _ ps); done|].
    intros [[[entry r] rr] s'] He. by exists h, ps.
  - eapply safe_weaken; [apply (load_elsewhere_ok 32 ltac:(lia) h _ []); [|done..]|].
    + intros Ht Hsz. cbn in Hsz. tauto.
    + intros [[[entry r] rr] s'] He. destruct (ew_low _ _ _ _ _ _ _ _ He) as (p & Hp & _). by apply elem_of_nil in Hp.
Qed.

Lemma elf64_load_elsewhere_ok A max_image_size s : pmm_ok s → allocations_disallowed s = false → len (memmap s) + 9 < memmap_max_entries →
  safe (elf64_load_elsewhere A elf max_image_size s) (elsewhere_result 64 max_image_size (phdr64 elf) (elf64_hdr elf) s).
Proof.
  intros Hpmm Hd Hroom. unfold elf64_load_elsewhere. destruct (elf64_hdr_ok elf Hbytes Hlen) as (h & Hhdr & Hh). rewrite Hhdr. cbn [mbind out_bind].
  eapply safe_bind; [apply elf64_validate_safe; done|]. cbv beta. intros _ (Ho & Hs & _).
  destruct (decide (phoff h + ph_num h * phdr_size h ≤ len elf ∧ 56 ≤ phdr_size h)) as [[Ht Hsz]|Hno].
  - destruct (headers_exist elf Hbytes Hlen h Hh Ho Hs Hsz Ht) as (ps & Htab & Hok). eapply safe_weaken; [apply (load_elsewhere_ok 64 ltac:(lia) h _ ps); done|].
    intros [[[entry r] rr] s'] He. by exists h, ps.
  - eapply safe_weaken; [apply (load_elsewhere_ok 64 ltac:(lia) h _ []); [|done..]|].
    + intros Ht Hsz. cbn in Hsz. tauto.
    + intros [[[entry r] rr] s'] He. destruct (ew_low _ _ _ _ _ _ _ _ He) as (p & Hp & _). by apply elem_of_nil in Hp.
Qed.

(** ** Sections *)
Lemma memchr_loop_safe p ch n i : Z.of_nat n ≤ len p → ∃ r, memchr_loop p ch n i = Some r ∧ (r ≠ None → ch ∈ take n p).
Proof.
  revert p i. induction n as [|n IH]; intros p i Hn; [exists None; by destruct p|]. destruct p as [|c p]; [unfold len in Hn; cbn in Hn; lia|]. rewrite len_cons in Hn. cbn [memchr_loop].
  destruct (Z.eqb_spec c ch) as [->|]; [eexists; split; [done|]; intros _; by left|]. destruct (IH p (i + 1) ltac:(lia)) as (r & Hr & Hin). exists r. split; [done|]. intros Hne. right. by apply Hin.
Qed.

Lemma strcmp_total s1 s2 : 0 ∈ s1 → 0 ∈ s2 → ∃ c, strcmp s1 s2 = Some c.
Proof.
  revert s2. induction s1 as [|a s1 IH]; intros [|b s2] H1 H2; try (by apply elem_of_nil in H1); try (by apply elem_of_nil in H2). cbn [strcmp]. destruct (Z.eqb_spec a b) as [->|]; cbn [negb]; [|by eexists].
  destruct (Z.eqb_spec b 0); [by eexists|]. apply IH; [by apply elem_of_cons in H1 as [|]|by apply elem_of_cons in H2 as [|]].
Qed.

(** A section of the table, all of its name in the table of names. *)
Definition section_named (strtab section : elf64_shdr) (name : list Z) : Prop :=
  sh_name section < sh_size strtab ∧ strcmp (drop (Z.to_nat (sh_offset strtab + sh_name section)) elf) name = Some 0.

Section sections.
Context (h : elf_hdr) (Hh : hdr_ok h) (Hshoff : shoff h mod 8 = 0) (Hshsize : shdr_size h mod 8 = 0) (Hsize : 64 ≤ shdr_size h)
  (Htable : shoff h + sh_num h * shdr_size h ≤ len elf).

Lemma shdr64_ok i : 0 ≤ i < sh_num h → gives (shdr64 elf h i) shdr_ok.
Proof.
  intros Hi. destruct Hh. unfold shdr64. apply (table_entry_ok elf Hlen elf64_shdr_at shdr_ok 8 64 (shoff h) (shdr_size h) (sh_num h) i); try lia; try done.
  intros o Ho Hm Hl. by apply elf64_shdr_ok.
Qed.

Lemma find_section_safe strtab name n i : shdr_ok strtab → sh_offset strtab + sh_size strtab ≤ len elf → 0 ∈ name → 0 ≤ i → i + Z.of_nat n ≤ sh_num h →
  safe (find_section elf h strtab name n i) (λ r, match r with Some x => shdr_ok x ∧ section_named strtab x name | None => True end).
Proof.
  intros Hst Hin Hname. revert i. induction n as [|n IH]; intros i Hi Hn; cbn [find_section]; [done|]. destruct (shdr64_ok i ltac:(lia)) as (x & -> & Hx). cbn [mbind out_bind].
  destruct Hst as [? ? ? ?]. pose proof Hx as [? ? ? ?]. destruct (Z.leb_spec (sh_size strtab) (sh_name x)) as [|Hlt]; [apply IH; lia|]. set (str := drop (Z.to_nat (sh_offset strtab + sh_name x)) elf).
  assert (len str = len elf - (sh_offset strtab + sh_name x)) as Hl by (unfold str, len in *; rewrite length_drop; lia).
  destruct (memchr_loop_safe str 0 (Z.to_nat (sh_size strtab - sh_name x)) 0 ltac:(lia)) as (r & Hr & Hz). unfold memchr. rewrite Hr. cbn [lift mbind out_bind]. destruct r as [k|]; [|apply IH; lia].
  destruct (strcmp_total str name) as (c & Hc); [specialize (Hz ltac:(done)); apply elem_of_take in Hz as (j & Hj & _); by eapply list_elem_of_lookup_2|done|]. rewrite Hc. cbn [lift mbind out_bind].
  destruct (Z.eqb_spec c 0) as [->|]; [|apply IH; lia]. cbn [safe]. by split.
Qed.
End sections.

(** What loading a section does: nothing outside of the buffer; if it succeeds
    the section is in the buffer, relocated. *)
Definition section_loaded (A : elf_arch) (buffer limit slide : Z) (name : list Z) (s : pmm_state) (x : option Z * pmm_state) : Prop :=
  let '(r, s') := x in
  pmm_ok s' ∧
  (∀ a, type_at (memmap s) a ≠ Some MEMMAP_USABLE → type_at (memmap s') a = type_at (memmap s) a ∧ (limit = 0 ∨ ¬ (buffer ≤ a < buffer + limit) → mem s' a = mem s a)) ∧
  ∀ b, r = Some b → ∃ h strtab section st ras, elf64_hdr elf = Ret h ∧ section_named strtab section name ∧ relocs_of elf h st ∧ reads_as elf (relocs st) ras ∧
    sh_offset section + sh_size section ≤ len elf ∧ (limit ≠ 0 → b = buffer ∧ sh_size section ≤ limit) ∧
    ∀ i, 0 ≤ i < sh_size section → type_at (memmap s') (b + i) ≠ Some MEMMAP_USABLE ∧
      mem s' (b + i) = relocated elf A st slide (sh_addr section) (sh_size section) ras (λ v, peek elf (sh_offset section + (v - sh_addr section))) (sh_addr section + i).

(** The part after the buffer is there. *)
Lemma section_tail_safe A h b section slide s : hdr_ok h → phoff h mod 8 = 0 → phdr_size h mod 8 = 0 → shdr_ok section → sh_offset section + sh_size section ≤ len elf →
  pmm_ok s → allocations_disallowed s = false → len (memmap s) + 13 < memmap_max_entries →
  (∀ a, b ≤ a < b + sh_size section → type_at (memmap s) a ≠ Some MEMMAP_USABLE) →
  safe (s ← copy_in elf b (sh_offset section) (sh_size section) s;
        '(st, s) ← elf64_prepare_relocations elf h s;
        match st with
        | None => Ret (None, s)
        | Some st => s ← elf64_apply_relocations A st elf b (sh_addr section) (sh_size section) slide s; s ← elf64_free_relocations st s; Ret (Some b, s)
        end) (λ '(r, s'), kept s s' 12 ∧ (∀ a, type_at (memmap s) a ≠ Some MEMMAP_USABLE → ¬ (b ≤ a < b + sh_size section) → mem s' a = mem s a) ∧
          (r = None ∨ r = Some b ∧ ∃ st ras, relocs_of elf h st ∧ reads_as elf (relocs st) ras ∧ ∀ i, 0 ≤ i < sh_size section →
            mem s' (b + i) = relocated elf A st slide (sh_addr section) (sh_size section) ras (λ v, peek elf (sh_offset section + (v - sh_addr section))) (sh_addr section + i))).
Proof.
  intros Hh Ho Hs [? ? ? ?] Hin Hpmm Hd Hroom Hbuf. unfold copy_in. rewrite slice_lt by lia. cbn [lift mbind out_bind]. set (bs := take (Z.to_nat (sh_size section)) (drop (Z.to_nat (sh_offset section)) elf)).
  assert (len bs = sh_size section) as Hbs by (unfold bs, len in *; rewrite length_take, length_drop; lia). set (s1 := set_mem s (write_bytes (mem s) b bs)).
  eapply safe_bind; [apply (prepare_safe elf Hbytes Hlen h Hh Ho Hs s1); [exact Hpmm|cbn; lia|exact Hd]|]. cbv beta. intros [st s2] [[[Hok2 Hd2 Hl2 Hty2] Hm2] Hst]. cbn [s1 set_mem memmap allocations_disallowed] in Hd2, Hl2, Hty2.
  assert (∀ a, type_at (memmap s) a ≠ Some MEMMAP_USABLE → mem s2 a = if decide (b ≤ a < b + sh_size section) then peek bs (a - b) else mem s a) as Hmem2.
  { intros a Ha. rewrite Hm2 by done. unfold s1. cbn [set_mem mem]. by rewrite write_bytes_eq, Hbs. }
  destruct st as [st|].
  2: { cbn [safe]. split_and!; [split; try done; lia| |by left]. intros a Ha Hout. rewrite Hmem2 by done. by rewrite decide_False. }
  destruct Hst as (Hst & Hscr & Hrel). destruct (reads_exist elf (relocs st) (sto_relocs _ _ Hst)) as (ras & Hras). unfold elf64_apply_relocations.
  eapply safe_bind; [apply (safe_bind _ _ (λ g, (∀ i, 0 ≤ i < sh_size section → g (b + i) = relocated elf A st slide (sh_addr section) (sh_size section) ras (λ v, peek elf (sh_offset section + (v - sh_addr section))) (sh_addr section + i)) ∧
      ∀ a, ¬ (b ≤ a < b + sh_size section) → g a = mem s2 a) (λ s3, ∃ g, s3 = set_mem s2 g ∧ (∀ i, 0 ≤ i < sh_size section → g (b + i) = relocated elf A st slide (sh_addr section) (sh_size section) ras (λ v, peek elf (sh_offset section + (v - sh_addr section))) (sh_addr section + i)) ∧
      ∀ a, ¬ (b ≤ a < b + sh_size section) → g a = mem s2 a))|].
  - apply (apply_loop_safe elf Hbytes Hlen A st Hst slide (relocs st) ras b (sh_addr section) (sh_size section) (mem s2) (λ v, peek elf (sh_offset section + (v - sh_addr section))) Hras ltac:(lia)).
    intros i Hi. rewrite Hmem2 by (apply Hbuf; lia). rewrite decide_True by lia. replace (b + i - b) with i by lia. unfold bs. rewrite peek_slice by lia. f_equal. lia.
  - intros g [Hg Hfr]. cbn [safe]. by exists g.
  - intros s3 (g & -> & Hg & Hfr). set (s1' := set_mem s1 g). assert (grows s1' (set_mem s2 g) 8) as Hgr by (split; [by split|by intros x _]).
    eapply safe_bind; [apply (free_relocations_safe s1' (set_mem s2 g) 8 st Hgr); [cbn; lia|cbn; lia|exact Hd|lia|by destruct Hscr]|]. cbv beta. intros s4 [[[Hok4 Hd4 Hl4 Hty4] Hm4] Hmem4]. cbn [safe].
    cbn [s1' s1 set_mem memmap allocations_disallowed mem] in *. split_and!; [split; try done; lia| |right; split; [done|]].
    + intros a Ha Hout. rewrite Hmem4, Hfr, Hmem2 by done. by rewrite decide_False.
    + exists st, ras. split_and!; [done|done|]. intros i Hi. rewrite Hmem4. by apply Hg.
Qed.

Lemma elf64_load_section_ok A buffer name limit slide s : pmm_ok s → allocations_disallowed s = false → len (memmap s) + 17 < memmap_max_entries → 0 ∈ name → 0 ≤ limit →
  (limit ≠ 0 → ∀ a, buffer ≤ a < buffer + limit → type_at (memmap s) a ≠ Some MEMMAP_USABLE) →
  safe (elf64_load_section A elf buffer name limit slide s) (section_loaded A buffer limit slide name s).
Proof.
  intros Hpmm Hd Hroom Hname Hlim Hbuf. unfold elf64_load_section. destruct (elf64_hdr_ok elf Hbytes Hlen) as (h & Hhdr & Hh). rewrite Hhdr. cbn [mbind out_bind].
  eapply safe_bind; [by apply elf64_validate_safe|]. cbv beta. intros _ (Ho & Hs & Hso & Hss). pose proof Hh as [].
  assert (section_loaded A buffer limit slide name s (None, s)) as Hnone by (split_and!; [done|by intros a _; split|done]).
  destruct (sh_num h =? 0); [exact Hnone|]. destruct (Z.ltb_spec (shdr_size h) 64); [done|]. destruct (Z.leb_spec (sh_num h) (shstrndx h)); [exact Hnone|].
  unfold mul64. rewrite (proj2 (Z.ltb_lt (sh_num h * shdr_size h) (2 ^ 64))) by nia. cbn [mbind option_bind]. destruct (add64 (shoff h) _) as [e|] eqn:He; [apply add64_Some in He as [-> He]|exact Hnone].
  destruct (Z.ltb_spec (len elf) (shoff h + sh_num h * shdr_size h)); [exact Hnone|].
  eapply safe_gives_bind; [apply (shdr64_ok h Hh Hso Hss); lia|]. intros strtab Hst. pose proof Hst as [? ? ? ?].
  destruct (Z.leb_spec (len elf) (sh_offset strtab)); [exact Hnone|]. cbn [orb]. destruct (Z.ltb_spec (len elf - sh_offset strtab) (sh_size strtab)); [exact Hnone|].
  eapply safe_bind; [apply (find_section_safe h Hh Hso Hss ltac:(lia) ltac:(lia) strtab name (Z.to_nat (sh_num h)) 0 Hst); (done || lia)|]. cbv beta. intros [section|] Hsec; [|exact Hnone]. destruct Hsec as [Hsec Hnm].
  pose proof Hsec as [? ? ? ?]. destruct (Z.leb_spec (len elf) (sh_offset section)); [exact Hnone|]. cbn [orb]. destruct (Z.ltb_spec (len elf - sh_offset section) (sh_size section)); [exact Hnone|].
  destruct (Z.eqb_spec limit 0) as [Hl0|Hl0].
  - unfold ext_mem_alloc, ext_mem_alloc_type. destruct (ext_mem_alloc_type_aligned s (sh_size section) _ 4096) as [[b sa]|] eqn:Ha; [|done]. cbn [mem_op mbind out_bind].
    destruct (alloc_kept s (sh_size section) MEMMAP_BOOTLOADER_RECLAIMABLE 4096 b sa Hpmm ltac:(unfold has_room; lia) Hd ltac:(done) ltac:(lia) ltac:(lia) Ha) as (Hka & [G1 G2 G3 G4 G5 G6] & Hbs & _). pose proof Hka as [Hoka Hda Hla Htya].
    rewrite Z.ltb_irrefl. eapply safe_weaken; [apply section_tail_safe; try done; [lia|congruence|lia|]|].
    + intros a Ha'. rewrite G4 by lia. done.
    + intros [r s'] ([Hok' _ _ Hty'] & Hm' & Hres). split_and!; [done| |].
      * intros a Hna. assert (type_at (memmap sa) a ≠ Some MEMMAP_USABLE) by (by rewrite Htya). split; [by rewrite Hty', Htya|]. intros _. rewrite Hm'; [by apply G6|done|]. intros ?. apply Hna, G3. lia.
      * intros b' ->. destruct Hres as [|([= ->] & st & ras & H1' & H2' & H3')]; [done|]. exists h, strtab, section, st, ras. split_and!; try done; [lia|]. intros i Hi. split; [|by apply H3']. rewrite Hty'; by rewrite G4 by lia.
  - cbn [mbind out_bind]. destruct (Z.ltb_spec limit (sh_size section)); [exact Hnone|]. specialize (Hbuf Hl0).
    eapply safe_weaken; [apply section_tail_safe; try done; [lia|lia|]|].
    + intros a Ha'. apply Hbuf. lia.
    + intros [r s'] ([Hok' _ _ Hty'] & Hm' & Hres). split_and!; [done| |].
      * intros a Hna. split; [by apply Hty'|]. intros [?|Hout]; [done|]. apply Hm'; [done|lia].
      * intros b' ->. destruct Hres as [|([= ->] & st & ras & H1' & H2' & H3')]; [done|]. exists h, strtab, section, st, ras. split_and!; try done; [lia|]. intros i Hi. split; [|by apply H3']. rewrite Hty'; apply Hbuf; lia.
Qed.
End file.
