(* ===== verification/ElfTheorems.v ===== *)
(** The properties of the loader of ELF files, and a small kernel. *)
From S2P Require Import Prelude Libc LibcProofs Outcome Pmm PmmAlloc PmmUse Elsewhere ElsewhereProofs Elf ElfTables ElfReloc ElfImage ElfProofs ElfMore.
From stdpp Require Import strings.
Open Scope list_scope.
Open Scope Z_scope.

Lemma count_relr_ok elf o ws count : words_at elf o ws → 0 ≤ count → count + len (relr_addrs 0 ws) ≤ SIZE_MAX → count_relr elf o (length ws) count = Ret (count + len (relr_addrs 0 ws)).
Proof.
  revert o count. induction ws as [|w ws IH]; intros o count Hw Hc Hmax; [cbn [length count_relr relr_addrs]; rewrite len_nil; do 2 f_equal; lia|].
  apply words_at_cons in Hw as (Hf & Hr & Hw). cbn [length count_relr]. rewrite Hf. cbn [mbind out_bind]. set (add := if w mod 2 =? 0 then 1 else popcount 64 w - 1).
  pose proof (len_nonneg (relr_addrs 0 ws)).
  assert (0 ≤ add ∧ len (relr_addrs 0 (w :: ws)) = add + len (relr_addrs 0 ws)) as [Hadd Hlen].
  { unfold add. cbn [relr_addrs]. destruct (Z.eqb_spec (w mod 2) 0).
    - rewrite len_cons, (len_relr_addrs _ 0). lia.
    - rewrite popcount_odd, len_app, len_map_bits, (len_relr_addrs _ 0) by done. rewrite <- (len_map_bits 63 0 (w / 2) 0). pose proof (len_nonneg (map_bits 63 0 (w / 2) 0)). lia. }
  unfold elf64_add_relocation_count. rewrite (proj2 (Z.ltb_ge _ _)) by lia. cbn [mbind out_bind]. rewrite IH; [f_equal; lia|done|lia|lia].
Qed.


(** C38: the same of a kernel that is put together for its place: its range is
    from the lowest to the highest address of its segments, the block holds
    for every address of the range the byte of the last segment that has one,
    or zero, and the entry point is the physical address of the one in the
    file; for both widths of the format. *)
Theorem elf_load_elsewhere_correct A elf max_image_size s :
  is_bytes elf → 64 ≤ len elf < 2 ^ 31 → pmm_ok s → allocations_disallowed s = false → len (memmap s) + 9 < memmap_max_entries →
  safe (elf32_load_elsewhere elf max_image_size s) (elsewhere_result elf 32 max_image_size (λ h, table_entry elf32_phdr elf (phoff h) (phdr_size h)) (elf32_hdr elf) s) ∧
  safe (elf64_load_elsewhere A elf max_image_size s) (elsewhere_result elf 64 max_image_size (phdr64 elf) (elf64_hdr elf) s).
Proof. intros Hb Hl Hp Hd Hroom. split; [by apply elf32_load_elsewhere_ok|by apply elf64_load_elsewhere_ok]. Qed.


(** C40: packed relative relocations: any list of even addresses, packed as a
    linker does into no more words than there are addresses, is counted and
    decoded to itself. *)
Theorem relr_roundtrip elf o addrs :
  Forall (λ a, is_word 64 a ∧ a mod 2 = 0) addrs → len addrs < 2 ^ 63 → words_at elf o (relr_pack addrs) →
  count_relr elf o (length (relr_pack addrs)) 0 = Ret (len addrs) ∧
  decode_relr elf o (length (relr_pack addrs)) (len addrs) 0 [] = Ret addrs ∧
  (length (relr_pack addrs) ≤ length addrs)%nat.
Proof.
  intros Ha Hl Hw. destruct (pack_relr_ok (length addrs) addrs 0 ltac:(lia) Ha) as (H1 & _ & H3). fold (relr_pack addrs) in H1, H3.
  split_and!; [|rewrite (decode_relr_ok elf o _ (len addrs) 0 [] Hw); rewrite H1; [done|rewrite len_nil; lia]|done]. rewrite count_relr_ok; rewrite ?H1; [done|done|lia|unfold SIZE_MAX; lia].
Qed.

(** ** A small kernel

    Its one segment is the whole file and eight bytes more; the dynamic table
    is at 176, its relocation at 240, what that relocates, a section of its own,
    at 264. *)
Definition kernel_base : Z := 0xffffffff80000000.
Definition section_name : list Z := [46; 114; 0].
Definition sample : list Z :=
  [127; 69; 76; 70; 2; 1; 1; 0; 0; 0; 0; 0; 0; 0; 0; 0] ++ le_bytes 2 3 ++ le_bytes 2 0x3e ++ le_bytes 4 1 ++ le_bytes 8 (kernel_base + 16) ++ le_bytes 8 64 ++ le_bytes 8 280 ++ le_bytes 4 0 ++
  le_bytes 2 64 ++ le_bytes 2 56 ++ le_bytes 2 2 ++ le_bytes 2 64 ++ le_bytes 2 2 ++ le_bytes 2 0 ++
  le_bytes 4 1 ++ le_bytes 4 6 ++ le_bytes 8 0 ++ le_bytes 8 kernel_base ++ le_bytes 8 0x200000 ++ le_bytes 8 272 ++ le_bytes 8 280 ++ le_bytes 8 4096 ++
  le_bytes 4 2 ++ le_bytes 4 6 ++ le_bytes 8 176 ++ le_bytes 8 (kernel_base + 176) ++ le_bytes 8 0 ++ le_bytes 8 64 ++ le_bytes 8 64 ++ le_bytes 8 8 ++
  le_bytes 8 DT_RELA ++ le_bytes 8 (kernel_base + 240) ++ le_bytes 8 DT_RELASZ ++ le_bytes 8 24 ++ le_bytes 8 DT_RELAENT ++ le_bytes 8 24 ++ le_bytes 16 0 ++
  le_bytes 8 (kernel_base + 264) ++ le_bytes 4 8 ++ le_bytes 4 0 ++ le_bytes 8 (kernel_base + 16) ++ le_bytes 8 0 ++
  section_name ++ le_bytes 5 0 ++
  le_bytes 4 2 ++ le_bytes 4 3 ++ le_bytes 8 0 ++ le_bytes 8 0 ++ le_bytes 8 272 ++ le_bytes 8 8 ++ le_bytes 24 0 ++
  le_bytes 4 0 ++ le_bytes 4 1 ++ le_bytes 8 0 ++ le_bytes 8 (kernel_base + 264) ++ le_bytes 8 264 ++ le_bytes 8 8 ++ le_bytes 24 0.

Lemma sample_ok : is_bytes sample ∧ 64 ≤ len sample < 2 ^ 31.
Proof. split; [|by vm_compute]. apply Forall_forall. intros x Hx. assert (forallb (λ x, (0 <=? x) && (x <? 256)) sample = true) as Hall by (vm_compute; done).
  rewrite forallb_forall in Hall. apply list_elem_of_In in Hx. specialize (Hall x Hx). apply andb_true_iff in Hall as [?%Z.leb_le ?%Z.ltb_lt]. unfold is_word. lia. Qed.



Lemma elf_load_elsewhere_correct_witness : ∃ r, safe (elf64_load_elsewhere x86_64 sample 0xffffffff small_state) (elsewhere_result sample 64 0xffffffff (phdr64 sample) (elf64_hdr sample) small_state) ∧
  match elf64_load_elsewhere x86_64 sample 0xffffffff small_state with Ret (e, r', _, _) => (e, r') = (0x200010, r) | _ => False end ∧ target r = 0x200000 ∧ r_length r = 280.
Proof.
  exists (ER 0x4ff000 0x200000 280). destruct sample_ok as [Hb Hl].
  split; [exact (proj2 (elf_load_elsewhere_correct x86_64 sample 0xffffffff small_state Hb Hl (rm_ok _ small_room) eq_refl ltac:(by vm_compute)))|].
  split; [|done].
  assert (match elf64_load_elsewhere x86_64 sample 0xffffffff small_state with Ret (e, r', _, _) => Some (e, r') | _ => None end = Some (0x200010, ER 0x4ff000 0x200000 280)) as Hc by (vm_compute; done).
  destruct (elf64_load_elsewhere _ _ _ _) as [[[[e r'] rr] s']| |]; [by injection Hc as -> ->|done|done].
Defined.


(** Three words in a row, and one far off. *)
Definition some_addrs : list Z := [0x1000; 0x1008; 0x1018; 0x9000].
Definition some_words : list Z := le_bytes 8 0x1000 ++ le_bytes 8 11 ++ le_bytes 8 0x9000.

Lemma relr_roundtrip_witness : count_relr some_words 0 3 0 = Ret 4 ∧ decode_relr some_words 0 3 4 0 [] = Ret some_addrs.
Proof.
  assert (relr_pack some_addrs = [0x1000; 11; 0x9000]) as Hp by (vm_compute; done).
  assert (Forall (λ a, is_word 64 a ∧ a mod 2 = 0) some_addrs) as Ha by (repeat constructor; done).
  assert (words_at some_words 0 (relr_pack some_addrs)) as Hw.
  { rewrite Hp. intros [|[|[|k]]] w Hk; [injection Hk as <-; split; [by vm_compute|lia]..|discriminate Hk]. }
  destruct (relr_roundtrip some_words 0 some_addrs Ha ltac:(by vm_compute) Hw) as (H1 & H2 & _). rewrite Hp in H1, H2. by split.
Defined.
